(** * libavcodec/mpegvideo_dec.c: frame-buffer roles, thread-context
      synchronisation, lowres edge tests and block reconstruction.

    A shallow embedding of the decoder-side functions of
    [libavcodec/mpegvideo_dec.c].  C [int]s are [Z]; pointers are addresses
    in [Z] with [NULL = 0]; the picture pool [s->picture] is a base address
    together with the array it points to; code that returns early, asserts
    or dereferences is written in a small state monad with early return.

    Functions of other files ([ff_mpeg_unref_picture], [ff_alloc_picture],
    [ff_find_unused_picture], ...) are not part of this file: they are the
    fields of the class [Externals], and every theorem holds for all of
    them unless it names an assumption. *)

From Stdlib Require Import ZArith Lia Bool.
From stdpp Require Import base tactics option list.

Local Open Scope Z_scope.

(** ** Integers *)

Definition INT_MAX : Z := 2147483647.
Definition INT_MIN : Z := -2147483648.

(** Signed arithmetic on coordinates, strides and sizes is computed in
    [Z]: the values a decoder can hold keep it within [int].  A conversion
    to [unsigned] wraps: [(unsigned) z] for an [int] [z]. *)
Definition to_unsigned (z : Z) : Z := z mod 2 ^ 32.

(** The value an [unsigned] takes when it is stored in an [int]; also the
    value an [int] result takes in the compiled code where it leaves the
    range of [int]: it wraps around.  It is applied where the operands are
    whatever the context holds: to the picture counter, to the motion
    vectors and to the strides of the role pictures. *)
Definition to_int (z : Z) : Z :=
  if to_unsigned z <? 2 ^ 31 then to_unsigned z else to_unsigned z - 2 ^ 32.

Definition in_int (z : Z) : Prop := INT_MIN <= z <= INT_MAX.

(** C truth value of an [int]. *)
Definition truthy (z : Z) : bool := negb (z =? 0).

(** [!z] and [!!z]. *)
Definition lnot (z : Z) : Z := if z =? 0 then 1 else 0.
Definition lnotnot (z : Z) : Z := if z =? 0 then 0 else 1.

Definition FFMAX (a b : Z) : Z := if a >? b then a else b.
Definition FFMIN (a b : Z) : Z := if a >? b then b else a.

(** [AV_CEIL_RSHIFT(a, b)] is [-((-(a)) >> (b))]. *)
Definition AV_CEIL_RSHIFT (a b : Z) : Z := - (Z.shiftr (- a) b).

(** [AVERROR(e)] negates a POSIX error number. *)
Definition EINVAL : Z := 22.
Definition ENOMEM : Z := 12.
Definition AVERROR (e : Z) : Z := - e.

(** ** Enumerations *)

Inductive AVPictureType :=
| AV_PICTURE_TYPE_NONE | AV_PICTURE_TYPE_I | AV_PICTURE_TYPE_P
| AV_PICTURE_TYPE_B | AV_PICTURE_TYPE_S | AV_PICTURE_TYPE_SI
| AV_PICTURE_TYPE_SP | AV_PICTURE_TYPE_BI.

Inductive AVCodecID :=
| AV_CODEC_ID_NONE | AV_CODEC_ID_MPEG1VIDEO | AV_CODEC_ID_MPEG2VIDEO
| AV_CODEC_ID_H261 | AV_CODEC_ID_H263 | AV_CODEC_ID_MPEG4
| AV_CODEC_ID_FLV1 | AV_CODEC_ID_OTHER (id : Z).

Inductive OutputFormat := FMT_MPEG1 | FMT_H261 | FMT_H263 | FMT_MJPEG.

Inductive MVType :=
| MV_TYPE_16X16 | MV_TYPE_8X8 | MV_TYPE_16X8 | MV_TYPE_FIELD | MV_TYPE_DMV.

#[global] Instance AVPictureType_eq_dec : EqDecision AVPictureType.
Proof. solve_decision. Defined.
#[global] Instance AVCodecID_eq_dec : EqDecision AVCodecID.
Proof. solve_decision. Defined.
#[global] Instance OutputFormat_eq_dec : EqDecision OutputFormat.
Proof. solve_decision. Defined.
#[global] Instance MVType_eq_dec : EqDecision MVType.
Proof. solve_decision. Defined.

(** Picture structure, [s->picture_structure]. *)
Definition PICT_TOP_FIELD : Z := 1.
Definition PICT_BOTTOM_FIELD : Z := 2.
Definition PICT_FRAME : Z := 3.

(** ** Structures *)

(** Field update: [set_field eta r p v] is the record [eta r] with the
    projection [p r] replaced by [v]. *)
Ltac set_field eta r p v :=
  let e := eval cbv beta delta [eta] in (eta r) in
  match eval pattern (p r) in e with
  | ?g _ => let t := eval cbv beta in (g v) in exact t
  end.

Module Frame.
(** [AVFrame]: the members this file touches. *)
Record t := {
  buf0 : Z;                  (* buf[0], 0 when the frame owns no buffer *)
  data : list Z;             (* data[]: plane base addresses *)
  linesize : list Z;         (* linesize[] *)
  width : Z;
  height : Z;
  format : Z;
  key_frame : Z;
  pict_type : AVPictureType;
  coded_picture_number : Z;
  top_field_first : Z;
  interlaced_frame : Z;
}.
Definition eta (r : t) : t :=
  {| buf0 := buf0 r; data := data r; linesize := linesize r;
     width := width r; height := height r; format := format r;
     key_frame := key_frame r; pict_type := pict_type r;
     coded_picture_number := coded_picture_number r;
     top_field_first := top_field_first r;
     interlaced_frame := interlaced_frame r |}.
Definition set_data (v : list Z) (r : t) : t := ltac:(set_field eta r data v).
Definition set_linesize (v : list Z) (r : t) : t := ltac:(set_field eta r linesize v).
Definition set_key_frame (v : Z) (r : t) : t := ltac:(set_field eta r key_frame v).
Definition set_pict_type (v : AVPictureType) (r : t) : t := ltac:(set_field eta r pict_type v).
Definition set_coded_picture_number (v : Z) (r : t) : t :=
  ltac:(set_field eta r coded_picture_number v).
Definition set_top_field_first (v : Z) (r : t) : t := ltac:(set_field eta r top_field_first v).
Definition set_interlaced_frame (v : Z) (r : t) : t := ltac:(set_field eta r interlaced_frame v).
Definition zero : t :=
  {| buf0 := 0; data := []; linesize := []; width := 0; height := 0;
     format := 0; key_frame := 0; pict_type := AV_PICTURE_TYPE_NONE;
     coded_picture_number := 0; top_field_first := 0;
     interlaced_frame := 0 |}.
End Frame.

Module Pic.
(** [Picture] (mpegpicture.h).  [f] is the frame behind the pointer
    [pic->f]; [f_set] is false when that pointer is NULL.  [progress0]
    and [progress1] are the two decode-progress counters of [pic->tf]. *)
Record t := {
  f : Frame.t;
  f_set : bool;
  progress0 : Z;
  progress1 : Z;
  field_picture : Z;
  needs_realloc : Z;
  reference : Z;
  shared : Z;
}.
Definition eta (r : t) : t :=
  {| f := f r; f_set := f_set r; progress0 := progress0 r;
     progress1 := progress1 r; field_picture := field_picture r;
     needs_realloc := needs_realloc r; reference := reference r;
     shared := shared r |}.
Definition set_f (v : Frame.t) (r : t) : t := ltac:(set_field eta r f v).
Definition set_progress0 (v : Z) (r : t) : t := ltac:(set_field eta r progress0 v).
Definition set_progress1 (v : Z) (r : t) : t := ltac:(set_field eta r progress1 v).
Definition set_field_picture (v : Z) (r : t) : t := ltac:(set_field eta r field_picture v).
Definition set_needs_realloc (v : Z) (r : t) : t := ltac:(set_field eta r needs_realloc v).
Definition set_reference (v : Z) (r : t) : t := ltac:(set_field eta r reference v).
Definition zero : t :=
  {| f := Frame.zero; f_set := false; progress0 := 0; progress1 := 0;
     field_picture := 0; needs_realloc := 0; reference := 0; shared := 0 |}.
End Pic.

Abbreviation Picture := Pic.t.

Module Avctx.
(** [AVCodecContext].  [addr] is the address of the object (what
    [dst == src] compares). *)
Record t := {
  addr : Z;
  hwaccel : Z;
  width : Z;
  height : Z;
  pix_fmt : Z;
  debug : Z;
  lowres : Z;
  flags : Z;
}.
Definition zero : t :=
  {| addr := 0; hwaccel := 0; width := 0; height := 0; pix_fmt := 0;
     debug := 0; lowres := 0; flags := 0 |}.
End Avctx.

Abbreviation AVCodecContext := Avctx.t.

(** [ParseContext], reset by [ff_mpeg_flush] under [FF_API_FLAG_TRUNCATED]. *)
Record ParseContext := {
  pc_state : Z;
  pc_frame_start_found : Z;
  pc_overread : Z;
  pc_overread_index : Z;
  pc_index : Z;
  pc_last_index : Z;
}.

Definition ParseContext_zero : ParseContext :=
  {| pc_state := 0; pc_frame_start_found := 0; pc_overread := 0;
     pc_overread_index := 0; pc_index := 0; pc_last_index := 0 |}.

(** [ScratchpadContext] (mpegpicture.h). *)
Record ScratchpadContext := {
  edge_emu_buffer : Z;
  rd_scratchpad : Z;
  obmc_scratchpad : Z;
  b_scratchpad : Z;
}.

Definition ScratchpadContext_zero : ScratchpadContext :=
  {| edge_emu_buffer := 0; rd_scratchpad := 0; obmc_scratchpad := 0;
     b_scratchpad := 0 |}.

(** [MpegEncContext] (mpegvideo.h): the members read or written by the
    functions of this file.  [self] is the address of the context itself;
    it is what [s != s1] compares and what [thread_context[0] = s] stores,
    and it is not part of the bytes a [memcpy] or [memset] of the
    structure moves. *)
Record MpegEncContext := {
  self : Z;  (* address of this context *)
  avctx : AVCodecContext;  (* the codec context behind s->avctx *)
  private_ctx : Z;
  width : Z;
  height : Z;
  codec_id : AVCodecID;
  workaround_bugs : Z;
  context_initialized : Z;
  context_reinit : Z;
  bitstream_buffer : Z;
  bitstream_data : list Z;  (* bytes behind bitstream_buffer *)
  bitstream_buffer_size : Z;
  allocated_bitstream_buffer_size : Z;
  quarter_sample : Z;
  coded_picture_number : Z;
  picture_number : Z;
  picture : Z;  (* base address of the pool, NULL before init *)
  pool : list Picture;  (* the array s->picture points to *)
  current_picture : Picture;
  last_picture : Picture;
  next_picture : Picture;
  last_picture_ptr : Z;
  current_picture_ptr : Z;
  next_picture_ptr : Z;
  padding_bug_score : Z;
  last_time_base : Z;
  time_base : Z;
  time : Z;
  last_non_b_time : Z;
  pp_time : Z;
  pb_time : Z;
  pp_field_time : Z;
  pb_field_time : Z;
  max_b_frames : Z;
  low_delay : Z;
  droppable : Z;
  divx_packed : Z;
  me : Z;  (* motion-estimation scratch, opaque here *)
  sc : ScratchpadContext;
  linesize : Z;
  uvlinesize : Z;
  progressive_sequence : Z;
  picture_structure : Z;
  top_field_first : Z;
  alternate_scan : Z;
  chroma_x_shift : Z;
  chroma_y_shift : Z;
  progressive_frame : Z;
  first_field : Z;
  mb_skipped : Z;
  pict_type : AVPictureType;
  mpeg_quant : Z;
  out_format : OutputFormat;
  dct_unquantize_mpeg1_intra : Z;
  dct_unquantize_mpeg1_inter : Z;
  dct_unquantize_mpeg2_intra : Z;
  dct_unquantize_mpeg2_inter : Z;
  dct_unquantize_h263_intra : Z;
  dct_unquantize_h263_inter : Z;
  dct_unquantize_intra : Z;
  dct_unquantize_inter : Z;
  mb_x : Z;
  mb_y : Z;
  mb_width : Z;
  mb_height : Z;
  mb_stride : Z;
  b8_stride : Z;
  h_edge_pos : Z;
  v_edge_pos : Z;
  mcsel : Z;
  mv_type : MVType;
  mv : Z -> Z -> Z -> Z;  (* mv[dir][i][c] *)
  block_last_index : list Z;
  parse_context : ParseContext;
  thread_context : list Z;  (* addresses of the slice contexts *)
}.

Definition MpegEncContext_eta (r : MpegEncContext) : MpegEncContext :=
  {| self := self r;
     avctx := avctx r;
     private_ctx := private_ctx r;
     width := width r;
     height := height r;
     codec_id := codec_id r;
     workaround_bugs := workaround_bugs r;
     context_initialized := context_initialized r;
     context_reinit := context_reinit r;
     bitstream_buffer := bitstream_buffer r;
     bitstream_data := bitstream_data r;
     bitstream_buffer_size := bitstream_buffer_size r;
     allocated_bitstream_buffer_size := allocated_bitstream_buffer_size r;
     quarter_sample := quarter_sample r;
     coded_picture_number := coded_picture_number r;
     picture_number := picture_number r;
     picture := picture r;
     pool := pool r;
     current_picture := current_picture r;
     last_picture := last_picture r;
     next_picture := next_picture r;
     last_picture_ptr := last_picture_ptr r;
     current_picture_ptr := current_picture_ptr r;
     next_picture_ptr := next_picture_ptr r;
     padding_bug_score := padding_bug_score r;
     last_time_base := last_time_base r;
     time_base := time_base r;
     time := time r;
     last_non_b_time := last_non_b_time r;
     pp_time := pp_time r;
     pb_time := pb_time r;
     pp_field_time := pp_field_time r;
     pb_field_time := pb_field_time r;
     max_b_frames := max_b_frames r;
     low_delay := low_delay r;
     droppable := droppable r;
     divx_packed := divx_packed r;
     me := me r;
     sc := sc r;
     linesize := linesize r;
     uvlinesize := uvlinesize r;
     progressive_sequence := progressive_sequence r;
     picture_structure := picture_structure r;
     top_field_first := top_field_first r;
     alternate_scan := alternate_scan r;
     chroma_x_shift := chroma_x_shift r;
     chroma_y_shift := chroma_y_shift r;
     progressive_frame := progressive_frame r;
     first_field := first_field r;
     mb_skipped := mb_skipped r;
     pict_type := pict_type r;
     mpeg_quant := mpeg_quant r;
     out_format := out_format r;
     dct_unquantize_mpeg1_intra := dct_unquantize_mpeg1_intra r;
     dct_unquantize_mpeg1_inter := dct_unquantize_mpeg1_inter r;
     dct_unquantize_mpeg2_intra := dct_unquantize_mpeg2_intra r;
     dct_unquantize_mpeg2_inter := dct_unquantize_mpeg2_inter r;
     dct_unquantize_h263_intra := dct_unquantize_h263_intra r;
     dct_unquantize_h263_inter := dct_unquantize_h263_inter r;
     dct_unquantize_intra := dct_unquantize_intra r;
     dct_unquantize_inter := dct_unquantize_inter r;
     mb_x := mb_x r;
     mb_y := mb_y r;
     mb_width := mb_width r;
     mb_height := mb_height r;
     mb_stride := mb_stride r;
     b8_stride := b8_stride r;
     h_edge_pos := h_edge_pos r;
     v_edge_pos := v_edge_pos r;
     mcsel := mcsel r;
     mv_type := mv_type r;
     mv := mv r;
     block_last_index := block_last_index r;
     parse_context := parse_context r;
     thread_context := thread_context r |}.

Definition set_self (v : Z) (r : MpegEncContext) : MpegEncContext :=
  ltac:(set_field MpegEncContext_eta r self v).
Definition set_avctx (v : AVCodecContext) (r : MpegEncContext) : MpegEncContext :=
  ltac:(set_field MpegEncContext_eta r avctx v).
Definition set_private_ctx (v : Z) (r : MpegEncContext) : MpegEncContext :=
  ltac:(set_field MpegEncContext_eta r private_ctx v).
Definition set_width (v : Z) (r : MpegEncContext) : MpegEncContext :=
  ltac:(set_field MpegEncContext_eta r width v).
Definition set_height (v : Z) (r : MpegEncContext) : MpegEncContext :=
  ltac:(set_field MpegEncContext_eta r height v).
Definition set_codec_id (v : AVCodecID) (r : MpegEncContext) : MpegEncContext :=
  ltac:(set_field MpegEncContext_eta r codec_id v).
Definition set_workaround_bugs (v : Z) (r : MpegEncContext) : MpegEncContext :=
  ltac:(set_field MpegEncContext_eta r workaround_bugs v).
Definition set_context_initialized (v : Z) (r : MpegEncContext) : MpegEncContext :=
  ltac:(set_field MpegEncContext_eta r context_initialized v).
Definition set_context_reinit (v : Z) (r : MpegEncContext) : MpegEncContext :=
  ltac:(set_field MpegEncContext_eta r context_reinit v).
Definition set_bitstream_buffer (v : Z) (r : MpegEncContext) : MpegEncContext :=
  ltac:(set_field MpegEncContext_eta r bitstream_buffer v).
Definition set_bitstream_data (v : list Z) (r : MpegEncContext) : MpegEncContext :=
  ltac:(set_field MpegEncContext_eta r bitstream_data v).
Definition set_bitstream_buffer_size (v : Z) (r : MpegEncContext) : MpegEncContext :=
  ltac:(set_field MpegEncContext_eta r bitstream_buffer_size v).
Definition set_allocated_bitstream_buffer_size (v : Z) (r : MpegEncContext) : MpegEncContext :=
  ltac:(set_field MpegEncContext_eta r allocated_bitstream_buffer_size v).
Definition set_quarter_sample (v : Z) (r : MpegEncContext) : MpegEncContext :=
  ltac:(set_field MpegEncContext_eta r quarter_sample v).
Definition set_coded_picture_number (v : Z) (r : MpegEncContext) : MpegEncContext :=
  ltac:(set_field MpegEncContext_eta r coded_picture_number v).
Definition set_picture_number (v : Z) (r : MpegEncContext) : MpegEncContext :=
  ltac:(set_field MpegEncContext_eta r picture_number v).
Definition set_picture (v : Z) (r : MpegEncContext) : MpegEncContext :=
  ltac:(set_field MpegEncContext_eta r picture v).
Definition set_pool (v : list Picture) (r : MpegEncContext) : MpegEncContext :=
  ltac:(set_field MpegEncContext_eta r pool v).
Definition set_current_picture (v : Picture) (r : MpegEncContext) : MpegEncContext :=
  ltac:(set_field MpegEncContext_eta r current_picture v).
Definition set_last_picture (v : Picture) (r : MpegEncContext) : MpegEncContext :=
  ltac:(set_field MpegEncContext_eta r last_picture v).
Definition set_next_picture (v : Picture) (r : MpegEncContext) : MpegEncContext :=
  ltac:(set_field MpegEncContext_eta r next_picture v).
Definition set_last_picture_ptr (v : Z) (r : MpegEncContext) : MpegEncContext :=
  ltac:(set_field MpegEncContext_eta r last_picture_ptr v).
Definition set_current_picture_ptr (v : Z) (r : MpegEncContext) : MpegEncContext :=
  ltac:(set_field MpegEncContext_eta r current_picture_ptr v).
Definition set_next_picture_ptr (v : Z) (r : MpegEncContext) : MpegEncContext :=
  ltac:(set_field MpegEncContext_eta r next_picture_ptr v).
Definition set_padding_bug_score (v : Z) (r : MpegEncContext) : MpegEncContext :=
  ltac:(set_field MpegEncContext_eta r padding_bug_score v).
Definition set_last_time_base (v : Z) (r : MpegEncContext) : MpegEncContext :=
  ltac:(set_field MpegEncContext_eta r last_time_base v).
Definition set_time_base (v : Z) (r : MpegEncContext) : MpegEncContext :=
  ltac:(set_field MpegEncContext_eta r time_base v).
Definition set_time (v : Z) (r : MpegEncContext) : MpegEncContext :=
  ltac:(set_field MpegEncContext_eta r time v).
Definition set_last_non_b_time (v : Z) (r : MpegEncContext) : MpegEncContext :=
  ltac:(set_field MpegEncContext_eta r last_non_b_time v).
Definition set_pp_time (v : Z) (r : MpegEncContext) : MpegEncContext :=
  ltac:(set_field MpegEncContext_eta r pp_time v).
Definition set_pb_time (v : Z) (r : MpegEncContext) : MpegEncContext :=
  ltac:(set_field MpegEncContext_eta r pb_time v).
Definition set_pp_field_time (v : Z) (r : MpegEncContext) : MpegEncContext :=
  ltac:(set_field MpegEncContext_eta r pp_field_time v).
Definition set_pb_field_time (v : Z) (r : MpegEncContext) : MpegEncContext :=
  ltac:(set_field MpegEncContext_eta r pb_field_time v).
Definition set_max_b_frames (v : Z) (r : MpegEncContext) : MpegEncContext :=
  ltac:(set_field MpegEncContext_eta r max_b_frames v).
Definition set_low_delay (v : Z) (r : MpegEncContext) : MpegEncContext :=
  ltac:(set_field MpegEncContext_eta r low_delay v).
Definition set_droppable (v : Z) (r : MpegEncContext) : MpegEncContext :=
  ltac:(set_field MpegEncContext_eta r droppable v).
Definition set_divx_packed (v : Z) (r : MpegEncContext) : MpegEncContext :=
  ltac:(set_field MpegEncContext_eta r divx_packed v).
Definition set_me (v : Z) (r : MpegEncContext) : MpegEncContext :=
  ltac:(set_field MpegEncContext_eta r me v).
Definition set_sc (v : ScratchpadContext) (r : MpegEncContext) : MpegEncContext :=
  ltac:(set_field MpegEncContext_eta r sc v).
Definition set_linesize (v : Z) (r : MpegEncContext) : MpegEncContext :=
  ltac:(set_field MpegEncContext_eta r linesize v).
Definition set_uvlinesize (v : Z) (r : MpegEncContext) : MpegEncContext :=
  ltac:(set_field MpegEncContext_eta r uvlinesize v).
Definition set_progressive_sequence (v : Z) (r : MpegEncContext) : MpegEncContext :=
  ltac:(set_field MpegEncContext_eta r progressive_sequence v).
Definition set_picture_structure (v : Z) (r : MpegEncContext) : MpegEncContext :=
  ltac:(set_field MpegEncContext_eta r picture_structure v).
Definition set_top_field_first (v : Z) (r : MpegEncContext) : MpegEncContext :=
  ltac:(set_field MpegEncContext_eta r top_field_first v).
Definition set_alternate_scan (v : Z) (r : MpegEncContext) : MpegEncContext :=
  ltac:(set_field MpegEncContext_eta r alternate_scan v).
Definition set_chroma_x_shift (v : Z) (r : MpegEncContext) : MpegEncContext :=
  ltac:(set_field MpegEncContext_eta r chroma_x_shift v).
Definition set_chroma_y_shift (v : Z) (r : MpegEncContext) : MpegEncContext :=
  ltac:(set_field MpegEncContext_eta r chroma_y_shift v).
Definition set_progressive_frame (v : Z) (r : MpegEncContext) : MpegEncContext :=
  ltac:(set_field MpegEncContext_eta r progressive_frame v).
Definition set_first_field (v : Z) (r : MpegEncContext) : MpegEncContext :=
  ltac:(set_field MpegEncContext_eta r first_field v).
Definition set_mb_skipped (v : Z) (r : MpegEncContext) : MpegEncContext :=
  ltac:(set_field MpegEncContext_eta r mb_skipped v).
Definition set_pict_type (v : AVPictureType) (r : MpegEncContext) : MpegEncContext :=
  ltac:(set_field MpegEncContext_eta r pict_type v).
Definition set_mpeg_quant (v : Z) (r : MpegEncContext) : MpegEncContext :=
  ltac:(set_field MpegEncContext_eta r mpeg_quant v).
Definition set_out_format (v : OutputFormat) (r : MpegEncContext) : MpegEncContext :=
  ltac:(set_field MpegEncContext_eta r out_format v).
Definition set_dct_unquantize_mpeg1_intra (v : Z) (r : MpegEncContext) : MpegEncContext :=
  ltac:(set_field MpegEncContext_eta r dct_unquantize_mpeg1_intra v).
Definition set_dct_unquantize_mpeg1_inter (v : Z) (r : MpegEncContext) : MpegEncContext :=
  ltac:(set_field MpegEncContext_eta r dct_unquantize_mpeg1_inter v).
Definition set_dct_unquantize_mpeg2_intra (v : Z) (r : MpegEncContext) : MpegEncContext :=
  ltac:(set_field MpegEncContext_eta r dct_unquantize_mpeg2_intra v).
Definition set_dct_unquantize_mpeg2_inter (v : Z) (r : MpegEncContext) : MpegEncContext :=
  ltac:(set_field MpegEncContext_eta r dct_unquantize_mpeg2_inter v).
Definition set_dct_unquantize_h263_intra (v : Z) (r : MpegEncContext) : MpegEncContext :=
  ltac:(set_field MpegEncContext_eta r dct_unquantize_h263_intra v).
Definition set_dct_unquantize_h263_inter (v : Z) (r : MpegEncContext) : MpegEncContext :=
  ltac:(set_field MpegEncContext_eta r dct_unquantize_h263_inter v).
Definition set_dct_unquantize_intra (v : Z) (r : MpegEncContext) : MpegEncContext :=
  ltac:(set_field MpegEncContext_eta r dct_unquantize_intra v).
Definition set_dct_unquantize_inter (v : Z) (r : MpegEncContext) : MpegEncContext :=
  ltac:(set_field MpegEncContext_eta r dct_unquantize_inter v).
Definition set_mb_x (v : Z) (r : MpegEncContext) : MpegEncContext :=
  ltac:(set_field MpegEncContext_eta r mb_x v).
Definition set_mb_y (v : Z) (r : MpegEncContext) : MpegEncContext :=
  ltac:(set_field MpegEncContext_eta r mb_y v).
Definition set_mb_width (v : Z) (r : MpegEncContext) : MpegEncContext :=
  ltac:(set_field MpegEncContext_eta r mb_width v).
Definition set_mb_height (v : Z) (r : MpegEncContext) : MpegEncContext :=
  ltac:(set_field MpegEncContext_eta r mb_height v).
Definition set_mb_stride (v : Z) (r : MpegEncContext) : MpegEncContext :=
  ltac:(set_field MpegEncContext_eta r mb_stride v).
Definition set_b8_stride (v : Z) (r : MpegEncContext) : MpegEncContext :=
  ltac:(set_field MpegEncContext_eta r b8_stride v).
Definition set_h_edge_pos (v : Z) (r : MpegEncContext) : MpegEncContext :=
  ltac:(set_field MpegEncContext_eta r h_edge_pos v).
Definition set_v_edge_pos (v : Z) (r : MpegEncContext) : MpegEncContext :=
  ltac:(set_field MpegEncContext_eta r v_edge_pos v).
Definition set_mcsel (v : Z) (r : MpegEncContext) : MpegEncContext :=
  ltac:(set_field MpegEncContext_eta r mcsel v).
Definition set_mv_type (v : MVType) (r : MpegEncContext) : MpegEncContext :=
  ltac:(set_field MpegEncContext_eta r mv_type v).
Definition set_mv (v : Z -> Z -> Z -> Z) (r : MpegEncContext) : MpegEncContext :=
  ltac:(set_field MpegEncContext_eta r mv v).
Definition set_block_last_index (v : list Z) (r : MpegEncContext) : MpegEncContext :=
  ltac:(set_field MpegEncContext_eta r block_last_index v).
Definition set_parse_context (v : ParseContext) (r : MpegEncContext) : MpegEncContext :=
  ltac:(set_field MpegEncContext_eta r parse_context v).
Definition set_thread_context (v : list Z) (r : MpegEncContext) : MpegEncContext :=
  ltac:(set_field MpegEncContext_eta r thread_context v).

(** The context at address [a] after [memset] has zeroed the whole
    structure. *)
Definition MpegEncContext_zero (a : Z) : MpegEncContext :=
  {| self := a;
     avctx := Avctx.zero;
     private_ctx := 0;
     width := 0;
     height := 0;
     codec_id := AV_CODEC_ID_NONE;
     workaround_bugs := 0;
     context_initialized := 0;
     context_reinit := 0;
     bitstream_buffer := 0;
     bitstream_data := [];
     bitstream_buffer_size := 0;
     allocated_bitstream_buffer_size := 0;
     quarter_sample := 0;
     coded_picture_number := 0;
     picture_number := 0;
     picture := 0;
     pool := [];
     current_picture := Pic.zero;
     last_picture := Pic.zero;
     next_picture := Pic.zero;
     last_picture_ptr := 0;
     current_picture_ptr := 0;
     next_picture_ptr := 0;
     padding_bug_score := 0;
     last_time_base := 0;
     time_base := 0;
     time := 0;
     last_non_b_time := 0;
     pp_time := 0;
     pb_time := 0;
     pp_field_time := 0;
     pb_field_time := 0;
     max_b_frames := 0;
     low_delay := 0;
     droppable := 0;
     divx_packed := 0;
     me := 0;
     sc := ScratchpadContext_zero;
     linesize := 0;
     uvlinesize := 0;
     progressive_sequence := 0;
     picture_structure := 0;
     top_field_first := 0;
     alternate_scan := 0;
     chroma_x_shift := 0;
     chroma_y_shift := 0;
     progressive_frame := 0;
     first_field := 0;
     mb_skipped := 0;
     pict_type := AV_PICTURE_TYPE_NONE;
     mpeg_quant := 0;
     out_format := FMT_MPEG1;
     dct_unquantize_mpeg1_intra := 0;
     dct_unquantize_mpeg1_inter := 0;
     dct_unquantize_mpeg2_intra := 0;
     dct_unquantize_mpeg2_inter := 0;
     dct_unquantize_h263_intra := 0;
     dct_unquantize_h263_inter := 0;
     dct_unquantize_intra := 0;
     dct_unquantize_inter := 0;
     mb_x := 0;
     mb_y := 0;
     mb_width := 0;
     mb_height := 0;
     mb_stride := 0;
     b8_stride := 0;
     h_edge_pos := 0;
     v_edge_pos := 0;
     mcsel := 0;
     mv_type := MV_TYPE_16X16;
     mv := (fun _ _ _ => 0);
     block_last_index := [];
     parse_context := ParseContext_zero;
     thread_context := [] |}.

(** ** Sample memory *)

(** Bytes at addresses; the planes of every frame live here. *)
Definition memory := Z -> Z.

Definition memset (p c n : Z) (m : memory) : memory :=
  fun a => if decide (p <= a < p + n) then c else m a.

(** ** Functions and constants of other files *)

(** What [ff_alloc_picture] hands back through its pointer arguments. *)
Record AllocPictureResult := {
  ap_ret : Z;
  ap_pic : Picture;
  ap_me : Z;
  ap_sc : ScratchpadContext;
  ap_linesize : Z;
  ap_uvlinesize : Z;
}.

(** The macros and functions this file uses and other files define
    (mpegpicture.c, mpegvideo.c, thread.h, libavutil).  Each takes the
    values its C counterpart can read and returns the ones it can write. *)
Class Externals := {
  MAX_PICTURE_COUNT : nat;
  sizeof_Picture : Z;
  AV_INPUT_BUFFER_PADDING_SIZE : Z;
  CONFIG_GRAY : bool;
  FF_API_FLAG_TRUNCATED : bool;
  FF_DEBUG_NOMC : Z;
  AV_CODEC_FLAG_GRAY : Z;
  FF_BUG_IEDGE : Z;
  ff_thread_can_start_frame : AVCodecContext -> Z;
  ff_mpeg_unref_picture : AVCodecContext -> Picture -> Picture;
  (* (avctx, dst, src) gives the return value and the new dst *)
  ff_mpeg_ref_picture : AVCodecContext -> Picture -> Picture -> Z * Picture;
  ff_update_picture_tables : Picture -> Picture -> Z * Picture;
  (* (avctx, picture[], shared) gives the index and the array afterwards *)
  ff_find_unused_picture : AVCodecContext -> list Picture -> Z -> Z * list Picture;
  ff_alloc_picture :
    AVCodecContext -> Picture -> Z -> ScratchpadContext -> Z -> Z ->
    Z -> Z -> OutputFormat -> Z -> Z -> Z -> Z -> Z -> Z -> AllocPictureResult;
  (* pix_fmt gives (return value, h_shift, v_shift) *)
  av_pix_fmt_get_chroma_sub_sample : Z -> Z * (Z * Z);
  av_image_check_size : Z -> Z -> Z -> AVCodecContext -> Z;
  ff_mpv_idct_init : MpegEncContext -> MpegEncContext;
  ff_mpv_common_init : MpegEncContext -> Z * MpegEncContext;
  ff_mpv_free_context_frame : MpegEncContext -> MpegEncContext;
  ff_mpv_init_context_frame : MpegEncContext -> Z * MpegEncContext;
  ff_mpv_init_duplicate_contexts : MpegEncContext -> Z * MpegEncContext;
  (* (ptr, size, min_size) gives the new (ptr, size) *)
  av_fast_malloc : Z -> Z -> Z -> Z * Z;
  (* (avctx, me, sc, linesize) gives (return value, me, sc) *)
  ff_mpeg_framesize_alloc :
    AVCodecContext -> Z -> ScratchpadContext -> Z -> Z * (Z * ScratchpadContext);
  (* s->idsp.idct_add (dest, line_size, block), as set up by ff_mpv_idct_init *)
  idct_add : Z -> Z -> list Z -> memory -> memory;
}.

(** Modelled from the spec: [ff_thread_report_progress] lives in
    pthread_frame.c, which is not part of this file.  The spec's
    decode-progress counter is one that "a writer advances monotonically",
    that "never decreases" and for which "fully done is idempotent to
    re-publish": reporting [n] for a field raises that field's counter to
    [n] unless it is already there. *)
Definition ff_thread_report_progress (p : Picture) (n field : Z) : Picture :=
  if field =? 0
  then Pic.set_progress0 (Z.max (Pic.progress0 p) n) p
  else Pic.set_progress1 (Z.max (Pic.progress1 p) n) p.

(** Modelled from the spec: [av_clip] is libavutil's clipping function,
    "clipped to the range" [amin .. amax]. *)
Definition av_clip (a amin amax : Z) : Z :=
  if a <? amin then amin else if a >? amax then amax else a.

(** ** The state monad of the C functions *)

(** The decoder context a function works on, and sample memory. *)
Record World := { ctx : MpegEncContext; mem : memory }.

(** How a statement ends: it falls through with a value, the function
    returns [r], an [av_assert0] aborts the process, or the statement has
    no defined behaviour (a dereference of something that is no object). *)
Inductive step (A : Type) :=
| Next (a : A)
| Return (r : Z)
| Abort
| Undefined.
Arguments Next {A} a.
Arguments Return {A} r.
Arguments Abort {A}.
Arguments Undefined {A}.

Definition M (A : Type) : Type := World -> step A * World.

#[global] Instance M_ret : MRet M := fun A a w => (Next a, w).

#[global] Instance M_bind : MBind M := fun A B k m w =>
  match m w with
  | (Next a, w') => k a w'
  | (Return r, w') => (Return r, w')
  | (Abort, w') => (Abort, w')
  | (Undefined, w') => (Undefined, w')
  end.

Definition get_ctx : M MpegEncContext := fun w => (Next (ctx w), w).
Definition modify_ctx (g : MpegEncContext -> MpegEncContext) : M unit :=
  fun w => (Next tt, {| ctx := g (ctx w); mem := mem w |}).
Definition modify_mem (g : memory -> memory) : M unit :=
  fun w => (Next tt, {| ctx := ctx w; mem := g (mem w) |}).
Definition return_ {A} (r : Z) : M A := fun w => (Return r, w).
Definition undefined {A} : M A := fun w => (Undefined, w).
Definition av_assert0 (b : bool) : M unit :=
  fun w => if b then (Next tt, w) else (Abort, w).
Definition when_ (b : bool) (m : M unit) : M unit := if b then m else mret tt.

(** [for (x in l) body]. *)
Fixpoint forM_ {A} (l : list A) (body : A -> M unit) : M unit :=
  match l with
  | [] => mret tt
  | x :: l' => body x ;; forM_ l' body
  end.

(** A function body ends by falling through with its return value or by
    an early [return]; [call] is what its caller sees. *)
Definition call (m : M Z) : M Z := fun w =>
  match m w with
  | (Return r, w') => (Next r, w')
  | other => other
  end.

Section Decoder.
Context `{Externals}.

(** ** The picture pool *)

(** [&base[i]] *)
Definition slot_addr (base i : Z) : Z := base + i * sizeof_Picture.

(** The slot a pointer designates, when it is the address of one of the
    [MAX_PICTURE_COUNT] elements of [s->picture]. *)
Definition slot_index (s : MpegEncContext) (p : Z) : option nat :=
  if decide (picture s <> 0 /\ 0 < sizeof_Picture /\
             picture s <= p < picture s + Z.of_nat MAX_PICTURE_COUNT * sizeof_Picture /\
             (p - picture s) mod sizeof_Picture = 0)
  then Some (Z.to_nat ((p - picture s) / sizeof_Picture))
  else None.

(** [*p] for a [Picture *p]. *)
Definition load_pic (p : Z) : M Picture := fun w =>
  match slot_index (ctx w) p ≫= (fun i => pool (ctx w) !! i) with
  | Some pic => (Next pic, w)
  | None => (Undefined, w)
  end.

(** [*p = pic] *)
Definition store_pic (p : Z) (pic : Picture) : M unit := fun w =>
  match slot_index (ctx w) p with
  | Some i =>
      if decide (i < length (pool (ctx w)))%nat
      then (Next tt, {| ctx := set_pool (<[i := pic]> (pool (ctx w))) (ctx w);
                        mem := mem w |})
      else (Undefined, w)
  | None => (Undefined, w)
  end.

Definition update_pic (p : Z) (g : Picture -> Picture) : M unit :=
  pic ← load_pic p; store_pic p (g pic).

(** [p->f->...] update through the frame pointer of a pooled picture. *)
Definition update_frame (p : Z) (g : Frame.t -> Frame.t) : M unit :=
  update_pic p (fun pic => Pic.set_f (g (Pic.f pic)) pic).

(** [ff_mpeg_unref_picture(s->avctx, p)] for a pointer into the pool. *)
Definition unref_at (p : Z) : M unit :=
  s ← get_ctx; update_pic p (ff_mpeg_unref_picture (avctx s)).


(** [ff_mpeg_unref_picture(s->avctx, &s->pic)] for one of the three
    role-owned pictures. *)
Definition unref_roles : M unit :=
  modify_ctx (fun s =>
    set_next_picture (ff_mpeg_unref_picture (avctx s) (next_picture s))
      (set_last_picture (ff_mpeg_unref_picture (avctx s) (last_picture s))
         (set_current_picture
            (ff_mpeg_unref_picture (avctx s) (current_picture s)) s))).

Definition clear_role_ptrs (s : MpegEncContext) : MpegEncContext :=
  set_current_picture_ptr 0 (set_next_picture_ptr 0 (set_last_picture_ptr 0 s)).

(** A function of another file that works on the whole context. *)
Definition extern (g : MpegEncContext -> Z * MpegEncContext) : M Z := fun w =>
  (Next (g (ctx w)).1, {| ctx := (g (ctx w)).2; mem := mem w |}).

(** ** ff_mpv_common_frame_size_change *)

(** The [fail:] label. *)
Definition frame_size_change_fail {A} (err : Z) : M A :=
  modify_ctx ff_mpv_free_context_frame ;;
  modify_ctx (set_context_reinit 1) ;;
  return_ err.

Definition ff_mpv_common_frame_size_change : M Z :=
  s ← get_ctx;
  if negb (truthy (context_initialized s)) then return_ (AVERROR EINVAL) else
  modify_ctx ff_mpv_free_context_frame ;;
  s ← get_ctx;
  when_ (truthy (picture s))
    (forM_ (seq 0 MAX_PICTURE_COUNT) (fun i =>
       update_pic (slot_addr (picture s) (Z.of_nat i)) (Pic.set_needs_realloc 1))) ;;
  modify_ctx clear_role_ptrs ;;
  s ← get_ctx;
  let err := av_image_check_size (width s) (height s) 0 (avctx s) in
  if (truthy (width s) || truthy (height s)) && (err <? 0)
  then frame_size_change_fail err else
  (* set chroma shifts *)
  let '(err, (hs, vs)) := av_pix_fmt_get_chroma_sub_sample (Avctx.pix_fmt (avctx s)) in
  modify_ctx (fun s => set_chroma_y_shift vs (set_chroma_x_shift hs s)) ;;
  if err <? 0 then frame_size_change_fail err else
  err ← extern ff_mpv_init_context_frame;
  if truthy err then frame_size_change_fail err else
  modify_ctx (fun s =>
    set_thread_context (<[0%nat := self s]> (replicate (length (thread_context s)) 0)) s) ;;
  s ← get_ctx;
  err ← (if truthy (width s) && truthy (height s)
         then extern ff_mpv_init_duplicate_contexts else mret 0);
  if err <? 0 then frame_size_change_fail err else
  modify_ctx (set_context_reinit 0) ;;
  mret 0.

(** ** ff_mpeg_update_thread_context *)

(** [memcpy(s, s1, sizeof s)] *)
Definition memcpy_context (s s1 : MpegEncContext) : MpegEncContext :=
  set_self (self s) s1.

(** The members from [last_time_base] to [pb_field_time] (MPEG-4 timing). *)
Definition copy_timing (s1 s : MpegEncContext) : MpegEncContext :=
  set_pb_field_time (pb_field_time s1)
    (set_pp_field_time (pp_field_time s1)
       (set_pb_time (pb_time s1)
          (set_pp_time (pp_time s1)
             (set_last_non_b_time (last_non_b_time s1)
                (set_time (time s1)
                   (set_time_base (time_base s1)
                      (set_last_time_base (last_time_base s1) s))))))).

(** The members from [progressive_sequence] up to [rtp_mode]
    (MPEG-2/interlacing). *)
Definition copy_interlacing (s1 s : MpegEncContext) : MpegEncContext :=
  set_first_field (first_field s1)
    (set_progressive_frame (progressive_frame s1)
       (set_chroma_y_shift (chroma_y_shift s1)
          (set_chroma_x_shift (chroma_x_shift s1)
             (set_alternate_scan (alternate_scan s1)
                (set_top_field_first (top_field_first s1)
                   (set_picture_structure (picture_structure s1)
                      (set_progressive_sequence (progressive_sequence s1) s))))))).

(** [UPDATE_PICTURE(pic)] for the role picture read by [getp] and
    written by [setp]. *)
Definition UPDATE_PICTURE (s1 : MpegEncContext)
    (getp : MpegEncContext -> Picture)
    (setp : Picture -> MpegEncContext -> MpegEncContext) : M unit :=
  modify_ctx (fun s => setp (ff_mpeg_unref_picture (avctx s) (getp s)) s) ;;
  s ← get_ctx;
  let '(ret, p) :=
    if Pic.f_set (getp s1) && truthy (Frame.buf0 (Pic.f (getp s1)))
    then ff_mpeg_ref_picture (avctx s) (getp s) (getp s1)
    else ff_update_picture_tables (getp s) (getp s1) in
  modify_ctx (setp p) ;;
  if ret <? 0 then return_ ret else mret tt.

(** [REBASE_PICTURE(pic, new_ctx, old_ctx)] *)
Definition REBASE_PICTURE (pic : Z) (new_ctx old_ctx : MpegEncContext) : Z :=
  if truthy pic && (picture old_ctx <=? pic) &&
     (pic <? slot_addr (picture old_ctx) (Z.of_nat MAX_PICTURE_COUNT))
  then slot_addr (picture new_ctx) ((pic - picture old_ctx) / sizeof_Picture)
  else 0.

(** The loop over the pool: drop the successor's buffer of every slot and
    take a new reference to the predecessor's. *)
Definition update_pool (s1 : MpegEncContext) : M unit :=
  s ← get_ctx;
  when_ (truthy (picture s))
    (forM_ (seq 0 MAX_PICTURE_COUNT) (fun i =>
       unref_at (slot_addr (picture s) (Z.of_nat i)) ;;
       if truthy (picture s1) then
         match pool s1 !! i with
         | None => undefined
         | Some src_pic =>
             if truthy (Frame.buf0 (Pic.f src_pic)) then
               dst_pic ← load_pic (slot_addr (picture s) (Z.of_nat i));
               let '(ret, p) := ff_mpeg_ref_picture (avctx s) dst_pic src_pic in
               store_pic (slot_addr (picture s) (Z.of_nat i)) p ;;
               if ret <? 0 then return_ ret else mret tt
             else mret tt
         end
       else mret tt)).

(** The rebasing of the three role pointers. *)
Definition rebase_role_ptrs (s1 s : MpegEncContext) : MpegEncContext :=
  let s := set_last_picture_ptr (REBASE_PICTURE (last_picture_ptr s1) s s1) s in
  let s := set_current_picture_ptr (REBASE_PICTURE (current_picture_ptr s1) s s1) s in
  set_next_picture_ptr (REBASE_PICTURE (next_picture_ptr s1) s s1) s.

(** The deep copy of the bitstream staging buffer. *)
Definition update_bitstream_buffer (s1 : MpegEncContext) : M unit :=
  if truthy (bitstream_buffer s1) then
    s ← get_ctx;
    (if to_unsigned (bitstream_buffer_size s1 + AV_INPUT_BUFFER_PADDING_SIZE)
          >? allocated_bitstream_buffer_size s
     then
       let '(ptr, size) :=
         av_fast_malloc (bitstream_buffer s) (allocated_bitstream_buffer_size s)
                        (allocated_bitstream_buffer_size s1) in
       modify_ctx (fun s =>
         set_allocated_bitstream_buffer_size size (set_bitstream_buffer ptr s)) ;;
       if negb (truthy ptr)
       then modify_ctx (set_bitstream_buffer_size 0) ;; return_ (AVERROR ENOMEM)
       else mret tt
     else mret tt) ;;
    modify_ctx (fun s =>
      let n := Z.to_nat (bitstream_buffer_size s1) in
      let pad := Z.to_nat AV_INPUT_BUFFER_PADDING_SIZE in
      set_bitstream_data
        (take n (bitstream_data s1) ++ replicate pad 0
           ++ drop (n + pad) (bitstream_data s))
        (set_bitstream_buffer_size (bitstream_buffer_size s1) s))
  else mret tt.

(** The linesize-dependent scratch buffers. *)
Definition update_scratch_buffers (s1 : MpegEncContext) : M unit :=
  s ← get_ctx;
  if negb (truthy (edge_emu_buffer (sc s))) then
    if truthy (linesize s1) then
      let '(ret, (me', sc')) :=
        ff_mpeg_framesize_alloc (avctx s) (me s) (sc s) (linesize s1) in
      modify_ctx (fun s => set_sc sc' (set_me me' s)) ;;
      if ret <? 0 then return_ (AVERROR ENOMEM) else mret tt
    else mret tt
  else mret tt.

(** Lines 66-89: a successor that was never initialised starts as a copy
    of the predecessor. *)
Definition update_context_init (dst : AVCodecContext) (s1 : MpegEncContext) : M unit :=
  s ← get_ctx;
  av_assert0 (negb (self s =? self s1)) ;;
  (* FIXME can parameters change on I-frames?
     in that case dst may need a reinit *)
  if negb (truthy (context_initialized s)) then
    let private_ctx0 := private_ctx s in
    modify_ctx (fun s => memcpy_context s s1) ;;
    modify_ctx (fun s =>
      set_allocated_bitstream_buffer_size 0
        (set_bitstream_buffer_size 0
           (set_bitstream_data []
              (set_bitstream_buffer 0
                 (set_private_ctx private_ctx0 (set_avctx dst s)))))) ;;
    if truthy (context_initialized s1) then
      modify_ctx ff_mpv_idct_init ;;
      err ← extern ff_mpv_common_init;
      if err <? 0 then
        modify_ctx (fun s =>
          set_private_ctx private_ctx0
            (set_avctx dst (MpegEncContext_zero (self s)))) ;;
        return_ err
      else mret tt
    else mret tt
  else mret tt.

(** Lines 91-101: the frame size and the picture counters. *)
Definition update_frame_size (s1 : MpegEncContext) : M unit :=
  s ← get_ctx;
  (if negb (height s =? height s1) || negb (width s =? width s1)
      || truthy (context_reinit s)
   then
     modify_ctx (fun s => set_width (width s1) (set_height (height s1) s)) ;;
     ret ← call ff_mpv_common_frame_size_change;
     if ret <? 0 then return_ ret else mret tt
   else mret tt) ;;
  modify_ctx (fun s =>
    set_picture_number (picture_number s1)
      (set_coded_picture_number (coded_picture_number s1)
         (set_quarter_sample (quarter_sample s1) s))).

(** Lines 103-125: the pool and the three role-owned pictures. *)
Definition update_pictures (s1 : MpegEncContext) : M unit :=
  s ← get_ctx;
  av_assert0 (negb (truthy (picture s)) || negb (picture s =? picture s1)) ;;
  update_pool s1 ;;
  UPDATE_PICTURE s1 current_picture set_current_picture ;;
  UPDATE_PICTURE s1 last_picture set_last_picture ;;
  UPDATE_PICTURE s1 next_picture set_next_picture.

(** Lines 136-189: the scalar state, the bitstream buffer and the
    scratch buffers. *)
Definition update_tail (s1 : MpegEncContext) : M Z :=
  (* Error/bug resilience *)
  modify_ctx (fun s =>
    set_padding_bug_score (padding_bug_score s1)
      (set_workaround_bugs (workaround_bugs s1) s)) ;;
  (* MPEG-4 timing info *)
  modify_ctx (copy_timing s1) ;;
  (* B-frame info, DivX handling *)
  modify_ctx (fun s =>
    set_divx_packed (divx_packed s1)
      (set_droppable (droppable s1)
         (set_low_delay (low_delay s1)
            (set_max_b_frames (max_b_frames s1) s)))) ;;
  update_bitstream_buffer s1 ;;
  update_scratch_buffers s1 ;;
  (* MPEG-2/interlacing info *)
  modify_ctx (copy_interlacing s1) ;;
  mret 0.

(** [ff_mpeg_update_thread_context(dst, src)].  The world holds
    [s = dst->priv_data]; [s1 = src->priv_data] is only read. *)
Definition ff_mpeg_update_thread_context
    (dst src : AVCodecContext) (s1 : MpegEncContext) : M Z :=
  if Avctx.addr dst =? Avctx.addr src then return_ 0 else
  update_context_init dst s1 ;;
  update_frame_size s1 ;;
  update_pictures s1 ;;
  modify_ctx (rebase_role_ptrs s1) ;;
  update_tail s1.

(** ** ff_mpv_frame_start *)

(** [alloc_picture(s, pic)] *)
Definition alloc_picture (pic : Z) : M Z :=
  s ← get_ctx;
  p ← load_pic pic;
  let r := ff_alloc_picture (avctx s) p (me s) (sc s) 0 0
             (chroma_x_shift s) (chroma_y_shift s) (out_format s)
             (mb_stride s) (mb_width s) (mb_height s) (b8_stride s)
             (linesize s) (uvlinesize s) in
  store_pic pic (ap_pic r) ;;
  modify_ctx (fun s =>
    set_uvlinesize (ap_uvlinesize r)
      (set_linesize (ap_linesize r) (set_sc (ap_sc r) (set_me (ap_me r) s)))) ;;
  mret (ap_ret r).

(** [ff_find_unused_picture(s->avctx, s->picture, 0)] *)
Definition find_unused_picture : M Z :=
  s ← get_ctx;
  let '(idx, pool') := ff_find_unused_picture (avctx s) (pool s) 0 in
  modify_ctx (set_pool pool') ;;
  mret idx.

(** [for (i = 0; i < rows; i++) memset(base + stride * i, c, width)] *)
Definition fill_rows (base stride rows width c : Z) (m : memory) : memory :=
  foldl (fun m i => memset (base + stride * i) c width m) m (seqZ 0 rows).

(** The chroma loop: both planes are written in each iteration. *)
Definition fill_chroma_rows (cb cb_stride cr cr_stride rows width c : Z)
    (m : memory) : memory :=
  foldl (fun m i =>
           memset (cr + cr_stride * i) c width
             (memset (cb + cb_stride * i) c width m))
        m (seqZ 0 rows).

Definition gray_frame (frame : Frame.t) : M unit :=
  let '(_, (h_chroma_shift, v_chroma_shift)) :=
    av_pix_fmt_get_chroma_sub_sample (Frame.format frame) in
  modify_mem (fill_rows (Frame.data frame !!! 0%nat) (Frame.linesize frame !!! 0%nat)
                (Frame.height frame) (Frame.width frame) 128) ;;
  modify_mem (fill_chroma_rows
                (Frame.data frame !!! 1%nat) (Frame.linesize frame !!! 1%nat)
                (Frame.data frame !!! 2%nat) (Frame.linesize frame !!! 2%nat)
                (AV_CEIL_RSHIFT (Frame.height frame) v_chroma_shift)
                (AV_CEIL_RSHIFT (Frame.width frame) h_chroma_shift) 128).

(** Lines 273-299: the thread-state check and the release of old frames. *)
Definition release_forgotten : M unit :=
  forM_ (seq 0 MAX_PICTURE_COUNT) (fun i =>
    s ← get_ctx;
    let p := slot_addr (picture s) (Z.of_nat i) in
    pic ← load_pic p;
    if negb (truthy (Pic.reference pic)) ||
       (negb (p =? last_picture_ptr s) && negb (p =? next_picture_ptr s) &&
        negb (truthy (Pic.needs_realloc pic)))
    then unref_at p else mret tt).

Definition frame_start_release (actx : AVCodecContext) : M unit :=
  modify_ctx (set_mb_skipped 0) ;;
  (if negb (truthy (ff_thread_can_start_frame actx)) then return_ (-1) else mret tt) ;;
  (* mark & release old frames *)
  s ← get_ctx;
  (if bool_decide (pict_type s <> AV_PICTURE_TYPE_B) && truthy (last_picture_ptr s) &&
      negb (last_picture_ptr s =? next_picture_ptr s)
   then
     lp ← load_pic (last_picture_ptr s);
     when_ (truthy (Frame.buf0 (Pic.f lp))) (unref_at (last_picture_ptr s))
   else mret tt) ;;
  (* release non reference/forgotten frames *)
  release_forgotten ;;
  unref_roles.

(** Lines 301-312: the picture the new frame is decoded into. *)
Definition frame_start_select : M Z :=
  s ← get_ctx;
  unused ← (if truthy (current_picture_ptr s)
            then cp ← load_pic (current_picture_ptr s);
                 mret (negb (truthy (Frame.buf0 (Pic.f cp))))
            else mret false);
  if unused : bool then
    (* we already have an unused image *)
    mret (current_picture_ptr s)
  else
    idx ← find_unused_picture;
    if idx <? 0 then return_ idx else
    s ← get_ctx;
    mret (slot_addr (picture s) idx).

Definition bool_to_int (b : bool) : Z := if b then 1 else 0.

(** Lines 314-323: the reference marking and the allocation. *)
Definition frame_start_alloc (pic : Z) : M unit :=
  update_pic pic (Pic.set_reference 0) ;;
  s ← get_ctx;
  when_ (negb (truthy (droppable s)) && bool_decide (pict_type s <> AV_PICTURE_TYPE_B))
    (update_pic pic (Pic.set_reference 3)) ;;
  update_frame pic (Frame.set_coded_picture_number (coded_picture_number s)) ;;
  modify_ctx (set_coded_picture_number (to_int (coded_picture_number s + 1))) ;;
  r ← alloc_picture pic;
  if r <? 0 then return_ (-1) else mret tt.

(** Lines 326-343: the description of the frame and the reference held
    by [s->current_picture]. *)
Definition frame_start_describe : M unit :=
  s ← get_ctx;
  let pic := current_picture_ptr s in
  (* FIXME use only the vars from current_pic *)
  update_frame pic (Frame.set_top_field_first (top_field_first s)) ;;
  when_ (bool_decide (codec_id s = AV_CODEC_ID_MPEG1VIDEO) ||
         bool_decide (codec_id s = AV_CODEC_ID_MPEG2VIDEO))
    (when_ (negb (picture_structure s =? PICT_FRAME))
       (update_frame pic
          (Frame.set_top_field_first
             (bool_to_int (bool_to_int (picture_structure s =? PICT_TOP_FIELD)
                           =? first_field s))))) ;;
  update_frame pic
    (Frame.set_interlaced_frame
       (bool_to_int (negb (truthy (progressive_frame s)) &&
                     negb (truthy (progressive_sequence s))))) ;;
  update_pic pic
    (Pic.set_field_picture (bool_to_int (negb (picture_structure s =? PICT_FRAME)))) ;;
  update_frame pic (Frame.set_pict_type (pict_type s)) ;;
  update_frame pic
    (Frame.set_key_frame (bool_to_int (bool_decide (pict_type s = AV_PICTURE_TYPE_I)))) ;;
  cp ← load_pic pic;
  let '(ret, p) := ff_mpeg_ref_picture (avctx s) (current_picture s) cp in
  modify_ctx (set_current_picture p) ;;
  if ret <? 0 then return_ ret else mret tt.

(** Lines 314-343. *)
Definition frame_start_setup (pic : Z) : M unit :=
  frame_start_alloc pic ;;
  modify_ctx (set_current_picture_ptr pic) ;;
  frame_start_describe.

(** Lines 345-349: the rotation of the reference roles. *)
Definition frame_start_rotate (s : MpegEncContext) : MpegEncContext :=
  if bool_decide (pict_type s <> AV_PICTURE_TYPE_B) then
    let s := set_last_picture_ptr (next_picture_ptr s) s in
    if negb (truthy (droppable s))
    then set_next_picture_ptr (current_picture_ptr s) s
    else s
  else s.

(** [!p || !p->f->buf[0]] for a role pointer [p]. *)
Definition role_missing (p : Z) : M bool :=
  if negb (truthy p) then mret true
  else pic ← load_pic p; mret (negb (truthy (Frame.buf0 (Pic.f pic)))).

(** [ff_thread_report_progress(&p->tf, INT_MAX, 0)] and [(..., 1)]. *)
Definition report_done (p : Z) : M unit :=
  update_pic p (fun pic => ff_thread_report_progress pic INT_MAX 0) ;;
  update_pic p (fun pic => ff_thread_report_progress pic INT_MAX 1).

(** The three markings of a dummy frame before it is allocated. *)
Definition mark_dummy (p : Z) : M unit :=
  update_pic p (Pic.set_reference 3) ;;
  update_frame p (Frame.set_key_frame 0) ;;
  update_frame p (Frame.set_pict_type AV_PICTURE_TYPE_P).

(** The grey fill of the dummy last picture (the [!avctx->hwaccel] block). *)
Definition fill_dummy (actx : AVCodecContext) (codec : AVCodecID)
    (h_chroma_shift v_chroma_shift : Z) (fr : Frame.t) : M unit :=
  modify_mem (fill_rows (Frame.data fr !!! 0%nat) (Frame.linesize fr !!! 0%nat)
                (Avctx.height actx) (Avctx.width actx) 128) ;;
  when_ (truthy (Frame.data fr !!! 2%nat))
    (modify_mem (fill_chroma_rows
                   (Frame.data fr !!! 1%nat) (Frame.linesize fr !!! 1%nat)
                   (Frame.data fr !!! 2%nat) (Frame.linesize fr !!! 2%nat)
                   (AV_CEIL_RSHIFT (Avctx.height actx) v_chroma_shift)
                   (AV_CEIL_RSHIFT (Avctx.width actx) h_chroma_shift) 128)) ;;
  when_ (bool_decide (codec = AV_CODEC_ID_FLV1) || bool_decide (codec = AV_CODEC_ID_H263))
    (modify_mem (fill_rows (Frame.data fr !!! 0%nat) (Frame.linesize fr !!! 0%nat)
                   (Avctx.height actx) (Avctx.width actx) 16)).

(** Lines 357-408: the dummy last picture. *)
Definition frame_start_dummy_last (actx : AVCodecContext) : M unit :=
  s ← get_ctx;
  missing ← role_missing (last_picture_ptr s);
  if (missing : bool) && bool_decide (pict_type s <> AV_PICTURE_TYPE_I) then
    let '(_, (h_chroma_shift, v_chroma_shift)) :=
      av_pix_fmt_get_chroma_sub_sample (Avctx.pix_fmt (avctx s)) in
    (* Allocate a dummy frame *)
    idx ← find_unused_picture;
    if idx <? 0 then return_ idx else
    s ← get_ctx;
    let lp := slot_addr (picture s) idx in
    modify_ctx (set_last_picture_ptr lp) ;;
    mark_dummy lp ;;
    r ← alloc_picture lp;
    (if r <? 0 then modify_ctx (set_last_picture_ptr 0) ;; return_ (-1) else mret tt) ;;
    (if negb (truthy (Avctx.hwaccel actx)) then
       p ← load_pic lp;
       fill_dummy actx (codec_id s) h_chroma_shift v_chroma_shift (Pic.f p)
     else mret tt) ;;
    report_done lp
  else mret tt.

(** Lines 409-429: the dummy next picture of a B picture. *)
Definition frame_start_dummy_next : M unit :=
  s ← get_ctx;
  missing ← role_missing (next_picture_ptr s);
  if (missing : bool) && bool_decide (pict_type s = AV_PICTURE_TYPE_B) then
    (* Allocate a dummy frame *)
    idx ← find_unused_picture;
    if idx <? 0 then return_ idx else
    s ← get_ctx;
    let np := slot_addr (picture s) idx in
    modify_ctx (set_next_picture_ptr np) ;;
    mark_dummy np ;;
    r ← alloc_picture np;
    (if r <? 0 then modify_ctx (set_next_picture_ptr 0) ;; return_ (-1) else mret tt) ;;
    report_done np
  else mret tt.

(** Lines 435-446: the references held by [s->last_picture] and
    [s->next_picture]. *)
Definition ref_role (ptr : Z) (getp : MpegEncContext -> Picture)
    (setp : Picture -> MpegEncContext -> MpegEncContext) : M unit :=
  if truthy ptr then
    pic ← load_pic ptr;
    if truthy (Frame.buf0 (Pic.f pic)) then
      s ← get_ctx;
      let '(ret, p) := ff_mpeg_ref_picture (avctx s) (getp s) pic in
      modify_ctx (setp p) ;;
      if ret <? 0 then return_ ret else mret tt
    else mret tt
  else mret tt.

Definition frame_start_ref_roles : M unit :=
  s ← get_ctx;
  ref_role (last_picture_ptr s) last_picture set_last_picture ;;
  s ← get_ctx;
  ref_role (next_picture_ptr s) next_picture set_next_picture.

(** [FF_PTR_ADD(ptr, off)] (libavutil/internal.h):
    [((off) ? (ptr) + (off) : (ptr))]. *)
Definition FF_PTR_ADD (ptr off : Z) : Z := if truthy off then ptr + off else ptr.

Definition double_linesize (i : nat) (p : Picture) : Picture :=
  Pic.set_f (Frame.set_linesize
               (alter (fun l => to_int (l * 2)) i (Frame.linesize (Pic.f p)))
               (Pic.f p)) p.

Definition bottom_field_data (i : nat) (p : Picture) : Picture :=
  Pic.set_f (Frame.set_data
               (alter (fun d => FF_PTR_ADD d (Frame.linesize (Pic.f p) !!! i)) i
                      (Frame.data (Pic.f p)))
               (Pic.f p)) p.

(** Lines 451-461: field pictures are addressed as frames of twice the
    stride. *)
Definition frame_start_field_setup : M unit :=
  s ← get_ctx;
  when_ (negb (picture_structure s =? PICT_FRAME))
    (forM_ (seq 0 4) (fun i =>
       when_ (picture_structure s =? PICT_BOTTOM_FIELD)
         (modify_ctx (fun s =>
            set_current_picture (bottom_field_data i (current_picture s)) s)) ;;
       modify_ctx (fun s =>
         set_next_picture (double_linesize i (next_picture s))
           (set_last_picture (double_linesize i (last_picture s))
              (set_current_picture (double_linesize i (current_picture s)) s))))).

(** Lines 466-475: the dequantizer of the frame. *)
Definition select_dequantizer (s : MpegEncContext) : MpegEncContext :=
  if truthy (mpeg_quant s) || bool_decide (codec_id s = AV_CODEC_ID_MPEG2VIDEO) then
    set_dct_unquantize_inter (dct_unquantize_mpeg2_inter s)
      (set_dct_unquantize_intra (dct_unquantize_mpeg2_intra s) s)
  else if bool_decide (out_format s = FMT_H263) || bool_decide (out_format s = FMT_H261) then
    set_dct_unquantize_inter (dct_unquantize_h263_inter s)
      (set_dct_unquantize_intra (dct_unquantize_h263_intra s) s)
  else
    set_dct_unquantize_inter (dct_unquantize_mpeg1_inter s)
      (set_dct_unquantize_intra (dct_unquantize_mpeg1_intra s) s).

(** Everything up to and including the rotation of the roles. *)
Definition frame_start_to_rotation (actx : AVCodecContext) : M unit :=
  frame_start_release actx ;;
  pic ← frame_start_select;
  frame_start_setup pic ;;
  modify_ctx frame_start_rotate.

(** Everything after the rotation. *)
Definition frame_start_after_rotation (actx : AVCodecContext) : M Z :=
  frame_start_dummy_last actx ;;
  frame_start_dummy_next ;;
  frame_start_ref_roles ;;
  s ← get_ctx;
  last_ok ← (if bool_decide (pict_type s = AV_PICTURE_TYPE_I) then mret true
             else missing ← role_missing (last_picture_ptr s); mret (negb missing));
  av_assert0 last_ok ;;
  frame_start_field_setup ;;
  modify_ctx select_dequantizer ;;
  s ← get_ctx;
  (if truthy (Z.land (Avctx.debug (avctx s)) FF_DEBUG_NOMC) then
     cp ← load_pic (current_picture_ptr s);
     gray_frame (Pic.f cp)
   else mret tt) ;;
  mret 0.

(** [ff_mpv_frame_start(s, avctx)] *)
Definition ff_mpv_frame_start (actx : AVCodecContext) : M Z :=
  frame_start_to_rotation actx ;;
  frame_start_after_rotation actx.

(** ** ff_mpeg_flush *)

Definition ff_mpeg_flush : M unit :=
  s ← get_ctx;
  if negb (truthy (picture s)) then mret tt else
  forM_ (seq 0 MAX_PICTURE_COUNT) (fun i =>
    unref_at (slot_addr (picture s) (Z.of_nat i))) ;;
  modify_ctx clear_role_ptrs ;;
  unref_roles ;;
  modify_ctx (fun s => set_mb_x 0 (set_mb_y 0 s)) ;;
  when_ FF_API_FLAG_TRUNCATED
    (modify_ctx (set_parse_context
       {| pc_state := -1; pc_frame_start_found := 0; pc_overread := 0;
          pc_overread_index := 0; pc_index := 0; pc_last_index := 0 |})) ;;
  modify_ctx (set_bitstream_buffer_size 0) ;;
  modify_ctx (set_pp_time 0).

(** ** Lowres motion compensation: the edge tests *)

(** One call of [s->vdsp.emulated_edge_mc(dst, src, dst_linesize,
    src_linesize, block_w, block_h, src_x, src_y, w, h)]. *)
Record EdgeEmuCall := {
  ee_dst : Z; ee_src : Z;
  ee_dst_linesize : Z; ee_src_linesize : Z;
  ee_block_w : Z; ee_block_h : Z;
  ee_src_x : Z; ee_src_y : Z;
  ee_w : Z; ee_h : Z;
}.

(** One call of [pix_op[index](dst, src, stride, h, x, y)]. *)
Record PixOpCall := {
  po_index : Z; po_dst : Z; po_src : Z; po_stride : Z;
  po_h : Z; po_x : Z; po_y : Z;
}.

(** What [hpel_motion_lowres] does: its return value [emu], the edge
    emulation it asked for, if any, and the interpolation call. *)
Record HpelResult := {
  hp_emu : Z;
  hp_edge : option EdgeEmuCall;
  hp_pix : PixOpCall;
}.

(** The sub-sample phase and the source position of the block, lines
    588-596 of [hpel_motion_lowres]: [(sx, sy, src_x, src_y)]. *)
Definition hpel_source (s : MpegEncContext) (src_x src_y motion_x motion_y : Z)
    : Z * Z * Z * Z :=
  let lowres := Avctx.lowres (avctx s) in
  let s_mask := Z.shiftl 2 lowres - 1 in
  let motion_x := if truthy (quarter_sample s) then Z.quot motion_x 2 else motion_x in
  let motion_y := if truthy (quarter_sample s) then Z.quot motion_y 2 else motion_y in
  let sx := Z.land motion_x s_mask in
  let sy := Z.land motion_y s_mask in
  let src_x := src_x + Z.shiftr motion_x (lowres + 1) in
  let src_y := src_y + Z.shiftr motion_y (lowres + 1) in
  (sx, sy, src_x, src_y).

Definition hpel_motion_lowres (s : MpegEncContext)
    (dest src field_based field_select src_x src_y width height stride
     h_edge_pos v_edge_pos w h motion_x motion_y : Z) : HpelResult :=
  let lowres := Avctx.lowres (avctx s) in
  let op_index := FFMIN lowres 3 in
  let '(sx, sy, src_x, src_y) := hpel_source s src_x src_y motion_x motion_y in
  let src := src + (src_y * stride + src_x) in
  let emu :=
    (to_unsigned src_x >? FFMAX (h_edge_pos - lnotnot sx - w) 0) ||
    (to_unsigned src_y >? FFMAX (Z.shiftr v_edge_pos field_based - lnotnot sy - h) 0) in
  let edge :=
    {| ee_dst := edge_emu_buffer (sc s); ee_src := src;
       ee_dst_linesize := linesize s; ee_src_linesize := linesize s;
       ee_block_w := w + 1; ee_block_h := Z.shiftl (h + 1) field_based;
       ee_src_x := src_x; ee_src_y := src_y * Z.shiftl 1 field_based;
       ee_w := h_edge_pos; ee_h := v_edge_pos |} in
  let src := if emu then edge_emu_buffer (sc s) else src in
  let sx := Z.shiftr (Z.shiftl sx 2) lowres in
  let sy := Z.shiftr (Z.shiftl sy 2) lowres in
  let src := if truthy field_select then src + linesize s else src in
  {| hp_emu := bool_to_int emu;
     hp_edge := if emu then Some edge else None;
     hp_pix := {| po_index := op_index; po_dst := dest; po_src := src;
                  po_stride := stride; po_h := h; po_x := sx; po_y := sy |} |}.

(** What [mpeg_motion_lowres] does for one motion vector: whether the
    emulation branch is taken, the emulation calls for luma, Cb and Cr,
    and the interpolation calls. *)
Record MotionLowresResult := {
  ml_emu : bool;
  ml_edge_y : option EdgeEmuCall;
  ml_edge_cb : option EdgeEmuCall;
  ml_edge_cr : option EdgeEmuCall;
  ml_pix_y : PixOpCall;
  ml_pix_cb : option PixOpCall;
  ml_pix_cr : option PixOpCall;
}.

(** The source position and sub-sample phase of the luma block and of the
    chroma blocks, lines 645-696 of [mpeg_motion_lowres]:
    [(sx, sy, src_x, src_y)] and [(uvsx, uvsy, uvsrc_x, uvsrc_y)]. *)
Definition lowres_source (s : MpegEncContext)
    (field_based bottom_field field_select motion_x motion_y mb_y_ : Z)
    : (Z * Z * Z * Z) * (Z * Z * Z * Z) :=
  let lowres := Avctx.lowres (avctx s) in
  let block_s := Z.shiftr 8 lowres in
  let s_mask := Z.shiftl 2 lowres - 1 in
  let motion_x := if truthy (quarter_sample s) then Z.quot motion_x 2 else motion_x in
  let motion_y := if truthy (quarter_sample s) then Z.quot motion_y 2 else motion_y in
  let motion_y :=
    if truthy field_based
    then motion_y + (bottom_field - field_select) * (Z.shiftl 1 lowres - 1)
    else motion_y in
  let sx := Z.land motion_x s_mask in
  let sy := Z.land motion_y s_mask in
  let src_x := mb_x s * 2 * block_s + Z.shiftr motion_x (lowres + 1) in
  let src_y := Z.shiftr (mb_y_ * 2 * block_s) field_based
               + Z.shiftr motion_y (lowres + 1) in
  let uv :=
    if bool_decide (out_format s = FMT_H263) then
      (Z.lor (Z.land (Z.shiftr motion_x 1) s_mask) (Z.land sx 1),
       Z.lor (Z.land (Z.shiftr motion_y 1) s_mask) (Z.land sy 1),
       Z.shiftr src_x 1, Z.shiftr src_y 1)
    else if bool_decide (out_format s = FMT_H261) then
      (* even chroma mv's are full pel in H261 *)
      let mx := Z.quot motion_x 4 in
      let my := Z.quot motion_y 4 in
      (Z.land (2 * mx) s_mask, Z.land (2 * my) s_mask,
       mb_x s * block_s + Z.shiftr mx lowres,
       mb_y_ * block_s + Z.shiftr my lowres)
    else if truthy (chroma_y_shift s) then
      let mx := Z.quot motion_x 2 in
      let my := Z.quot motion_y 2 in
      (Z.land mx s_mask, Z.land my s_mask,
       mb_x s * block_s + Z.shiftr mx (lowres + 1),
       Z.shiftr (mb_y_ * block_s) field_based + Z.shiftr my (lowres + 1))
    else if truthy (chroma_x_shift s) then
      (* Chroma422 *)
      let mx := Z.quot motion_x 2 in
      (Z.land mx s_mask, Z.land motion_y s_mask,
       mb_x s * block_s + Z.shiftr mx (lowres + 1), src_y)
    else
      (* Chroma444 *)
      (Z.land motion_x s_mask, Z.land motion_y s_mask, src_x, src_y) in
  ((sx, sy, src_x, src_y), uv).

(** [!CONFIG_GRAY || !(s->avctx->flags & AV_CODEC_FLAG_GRAY)] *)
Definition chroma_enabled (s : MpegEncContext) : bool :=
  negb CONFIG_GRAY || negb (truthy (Z.land (Avctx.flags (avctx s)) AV_CODEC_FLAG_GRAY)).

(** The test of lines 702-703. *)
Definition mpeg_motion_lowres_needs_emu (s : MpegEncContext)
    (field_based h sx sy src_x src_y uvsrc_y : Z) : bool :=
  let lowres := Avctx.lowres (avctx s) in
  let block_s := Z.shiftr 8 lowres in
  let h_edge_pos := Z.shiftr (h_edge_pos s) lowres in
  let v_edge_pos := Z.shiftr (v_edge_pos s) lowres in
  (to_unsigned src_x >? FFMAX (h_edge_pos - lnotnot sx - 2 * block_s) 0) ||
  (uvsrc_y <? 0) ||
  (to_unsigned src_y >? FFMAX (Z.shiftr v_edge_pos field_based - lnotnot sy - h) 0).

(** [mpeg_motion_lowres]: one motion vector applied to the three
    components.  [ref0], [ref1], [ref2] are [ref_picture[0..2]]. *)
Definition mpeg_motion_lowres (s : MpegEncContext)
    (dest_y dest_cb dest_cr field_based bottom_field field_select
     ref0 ref1 ref2 motion_x motion_y h mb_y_ : Z) : MotionLowresResult :=
  let lowres := Avctx.lowres (avctx s) in
  let op_index := FFMIN (lowres - 1 + chroma_x_shift s) 3 in
  let h_edge := Z.shiftr (h_edge_pos s) lowres in
  let v_edge := Z.shiftr (v_edge_pos s) lowres in
  let linesize_ :=
    Z.shiftl (Frame.linesize (Pic.f (current_picture s)) !!! 0%nat) field_based in
  let uvlinesize_ :=
    Z.shiftl (Frame.linesize (Pic.f (current_picture s)) !!! 1%nat) field_based in
  let '((sx, sy, src_x, src_y), (uvsx, uvsy, uvsrc_x, uvsrc_y)) :=
    lowres_source s field_based bottom_field field_select motion_x motion_y mb_y_ in
  let ptr_y := ref0 + (src_y * linesize_ + src_x) in
  let ptr_cb := ref1 + (uvsrc_y * uvlinesize_ + uvsrc_x) in
  let ptr_cr := ref2 + (uvsrc_y * uvlinesize_ + uvsrc_x) in
  let emu := mpeg_motion_lowres_needs_emu s field_based h sx sy src_x src_y uvsrc_y in
  let chroma_emu := emu && chroma_enabled s in
  let ubuf := edge_emu_buffer (sc s) + 18 * linesize s in
  let vbuf := ubuf + 10 * uvlinesize s in
  let vbuf := if truthy (Z.land (workaround_bugs s) FF_BUG_IEDGE)
              then vbuf - uvlinesize s else vbuf in
  let edge_y :=
    {| ee_dst := edge_emu_buffer (sc s); ee_src := ptr_y;
       ee_dst_linesize := Z.shiftr linesize_ field_based;
       ee_src_linesize := Z.shiftr linesize_ field_based;
       ee_block_w := 17; ee_block_h := 17 + field_based;
       ee_src_x := src_x; ee_src_y := src_y * Z.shiftl 1 field_based;
       ee_w := h_edge; ee_h := v_edge |} in
  let edge_c (dst src : Z) :=
    {| ee_dst := dst; ee_src := src;
       ee_dst_linesize := Z.shiftr uvlinesize_ field_based;
       ee_src_linesize := Z.shiftr uvlinesize_ field_based;
       ee_block_w := 9; ee_block_h := 9 + field_based;
       ee_src_x := uvsrc_x; ee_src_y := uvsrc_y * Z.shiftl 1 field_based;
       ee_w := Z.shiftr h_edge 1; ee_h := Z.shiftr v_edge 1 |} in
  let edge_cb := edge_c ubuf ptr_cb in
  let edge_cr := edge_c vbuf ptr_cr in
  let ptr_y := if emu then edge_emu_buffer (sc s) else ptr_y in
  let ptr_cb := if chroma_emu then ubuf else ptr_cb in
  let ptr_cr := if chroma_emu then vbuf else ptr_cr in
  let dest_y := if truthy bottom_field then dest_y + linesize s else dest_y in
  let dest_cb := if truthy bottom_field then dest_cb + uvlinesize s else dest_cb in
  let dest_cr := if truthy bottom_field then dest_cr + uvlinesize s else dest_cr in
  let ptr_y := if truthy field_select then ptr_y + linesize s else ptr_y in
  let ptr_cb := if truthy field_select then ptr_cb + uvlinesize s else ptr_cb in
  let ptr_cr := if truthy field_select then ptr_cr + uvlinesize s else ptr_cr in
  let sx := Z.shiftr (Z.shiftl sx 2) lowres in
  let sy := Z.shiftr (Z.shiftl sy 2) lowres in
  let hc := if truthy (chroma_y_shift s)
            then Z.shiftr (h + 1 - bottom_field) 1 else h in
  let uvsx := Z.shiftr (Z.shiftl uvsx 2) lowres in
  let uvsy := Z.shiftr (Z.shiftl uvsy 2) lowres in
  let chroma_pix (dst src : Z) :=
    if chroma_enabled s && truthy hc
    then Some {| po_index := op_index; po_dst := dst; po_src := src;
                 po_stride := uvlinesize_; po_h := hc; po_x := uvsx; po_y := uvsy |}
    else None in
  {| ml_emu := emu;
     ml_edge_y := if emu then Some edge_y else None;
     ml_edge_cb := if chroma_emu then Some edge_cb else None;
     ml_edge_cr := if chroma_emu then Some edge_cr else None;
     ml_pix_y := {| po_index := lowres - 1; po_dst := dest_y; po_src := ptr_y;
                    po_stride := linesize_; po_h := h; po_x := sx; po_y := sy |};
     ml_pix_cb := chroma_pix dest_cb ptr_cb;
     ml_pix_cr := chroma_pix dest_cr ptr_cr |}.

(** ** lowest_referenced_row *)

(** The number of vectors of the geometries the function handles. *)
Definition handled_mvs (t : MVType) : option nat :=
  match t with
  | MV_TYPE_16X16 => Some 1%nat
  | MV_TYPE_16X8 => Some 2%nat
  | MV_TYPE_8X8 => Some 4%nat
  | _ => None
  end.

(** The loop over the vertical components: [(my_max, my_min)]. *)
Definition my_range (s : MpegEncContext) (dir : Z) (mvs : nat) : Z * Z :=
  foldl (fun '(my_max, my_min) i =>
           let my := mv s dir (Z.of_nat i) 1 in
           (FFMAX my_max my, FFMIN my_min my))
        (INT_MIN, INT_MAX) (seq 0 mvs).

(** find the lowest MB row referenced in the MVs.  Every [int] operation
    of lines 988-992 wraps around: the negation, the shift, the two
    additions and the subtraction. *)
Definition lowest_referenced_row (s : MpegEncContext) (dir : Z) : Z :=
  let qpel_shift := lnot (quarter_sample s) in
  if negb (picture_structure s =? PICT_FRAME) || truthy (mcsel s)
  then to_int (mb_height s - 1)
  else
    match handled_mvs (mv_type s) with
    | None => to_int (mb_height s - 1)
    | Some mvs =>
        let '(my_max, my_min) := my_range s dir mvs in
        let off :=
          Z.shiftr
            (to_int (to_int (Z.shiftl (FFMAX (to_int (- my_min)) my_max) qpel_shift)
                     + 63)) 6 in
        av_clip (to_int (mb_y s + off)) 0 (to_int (mb_height s - 1))
    end.

(** ** add_dct *)

(** add block[] to dest[] *)
Definition add_dct (block : list Z) (i : nat) (dest line_size : Z) : M unit :=
  s ← get_ctx;
  match block_last_index s !! i with
  | None => undefined
  | Some last =>
      if last >=? 0 then modify_mem (idct_add dest line_size block) else mret tt
  end.

End Decoder.

(** ** A reference model of the functions of other files

    The theorems below hold for every instance of [Externals].  To run
    the functions on concrete contexts, this instance follows what the
    specification says about the picture helpers. *)

Definition unref_frame (fr : Frame.t) : Frame.t :=
  {| Frame.buf0 := 0; Frame.data := [0; 0; 0; 0]; Frame.linesize := [0; 0; 0; 0];
     Frame.width := 0; Frame.height := 0; Frame.format := Frame.format fr;
     Frame.key_frame := 0; Frame.pict_type := AV_PICTURE_TYPE_NONE;
     Frame.coded_picture_number := 0; Frame.top_field_first := 0;
     Frame.interlaced_frame := 0 |}.

(** Modelled from the spec: [ff_mpeg_unref_picture] (mpegpicture.c) is
    the release of a slot; the slot is "recycled" and ends up "empty": the
    frame gives up its buffer and the flags of the picture are cleared. *)
Definition ref_unref_picture (_ : AVCodecContext) (p : Picture) : Picture :=
  {| Pic.f := unref_frame (Pic.f p); Pic.f_set := Pic.f_set p;
     Pic.progress0 := 0; Pic.progress1 := 0; Pic.field_picture := 0;
     Pic.needs_realloc := 0; Pic.reference := 0; Pic.shared := 0 |}.

(** Modelled from the spec: [ff_mpeg_ref_picture] (mpegpicture.c) makes
    the destination "a new shared reference" to the source's buffer, "not
    a deep copy": same planes, same flags. *)
Definition ref_ref_picture (_ : AVCodecContext) (dst src : Picture) : Z * Picture :=
  (0, src).

(** Modelled from the spec: [ff_update_picture_tables] (mpegpicture.c)
    carries the per-macroblock side tables over, which this model does not
    hold. *)
Definition ref_update_picture_tables (dst src : Picture) : Z * Picture := (0, dst).

Fixpoint first_unused (l : list Picture) (i : Z) : Z :=
  match l with
  | [] => -1
  | p :: l' =>
      if negb (truthy (Frame.buf0 (Pic.f p))) || truthy (Pic.needs_realloc p)
      then i else first_unused l' (i + 1)
  end.

(** Modelled from the spec: [ff_find_unused_picture] (mpegpicture.c):
    "returns an empty slot", and "fails with NoBufferAvailable if none
    exists"; buffers "flagged for reallocation" are released before they
    are handed out. *)
Definition ref_find_unused_picture (a : AVCodecContext) (l : list Picture) (shared : Z)
    : Z * list Picture :=
  let idx := first_unused l 0 in
  (idx,
   if idx <? 0 then l
   else alter (fun p => if truthy (Pic.needs_realloc p) then ref_unref_picture a p else p)
              (Z.to_nat idx) l).

(** Modelled from the spec: [ff_alloc_picture] (mpegpicture.c) "allocates
    pixel planes ... sized to width x height ... with the given chroma
    layout".  The planes are handed out at fixed addresses, one row of
    luma every [width] bytes and 4:2:0 chroma. *)
Definition ref_alloc_picture (a : AVCodecContext) (p : Picture) (me_ : Z)
    (sc_ : ScratchpadContext) (shared encoding cxs cys : Z) (fmt : OutputFormat)
    (mb_stride_ mb_width_ mb_height_ b8_stride_ linesize_ uvlinesize_ : Z)
    : AllocPictureResult :=
  let w := Avctx.width a in
  let cw := AV_CEIL_RSHIFT w cxs in
  {| ap_ret := 0;
     ap_pic :=
       {| Pic.f :=
            {| Frame.buf0 := 65536;
               Frame.data := [65536; 131072; 196608; 0];
               Frame.linesize := [w; cw; cw; 0];
               Frame.width := w; Frame.height := Avctx.height a;
               Frame.format := Avctx.pix_fmt a;
               Frame.key_frame := Frame.key_frame (Pic.f p);
               Frame.pict_type := Frame.pict_type (Pic.f p);
               Frame.coded_picture_number := Frame.coded_picture_number (Pic.f p);
               Frame.top_field_first := Frame.top_field_first (Pic.f p);
               Frame.interlaced_frame := Frame.interlaced_frame (Pic.f p) |};
          Pic.f_set := Pic.f_set p; Pic.progress0 := -1; Pic.progress1 := -1;
          Pic.field_picture := Pic.field_picture p; Pic.needs_realloc := 0;
          Pic.reference := Pic.reference p; Pic.shared := Pic.shared p |};
     ap_me := me_; ap_sc := sc_; ap_linesize := w; ap_uvlinesize := cw |}.

Definition empty_picture : Picture :=
  {| Pic.f := Frame.zero; Pic.f_set := true; Pic.progress0 := 0; Pic.progress1 := 0;
     Pic.field_picture := 0; Pic.needs_realloc := 0; Pic.reference := 0;
     Pic.shared := 0 |}.

(** Modelled from the spec: [ff_mpv_common_init] (mpegvideo.c) is the
    "one-time structural initialization": the context gets its own pool
    of empty slots, placed here right behind the context. *)
Definition ref_common_init (s : MpegEncContext) : Z * MpegEncContext :=
  (0, set_context_initialized 1
        (set_next_picture empty_picture
           (set_last_picture empty_picture
              (set_current_picture empty_picture
                 (set_thread_context (replicate 4 0)
                    (set_pool (replicate 36 empty_picture)
                       (set_picture (self s + 4096) s))))))).

(** Modelled from the spec: [ff_mpv_init_context_frame] (mpegvideo.c)
    "reallocates size-dependent scratch"; of that the model keeps the
    macroblock geometry. *)
Definition ref_init_context_frame (s : MpegEncContext) : Z * MpegEncContext :=
  let mbw := (width s + 15) / 16 in
  let mbh := (height s + 15) / 16 in
  (0, set_v_edge_pos (mbh * 16)
        (set_h_edge_pos (mbw * 16)
           (set_mb_stride (mbw + 1)
              (set_b8_stride (mbw * 2 + 1)
                 (set_mb_height mbh (set_mb_width mbw s)))))).

(** The residual is added sample by sample and clipped to a byte. *)
Definition ref_idct_add (dest line_size : Z) (block : list Z) (m : memory) : memory :=
  foldl (fun m k =>
           let a := dest + Z.of_nat (k / 8) * line_size + Z.of_nat (k mod 8) in
           fun b => if decide (b = a)
                    then Z.max 0 (Z.min 255 (m a + block !!! k)) else m b)
        m (seq 0 64).

#[global] Instance reference_externals : Externals := {|
  MAX_PICTURE_COUNT := 36;
  sizeof_Picture := 200;
  AV_INPUT_BUFFER_PADDING_SIZE := 64;
  CONFIG_GRAY := false;
  FF_API_FLAG_TRUNCATED := true;
  FF_DEBUG_NOMC := 16777216;
  AV_CODEC_FLAG_GRAY := 8192;
  FF_BUG_IEDGE := 32768;
  ff_thread_can_start_frame := fun _ => 1;
  ff_mpeg_unref_picture := ref_unref_picture;
  ff_mpeg_ref_picture := ref_ref_picture;
  ff_update_picture_tables := ref_update_picture_tables;
  ff_find_unused_picture := ref_find_unused_picture;
  ff_alloc_picture := ref_alloc_picture;
  av_pix_fmt_get_chroma_sub_sample := fun _ => (0, (1, 1));
  av_image_check_size := fun w h _ _ =>
    if (0 <? w) && (0 <? h) && (w * h <? 268435456) then 0 else AVERROR EINVAL;
  ff_mpv_idct_init := fun s => s;
  ff_mpv_common_init := ref_common_init;
  ff_mpv_free_context_frame := fun s => s;
  ff_mpv_init_context_frame := ref_init_context_frame;
  ff_mpv_init_duplicate_contexts := fun s => (0, s);
  av_fast_malloc := fun ptr size min_size =>
    if min_size <=? size then (ptr, size) else (1048576, min_size);
  ff_mpeg_framesize_alloc := fun _ me_ sc_ _ =>
    (0, (me_, {| edge_emu_buffer := 2097152; rd_scratchpad := rd_scratchpad sc_;
                 obmc_scratchpad := obmc_scratchpad sc_;
                 b_scratchpad := b_scratchpad sc_ |}));
  idct_add := ref_idct_add;
|}.

(** A 32x32 decoder as [ff_mpv_decode_init] and the one-time
    initialisation leave it, at address [a]. *)
Definition sample_avctx (a : Z) : AVCodecContext :=
  {| Avctx.addr := a; Avctx.hwaccel := 0; Avctx.width := 32; Avctx.height := 32;
     Avctx.pix_fmt := 0; Avctx.debug := 0; Avctx.lowres := 0; Avctx.flags := 0 |}.

Definition sample_context (a : Z) : MpegEncContext :=
  (ref_init_context_frame
     (ref_common_init
        (set_block_last_index (replicate 12 (-1))
           (set_picture_structure PICT_FRAME
              (set_height 32
                 (set_width 32
                    (set_avctx (sample_avctx (a + 1000000))
                       (MpegEncContext_zero a))))))).2).2.

(** Sample memory holding zeroes. *)
Definition blank_memory : memory := fun _ => 0.

Definition sample_world (a : Z) : World :=
  {| ctx := sample_context a; mem := blank_memory |}.

(** ** Notions the statements use *)

(** A rectangle of [cols] by [rows] samples whose first sample is
    [(x, y)] lies inside a picture of [h_edge] by [v_edge] samples. *)
Definition rect_inside (x y cols rows h_edge v_edge : Z) : Prop :=
  0 <= x /\ x + cols <= h_edge /\ 0 <= y /\ y + rows <= v_edge.

(** The largest absolute vertical displacement among the first [n]
    vectors of direction [dir]. *)
Definition max_abs_my (s : MpegEncContext) (dir : Z) (n : nat) : Z :=
  foldr Z.max 0 (map (fun i => Z.abs (mv s dir (Z.of_nat i) 1)) (seq 0 n)).

(** A displacement in vector units as macroblock rows, rounded up: a
    row is 64 quarter samples, and vectors are in half samples unless
    [quarter_sample] is set. *)
Definition displacement_rows (s : MpegEncContext) (d : Z) : Z :=
  (d * (if truthy (quarter_sample s) then 1 else 2) + 63) / 64.

(** The vertical components of the first [n] vectors of direction [dir]
    are small enough for the arithmetic of [lowest_referenced_row] to stay
    within [int]: the largest magnitude in quarter samples, rounded up to
    the next row, and the row it leads to from the current one. *)
Definition rows_fit (s : MpegEncContext) (dir : Z) (n : nat) : Prop :=
  max_abs_my s dir n * (if truthy (quarter_sample s) then 1 else 2) + 63 <= INT_MAX /\
  in_int (mb_y s + displacement_rows s (max_abs_my s dir n)).

(** The world [w] with the array of the pool replaced by [l]. *)
Definition with_pool (w : World) (l : list Picture) : World :=
  {| ctx := set_pool l (ctx w); mem := mem w |}.

(** The array [l] with [F j] applied to each element [j] of the range
    [a .. a + n - 1]. *)
Definition map_range (F : nat -> Picture -> Picture) (a n : nat) (l : list Picture)
    : list Picture :=
  imap (fun j p => if decide (a <= j < a + n)%nat then F j p else p) l.

(** The pool is in place: [s->picture] points to an array of
    [MAX_PICTURE_COUNT] pictures of positive size. *)
Definition pool_allocated `{Externals} (s : MpegEncContext) : Prop :=
  picture s <> 0 /\ 0 < sizeof_Picture /\ length (pool s) = MAX_PICTURE_COUNT.

(** The release rule as the specification words it: a slot is released
    when it is none of the three roles, is not flagged as a reference and
    is not pending reallocation. *)
Definition spec_released `{Externals} (s : MpegEncContext) (i : nat) (pic : Picture)
    : Prop :=
  (current_picture_ptr s <> slot_addr (picture s) (Z.of_nat i) /\
   last_picture_ptr s <> slot_addr (picture s) (Z.of_nat i) /\
   next_picture_ptr s <> slot_addr (picture s) (Z.of_nat i)) /\
  Pic.reference pic = 0 /\ Pic.needs_realloc pic = 0.

(** A picture that holds a buffer and is flagged as a reference. *)
Definition reference_picture : Picture :=
  Pic.set_reference 3
    (ap_pic (ref_alloc_picture (sample_avctx 0) empty_picture 0 ScratchpadContext_zero
               0 0 1 1 FMT_MPEG1 3 2 2 5 0 0)).

(** The sample decoder with a reference picture left in slot 0 that no
    role points to any more. *)
Definition forgotten_world : World :=
  with_pool (sample_world 8192)
    (<[0%nat := reference_picture]> (pool (sample_context 8192))).

(** A statement [m] is tame for a view [v] of the world when it leaves
    the view as it found it, however it ends, and when every [return] it
    takes returns a negative value. *)
Definition tame {X A : Type} (v : World -> X) (m : M A) : Prop :=
  forall w, v (m w).2 = v w /\ forall r, (m w).1 = Return r -> r < 0.

(** The pool pointer and the three role pointers of a context. *)
Definition role_view (w : World) : Z * Z * Z * Z :=
  (picture (ctx w), last_picture_ptr (ctx w), current_picture_ptr (ctx w),
   next_picture_ptr (ctx w)).



(** What the rotation of the roles reads and writes, apart from the
    current-picture pointer. *)
Definition rotation_view (w : World) : Z * Z * AVPictureType * Z :=
  (last_picture_ptr (ctx w), next_picture_ptr (ctx w), pict_type (ctx w),
   droppable (ctx w)).

(** The address [a] is one of the [width] bytes of one of the first
    [rows] rows of a plane. *)
Definition in_rows (base stride rows width a : Z) : Prop :=
  exists y, 0 <= y < rows /\ base + stride * y <= a < base + stride * y + width.

(** [ff_alloc_picture] hands out pictures whose two progress counters are
    C [int]s. *)
Definition alloc_counters_are_ints `{Externals} : Prop :=
  forall a p me_ sc_ shared encoding cxs cys fmt ms mw mh b8 ls uvls,
    let r := ff_alloc_picture a p me_ sc_ shared encoding cxs cys fmt ms mw mh b8
               ls uvls in
    Pic.progress0 (ap_pic r) <= INT_MAX /\ Pic.progress1 (ap_pic r) <= INT_MAX.

(** The picture after the two calls of [report_done]. *)
Definition reported (pic : Picture) : Picture :=
  ff_thread_report_progress (ff_thread_report_progress pic INT_MAX 0) INT_MAX 1.

(** The picture after the three assignments of [mark_dummy]. *)
Definition marked (pic : Picture) : Picture :=
  let p := Pic.set_reference 3 pic in
  let p := Pic.set_f (Frame.set_key_frame 0 (Pic.f p)) p in
  Pic.set_f (Frame.set_pict_type AV_PICTURE_TYPE_P (Pic.f p)) p.

(** The world a successful [alloc_picture] leaves when the pointer
    designates slot [i]. *)
Definition alloc_world (w : World) (i : nat) (r : AllocPictureResult) : World :=
  {| ctx := set_uvlinesize (ap_uvlinesize r)
              (set_linesize (ap_linesize r)
                 (set_sc (ap_sc r)
                    (set_me (ap_me r)
                       (set_pool (<[i := ap_pic r]> (pool (ctx w))) (ctx w)))));
     mem := mem w |}.

(** The call [alloc_picture] makes for the picture [pic] of a slot. *)
Definition alloc_result `{Externals} (s : MpegEncContext) (pic : Picture)
    : AllocPictureResult :=
  ff_alloc_picture (avctx s) pic (me s) (sc s) 0 0
    (chroma_x_shift s) (chroma_y_shift s) (out_format s)
    (mb_stride s) (mb_width s) (mb_height s) (b8_stride s)
    (linesize s) (uvlinesize s).

(** What the [!avctx->hwaccel] block of the dummy last picture writes
    to sample memory. *)
Definition dummy_fill (actx : AVCodecContext) (codec : AVCodecID)
    (h_chroma_shift v_chroma_shift : Z) (fr : Frame.t) (m : memory) : memory :=
  let m1 := fill_rows (Frame.data fr !!! 0%nat) (Frame.linesize fr !!! 0%nat)
              (Avctx.height actx) (Avctx.width actx) 128 m in
  let m2 := if truthy (Frame.data fr !!! 2%nat)
            then fill_chroma_rows
                   (Frame.data fr !!! 1%nat) (Frame.linesize fr !!! 1%nat)
                   (Frame.data fr !!! 2%nat) (Frame.linesize fr !!! 2%nat)
                   (AV_CEIL_RSHIFT (Avctx.height actx) v_chroma_shift)
                   (AV_CEIL_RSHIFT (Avctx.width actx) h_chroma_shift) 128 m1
            else m1 in
  if bool_decide (codec = AV_CODEC_ID_FLV1) || bool_decide (codec = AV_CODEC_ID_H263)
  then fill_rows (Frame.data fr !!! 0%nat) (Frame.linesize fr !!! 0%nat)
         (Avctx.height actx) (Avctx.width actx) 16 m2
  else m2.

(** The luma value of a dummy last picture: 16 for FLV1 and H.263,
    mid-grey otherwise. *)
Definition dummy_luma (codec : AVCodecID) : Z :=
  if bool_decide (codec = AV_CODEC_ID_FLV1) || bool_decide (codec = AV_CODEC_ID_H263)
  then 16 else 128.

(** ** Sample inputs *)

(** The sample decoder about to start a P picture with no reference. *)
Definition p_frame_world : World :=
  {| ctx := set_pict_type AV_PICTURE_TYPE_P (sample_context 8192);
     mem := blank_memory |}.

(** The sample decoder about to start a B picture: slot 0 holds the last
    reference, the next-reference role is empty. *)
Definition b_frame_world : World :=
  {| ctx := set_last_picture_ptr 12288
              (set_pict_type AV_PICTURE_TYPE_B (ctx forgotten_world));
     mem := blank_memory |}.

(** A predecessor whose roles are slots 2, 3 and 1 of its pool (which
    starts at 12288), and a successor that was never initialised. *)
Definition predecessor_context : MpegEncContext :=
  set_next_picture_ptr 12488
    (set_current_picture_ptr 12888
       (set_last_picture_ptr 12688 (sample_context 8192))).

Definition successor_world : World :=
  {| ctx := set_avctx (sample_avctx 700000) (MpegEncContext_zero 500000);
     mem := blank_memory |}.

(** A frame picture of two macroblock rows whose current macroblock uses
    global motion compensation: one 16x16 vector, zero, [mcsel] set. *)
Definition gmc_context : MpegEncContext := set_mcsel 1 (sample_context 8192).

(** The sample decoder at [lowres = 1]. *)
Definition lowres_context : MpegEncContext :=
  set_avctx
    {| Avctx.addr := 1008192; Avctx.hwaccel := 0; Avctx.width := 32;
       Avctx.height := 32; Avctx.pix_fmt := 0; Avctx.debug := 0;
       Avctx.lowres := 1; Avctx.flags := 0 |}
    (sample_context 8192).

(** A picture of one macroblock, 16x16, decoded at [lowres = 1] into
    frames of 8x8: a P picture whose macroblock has one 16x16 vector, half
    a sample to the right. *)
Definition single_mb_avctx : AVCodecContext :=
  {| Avctx.addr := 1008192; Avctx.hwaccel := 0; Avctx.width := 8;
     Avctx.height := 8; Avctx.pix_fmt := 0; Avctx.debug := 0; Avctx.lowres := 1;
     Avctx.flags := 0 |}.

Definition single_mb_context : MpegEncContext :=
  set_mv (fun _ _ c => if c =? 0 then 1 else 0)
    (set_linesize 8 (set_uvlinesize 4 (set_pict_type AV_PICTURE_TYPE_P
       (set_current_picture
          (ap_pic (ref_alloc_picture single_mb_avctx empty_picture 0
                     ScratchpadContext_zero 0 0 1 1 FMT_MPEG1 2 1 1 3 0 0))
          (ref_init_context_frame
             (ref_common_init
                (set_block_last_index (replicate 12 (-1))
                   (set_picture_structure PICT_FRAME
                      (set_height 16
                         (set_width 16
                            (set_avctx single_mb_avctx
                               (MpegEncContext_zero 8192))))))).2).2)))).

(** ** How a statement ends *)

(** The statement [m], run in the world [w], satisfies [Q] when it falls
    through and [R] when it returns; [U] is what is asked of a run that
    aborts or has no defined behaviour: [True] when only the runs that end
    are of interest, [False] to say that the run does end. *)
Definition outcome {A : Type} (U : Prop) (m : M A) (w : World)
    (Q : A -> World -> Prop) (R : Z -> World -> Prop) : Prop :=
  match m w with
  | (Next a, w') => Q a w'
  | (Return r, w') => R r w'
  | (Abort, _) => U
  | (Undefined, _) => U
  end.

(** A statement is steady for a view [v] of the world when it leaves the
    view as it found it, however it ends, and never returns. *)
Definition steady {X A : Type} (v : World -> X) (m : M A) : Prop :=
  forall w, v (m w).2 = v w /\ forall r, (m w).1 <> Return r.

(** ** Notions the further statements use *)

(** The pool and the three role pointers of a context. *)
Definition pool_view (s : MpegEncContext) : Z * list Picture * (Z * Z * Z) :=
  (picture s, pool s, (last_picture_ptr s, current_picture_ptr s, next_picture_ptr s)).

(** The helpers of mpegvideo.c that free and set up what depends on the
    frame size work on the tables and scratch buffers of the context; they
    leave the picture pool and the role pointers alone. *)
Definition frame_helpers_keep_pool `{Externals} : Prop :=
  (forall s, pool_view (ff_mpv_free_context_frame s) = pool_view s) /\
  (forall s, pool_view (ff_mpv_init_context_frame s).2 = pool_view s) /\
  (forall s, pool_view (ff_mpv_init_duplicate_contexts s).2 = pool_view s).

(** The context [ff_mpv_common_init] is called on when the successor was
    never initialised: the copy of the predecessor made at lines 73-78,
    with the successor's own [avctx] and [private_ctx] and no bitstream
    buffer, after [ff_mpv_idct_init]. *)
Definition fresh_copy `{Externals} (dst : AVCodecContext) (s s1 : MpegEncContext)
    : MpegEncContext :=
  ff_mpv_idct_init
    (set_allocated_bitstream_buffer_size 0
       (set_bitstream_buffer_size 0
          (set_bitstream_data []
             (set_bitstream_buffer 0
                (set_private_ctx (private_ctx s) (set_avctx dst (memcpy_context s s1))))))).


(** The picture counters and the sample precision (lines 98-101). *)
Definition counters_view (s : MpegEncContext) : Z * Z * Z :=
  (quarter_sample s, coded_picture_number s, picture_number s).

(** The bug workarounds, the MPEG-4 timing, the B-frame information and
    the DivX flag (lines 137-151). *)
Definition timing_view (s : MpegEncContext) : list Z :=
  [workaround_bugs s; padding_bug_score s;
   last_time_base s; time_base s; time s; last_non_b_time s;
   pp_time s; pb_time s; pp_field_time s; pb_field_time s;
   max_b_frames s; low_delay s; droppable s; divx_packed s].

(** The MPEG-2/interlacing members (lines 186-187). *)
Definition interlacing_view (s : MpegEncContext) : list Z :=
  [progressive_sequence s; picture_structure s; top_field_first s; alternate_scan s;
   chroma_x_shift s; chroma_y_shift s; progressive_frame s; first_field s].

(** The pair of dequantizers lines 466-475 choose for a context:
    [(dct_unquantize_intra, dct_unquantize_inter)]. *)
Definition dequantizer_of (s : MpegEncContext) : Z * Z :=
  if truthy (mpeg_quant s) || bool_decide (codec_id s = AV_CODEC_ID_MPEG2VIDEO)
  then (dct_unquantize_mpeg2_intra s, dct_unquantize_mpeg2_inter s)
  else if bool_decide (out_format s = FMT_H263) || bool_decide (out_format s = FMT_H261)
  then (dct_unquantize_h263_intra s, dct_unquantize_h263_inter s)
  else (dct_unquantize_mpeg1_intra s, dct_unquantize_mpeg1_inter s).

(** The picture the current-picture pointer of [s] designates is a slot
    of the pool whose frame carries the key-frame flag [key] and the
    picture type [t]. *)
Definition described_as `{Externals} (s : MpegEncContext) (key : Z) (t : AVPictureType)
    : Prop :=
  exists (i : nat) (pic : Picture),
    slot_index s (current_picture_ptr s) = Some i /\ pool s !! i = Some pic /\
    Frame.key_frame (Pic.f pic) = key /\ Frame.pict_type (Pic.f pic) = t.

(** The pool, the pointer to it and the three role pointers, as a view
    of the world. *)
Definition roles_and_pool (w : World) : Z * list Picture * (Z * Z * Z) :=
  pool_view (ctx w).

(** Every sample of the first [rows] rows of [width] bytes of a plane
    reads mid-grey. *)
Definition grey_plane (m : memory) (base stride rows width : Z) : Prop :=
  forall x y, 0 <= x < width -> 0 <= y < rows -> m (base + stride * y + x) = 128.

(** The three planes of a frame as [gray_frame] walks them: the address
    [a] is a sample of the luma plane or of one of the two chroma planes. *)
Definition in_frame `{Externals} (fr : Frame.t) (a : Z) : Prop :=
  let hs := (av_pix_fmt_get_chroma_sub_sample (Frame.format fr)).2.1 in
  let vs := (av_pix_fmt_get_chroma_sub_sample (Frame.format fr)).2.2 in
  in_rows (Frame.data fr !!! 0%nat) (Frame.linesize fr !!! 0%nat)
    (Frame.height fr) (Frame.width fr) a \/
  in_rows (Frame.data fr !!! 1%nat) (Frame.linesize fr !!! 1%nat)
    (AV_CEIL_RSHIFT (Frame.height fr) vs) (AV_CEIL_RSHIFT (Frame.width fr) hs) a \/
  in_rows (Frame.data fr !!! 2%nat) (Frame.linesize fr !!! 2%nat)
    (AV_CEIL_RSHIFT (Frame.height fr) vs) (AV_CEIL_RSHIFT (Frame.width fr) hs) a.

(** Lines 451-461 on one role picture: what one iteration of the loop
    over the planes does to it.  [bottom] is
    [s->picture_structure == PICT_BOTTOM_FIELD]; only the current picture
    has [advance] set, the other two keep their plane pointers. *)
Definition field_plane (bottom advance : bool) (i : nat) (p : Picture) : Picture :=
  double_linesize i (if bottom && advance then bottom_field_data i p else p).

(** The same on the context. *)
Definition field_planes (bottom : bool) (i : nat) (s : MpegEncContext) : MpegEncContext :=
  set_next_picture (field_plane bottom false i (next_picture s))
    (set_last_picture (field_plane bottom false i (last_picture s))
       (set_current_picture (field_plane bottom true i (current_picture s)) s)).

(** ** ff_mpv_frame_end and ff_mpv_report_decode_progress *)

Section Progress.
Context `{Externals}.

(** called after a frame has been decoded.  ([emms_c] restores the state
    of the floating-point unit and touches nothing of the decoder.) *)
Definition ff_mpv_frame_end : M unit :=
  s ← get_ctx;
  when_ (truthy (Pic.reference (current_picture s)))
    (update_pic (current_picture_ptr s)
       (fun pic => ff_thread_report_progress pic INT_MAX 0)).

(** [ff_mpv_report_decode_progress(s)]; [partitioned_frame] and
    [error_occurred] are [s->partitioned_frame] and
    [s->er.error_occurred]. *)
Definition ff_mpv_report_decode_progress (partitioned_frame error_occurred : Z)
    : M unit :=
  s ← get_ctx;
  when_ (bool_decide (pict_type s <> AV_PICTURE_TYPE_B) &&
         negb (truthy partitioned_frame) && negb (truthy error_occurred))
    (update_pic (current_picture_ptr s)
       (fun pic => ff_thread_report_progress pic (mb_y s) 0)).

(** What [ff_mpeg_flush] makes of a context that owns a pool. *)
Definition flushed (s : MpegEncContext) : MpegEncContext :=
  let unref := ff_mpeg_unref_picture (avctx s) in
  let s := set_pool (map unref (pool s)) s in
  let s := clear_role_ptrs s in
  let s := set_next_picture (unref (next_picture s))
             (set_last_picture (unref (last_picture s))
                (set_current_picture (unref (current_picture s)) s)) in
  let s := set_mb_x 0 (set_mb_y 0 s) in
  let s := if FF_API_FLAG_TRUNCATED
           then set_parse_context
                  {| pc_state := -1; pc_frame_start_found := 0; pc_overread := 0;
                     pc_overread_index := 0; pc_index := 0; pc_last_index := 0 |} s
           else s in
  set_pp_time 0 (set_bitstream_buffer_size 0 s).

End Progress.

(** What the loop of lines 105-110 makes of slot [i] of the successor:
    the slot is released, and when the predecessor owns a pool whose slot
    [i] holds a buffer, it becomes a new reference to that buffer. *)
Definition mirror_slot `{Externals} (a : AVCodecContext) (s1 : MpegEncContext)
    (i : nat) (pic : Picture) : Picture :=
  let released := ff_mpeg_unref_picture a pic in
  if truthy (picture s1) then
    match pool s1 !! i with
    | Some src_pic =>
        if truthy (Frame.buf0 (Pic.f src_pic))
        then (ff_mpeg_ref_picture a released src_pic).2
        else released
    | None => released
    end
  else released.

(** ** Lowres motion compensation: the chroma block of four 8x8 vectors *)

(** What [chroma_4mv_motion_lowres] does, in the order it does it: the
    edge emulation for Cb, if any, the interpolation of Cb, the edge
    emulation for Cr (into the same buffer), and the interpolation of
    Cr. *)
Record Chroma4mvResult := {
  c4_emu : Z;
  c4_edge_cb : option EdgeEmuCall;
  c4_pix_cb : PixOpCall;
  c4_edge_cr : option EdgeEmuCall;
  c4_pix_cr : PixOpCall;
}.

(** One call [MPV_motion_lowres] makes; [pix_op] is the table of
    interpolation functions handed to the callee. *)
Inductive MCCall :=
| CallMpegMotion (pix_op : Z) (r : MotionLowresResult)
| CallHpelMotion (pix_op : Z) (r : HpelResult)
| CallChroma4mv (pix_op : Z) (r : Chroma4mvResult).

Section MotionCompensation.
Context `{Externals}.

(** [ff_h263_round_chroma] (h263.h): the rounding of the sum of four
    luma vectors to one chroma vector. *)
Variable ff_h263_round_chroma : Z -> Z.

(** The source position and the sub-sample phase of the chroma block,
    lines 775-788: [(sx, sy, src_x, src_y)]. *)
Definition chroma_4mv_source (s : MpegEncContext) (mx my : Z) : Z * Z * Z * Z :=
  let lowres := Avctx.lowres (avctx s) in
  let block_s := Z.shiftr 8 lowres in
  let s_mask := Z.shiftl 2 lowres - 1 in
  let mx := if truthy (quarter_sample s) then Z.quot mx 2 else mx in
  let my := if truthy (quarter_sample s) then Z.quot my 2 else my in
  (* In case of 8X8, we construct a single chroma motion vector
     with a special rounding *)
  let mx := ff_h263_round_chroma mx in
  let my := ff_h263_round_chroma my in
  let sx := Z.land mx s_mask in
  let sy := Z.land my s_mask in
  let src_x := mb_x s * block_s + Z.shiftr mx (lowres + 1) in
  let src_y := mb_y s * block_s + Z.shiftr my (lowres + 1) in
  (sx, sy, src_x, src_y).

(** [chroma_4mv_motion_lowres(s, dest_cb, dest_cr, ref_picture, pix_op,
    mx, my)]; [ref1] and [ref2] are [ref_picture[1]] and
    [ref_picture[2]]. *)
Definition chroma_4mv_motion_lowres (s : MpegEncContext)
    (dest_cb dest_cr ref1 ref2 mx my : Z) : Chroma4mvResult :=
  let lowres := Avctx.lowres (avctx s) in
  let op_index := FFMIN lowres 3 in
  let block_s := Z.shiftr 8 lowres in
  let h_edge := Z.shiftr (h_edge_pos s) (lowres + 1) in
  let v_edge := Z.shiftr (v_edge_pos s) (lowres + 1) in
  let '(sx, sy, src_x, src_y) := chroma_4mv_source s mx my in
  let offset := src_y * uvlinesize s + src_x in
  let ptr_cb := ref1 + offset in
  let emu :=
    (to_unsigned src_x >? FFMAX (h_edge - lnotnot sx - block_s) 0) ||
    (to_unsigned src_y >? FFMAX (v_edge - lnotnot sy - block_s) 0) in
  let edge (src : Z) :=
    {| ee_dst := edge_emu_buffer (sc s); ee_src := src;
       ee_dst_linesize := uvlinesize s; ee_src_linesize := uvlinesize s;
       ee_block_w := 9; ee_block_h := 9;
       ee_src_x := src_x; ee_src_y := src_y;
       ee_w := h_edge; ee_h := v_edge |} in
  let sx := Z.shiftr (Z.shiftl sx 2) lowres in
  let sy := Z.shiftr (Z.shiftl sy 2) lowres in
  let pix (dst src : Z) :=
    {| po_index := op_index; po_dst := dst; po_src := src;
       po_stride := uvlinesize s; po_h := block_s; po_x := sx; po_y := sy |} in
  let ptr_cr := ref2 + offset in
  {| c4_emu := bool_to_int emu;
     c4_edge_cb := if emu then Some (edge ptr_cb) else None;
     c4_pix_cb := pix dest_cb (if emu then edge_emu_buffer (sc s) else ptr_cb);
     c4_edge_cr := if emu then Some (edge ptr_cr) else None;
     c4_pix_cr := pix dest_cr (if emu then edge_emu_buffer (sc s) else ptr_cr) |}.

(** ** MPV_motion_lowres *)

(** [s->field_select[dir][i]]. *)
Variable field_select : Z -> Z -> Z.

(** [s->h264chroma.avg_h264_chroma_pixels_tab], the table that averages
    the prediction with what the destination holds. *)
Variable avg_h264_chroma_pixels_tab : Z.

(** [s->current_picture_ptr->f->data]; [None] when the pointer
    designates no picture of the pool. *)
Definition current_picture_data (s : MpegEncContext) : option (list Z) :=
  i ← slot_index s (current_picture_ptr s);
  pic ← pool s !! i;
  Some (Frame.data (Pic.f pic)).

(** One call of [mpeg_motion_lowres] with the planes of [ref_picture]. *)
Definition motion_call (s : MpegEncContext) (pix_op dest_y dest_cb dest_cr
    field_based bottom_field fsel : Z) (ref_picture : list Z)
    (motion_x motion_y h mb_y_ : Z) : MCCall :=
  CallMpegMotion pix_op
    (mpeg_motion_lowres s dest_y dest_cb dest_cr field_based bottom_field fsel
       (ref_picture !!! 0%nat) (ref_picture !!! 1%nat) (ref_picture !!! 2%nat)
       motion_x motion_y h mb_y_).

(** [MPV_motion_lowres(s, dest_y, dest_cb, dest_cr, dir, ref_picture,
    pix_op)]: the calls it makes, in order.  The vectors are taken from
    [s->mv] and the geometry from [s->mv_type]; the result is [None] when
    the function reads the planes of a current picture that is no picture
    of the pool. *)
Definition MPV_motion_lowres (s : MpegEncContext)
    (dest_y dest_cb dest_cr dir : Z) (ref_picture : list Z) (pix_op : Z)
    : option (list MCCall) :=
  let lowres := Avctx.lowres (avctx s) in
  let block_s := Z.shiftr 8 lowres in
  let mb_x_ := mb_x s in
  let mb_y_ := mb_y s in
  match mv_type s with
  | MV_TYPE_16X16 =>
      Some [motion_call s pix_op dest_y dest_cb dest_cr 0 0 0 ref_picture
              (mv s dir 0 0) (mv s dir 0 1) (2 * block_s) mb_y_]
  | MV_TYPE_8X8 =>
      let '(mx, my, calls) :=
        foldl (fun '(mx, my, calls) i =>
                 let c :=
                   CallHpelMotion pix_op
                     (hpel_motion_lowres s
                        (dest_y + (Z.land i 1 + Z.shiftr i 1 * linesize s) * block_s)
                        (ref_picture !!! 0%nat) 0 0
                        ((2 * mb_x_ + Z.land i 1) * block_s)
                        ((2 * mb_y_ + Z.shiftr i 1) * block_s)
                        (width s) (height s) (linesize s)
                        (Z.shiftr (h_edge_pos s) lowres) (Z.shiftr (v_edge_pos s) lowres)
                        block_s block_s (mv s dir i 0) (mv s dir i 1)) in
                 (mx + mv s dir i 0, my + mv s dir i 1, calls ++ [c]))
              (0, 0, []) (seqZ 0 4) in
      Some (calls ++
            if chroma_enabled s
            then [CallChroma4mv pix_op
                    (chroma_4mv_motion_lowres s dest_cb dest_cr
                       (ref_picture !!! 1%nat) (ref_picture !!! 2%nat) mx my)]
            else [])
  | MV_TYPE_FIELD =>
      if picture_structure s =? PICT_FRAME then
        Some [ (* top field *)
               motion_call s pix_op dest_y dest_cb dest_cr 1 0 (field_select dir 0)
                 ref_picture (mv s dir 0 0) (mv s dir 0 1) block_s mb_y_;
               (* bottom field *)
               motion_call s pix_op dest_y dest_cb dest_cr 1 1 (field_select dir 1)
                 ref_picture (mv s dir 1 0) (mv s dir 1 1) block_s mb_y_ ]
      else
        ref_picture ←
          (if negb (picture_structure s =? field_select dir 0 + 1) &&
              bool_decide (pict_type s <> AV_PICTURE_TYPE_B) &&
              negb (truthy (first_field s))
           then current_picture_data s else Some ref_picture);
        Some [motion_call s pix_op dest_y dest_cb dest_cr 0 0 (field_select dir 0)
                ref_picture (mv s dir 0 0) (mv s dir 0 1) (2 * block_s)
                (Z.shiftr mb_y_ 1)]
  | MV_TYPE_16X8 =>
      '(_, _, _, calls) ←
        foldl (fun st i =>
                 '(dest_y, dest_cb, dest_cr, calls) ← st;
                 ref2picture ←
                   (if (picture_structure s =? field_select dir i + 1) ||
                       bool_decide (pict_type s = AV_PICTURE_TYPE_B) ||
                       truthy (first_field s)
                    then Some ref_picture else current_picture_data s);
                 let c :=
                   motion_call s pix_op dest_y dest_cb dest_cr 0 0 (field_select dir i)
                     ref2picture (mv s dir i 0) (mv s dir i 1 + 2 * block_s * i)
                     block_s (Z.shiftr mb_y_ 1) in
                 Some (dest_y + 2 * block_s * linesize s,
                       dest_cb + Z.shiftr (2 * block_s) (chroma_y_shift s) * uvlinesize s,
                       dest_cr + Z.shiftr (2 * block_s) (chroma_y_shift s) * uvlinesize s,
                       calls ++ [c]))
              (Some (dest_y, dest_cb, dest_cr, [])) (seqZ 0 2);
      Some calls
  | MV_TYPE_DMV =>
      if picture_structure s =? PICT_FRAME then
        let '(_, calls) :=
          foldl (fun '(pix_op, calls) i =>
                   (avg_h264_chroma_pixels_tab,
                    foldl (fun calls j =>
                             calls ++
                             [motion_call s pix_op dest_y dest_cb dest_cr
                                1 j (Z.lxor j i) ref_picture
                                (mv s dir (2 * i + j) 0) (mv s dir (2 * i + j) 1)
                                block_s mb_y_])
                          calls (seqZ 0 2)))
                (pix_op, []) (seqZ 0 2) in
        Some calls
      else
        '(_, _, calls) ←
          foldl (fun st i =>
                   '(pix_op, ref_picture, calls) ← st;
                   let c :=
                     motion_call s pix_op dest_y dest_cb dest_cr 0 0
                       (bool_to_int (negb (picture_structure s =? i + 1)))
                       ref_picture (mv s dir (2 * i) 0) (mv s dir (2 * i) 1)
                       (2 * block_s) (Z.shiftr mb_y_ 1) in
                   (* after put we make avg of the same block;
                      opposite parity is always in the same
                      frame if this is second field *)
                   ref_picture ←
                     (if negb (truthy (first_field s))
                      then current_picture_data s else Some ref_picture);
                   Some (avg_h264_chroma_pixels_tab, ref_picture, calls ++ [c]))
                (Some (pix_op, ref_picture, [])) (seqZ 0 2);
        Some calls
  end.

End MotionCompensation.

(** ** ff_mpv_export_qp_table *)

(** [AVVideoBlockParams] (libavutil/video_enc_params.h). *)
Record AVVideoBlockParams := {
  bp_src_x : Z; bp_src_y : Z; bp_w : Z; bp_h : Z; bp_delta_qp : Z;
}.

(** How [ff_mpv_export_qp_table] ends: with its return value and the
    blocks of the side data it attached to the frame, if any, or in the
    [av_assert0] of [av_video_enc_params_block]. *)
Inductive QPExport :=
| QPReturn (ret : Z) (blocks : option (list AVVideoBlockParams))
| QPAbort.

Section ExportQP.

(** The constants of mpegvideodec.h and avcodec.h. *)
Variable FF_MPV_QSCALE_TYPE_MPEG1 : Z.
Variable AV_CODEC_EXPORT_DATA_VIDEO_ENC_PARAMS : Z.

(** [av_video_enc_params_create_side_data(f, AV_VIDEO_ENC_PARAMS_MPEG2,
    nb_blocks)]: the block array of the side data it attaches to the
    frame, [None] when it returns NULL. *)
Variable av_video_enc_params_create_side_data :
  Frame.t -> Z -> option (list AVVideoBlockParams).

(** The body of the two loops for the macroblock [(x, y)].  [alloc_mb_width]
    and [alloc_mb_stride] are members of the picture [p], [qscale_table]
    is [p->qscale_table]; the state is [None] once
    [av_video_enc_params_block] has aborted. *)
Definition export_block (alloc_mb_width alloc_mb_stride mult : Z)
    (qscale_table : Z -> Z) (y x : Z) (st : option (list AVVideoBlockParams))
    : option (list AVVideoBlockParams) :=
  par ← st;
  let block_idx := to_unsigned (y * alloc_mb_width + x) in
  let mb_xy := to_unsigned (y * alloc_mb_stride + x) in
  if decide (block_idx < Z.of_nat (length par))
  then Some (<[Z.to_nat block_idx :=
                 {| bp_src_x := to_int (x * 16); bp_src_y := to_int (y * 16);
                    bp_w := 16; bp_h := 16;
                    bp_delta_qp := qscale_table mb_xy * mult |}]> par)
  else None.

(** [ff_mpv_export_qp_table(s, f, p, qp_type)]; [export_side_data] is
    [s->avctx->export_side_data], the next four arguments are the members
    of [p] the function reads. *)
Definition ff_mpv_export_qp_table (export_side_data : Z) (f : Frame.t)
    (alloc_mb_width alloc_mb_height alloc_mb_stride : Z) (qscale_table : Z -> Z)
    (qp_type : Z) : QPExport :=
  let mult := if qp_type =? FF_MPV_QSCALE_TYPE_MPEG1 then 2 else 1 in
  let nb_mb := to_unsigned (alloc_mb_height * alloc_mb_width) in
  if negb (truthy (Z.land export_side_data AV_CODEC_EXPORT_DATA_VIDEO_ENC_PARAMS))
  then QPReturn 0 None
  else
    match av_video_enc_params_create_side_data f nb_mb with
    | None => QPReturn (AVERROR ENOMEM) None
    | Some par =>
        match
          foldl (fun st y =>
                   foldl (fun st x =>
                            export_block alloc_mb_width alloc_mb_stride mult
                              qscale_table y x st)
                         st (seqZ 0 (to_unsigned alloc_mb_width)))
                (Some par) (seqZ 0 (to_unsigned alloc_mb_height))
        with
        | Some par' => QPReturn 0 (Some par')
        | None => QPAbort
        end
    end.

End ExportQP.

(** ** Further sample inputs *)

(** The helpers of other files as the reference model has them, except
    that the frame thread is past its setup state and the one-time
    initialisation runs out of memory. *)
Definition failing_externals : Externals := {|
  MAX_PICTURE_COUNT := 36;
  sizeof_Picture := 200;
  AV_INPUT_BUFFER_PADDING_SIZE := 64;
  CONFIG_GRAY := false;
  FF_API_FLAG_TRUNCATED := true;
  FF_DEBUG_NOMC := 16777216;
  AV_CODEC_FLAG_GRAY := 8192;
  FF_BUG_IEDGE := 32768;
  ff_thread_can_start_frame := fun _ => 0;
  ff_mpeg_unref_picture := ref_unref_picture;
  ff_mpeg_ref_picture := ref_ref_picture;
  ff_update_picture_tables := ref_update_picture_tables;
  ff_find_unused_picture := ref_find_unused_picture;
  ff_alloc_picture := ref_alloc_picture;
  av_pix_fmt_get_chroma_sub_sample := fun _ => (0, (1, 1));
  av_image_check_size := fun w h _ _ =>
    if (0 <? w) && (0 <? h) && (w * h <? 268435456) then 0 else AVERROR EINVAL;
  ff_mpv_idct_init := fun s => s;
  ff_mpv_common_init := fun s => (AVERROR ENOMEM, s);
  ff_mpv_free_context_frame := fun s => s;
  ff_mpv_init_context_frame := ref_init_context_frame;
  ff_mpv_init_duplicate_contexts := fun s => (0, s);
  av_fast_malloc := fun ptr size min_size =>
    if min_size <=? size then (ptr, size) else (1048576, min_size);
  ff_mpeg_framesize_alloc := fun _ me_ sc_ _ =>
    (0, (me_, {| edge_emu_buffer := 2097152; rd_scratchpad := rd_scratchpad sc_;
                 obmc_scratchpad := obmc_scratchpad sc_;
                 b_scratchpad := b_scratchpad sc_ |}));
  idct_add := ref_idct_add;
|}.

(** The sample decoder about to start an I picture. *)
Definition i_frame_world : World :=
  {| ctx := set_pict_type AV_PICTURE_TYPE_I (sample_context 8192);
     mem := blank_memory |}.

(** The sample decoder with [FF_DEBUG_NOMC] set, about to start a P
    picture. *)
Definition debug_avctx : AVCodecContext :=
  {| Avctx.addr := 1008192; Avctx.hwaccel := 0; Avctx.width := 32;
     Avctx.height := 32; Avctx.pix_fmt := 0; Avctx.debug := 16777216;
     Avctx.lowres := 0; Avctx.flags := 0 |}.

Definition debug_world : World :=
  {| ctx := set_avctx debug_avctx (ctx p_frame_world); mem := blank_memory |}.

(** A predecessor that holds three staged bytes of bitstream. *)
Definition staged_predecessor : MpegEncContext :=
  set_allocated_bitstream_buffer_size 128
    (set_bitstream_buffer_size 3
       (set_bitstream_data [1; 2; 3]
          (set_bitstream_buffer 4096 predecessor_context))).

(** The sample decoder decoding the picture of slot 0, which is held as
    a reference: as a frame, and as the second, top field of a
    field-predicted P picture. *)
Definition decoding_context : MpegEncContext :=
  set_current_picture reference_picture
    (set_current_picture_ptr 12288 (ctx forgotten_world)).

Definition decoding_world : World :=
  {| ctx := decoding_context; mem := blank_memory |}.

Definition second_field_context : MpegEncContext :=
  set_mv_type MV_TYPE_FIELD
    (set_pict_type AV_PICTURE_TYPE_P
       (set_picture_structure PICT_TOP_FIELD decoding_context)).

Definition second_field_world : World :=
  {| ctx := second_field_context; mem := blank_memory |}.

(** Side data of [n] blocks that are still zero. *)
Definition blank_side_data (_ : Frame.t) (n : Z) : option (list AVVideoBlockParams) :=
  Some (replicate (Z.to_nat n)
          {| bp_src_x := 0; bp_src_y := 0; bp_w := 0; bp_h := 0; bp_delta_qp := 0 |}).

(** The second macroblock row of the sample decoder with one 16x16
    vector whose vertical component is [my], in half samples. *)
Definition tall_vector_context (my : Z) : MpegEncContext :=
  set_mb_y 1 (set_mv (fun _ _ c => if c =? 1 then my else 0) (sample_context 8192)).

(** * Theorems *)

(** ** Running the monad *)

Lemma bind_unfold {A B} (m : M A) (k : A -> M B) (w : World) :
  (m ≫= k) w =
  match m w with
  | (Next a, w') => k a w'
  | (Return r, w') => (Return r, w')
  | (Abort, w') => (Abort, w')
  | (Undefined, w') => (Undefined, w')
  end.
Proof. reflexivity. Qed.

Lemma bind_next {A B} (m : M A) (k : A -> M B) (w w1 : World) (a : A) :
  m w = (Next a, w1) -> (m ≫= k) w = k a w1.
Proof. intros E. rewrite bind_unfold, E. reflexivity. Qed.

Lemma bind_next_inv {A B} (m : M A) (k : A -> M B) (w w' : World) (b : B) :
  (m ≫= k) w = (Next b, w') ->
  exists a w1, m w = (Next a, w1) /\ k a w1 = (Next b, w').
Proof.
  rewrite bind_unfold. destruct (m w) as [[a| r | |] w1]; try discriminate.
  intros E. exists a, w1. split; [reflexivity | exact E].
Qed.

Lemma call_next_inv (m : M Z) (w w' : World) (r : Z) :
  call m w = (Next r, w') -> m w = (Next r, w') \/ m w = (Return r, w').
Proof.
  unfold call. destruct (m w) as [[a | r0 | |] w1]; intros E; inversion E; subst; auto.
Qed.

Lemma world_eta (w : World) : {| ctx := ctx w; mem := mem w |} = w.
Proof. destruct w; reflexivity. Qed.

Lemma set_pool_same (s : MpegEncContext) : set_pool (pool s) s = s.
Proof. destruct s; reflexivity. Qed.

Lemma with_pool_same (w : World) : with_pool w (pool (ctx w)) = w.
Proof. unfold with_pool. rewrite set_pool_same. apply world_eta. Qed.

Section Claims.
Context `{Externals}.

(** ** ff_mpv_common_frame_size_change on a context never initialised *)

(** C10: called on a context whose one-time initialisation has never run
    ([context_initialized] is zero), [ff_mpv_common_frame_size_change]
    returns [AVERROR(EINVAL)] and leaves the context and the sample memory
    exactly as they were: nothing has been freed, no pooled picture has
    been marked for reallocation and no role pointer has been cleared. *)
Theorem frame_size_change_uninitialized (w : World) :
  context_initialized (ctx w) = 0 ->
  call ff_mpv_common_frame_size_change w = (Next (AVERROR EINVAL), w).
Proof.
  intros Hinit. unfold call, ff_mpv_common_frame_size_change.
  rewrite bind_unfold. unfold get_ctx. rewrite Hinit. reflexivity.
Qed.

(** ** add_dct *)

(** C7: for a block whose last-nonzero-coefficient index is negative,
    [add_dct] leaves the context and every byte of sample memory, and so
    every destination sample holding the motion-compensated prediction,
    as it was; the residual is added in place, by the one call of
    [s->idsp.idct_add], exactly when that index is not negative. *)
Theorem add_dct_zero_residual (block : list Z) (i : nat) (dest line_size : Z)
    (w : World) (last : Z) :
  block_last_index (ctx w) !! i = Some last ->
  (last < 0 -> add_dct block i dest line_size w = (Next tt, w)) /\
  (0 <= last ->
   add_dct block i dest line_size w =
   (Next tt, {| ctx := ctx w; mem := idct_add dest line_size block (mem w) |})).
Proof.
  intros Hlast. unfold add_dct. rewrite bind_unfold. unfold get_ctx.
  rewrite Hlast. split; intros Hsign.
  - destruct (last >=? 0) eqn:E; [lia | reflexivity].
  - destruct (last >=? 0) eqn:E; [reflexivity | lia].
Qed.

(** ** lowest_referenced_row *)

Lemma FFMAX_max (a b : Z) : FFMAX a b = Z.max a b.
Proof. unfold FFMAX. destruct (a >? b) eqn:E; lia. Qed.

Lemma FFMIN_min (a b : Z) : FFMIN a b = Z.min a b.
Proof. unfold FFMIN. destruct (a >? b) eqn:E; lia. Qed.

Lemma av_clip_range (a lo hi : Z) : lo <= hi -> lo <= av_clip a lo hi <= hi.
Proof. unfold av_clip. intros. destruct (a <? lo) eqn:E1; [lia|]. destruct (a >? hi) eqn:E2; lia. Qed.

Lemma row_offset (s : MpegEncContext) (d : Z) :
  Z.shiftr (Z.shiftl d (lnot (quarter_sample s)) + 63) 6 = displacement_rows s d.
Proof.
  unfold displacement_rows, lnot, truthy.
  rewrite Z.shiftr_div_pow2 by lia.
  destruct (quarter_sample s =? 0); simpl negb; cbv iota.
  - rewrite Z.shiftl_mul_pow2 by lia. reflexivity.
  - rewrite Z.shiftl_mul_pow2 by lia. reflexivity.
Qed.

Lemma my_range_fold (g : nat -> Z) (l : list nat) (a b : Z) :
  b <= a ->
  let '(my_max, my_min) :=
    foldl (fun '(my_max, my_min) i => (FFMAX my_max (g i), FFMIN my_min (g i))) (a, b) l in
  Z.max (- my_min) my_max =
  Z.max (Z.max (- b) a) (foldr Z.max 0 (map (fun i => Z.abs (g i)) l)).
Proof.
  revert a b. induction l as [|i l IH]; intros a b Hab.
  - simpl. lia.
  - cbn [foldl map foldr]. rewrite FFMAX_max, FFMIN_min.
    specialize (IH (Z.max a (g i)) (Z.min b (g i)) ltac:(lia)).
    destruct (foldl _ _ l) as [my_max my_min].
    rewrite IH. generalize (foldr Z.max 0 (map (fun i => Z.abs (g i)) l)).
    intros r. lia.
Qed.

Lemma my_range_covers (g : nat -> Z) (l : list nat) (a b : Z) :
  let '(my_max, my_min) :=
    foldl (fun '(my_max, my_min) i => (FFMAX my_max (g i), FFMIN my_min (g i))) (a, b) l in
  (a <= my_max /\ my_min <= b) /\ forall i, i ∈ l -> my_min <= g i <= my_max.
Proof.
  revert a b. induction l as [|x l IH]; intros a b.
  - simpl. split; [lia|]. intros i Hi. inversion Hi.
  - cbn [foldl]. rewrite FFMAX_max, FFMIN_min.
    specialize (IH (Z.max a (g x)) (Z.min b (g x))).
    destruct (foldl _ _ l) as [my_max my_min].
    destruct IH as [[Ha Hb] IH]. split; [lia|].
    intros i Hi. apply elem_of_cons in Hi as [-> | Hi]; [lia | apply IH, Hi].
Qed.

Lemma to_int_in_int (z : Z) : in_int z -> to_int z = z.
Proof.
  unfold in_int, INT_MIN, INT_MAX, to_int, to_unsigned. intros Hz.
  destruct (Z_lt_le_dec z 0) as [Hneg | Hpos].
  - replace (z mod 2 ^ 32) with (z + 2 ^ 32)
      by (apply (Z.mod_unique _ _ (-1)); lia).
    destruct (z + 2 ^ 32 <? 2 ^ 31) eqn:E; lia.
  - rewrite Z.mod_small by lia.
    destruct (z <? 2 ^ 31) eqn:E; lia.
Qed.

Lemma shift_factor (s : MpegEncContext) (d : Z) :
  Z.shiftl d (lnot (quarter_sample s))
  = d * (if truthy (quarter_sample s) then 1 else 2).
Proof.
  unfold lnot, truthy. rewrite Z.shiftl_mul_pow2.
  - destruct (quarter_sample s =? 0); reflexivity.
  - destruct (quarter_sample s =? 0); lia.
Qed.

Lemma max_abs_my_nonneg (s : MpegEncContext) (dir : Z) (n : nat) :
  0 <= max_abs_my s dir n.
Proof.
  unfold max_abs_my. generalize (seq 0 n). intros l.
  induction l as [|i l IH]; cbn [map foldr]; lia.
Qed.

Lemma max_abs_my_bound (s : MpegEncContext) (dir : Z) (n i : nat) :
  (i < n)%nat -> Z.abs (mv s dir (Z.of_nat i) 1) <= max_abs_my s dir n.
Proof.
  intros Hi. unfold max_abs_my.
  assert (Hin : i ∈ seq 0 n) by (apply elem_of_seq; lia).
  revert Hin. generalize (seq 0 n). intros l.
  induction l as [|j l IH]; intros Hin; [inversion Hin|].
  cbn [map foldr]. apply elem_of_cons in Hin as [-> | Hin]; [lia|].
  specialize (IH Hin). lia.
Qed.

(** The fallback: field pictures, [mcsel] and the geometries the switch
    does not list. *)
Lemma lowest_referenced_row_unhandled (s : MpegEncContext) (dir : Z) :
  in_int (mb_height s - 1) ->
  picture_structure s <> PICT_FRAME \/ mcsel s <> 0 \/ handled_mvs (mv_type s) = None ->
  lowest_referenced_row s dir = mb_height s - 1.
Proof.
  intros Hh Hcase. unfold lowest_referenced_row, truthy.
  rewrite (to_int_in_int _ Hh).
  destruct (picture_structure s =? PICT_FRAME) eqn:Eps; [|reflexivity].
  destruct (mcsel s =? 0) eqn:Emc; [|reflexivity].
  destruct Hcase as [Hps | [Hmc | Hmv]]; [lia | lia |].
  simpl. rewrite Hmv. reflexivity.
Qed.

Lemma lowest_referenced_row_handled (s : MpegEncContext) (dir : Z) (n : nat) :
  in_int (mb_height s - 1) ->
  picture_structure s = PICT_FRAME -> mcsel s = 0 ->
  handled_mvs (mv_type s) = Some n ->
  rows_fit s dir n ->
  lowest_referenced_row s dir =
  av_clip (mb_y s + displacement_rows s (max_abs_my s dir n)) 0 (mb_height s - 1).
Proof.
  intros Hh Hps Hmc Hmv [Hfit Hrow]. unfold lowest_referenced_row, truthy.
  rewrite Hps, Hmc, Hmv. simpl negb. simpl orb. cbv iota.
  assert (Hn : exists m, n = S m).
  { destruct (mv_type s); simpl in Hmv; inversion Hmv; eauto. }
  destruct Hn as [m ->].
  pose proof (max_abs_my_nonneg s dir (S m)) as Hd0.
  pose proof (max_abs_my_bound s dir (S m) 0 ltac:(lia)) as Hb0.
  assert (Hf : 1 <= (if negb (quarter_sample s =? 0) then 1 else 2) <= 2)
    by (destruct (quarter_sample s =? 0); simpl; lia).
  fold (truthy (quarter_sample s)) in Hf.
  assert (Hd : max_abs_my s dir (S m) <= INT_MAX - 63) by nia.
  assert (Hrange :
    let '(my_max, my_min) := my_range s dir (S m) in
    Z.max (- my_min) my_max = max_abs_my s dir (S m) /\ my_min <= INT_MAX).
  { unfold my_range, max_abs_my. cbn [seq foldl map foldr].
    unfold INT_MAX in Hd.
    rewrite FFMAX_max, FFMIN_min.
    replace (Z.max INT_MIN (mv s dir (Z.of_nat 0) 1)) with (mv s dir (Z.of_nat 0) 1)
      by (unfold INT_MIN; lia).
    replace (Z.min INT_MAX (mv s dir (Z.of_nat 0) 1)) with (mv s dir (Z.of_nat 0) 1)
      by (unfold INT_MAX; lia).
    pose proof (my_range_fold (fun i => mv s dir (Z.of_nat i) 1) (seq 1 m)
                  (mv s dir (Z.of_nat 0) 1) (mv s dir (Z.of_nat 0) 1) ltac:(lia)) as Hf'.
    pose proof (my_range_covers (fun i => mv s dir (Z.of_nat i) 1) (seq 1 m)
                  (mv s dir (Z.of_nat 0) 1) (mv s dir (Z.of_nat 0) 1)) as Hc.
    destruct (foldl _ _ (seq 1 m)) as [my_max my_min].
    destruct Hc as [[_ Hmin] _]. split.
    - rewrite Hf'.
      generalize (foldr Z.max 0 (map (fun i => Z.abs (mv s dir (Z.of_nat i) 1)) (seq 1 m))).
      generalize (mv s dir (Z.of_nat 0) 1). intros; lia.
    - unfold INT_MAX. lia. }
  destruct (my_range s dir (S m)) as [my_max my_min].
  destruct Hrange as [Hrange Hmin].
  rewrite (to_int_in_int (- my_min))
    by (unfold in_int, INT_MIN, INT_MAX in *; lia).
  rewrite FFMAX_max, Hrange, shift_factor.
  rewrite (to_int_in_int (max_abs_my s dir (S m) * _))
    by (unfold in_int, INT_MIN, INT_MAX in *; nia).
  rewrite (to_int_in_int (_ + 63))
    by (unfold in_int, INT_MIN, INT_MAX in *; nia).
  rewrite <- shift_factor, row_offset.
  rewrite (to_int_in_int _ Hrow), (to_int_in_int _ Hh). reflexivity.
Qed.

(** C6 (as the code has it): [lowest_referenced_row] returns the last
    macroblock row, [mb_height - 1], for every macroblock of a picture
    that is not frame-structured, for every macroblock with [mcsel] set
    (global motion compensation), and for every vector geometry other than
    16x16, 16x8 and 8x8; for these three geometries in a frame picture
    without [mcsel], and vectors small enough for the row arithmetic to
    stay within [int], it returns the current macroblock row plus the
    largest absolute vertical displacement converted to rows (rounded up),
    clipped to [0, mb_height - 1].  Alternate scan plays no part. *)
Theorem lowest_referenced_row_cases (s : MpegEncContext) (dir : Z) :
  in_int (mb_height s - 1) ->
  (picture_structure s <> PICT_FRAME \/ mcsel s <> 0 \/
   handled_mvs (mv_type s) = None ->
   lowest_referenced_row s dir = mb_height s - 1) /\
  (forall n : nat,
     picture_structure s = PICT_FRAME -> mcsel s = 0 ->
     handled_mvs (mv_type s) = Some n ->
     rows_fit s dir n ->
     lowest_referenced_row s dir =
     av_clip (mb_y s + displacement_rows s (max_abs_my s dir n)) 0 (mb_height s - 1) /\
     (0 < mb_height s -> 0 <= lowest_referenced_row s dir <= mb_height s - 1)).
Proof.
  intros Hh. split.
  - apply lowest_referenced_row_unhandled. exact Hh.
  - intros n Hps Hmc Hmv Hfit.
    rewrite (lowest_referenced_row_handled s dir n Hh Hps Hmc Hmv Hfit).
    split; [reflexivity|]. intros Hpos. apply av_clip_range. lia.
Qed.

(** ** The edge tests of lowres motion compensation *)

Lemma to_unsigned_int (x : Z) :
  in_int x -> to_unsigned x = if x <? 0 then x + 2 ^ 32 else x.
Proof.
  unfold in_int, INT_MIN, INT_MAX, to_unsigned. intros Hx.
  destruct (x <? 0) eqn:E.
  - symmetry. apply Z.mod_unique with (q := -1); lia.
  - apply Z.mod_small. lia.
Qed.

(** [(unsigned) x > FFMAX(bound, 0)] for a bound that is not negative:
    [x] is left of the picture or beyond the bound. *)
Lemma edge_test (x bound : Z) :
  in_int x -> 0 <= bound <= INT_MAX ->
  (to_unsigned x >? FFMAX bound 0) = true <-> x < 0 \/ bound < x.
Proof.
  intros Hx Hb. rewrite (to_unsigned_int x Hx), FFMAX_max.
  unfold in_int, INT_MIN, INT_MAX in *.
  destruct (x <? 0) eqn:E; lia.
Qed.

Lemma le_div_pow2 (q a n : Z) : 0 <= n -> q <= Z.shiftr a n <-> q * 2 ^ n <= a.
Proof.
  intros Hn. rewrite Z.shiftr_div_pow2 by lia.
  assert (Hp : 0 < 2 ^ n) by (apply Z.pow_pos_nonneg; lia).
  split; intros Hq.
  - pose proof (Z.mul_div_le a (2 ^ n) Hp). nia.
  - apply Z.div_le_lower_bound; lia.
Qed.

(** The two-sided test of [hpel_motion_lowres] and [mpeg_motion_lowres]
    as a statement about the source rectangle, in frame coordinates. *)
Lemma rect_test (x y cols rows mx my h_edge v_edge fb : Z) :
  in_int x -> in_int y -> in_int h_edge -> in_int v_edge ->
  0 <= cols -> 0 <= rows -> 0 <= mx -> 0 <= my -> 0 <= fb ->
  cols + mx <= h_edge -> (rows + my) * 2 ^ fb <= v_edge ->
  (to_unsigned x >? FFMAX (h_edge - mx - cols) 0) ||
  (to_unsigned y >? FFMAX (Z.shiftr v_edge fb - my - rows) 0) = true <->
  ~ rect_inside x (y * 2 ^ fb) (cols + mx) ((rows + my) * 2 ^ fb) h_edge v_edge.
Proof.
  intros Hx Hy Hh Hv Hc Hr Hmx Hmy Hfb Hfitx Hfity.
  assert (Hp : 0 < 2 ^ fb) by (apply Z.pow_pos_nonneg; lia).
  assert (Hvs : rows + my <= Z.shiftr v_edge fb) by (apply le_div_pow2; lia).
  assert (Hvle : Z.shiftr v_edge fb <= v_edge).
  { rewrite Z.shiftr_div_pow2 by lia.
    unfold in_int, INT_MIN, INT_MAX in *.
    apply Z.div_le_upper_bound; nia. }
  rewrite orb_true_iff.
  rewrite (edge_test x) by (unfold in_int, INT_MAX in *; lia).
  rewrite (edge_test y) by (unfold in_int, INT_MAX in *; lia).
  unfold rect_inside.
  pose proof (le_div_pow2 (y + (rows + my)) v_edge fb Hfb) as Hdiv.
  split.
  - intros [[Hl | Hr'] | [Hl | Hr']] (H1 & H2 & H3 & H4); try lia; try nia.
  - intros Hout.
    destruct (Z_lt_dec x 0); [lia|].
    destruct (Z_lt_dec (h_edge - mx - cols) x); [lia|].
    destruct (Z_lt_dec y 0); [lia|].
    destruct (Z_lt_dec (Z.shiftr v_edge fb - my - rows) y); [lia|].
    exfalso. apply Hout. repeat split; try lia; try nia.
Qed.

Lemma lnotnot_nonneg (z : Z) : 0 <= lnotnot z <= 1.
Proof. unfold lnotnot. destruct (z =? 0); lia. Qed.

Lemma bool_to_int_1 (b : bool) : bool_to_int b = 1 <-> b = true.
Proof. destruct b; simpl; split; intros; try lia; try discriminate; reflexivity. Qed.

Lemma hpel_motion_lowres_emu (s : MpegEncContext)
    (dest src fb fs src_x src_y width height stride h_edge v_edge w h mx my
     sx sy x y : Z) :
  hpel_source s src_x src_y mx my = (sx, sy, x, y) ->
  in_int x -> in_int y -> in_int h_edge -> in_int v_edge ->
  0 <= w -> 0 <= h -> 0 <= fb ->
  w + lnotnot sx <= h_edge -> (h + lnotnot sy) * 2 ^ fb <= v_edge ->
  hp_emu (hpel_motion_lowres s dest src fb fs src_x src_y width height stride
            h_edge v_edge w h mx my) = 1 <->
  ~ rect_inside x (y * 2 ^ fb) (w + lnotnot sx) ((h + lnotnot sy) * 2 ^ fb)
      h_edge v_edge.
Proof.
  intros Hsrc Hx Hy Hh Hv Hw Hh0 Hfb Hfx Hfy.
  unfold hpel_motion_lowres. rewrite Hsrc. cbn [hp_emu].
  rewrite bool_to_int_1.
  pose proof (lnotnot_nonneg sx). pose proof (lnotnot_nonneg sy).
  apply rect_test; lia || assumption.
Qed.

Lemma mpeg_motion_lowres_emu (s : MpegEncContext)
    (dest_y dest_cb dest_cr fb bottom_field fs ref0 ref1 ref2 mx my h mb_y_
     sx sy x y uvsx uvsy uvx uvy : Z) :
  lowres_source s fb bottom_field fs mx my mb_y_
    = ((sx, sy, x, y), (uvsx, uvsy, uvx, uvy)) ->
  let lowres := Avctx.lowres (avctx s) in
  let block_s := Z.shiftr 8 lowres in
  let h_edge := Z.shiftr (h_edge_pos s) lowres in
  let v_edge := Z.shiftr (v_edge_pos s) lowres in
  let r := mpeg_motion_lowres s dest_y dest_cb dest_cr fb bottom_field fs
             ref0 ref1 ref2 mx my h mb_y_ in
  in_int x -> in_int y -> in_int h_edge -> in_int v_edge ->
  0 <= block_s -> 0 <= h -> 0 <= fb ->
  2 * block_s + lnotnot sx <= h_edge -> (h + lnotnot sy) * 2 ^ fb <= v_edge ->
  (ml_emu r = true <->
   ~ rect_inside x (y * 2 ^ fb) (2 * block_s + lnotnot sx)
       ((h + lnotnot sy) * 2 ^ fb) h_edge v_edge \/ uvy < 0) /\
  (is_Some (ml_edge_y r) <-> ml_emu r = true) /\
  (is_Some (ml_edge_cb r) <-> ml_emu r = true /\ chroma_enabled s = true) /\
  (is_Some (ml_edge_cr r) <-> ml_emu r = true /\ chroma_enabled s = true).
Proof.
  intros Hsrc lowres block_s h_edge v_edge r Hx Hy Hh Hv Hb Hh0 Hfb Hfx Hfy.
  subst r. unfold mpeg_motion_lowres. rewrite Hsrc.
  cbn [ml_emu ml_edge_y ml_edge_cb ml_edge_cr].
  pose proof (lnotnot_nonneg sx). pose proof (lnotnot_nonneg sy).
  pose proof (rect_test x y (2 * block_s) h (lnotnot sx) (lnotnot sy)
                h_edge v_edge fb Hx Hy Hh Hv ltac:(lia) Hh0 ltac:(lia) ltac:(lia)
                Hfb Hfx Hfy) as Hrect.
  fold lowres in Hrect |- *.
  assert (Hemu :
    mpeg_motion_lowres_needs_emu s fb h sx sy x y uvy = true <->
    ~ rect_inside x (y * 2 ^ fb) (2 * block_s + lnotnot sx)
        ((h + lnotnot sy) * 2 ^ fb) h_edge v_edge \/ uvy < 0).
  { unfold mpeg_motion_lowres_needs_emu.
    fold lowres. fold block_s. fold h_edge. fold v_edge.
    rewrite <- Hrect. rewrite !orb_true_iff, Z.ltb_lt. tauto. }
  split; [exact Hemu|].
  destruct (mpeg_motion_lowres_needs_emu s fb h sx sy x y uvy);
    destruct (chroma_enabled s); cbn [andb];
    (split; [|split]); (split; intros Hq);
    first [ reflexivity | (split; reflexivity) | (eexists; reflexivity)
          | discriminate | (destruct Hq as [? Hq']; discriminate) ].
Qed.

(** Where the picture can hold the source rectangle the edge tests are
    exact.  In [hpel_motion_lowres] edge emulation is then invoked exactly
    when the source rectangle leaves the picture on some side.  The
    rectangle is the block of [w] by [h] samples at the displaced position,
    one column wider when the horizontal phase is not zero and one row
    higher when the vertical phase is not zero, with rows counted in frame
    lines, that is doubled for a field-based block.  [mpeg_motion_lowres]
    makes one such test, on the luma rectangle of [2 * block_s] by [h]
    samples, and also takes the emulation branch when the chroma row
    [uvsrc_y] is negative; the emulation of the two chroma planes follows
    that one decision (and the gray flag). *)
Theorem lowres_edge_emulation (s : MpegEncContext) :
  (forall dest src fb fs src_x src_y width height stride h_edge v_edge w h mx my
          sx sy x y,
     hpel_source s src_x src_y mx my = (sx, sy, x, y) ->
     in_int x -> in_int y -> in_int h_edge -> in_int v_edge ->
     0 <= w -> 0 <= h -> 0 <= fb ->
     w + lnotnot sx <= h_edge -> (h + lnotnot sy) * 2 ^ fb <= v_edge ->
     hp_emu (hpel_motion_lowres s dest src fb fs src_x src_y width height stride
               h_edge v_edge w h mx my) = 1 <->
     ~ rect_inside x (y * 2 ^ fb) (w + lnotnot sx) ((h + lnotnot sy) * 2 ^ fb)
         h_edge v_edge) /\
  (forall dest_y dest_cb dest_cr fb bottom_field fs ref0 ref1 ref2 mx my h mb_y_
          sx sy x y uvsx uvsy uvx uvy,
     lowres_source s fb bottom_field fs mx my mb_y_
       = ((sx, sy, x, y), (uvsx, uvsy, uvx, uvy)) ->
     let lowres := Avctx.lowres (avctx s) in
     let block_s := Z.shiftr 8 lowres in
     let h_edge := Z.shiftr (h_edge_pos s) lowres in
     let v_edge := Z.shiftr (v_edge_pos s) lowres in
     let r := mpeg_motion_lowres s dest_y dest_cb dest_cr fb bottom_field fs
                ref0 ref1 ref2 mx my h mb_y_ in
     in_int x -> in_int y -> in_int h_edge -> in_int v_edge ->
     0 <= block_s -> 0 <= h -> 0 <= fb ->
     2 * block_s + lnotnot sx <= h_edge -> (h + lnotnot sy) * 2 ^ fb <= v_edge ->
     (ml_emu r = true <->
      ~ rect_inside x (y * 2 ^ fb) (2 * block_s + lnotnot sx)
          ((h + lnotnot sy) * 2 ^ fb) h_edge v_edge \/ uvy < 0) /\
     (is_Some (ml_edge_y r) <-> ml_emu r = true) /\
     (is_Some (ml_edge_cb r) <-> ml_emu r = true /\ chroma_enabled s = true) /\
     (is_Some (ml_edge_cr r) <-> ml_emu r = true /\ chroma_enabled s = true)).
Proof.
  split.
  - intros. eapply hpel_motion_lowres_emu; eassumption.
  - intros. eapply mpeg_motion_lowres_emu; eassumption.
Qed.

(** At the boundary: a block whose rectangle ends exactly on the right
    edge is read in place, and the same block one sample further right is
    emulated. *)
Lemma hpel_motion_lowres_boundary (s : MpegEncContext)
    (dest src fb fs src_x src_y width height stride h_edge v_edge w h mx my
     sx sy x y : Z) :
  hpel_source s src_x src_y mx my = (sx, sy, x, y) ->
  in_int x -> in_int y -> in_int h_edge -> in_int v_edge ->
  0 <= w -> 0 <= h -> 0 <= fb ->
  w + lnotnot sx <= h_edge -> (h + lnotnot sy) * 2 ^ fb <= v_edge ->
  0 <= y -> (y + h + lnotnot sy) * 2 ^ fb <= v_edge ->
  let emu := hp_emu (hpel_motion_lowres s dest src fb fs src_x src_y width height
                       stride h_edge v_edge w h mx my) in
  (x + w + lnotnot sx = h_edge -> emu = 0) /\
  (x + w + lnotnot sx = h_edge + 1 -> emu = 1).
Proof.
  intros Hsrc Hx Hy Hh Hv Hw Hh0 Hfb Hfx Hfy Hy0 Hyfit emu.
  pose proof (hpel_motion_lowres_emu s dest src fb fs src_x src_y width height
                stride h_edge v_edge w h mx my sx sy x y Hsrc Hx Hy Hh Hv Hw Hh0
                Hfb Hfx Hfy) as Hemu.
  fold emu in Hemu.
  assert (Hp : 0 < 2 ^ fb) by (apply Z.pow_pos_nonneg; lia).
  pose proof (lnotnot_nonneg sx).
  assert (Hcases : emu = 0 \/ emu = 1).
  { subst emu. unfold hpel_motion_lowres. rewrite Hsrc. cbn [hp_emu].
    match goal with |- context [bool_to_int ?b] => destruct b end; simpl; auto. }
  split; intros Hpos.
  - destruct Hcases as [E | E]; [exact E|]. exfalso. apply Hemu; [exact E|].
    unfold rect_inside. repeat split; try lia; try nia.
  - apply Hemu. unfold rect_inside. intros (H1 & H2 & H3 & H4). lia.
Qed.

(** ** The picture pool *)

Lemma slot_index_slot_addr (s : MpegEncContext) (i : nat) :
  picture s <> 0 -> 0 < sizeof_Picture -> (i < MAX_PICTURE_COUNT)%nat ->
  slot_index s (slot_addr (picture s) (Z.of_nat i)) = Some i.
Proof.
  intros Hp Hsz Hi. unfold slot_index, slot_addr.
  rewrite decide_True.
  - f_equal. replace (picture s + Z.of_nat i * sizeof_Picture - picture s)
      with (Z.of_nat i * sizeof_Picture) by lia.
    rewrite Z.div_mul by lia. apply Nat2Z.id.
  - repeat split; try lia; try nia.
    replace (picture s + Z.of_nat i * sizeof_Picture - picture s)
      with (Z.of_nat i * sizeof_Picture) by lia.
    apply Z.mod_mul. lia.
Qed.

Lemma slot_index_inv (s : MpegEncContext) (p : Z) (i : nat) :
  slot_index s p = Some i ->
  picture s <> 0 /\ 0 < sizeof_Picture /\ (i < MAX_PICTURE_COUNT)%nat /\
  p = slot_addr (picture s) (Z.of_nat i).
Proof.
  unfold slot_index, slot_addr. case_decide as Hd; [|discriminate].
  destruct Hd as (Hp & Hsz & Hr & Hm). intros [= <-].
  assert (Hq : 0 <= (p - picture s) / sizeof_Picture) by (apply Z.div_pos; lia).
  assert (Hlt : (p - picture s) / sizeof_Picture < Z.of_nat MAX_PICTURE_COUNT).
  { apply Z.div_lt_upper_bound; lia. }
  repeat split; try assumption; try lia.
  rewrite Z2Nat.id by lia.
  assert (Hnz : sizeof_Picture <> 0) by lia.
  pose proof (Z.div_mod (p - picture s) sizeof_Picture Hnz) as Hdm.
  rewrite Hm, Z.add_0_r, Z.mul_comm in Hdm. lia.
Qed.

Section Pool.
Variable w0 : World.
Hypothesis Hbase : picture (ctx w0) <> 0.
Hypothesis Hsize : 0 < sizeof_Picture.

Lemma load_pic_slot (l : list Picture) (i : nat) (pic : Picture) :
  (i < MAX_PICTURE_COUNT)%nat -> l !! i = Some pic ->
  load_pic (slot_addr (picture (ctx w0)) (Z.of_nat i)) (with_pool w0 l)
  = (Next pic, with_pool w0 l).
Proof.
  intros Hi Hl. unfold load_pic.
  change (slot_index (ctx (with_pool w0 l)))
    with (slot_index (set_pool l (ctx w0))).
  change (slot_addr (picture (ctx w0)))
    with (slot_addr (picture (set_pool l (ctx w0)))).
  rewrite slot_index_slot_addr by assumption.
  simpl. rewrite Hl. reflexivity.
Qed.

Lemma store_pic_slot (l : list Picture) (i : nat) (pic : Picture) :
  (i < MAX_PICTURE_COUNT)%nat -> (i < length l)%nat ->
  store_pic (slot_addr (picture (ctx w0)) (Z.of_nat i)) pic (with_pool w0 l)
  = (Next tt, with_pool w0 (<[i := pic]> l)).
Proof.
  intros Hi Hl. unfold store_pic.
  change (slot_index (ctx (with_pool w0 l)))
    with (slot_index (set_pool l (ctx w0))).
  change (slot_addr (picture (ctx w0)))
    with (slot_addr (picture (set_pool l (ctx w0)))).
  rewrite slot_index_slot_addr by assumption.
  change (pool (ctx (with_pool w0 l))) with l.
  rewrite decide_True by assumption. reflexivity.
Qed.

Lemma update_pic_slot (g : Picture -> Picture) (l : list Picture) (i : nat)
    (pic : Picture) :
  (i < MAX_PICTURE_COUNT)%nat -> l !! i = Some pic ->
  update_pic (slot_addr (picture (ctx w0)) (Z.of_nat i)) g (with_pool w0 l)
  = (Next tt, with_pool w0 (<[i := g pic]> l)).
Proof.
  intros Hi Hl. unfold update_pic.
  rewrite (bind_next _ _ _ _ _ (load_pic_slot l i pic Hi Hl)).
  apply store_pic_slot; [assumption|]. eapply lookup_lt_Some; eassumption.
Qed.

(** A loop over the slots [a .. a + n - 1] whose body rewrites slot [i]
    with [F i] rewrites the range with [F]. *)
Lemma forM_pool (body : nat -> M unit) (F : nat -> Picture -> Picture) (N : nat) :
  (forall i l pic, (i < N)%nat -> length l = N -> l !! i = Some pic ->
     body i (with_pool w0 l) = (Next tt, with_pool w0 (<[i := F i pic]> l))) ->
  forall n a l, (a + n <= N)%nat -> length l = N ->
    forM_ (seq a n) body (with_pool w0 l)
    = (Next tt, with_pool w0 (map_range F a n l)).
Proof.
  intros Hbody. induction n as [|n IH]; intros a l Han Hl.
  - simpl. unfold mret, M_ret. do 2 f_equal. unfold map_range.
    apply list_eq. intros j. rewrite list_lookup_imap.
    destruct (l !! j); simpl; [|reflexivity].
    rewrite decide_False by lia. reflexivity.
  - cbn [seq forM_].
    destruct (lookup_lt_is_Some_2 l a ltac:(lia)) as [pic Hpic].
    rewrite (bind_next _ _ _ _ _ (Hbody a l pic ltac:(lia) Hl Hpic)).
    rewrite IH by (rewrite ?length_insert; lia).
    do 2 f_equal. unfold map_range. apply list_eq. intros j.
    rewrite !list_lookup_imap.
    destruct (decide (j = a)) as [-> | Hne].
    + rewrite list_lookup_insert_eq by lia. rewrite Hpic. simpl.
      rewrite decide_False by lia. rewrite decide_True by lia. reflexivity.
    + rewrite list_lookup_insert_ne by congruence.
      destruct (l !! j); simpl; [|reflexivity].
      repeat case_decide; try reflexivity; lia.
Qed.

End Pool.

Lemma map_range_lookup (F : nat -> Picture -> Picture) (a n : nat) (l : list Picture)
    (j : nat) :
  (a <= j < a + n)%nat -> map_range F a n l !! j = F j <$> l !! j.
Proof.
  intros Hj. unfold map_range. rewrite list_lookup_imap.
  destruct (l !! j); simpl; [|reflexivity]. rewrite decide_True by lia. reflexivity.
Qed.

Lemma map_range_length (F : nat -> Picture -> Picture) (a n : nat) (l : list Picture) :
  length (map_range F a n l) = length l.
Proof. unfold map_range. apply length_imap. Qed.

Lemma map_range_all (g : Picture -> Picture) (l : list Picture) :
  map_range (fun _ => g) 0 (length l) l = map g l.
Proof.
  apply list_eq. intros j. rewrite list_lookup_fmap.
  destruct (decide (j < length l)%nat).
  - apply map_range_lookup. lia.
  - rewrite !lookup_ge_None_2; [reflexivity | lia | rewrite map_range_length; lia].
Qed.

Lemma unref_at_slot (w0 : World) (l : list Picture) (i : nat) (pic : Picture) :
  picture (ctx w0) <> 0 -> 0 < sizeof_Picture ->
  (i < MAX_PICTURE_COUNT)%nat -> l !! i = Some pic ->
  unref_at (slot_addr (picture (ctx w0)) (Z.of_nat i)) (with_pool w0 l)
  = (Next tt, with_pool w0 (<[i := ff_mpeg_unref_picture (avctx (ctx w0)) pic]> l)).
Proof.
  intros Hb Hs Hi Hl. unfold unref_at. rewrite bind_unfold. unfold get_ctx.
  apply (update_pic_slot w0 Hb Hs); assumption.
Qed.

(** The loop that unreferences every slot of the pool. *)
Lemma unref_all_slots (w : World) :
  pool_allocated (ctx w) ->
  forM_ (seq 0 MAX_PICTURE_COUNT)
        (fun i => unref_at (slot_addr (picture (ctx w)) (Z.of_nat i))) w
  = (Next tt, with_pool w (map (ff_mpeg_unref_picture (avctx (ctx w))) (pool (ctx w)))).
Proof.
  intros (Hb & Hs & Hlen).
  rewrite <- (with_pool_same w) at 1.
  rewrite (forM_pool w _ (fun _ => ff_mpeg_unref_picture (avctx (ctx w)))
             MAX_PICTURE_COUNT).
  - rewrite <- Hlen at 1. rewrite map_range_all. reflexivity.
  - intros i l pic Hi Hl Hpic. apply unref_at_slot; assumption.
  - lia.
  - exact Hlen.
Qed.

(** ** ff_mpeg_flush *)

(** C8: on a context whose pool is allocated, [ff_mpeg_flush] sets the
    three role pointers to NULL, unreferences every picture of the pool
    and the three role-owned pictures, and zeroes the macroblock position,
    the bitstream-buffer size and [pp_time]; the pool array itself, the
    scratch buffers, the line sizes, the dimensions, the bitstream buffer
    and its allocated size, and sample memory stay as they are. *)
Theorem flush_resets_roles (w : World) :
  pool_allocated (ctx w) ->
  exists w',
    ff_mpeg_flush w = (Next tt, w') /\
    (current_picture_ptr (ctx w') = 0 /\ last_picture_ptr (ctx w') = 0 /\
     next_picture_ptr (ctx w') = 0) /\
    pool (ctx w') = map (ff_mpeg_unref_picture (avctx (ctx w))) (pool (ctx w)) /\
    (current_picture (ctx w')
       = ff_mpeg_unref_picture (avctx (ctx w)) (current_picture (ctx w)) /\
     last_picture (ctx w')
       = ff_mpeg_unref_picture (avctx (ctx w)) (last_picture (ctx w)) /\
     next_picture (ctx w')
       = ff_mpeg_unref_picture (avctx (ctx w)) (next_picture (ctx w))) /\
    (mb_x (ctx w') = 0 /\ mb_y (ctx w') = 0 /\
     bitstream_buffer_size (ctx w') = 0 /\ pp_time (ctx w') = 0) /\
    (picture (ctx w') = picture (ctx w) /\
     length (pool (ctx w')) = length (pool (ctx w)) /\
     sc (ctx w') = sc (ctx w) /\ me (ctx w') = me (ctx w) /\
     linesize (ctx w') = linesize (ctx w) /\
     uvlinesize (ctx w') = uvlinesize (ctx w) /\
     width (ctx w') = width (ctx w) /\ height (ctx w') = height (ctx w) /\
     mb_width (ctx w') = mb_width (ctx w) /\
     mb_height (ctx w') = mb_height (ctx w) /\
     bitstream_buffer (ctx w') = bitstream_buffer (ctx w) /\
     allocated_bitstream_buffer_size (ctx w')
       = allocated_bitstream_buffer_size (ctx w) /\
     context_initialized (ctx w') = context_initialized (ctx w) /\
     mem w' = mem w).
Proof.
  intros Hpool. pose proof Hpool as (Hb & Hs & Hlen).
  unfold ff_mpeg_flush. rewrite bind_unfold. unfold get_ctx at 1.
  unfold truthy. rewrite (proj2 (Z.eqb_neq _ _) Hb). cbn [negb].
  rewrite (bind_next _ _ _ _ _ (unref_all_slots w Hpool)).
  destruct FF_API_FLAG_TRUNCATED; eexists; (split; [reflexivity|]);
    cbn; rewrite ?length_map; repeat split; reflexivity.
Qed.

(** ** The release pass of ff_mpv_frame_start *)

Lemma release_forgotten_run (w : World) :
  pool_allocated (ctx w) ->
  release_forgotten w =
  (Next tt,
   with_pool w
     (map_range
        (fun i pic =>
           let p := slot_addr (picture (ctx w)) (Z.of_nat i) in
           if negb (truthy (Pic.reference pic)) ||
              (negb (p =? last_picture_ptr (ctx w)) &&
               negb (p =? next_picture_ptr (ctx w)) &&
               negb (truthy (Pic.needs_realloc pic)))
           then ff_mpeg_unref_picture (avctx (ctx w)) pic else pic)
        0 MAX_PICTURE_COUNT (pool (ctx w)))).
Proof.
  intros (Hb & Hs & Hlen). unfold release_forgotten.
  rewrite <- (with_pool_same w) at 1.
  apply (forM_pool w) with (N := MAX_PICTURE_COUNT); [|lia|exact Hlen].
  intros i l pic Hi Hl Hpic.
  rewrite bind_unfold. unfold get_ctx at 1. cbv zeta.
  change (picture (ctx (with_pool w l))) with (picture (ctx w)).
  change (last_picture_ptr (ctx (with_pool w l))) with (last_picture_ptr (ctx w)).
  change (next_picture_ptr (ctx (with_pool w l))) with (next_picture_ptr (ctx w)).
  rewrite (bind_next _ _ _ _ _ (load_pic_slot w Hb Hs l i pic Hi Hpic)).
  match goal with |- context [if ?c then unref_at _ else _] => destruct c end.
  - apply unref_at_slot; assumption.
  - rewrite list_insert_id by exact Hpic. reflexivity.
Qed.

(** C4 (as the code has it): the release pass at the start of a frame
    unreferences exactly the pool slots whose [reference] flag is zero, and
    those that are neither the target of the last-reference pointer nor of
    the next-reference pointer and are not pending [needs_realloc]; every
    other slot, and everything outside the pool, is left as it was.  The
    current-picture pointer plays no part, and a picture flagged as a
    reference that no reference role points to any more is released. *)
Theorem release_pass_slots (w : World) :
  pool_allocated (ctx w) ->
  exists l',
    release_forgotten w = (Next tt, with_pool w l') /\
    length l' = length (pool (ctx w)) /\
    forall (i : nat) (pic : Picture),
      pool (ctx w) !! i = Some pic ->
      let p := slot_addr (picture (ctx w)) (Z.of_nat i) in
      (Pic.reference pic = 0 \/
       (p <> last_picture_ptr (ctx w) /\ p <> next_picture_ptr (ctx w) /\
        Pic.needs_realloc pic = 0) ->
       l' !! i = Some (ff_mpeg_unref_picture (avctx (ctx w)) pic)) /\
      (Pic.reference pic <> 0 /\
       (p = last_picture_ptr (ctx w) \/ p = next_picture_ptr (ctx w) \/
        Pic.needs_realloc pic <> 0) ->
       l' !! i = Some pic).
Proof.
  intros Hpool. pose proof Hpool as (Hb & Hs & Hlen).
  eexists. split; [apply release_forgotten_run; exact Hpool|].
  split; [apply map_range_length|].
  intros i pic Hpic p.
  assert (Hi : (i < MAX_PICTURE_COUNT)%nat).
  { rewrite <- Hlen. eapply lookup_lt_Some; eassumption. }
  rewrite map_range_lookup by lia. rewrite Hpic. cbn [fmap option_fmap option_map].
  fold p. unfold truthy.
  split.
  - intros [Href | (Hl & Hn & Hr)].
    + rewrite Href. reflexivity.
    + rewrite Hr. rewrite (proj2 (Z.eqb_neq _ _) Hl), (proj2 (Z.eqb_neq _ _) Hn).
      cbn. rewrite orb_true_r. reflexivity.
  - intros (Href & Hrole).
    rewrite (proj2 (Z.eqb_neq _ _) Href). cbn [negb orb].
    destruct Hrole as [Hl | [Hn | Hr]].
    + rewrite (proj2 (Z.eqb_eq _ _) Hl). reflexivity.
    + rewrite (proj2 (Z.eqb_eq _ _) Hn). cbn. rewrite andb_false_r. reflexivity.
    + rewrite (proj2 (Z.eqb_neq _ _) Hr). cbn. rewrite !andb_false_r. reflexivity.
Qed.

(** ** Statements that leave a view alone *)

Section Tame.
Context {X : Type} (v : World -> X).

Lemma tame_ret {A} (a : A) : tame v (mret a).
Proof. intros w. split; [reflexivity | discriminate]. Qed.

Lemma tame_bind {A B} (m : M A) (k : A -> M B) :
  tame v m -> (forall a, tame v (k a)) -> tame v (m ≫= k).
Proof.
  intros Hm Hk w. rewrite bind_unfold. destruct (Hm w) as [Hv Hr].
  destruct (m w) as [[a | r | |] w1]; simpl in *.
  - destruct (Hk a w1) as [Hv' Hr']. split; [congruence | exact Hr'].
  - split; [exact Hv|]. intros r' [= <-]. apply Hr. reflexivity.
  - split; [exact Hv | discriminate].
  - split; [exact Hv | discriminate].
Qed.

Lemma tame_get_ctx : tame v get_ctx.
Proof. intros w. split; [reflexivity | discriminate]. Qed.

Lemma tame_return {A} (r : Z) : r < 0 -> tame v (return_ r : M A).
Proof. intros Hr w. split; [reflexivity|]. intros r' [= <-]. exact Hr. Qed.

Lemma tame_undefined {A} : tame v (undefined : M A).
Proof. intros w. split; [reflexivity | discriminate]. Qed.

Lemma tame_assert (b : bool) : tame v (av_assert0 b).
Proof. intros w. unfold av_assert0. destruct b; split; try reflexivity; discriminate. Qed.

Lemma tame_modify_ctx (g : MpegEncContext -> MpegEncContext) :
  (forall w, v {| ctx := g (ctx w); mem := mem w |} = v w) -> tame v (modify_ctx g).
Proof. intros Hg w. split; [apply Hg | discriminate]. Qed.

Lemma tame_modify_mem (g : memory -> memory) :
  (forall w, v {| ctx := ctx w; mem := g (mem w) |} = v w) -> tame v (modify_mem g).
Proof. intros Hg w. split; [apply Hg | discriminate]. Qed.

Lemma tame_extern (g : MpegEncContext -> Z * MpegEncContext) :
  (forall w, v {| ctx := (g (ctx w)).2; mem := mem w |} = v w) -> tame v (extern g).
Proof. intros Hg w. split; [apply Hg | discriminate]. Qed.

Lemma tame_when (b : bool) (m : M unit) : tame v m -> tame v (when_ b m).
Proof. intros Hm. destruct b; [exact Hm | apply tame_ret]. Qed.

Lemma tame_forM {A} (l : list A) (body : A -> M unit) :
  (forall x, tame v (body x)) -> tame v (forM_ l body).
Proof.
  intros Hb. induction l as [|x l IH]; simpl.
  - apply tame_ret.
  - apply tame_bind; [apply Hb | intros _; exact IH].
Qed.

(** A called function returns to its caller: no [return] escapes. *)
Lemma tame_call (m : M Z) :
  (forall w, v (m w).2 = v w) -> tame v (call m).
Proof.
  intros Hm w. unfold call. specialize (Hm w).
  destruct (m w) as [[a | r | |] w1]; simpl in *; split; try exact Hm; discriminate.
Qed.

(** Views that do not look at the array of the pool. *)
Hypothesis v_pool : forall w l, v (with_pool w l) = v w.

Lemma tame_load_pic (p : Z) : tame v (load_pic p).
Proof.
  intros w. unfold load_pic.
  destruct (slot_index (ctx w) p ≫= _); split; try reflexivity; discriminate.
Qed.

Lemma tame_store_pic (p : Z) (pic : Picture) : tame v (store_pic p pic).
Proof.
  intros w. unfold store_pic.
  destruct (slot_index (ctx w) p); [|split; [reflexivity | discriminate]].
  case_decide; split; try reflexivity; try discriminate.
  apply (v_pool w).
Qed.

Lemma tame_update_pic (p : Z) (g : Picture -> Picture) : tame v (update_pic p g).
Proof.
  unfold update_pic. apply tame_bind; [apply tame_load_pic|].
  intros a. apply tame_store_pic.
Qed.

Lemma tame_update_frame (p : Z) (g : Frame.t -> Frame.t) : tame v (update_frame p g).
Proof. apply tame_update_pic. Qed.

Lemma tame_unref_at (p : Z) : tame v (unref_at p).
Proof.
  unfold unref_at. apply tame_bind; [apply tame_get_ctx|].
  intros s. apply tame_update_pic.
Qed.

End Tame.

Ltac negative_return :=
  first
    [ lia
    | (unfold AVERROR, ENOMEM, EINVAL; lia)
    | (apply Z.ltb_lt; assumption) ].

Ltac tame_step :=
  lazymatch goal with
  | |- tame _ (mbind _ _) => apply tame_bind; [|intros ?]
  | |- tame _ (mret _) => apply tame_ret
  | |- tame _ get_ctx => apply tame_get_ctx
  | |- tame _ (return_ _) => apply tame_return; negative_return
  | |- tame _ undefined => apply tame_undefined
  | |- tame _ (av_assert0 _) => apply tame_assert
  | |- tame _ (modify_ctx _) => apply tame_modify_ctx; intros ?; reflexivity
  | |- tame _ (modify_mem _) => apply tame_modify_mem; intros ?; reflexivity
  | |- tame _ (extern _) => apply tame_extern; intros ?; reflexivity
  | |- tame _ (call _) => apply tame_call
  | |- tame _ (when_ _ _) => apply tame_when
  | |- tame _ (forM_ _ _) => apply tame_forM; intros ?
  | |- tame _ (load_pic _) => apply tame_load_pic; intros; reflexivity
  | |- tame _ (store_pic _ _) => apply tame_store_pic; intros; reflexivity
  | |- tame _ (update_pic _ _) => apply tame_update_pic; intros; reflexivity
  | |- tame _ (update_frame _ _) => apply tame_update_frame; intros; reflexivity
  | |- tame _ (unref_at _) => apply tame_unref_at; intros; reflexivity
  | |- tame _ (if ?b then _ else _) => destruct b eqn:?
  | |- tame _ (match ?x with _ => _ end) => destruct x eqn:?
  end.

Ltac tame_auto := repeat tame_step.

(** ** ff_mpeg_update_thread_context: the role pointers *)

Lemma tame_update_context_init (dst : AVCodecContext) (s1 : MpegEncContext) :
  tame (fun _ => tt) (update_context_init dst s1).
Proof. unfold update_context_init. tame_auto. Qed.

Lemma tame_update_frame_size (s1 : MpegEncContext) :
  tame (fun _ => tt) (update_frame_size s1).
Proof. unfold update_frame_size. tame_auto. intros; reflexivity. Qed.

Lemma tame_update_pool (s1 : MpegEncContext) : tame role_view (update_pool s1).
Proof. unfold update_pool. tame_auto. Qed.

Lemma tame_UPDATE_PICTURE (s1 : MpegEncContext) getp setp :
  (forall p s, picture (setp p s) = picture s /\
               last_picture_ptr (setp p s) = last_picture_ptr s /\
               current_picture_ptr (setp p s) = current_picture_ptr s /\
               next_picture_ptr (setp p s) = next_picture_ptr s) ->
  tame role_view (UPDATE_PICTURE s1 getp setp).
Proof.
  intros Hset. unfold UPDATE_PICTURE.
  assert (Hm : forall g, tame role_view (modify_ctx (fun s => setp (g s) s))).
  { intros g. apply tame_modify_ctx. intros w. unfold role_view. cbn [ctx].
    destruct (Hset (g (ctx w)) (ctx w)) as (-> & -> & -> & ->). reflexivity. }
  apply tame_bind; [apply Hm|]. intros _.
  apply tame_bind; [apply tame_get_ctx|]. intros s.
  match goal with |- tame _ (let '(_, _) := ?x in _) => destruct x as [ret p] end.
  apply tame_bind; [apply (Hm (fun _ => p))|]. intros _.
  tame_auto.
Qed.

Lemma tame_update_tail (s1 : MpegEncContext) : tame role_view (update_tail s1).
Proof.
  unfold update_tail, update_bitstream_buffer, update_scratch_buffers. tame_auto.
Qed.

Lemma tame_weaken {X A} (v : World -> X) (m : M A) :
  tame v m -> tame (fun _ => tt) m.
Proof. intros Hm w. split; [reflexivity | apply (Hm w)]. Qed.

Lemma tame_next {X A} (v : World -> X) (m : M A) (w w' : World) (a : A) :
  tame v m -> m w = (Next a, w') -> v w' = v w.
Proof. intros Hm E. pose proof (proj1 (Hm w)) as Hv. rewrite E in Hv. exact Hv. Qed.

Lemma REBASE_PICTURE_new_ctx (pic : Z) (a b old : MpegEncContext) :
  picture a = picture b -> REBASE_PICTURE pic a old = REBASE_PICTURE pic b old.
Proof. intros E. unfold REBASE_PICTURE. rewrite E. reflexivity. Qed.

Lemma tame_update_pictures_rest (s1 : MpegEncContext) :
  tame role_view
    (update_pool s1 ;;
     UPDATE_PICTURE s1 current_picture set_current_picture ;;
     UPDATE_PICTURE s1 last_picture set_last_picture ;;
     UPDATE_PICTURE s1 next_picture set_next_picture).
Proof.
  apply tame_bind; [apply tame_update_pool|]. intros _.
  apply tame_bind; [apply tame_UPDATE_PICTURE; intros; repeat split|]. intros _.
  apply tame_bind; [apply tame_UPDATE_PICTURE; intros; repeat split|]. intros _.
  apply tame_UPDATE_PICTURE; intros; repeat split.
Qed.

(** What [av_assert0] leaves to the code behind it. *)
Lemma update_pictures_next (s1 : MpegEncContext) (w w' : World) :
  update_pictures s1 w = (Next tt, w') ->
  role_view w' = role_view w /\
  (picture (ctx w) = 0 \/ picture (ctx w) <> picture s1).
Proof.
  unfold update_pictures. rewrite bind_unfold. unfold get_ctx at 1.
  rewrite bind_unfold. unfold av_assert0 at 1.
  destruct (negb (truthy (picture (ctx w))) || negb (picture (ctx w) =? picture s1))
    eqn:Ea; [|discriminate].
  intros E. split.
  - exact (tame_next _ _ _ _ _ (tame_update_pictures_rest s1) E).
  - apply orb_true_iff in Ea. unfold truthy in Ea.
    destruct Ea as [Ea | Ea]; apply negb_true_iff in Ea.
    + rewrite negb_false_iff in Ea. left. lia.
    + right. lia.
Qed.

Lemma tame_update_body (dst : AVCodecContext) (s1 : MpegEncContext) :
  tame (fun _ => tt)
    (update_context_init dst s1 ;; update_frame_size s1 ;; update_pictures s1 ;;
     modify_ctx (rebase_role_ptrs s1) ;; update_tail s1).
Proof.
  apply tame_bind; [apply tame_update_context_init|]. intros _.
  apply tame_bind; [apply tame_update_frame_size|]. intros _.
  apply tame_bind.
  { unfold update_pictures. apply tame_bind; [apply tame_get_ctx|]. intros s.
    apply tame_bind; [apply tame_assert|]. intros _.
    apply (tame_weaken role_view), tame_update_pictures_rest. }
  intros _. apply tame_bind; [tame_step|]. intros _.
  apply (tame_weaken role_view), tame_update_tail.
Qed.

(** After a successful call between two distinct contexts the three role
    pointers are what [REBASE_PICTURE] makes of the predecessor's, and
    the two pools are not the same array. *)
Lemma update_thread_context_rebases (dst src : AVCodecContext)
    (s1 : MpegEncContext) (w w' : World) :
  Avctx.addr dst <> Avctx.addr src ->
  call (ff_mpeg_update_thread_context dst src s1) w = (Next 0, w') ->
  last_picture_ptr (ctx w') = REBASE_PICTURE (last_picture_ptr s1) (ctx w') s1 /\
  current_picture_ptr (ctx w') = REBASE_PICTURE (current_picture_ptr s1) (ctx w') s1 /\
  next_picture_ptr (ctx w') = REBASE_PICTURE (next_picture_ptr s1) (ctx w') s1 /\
  (picture (ctx w') = 0 \/ picture (ctx w') <> picture s1).
Proof.
  intros Hne Hcall. unfold ff_mpeg_update_thread_context in Hcall.
  rewrite (proj2 (Z.eqb_neq _ _) Hne) in Hcall.
  apply call_next_inv in Hcall. destruct Hcall as [Hrun | Hret].
  2:{ pose proof (proj2 (tame_update_body dst s1 w) 0) as Hneg.
      rewrite Hret in Hneg. specialize (Hneg eq_refl). lia. }
  apply bind_next_inv in Hrun. destruct Hrun as ([] & w1 & _ & Hrun).
  apply bind_next_inv in Hrun. destruct Hrun as ([] & w2 & _ & Hrun).
  apply bind_next_inv in Hrun. destruct Hrun as ([] & w3 & Hpics & Hrun).
  apply bind_next_inv in Hrun. destruct Hrun as ([] & w4 & Hreb & Htail).
  apply update_pictures_next in Hpics. destruct Hpics as [Hview3 Hassert].
  pose proof (tame_next _ _ _ _ _ (tame_update_tail s1) Htail) as Hview'.
  unfold modify_ctx in Hreb. injection Hreb as <-.
  unfold role_view in Hview3, Hview'. cbn [ctx] in Hview'.
  injection Hview3 as Hp3 _ _ _. injection Hview' as Hp' Hl' Hc' Hn'.
  assert (Hpic : picture (ctx w') = picture (ctx w3)) by (rewrite Hp'; reflexivity).
  rewrite Hl', Hc', Hn'.
  rewrite !(REBASE_PICTURE_new_ctx _ (ctx w') (ctx w3) s1 Hpic).
  repeat split; try reflexivity.
  rewrite Hpic, Hp3. exact Hassert.
Qed.

Lemma REBASE_PICTURE_slot (new_ctx old_ctx : MpegEncContext) (i : Z) :
  0 < sizeof_Picture -> 0 < picture old_ctx ->
  0 <= i < Z.of_nat MAX_PICTURE_COUNT ->
  REBASE_PICTURE (slot_addr (picture old_ctx) i) new_ctx old_ctx
  = slot_addr (picture new_ctx) i.
Proof.
  intros Hs Hp Hi. unfold REBASE_PICTURE, slot_addr, truthy.
  assert (E1 : (picture old_ctx + i * sizeof_Picture =? 0) = false) by (apply Z.eqb_neq; nia).
  assert (E2 : (picture old_ctx <=? picture old_ctx + i * sizeof_Picture) = true)
    by (apply Z.leb_le; nia).
  assert (E3 : (picture old_ctx + i * sizeof_Picture
                <? picture old_ctx + Z.of_nat MAX_PICTURE_COUNT * sizeof_Picture) = true)
    by (apply Z.ltb_lt; nia).
  rewrite E1, E2, E3. cbn [negb andb].
  replace (picture old_ctx + i * sizeof_Picture - picture old_ctx)
    with (i * sizeof_Picture) by lia.
  rewrite Z.div_mul by lia. reflexivity.
Qed.



(** C3: after every successful [ff_mpeg_update_thread_context] between
    two distinct contexts, a role pointer of the source that is the
    address of slot [i] of the source pool, for any
    [0 <= i < MAX_PICTURE_COUNT], has become the address of slot [i] of
    the destination's own pool array, for each of the last, current and
    next roles; and that address is never the source's own pointer,
    because the two pools are different arrays. *)
Theorem update_thread_context_rebases_roles (dst src : AVCodecContext)
    (s1 : MpegEncContext) (w w' : World) (i : Z) :
  Avctx.addr dst <> Avctx.addr src ->
  call (ff_mpeg_update_thread_context dst src s1) w = (Next 0, w') ->
  0 < sizeof_Picture -> 0 < picture s1 ->
  0 <= i < Z.of_nat MAX_PICTURE_COUNT ->
  (last_picture_ptr s1 = slot_addr (picture s1) i ->
   last_picture_ptr (ctx w') = slot_addr (picture (ctx w')) i /\
   last_picture_ptr (ctx w') <> last_picture_ptr s1) /\
  (current_picture_ptr s1 = slot_addr (picture s1) i ->
   current_picture_ptr (ctx w') = slot_addr (picture (ctx w')) i /\
   current_picture_ptr (ctx w') <> current_picture_ptr s1) /\
  (next_picture_ptr s1 = slot_addr (picture s1) i ->
   next_picture_ptr (ctx w') = slot_addr (picture (ctx w')) i /\
   next_picture_ptr (ctx w') <> next_picture_ptr s1).
Proof.
  intros Hne Hcall Hs Hp Hi.
  destruct (update_thread_context_rebases dst src s1 w w' Hne Hcall)
    as (Hl & Hc & Hn & Hpools).
  assert (Hdiff : picture (ctx w') <> picture s1) by (destruct Hpools; lia).
  assert (Hslot : slot_addr (picture (ctx w')) i <> slot_addr (picture s1) i)
    by (unfold slot_addr; lia).
  repeat split.
  - rewrite Hl, H0. apply REBASE_PICTURE_slot; assumption.
  - rewrite Hl, H0, REBASE_PICTURE_slot by assumption. exact Hslot.
  - rewrite Hc, H0. apply REBASE_PICTURE_slot; assumption.
  - rewrite Hc, H0, REBASE_PICTURE_slot by assumption. exact Hslot.
  - rewrite Hn, H0. apply REBASE_PICTURE_slot; assumption.
  - rewrite Hn, H0, REBASE_PICTURE_slot by assumption. exact Hslot.
Qed.

(** ** ff_mpv_frame_start: the rotation of the roles *)

Lemma tame_release_forgotten {X} (v : World -> X) :
  (forall w l, v (with_pool w l) = v w) -> tame v release_forgotten.
Proof.
  intros Hv. unfold release_forgotten. apply tame_forM. intros i.
  apply tame_bind; [apply tame_get_ctx|]. intros s. cbv zeta.
  apply tame_bind; [apply tame_load_pic; exact Hv|]. intros pic.
  destruct (_ || _); [apply tame_unref_at; exact Hv | apply tame_ret].
Qed.

Lemma tame_frame_start_release (actx : AVCodecContext) :
  tame rotation_view (frame_start_release actx).
Proof.
  unfold frame_start_release, unref_roles.
  repeat (tame_step; try (apply tame_release_forgotten; intros; reflexivity)).
Qed.

Lemma tame_find_unused_picture {X} (v : World -> X) :
  (forall w l, v (with_pool w l) = v w) -> tame v find_unused_picture.
Proof.
  intros Hv. unfold find_unused_picture.
  apply tame_bind; [apply tame_get_ctx|]. intros s.
  destruct (ff_find_unused_picture _ _ _) as [idx pool'].
  apply tame_bind; [|intros; apply tame_ret].
  apply tame_modify_ctx. intros w. apply (Hv w pool').
Qed.

Lemma tame_frame_start_select : tame rotation_view frame_start_select.
Proof.
  unfold frame_start_select.
  repeat (tame_step; try (apply tame_find_unused_picture; intros; reflexivity)).
Qed.

Lemma tame_alloc_picture {X} (v : World -> X) (pic : Z) :
  (forall w l, v (with_pool w l) = v w) ->
  (forall w a b c d,
     v {| ctx := set_uvlinesize a (set_linesize b (set_sc c (set_me d (ctx w))));
          mem := mem w |} = v w) ->
  tame v (alloc_picture pic).
Proof.
  intros Hv Hset. unfold alloc_picture.
  apply tame_bind; [apply tame_get_ctx|]. intros s.
  apply tame_bind; [apply tame_load_pic; exact Hv|]. intros p. cbv zeta.
  apply tame_bind; [apply tame_store_pic; exact Hv|]. intros _.
  apply tame_bind; [|intros; apply tame_ret].
  apply tame_modify_ctx. intros w. apply Hset.
Qed.

Lemma tame_frame_start_alloc (pic : Z) : tame rotation_view (frame_start_alloc pic).
Proof.
  unfold frame_start_alloc.
  repeat (tame_step;
          try (apply tame_alloc_picture; intros; reflexivity)).
Qed.

Lemma tame_frame_start_describe :
  tame (fun w => (rotation_view w, current_picture_ptr (ctx w))) frame_start_describe.
Proof. unfold frame_start_describe. cbv zeta. tame_auto. Qed.

Lemma tame_gray_frame {X} (v : World -> X) (fr : Frame.t) :
  (forall w g, v {| ctx := ctx w; mem := g |} = v w) -> tame v (gray_frame fr).
Proof.
  intros Hv. unfold gray_frame.
  destruct (av_pix_fmt_get_chroma_sub_sample _) as [r [hs vs]].
  apply tame_bind; [|intros _]; apply tame_modify_mem; intros w; apply Hv.
Qed.

Lemma tame_fill_dummy {X} (v : World -> X) actx codec hs vs fr :
  (forall w g, v {| ctx := ctx w; mem := g |} = v w) ->
  tame v (fill_dummy actx codec hs vs fr).
Proof.
  intros Hv. unfold fill_dummy.
  apply tame_bind; [apply tame_modify_mem; intros w; apply Hv|]. intros _.
  apply tame_bind; [apply tame_when, tame_modify_mem; intros w; apply Hv|]. intros _.
  apply tame_when, tame_modify_mem; intros w; apply Hv.
Qed.

(** Every [return] of [ff_mpv_frame_start] before its last statement
    returns a negative value. *)
Lemma tame_frame_start_after_rotation (actx : AVCodecContext) :
  tame (fun _ => tt) (frame_start_after_rotation actx).
Proof.
  unfold frame_start_after_rotation, frame_start_dummy_last, frame_start_dummy_next,
    frame_start_ref_roles, frame_start_field_setup, role_missing, report_done,
    mark_dummy, ref_role.
  repeat (tame_step;
          try (apply tame_find_unused_picture; intros; reflexivity);
          try (apply tame_alloc_picture; intros; reflexivity);
          try (apply tame_fill_dummy; intros; reflexivity);
          try (apply tame_gray_frame; intros; reflexivity)).
Qed.

Lemma tame_frame_start_to_rotation (actx : AVCodecContext) :
  tame (fun _ => tt) (frame_start_to_rotation actx).
Proof.
  unfold frame_start_to_rotation, frame_start_setup.
  apply tame_bind; [apply (tame_weaken rotation_view), tame_frame_start_release|].
  intros _.
  apply tame_bind; [apply (tame_weaken rotation_view), tame_frame_start_select|].
  intros pic.
  apply tame_bind; [|intros _; tame_step].
  apply tame_bind; [apply (tame_weaken rotation_view), tame_frame_start_alloc|].
  intros _. apply tame_bind; [tame_step|]. intros _.
  apply (tame_weaken _ _ tame_frame_start_describe).
Qed.

Lemma frame_start_rotate_roles (s : MpegEncContext) :
  current_picture_ptr (frame_start_rotate s) = current_picture_ptr s /\
  (pict_type s <> AV_PICTURE_TYPE_B ->
   last_picture_ptr (frame_start_rotate s) = next_picture_ptr s /\
   (droppable s = 0 ->
    next_picture_ptr (frame_start_rotate s) = current_picture_ptr s)) /\
  (pict_type s = AV_PICTURE_TYPE_B -> frame_start_rotate s = s).
Proof.
  unfold frame_start_rotate. cbv zeta.
  change (droppable (set_last_picture_ptr (next_picture_ptr s) s)) with (droppable s).
  unfold truthy. split; [|split].
  - destruct (bool_decide _); [|reflexivity].
    destruct (negb _); reflexivity.
  - intros HB. rewrite bool_decide_true by exact HB. split.
    + destruct (negb _); reflexivity.
    + intros Hd. rewrite Hd. reflexivity.
  - intros HB. rewrite bool_decide_false; [reflexivity|].
    intros Hc. apply Hc. exact HB.
Qed.

(** C1: in every call of [ff_mpv_frame_start] that returns 0, the state
    right after the rotation step is such that, for a picture type other
    than B, the last-reference pointer is what the next-reference pointer
    was before the call and, when [droppable] is unset, the
    next-reference pointer is the current picture pointer selected by this
    call; for a B picture the last-reference and next-reference pointers
    are still what they were before the call. *)
Theorem frame_start_role_rotation (actx : AVCodecContext) (w w' : World) :
  call (ff_mpv_frame_start actx) w = (Next 0, w') ->
  exists (pic : Z) (w1 w2 w_rot : World),
    frame_start_release actx w = (Next tt, w1) /\
    frame_start_select w1 = (Next pic, w2) /\
    frame_start_to_rotation actx w = (Next tt, w_rot) /\
    current_picture_ptr (ctx w_rot) = pic /\
    (pict_type (ctx w) <> AV_PICTURE_TYPE_B ->
     last_picture_ptr (ctx w_rot) = next_picture_ptr (ctx w) /\
     (droppable (ctx w) = 0 -> next_picture_ptr (ctx w_rot) = pic)) /\
    (pict_type (ctx w) = AV_PICTURE_TYPE_B ->
     last_picture_ptr (ctx w_rot) = last_picture_ptr (ctx w) /\
     next_picture_ptr (ctx w_rot) = next_picture_ptr (ctx w)).
Proof.
  intros Hcall. apply call_next_inv in Hcall. unfold ff_mpv_frame_start in Hcall.
  destruct Hcall as [Hrun | Hret].
  2:{ assert (Ht : tame (fun _ => tt)
                     (frame_start_to_rotation actx ;; frame_start_after_rotation actx)).
      { apply tame_bind; [apply tame_frame_start_to_rotation|].
        intros _. apply tame_frame_start_after_rotation. }
      pose proof (proj2 (Ht w) 0) as Hneg. rewrite Hret in Hneg.
      specialize (Hneg eq_refl). lia. }
  apply bind_next_inv in Hrun. destruct Hrun as ([] & w_rot & Hrot & _).
  pose proof Hrot as Hparts. unfold frame_start_to_rotation in Hparts.
  apply bind_next_inv in Hparts. destruct Hparts as ([] & w1 & Hrel & Hparts).
  apply bind_next_inv in Hparts. destruct Hparts as (pic & w2 & Hsel & Hparts).
  apply bind_next_inv in Hparts. destruct Hparts as ([] & w3 & Hsetup & Hmod).
  unfold frame_start_setup in Hsetup.
  apply bind_next_inv in Hsetup. destruct Hsetup as ([] & w2a & Halloc & Hsetup).
  apply bind_next_inv in Hsetup. destruct Hsetup as ([] & w2b & Hcur & Hdesc).
  pose proof (tame_next _ _ _ _ _ (tame_frame_start_release actx) Hrel) as V1.
  pose proof (tame_next _ _ _ _ _ tame_frame_start_select Hsel) as V2.
  pose proof (tame_next _ _ _ _ _ (tame_frame_start_alloc pic) Halloc) as V3.
  pose proof (tame_next _ _ _ _ _ tame_frame_start_describe Hdesc) as V4.
  unfold modify_ctx in Hcur, Hmod. injection Hcur as <-. injection Hmod as <-.
  pose proof (f_equal fst V4) as V4a. pose proof (f_equal snd V4) as Hcp.
  cbn [fst snd ctx] in V4a, Hcp.
  change (current_picture_ptr (set_current_picture_ptr pic (ctx w2a))) with pic in Hcp.
  change (rotation_view {| ctx := set_current_picture_ptr pic (ctx w2a);
                           mem := mem w2a |})
    with (rotation_view w2a) in V4a.
  assert (V : rotation_view w3 = rotation_view w) by congruence.
  pose proof (f_equal (fun t => t.1.1.1) V) as Vl.
  pose proof (f_equal (fun t => t.1.1.2) V) as Vn.
  pose proof (f_equal (fun t => t.1.2) V) as Vt.
  pose proof (f_equal (fun t => t.2) V) as Vd.
  unfold rotation_view in Vl, Vn, Vt, Vd. cbn [fst snd] in Vl, Vn, Vt, Vd.
  exists pic, w1, w2, {| ctx := frame_start_rotate (ctx w3); mem := mem w3 |}.
  split; [exact Hrel|]. split; [exact Hsel|]. split; [exact Hrot|].
  cbn [ctx].
  destruct (frame_start_rotate_roles (ctx w3)) as (Rc & Rnb & Rb).
  rewrite Vt, Vd, Vn, Hcp in Rnb. rewrite Vt in Rb.
  split; [|split].
  - rewrite Rc. exact Hcp.
  - exact Rnb.
  - intros HB. rewrite (Rb HB). split; assumption.
Qed.

(** ** Filling a plane *)

Lemma fold_fill_value (step : Z -> memory -> memory) (c : Z) (l : list Z)
    (m : memory) (a : Z) :
  (forall i m, step i m a = c \/ step i m a = m a) ->
  foldl (fun m i => step i m) m l a = c \/ foldl (fun m i => step i m) m l a = m a.
Proof.
  intros Hstep. revert m. induction l as [|i l IH]; intros m; simpl.
  - right. reflexivity.
  - destruct (IH (step i m)) as [E | E]; [left; exact E|].
    rewrite E. apply Hstep.
Qed.

Lemma fold_fill_covered (step : Z -> memory -> memory) (c : Z) (l : list Z)
    (m : memory) (a : Z) (i : Z) :
  (forall i m, step i m a = c \/ step i m a = m a) ->
  i ∈ l -> (forall m, step i m a = c) ->
  foldl (fun m i => step i m) m l a = c.
Proof.
  intros Hstep Hin Hcov. revert m. induction l as [|j l IH]; intros m.
  - inversion Hin.
  - simpl. apply elem_of_cons in Hin. destruct Hin as [<- | Hin].
    + destruct (fold_fill_value step c l (step i m) a Hstep) as [E | E]; [exact E|].
      rewrite E. apply Hcov.
    + apply IH. exact Hin.
Qed.

Lemma fold_fill_other (step : Z -> memory -> memory) (l : list Z) (m : memory) (a : Z) :
  (forall i m, i ∈ l -> step i m a = m a) ->
  foldl (fun m i => step i m) m l a = m a.
Proof.
  revert m. induction l as [|j l IH]; intros m Hstep; simpl; [reflexivity|].
  rewrite IH.
  - apply Hstep. left.
  - intros i m' Hi. apply Hstep. right. exact Hi.
Qed.

Lemma memset_value (p c n : Z) (m : memory) (a : Z) :
  memset p c n m a = c \/ memset p c n m a = m a.
Proof. unfold memset. case_decide; auto. Qed.

Lemma memset_in (p c n : Z) (m : memory) (a : Z) :
  p <= a < p + n -> memset p c n m a = c.
Proof. intros Ha. unfold memset. rewrite decide_True by exact Ha. reflexivity. Qed.

Lemma memset_out (p c n : Z) (m : memory) (a : Z) :
  ~ (p <= a < p + n) -> memset p c n m a = m a.
Proof. intros Ha. unfold memset. rewrite decide_False by exact Ha. reflexivity. Qed.

Lemma fill_rows_value (base stride rows width c : Z) (m : memory) (a : Z) :
  fill_rows base stride rows width c m a = c \/
  fill_rows base stride rows width c m a = m a.
Proof.
  unfold fill_rows.
  apply (fold_fill_value (fun i m => memset (base + stride * i) c width m)).
  intros i m'. apply memset_value.
Qed.

Lemma fill_rows_in (base stride rows width c : Z) (m : memory) (a : Z) :
  in_rows base stride rows width a ->
  fill_rows base stride rows width c m a = c.
Proof.
  intros (y & Hy & Ha). unfold fill_rows.
  apply (fold_fill_covered (fun i m => memset (base + stride * i) c width m) c _ m a y).
  - intros i m'. apply memset_value.
  - apply elem_of_seqZ. lia.
  - intros m'. apply memset_in. exact Ha.
Qed.

Lemma fill_rows_out (base stride rows width c : Z) (m : memory) (a : Z) :
  ~ in_rows base stride rows width a ->
  fill_rows base stride rows width c m a = m a.
Proof.
  intros Hout. unfold fill_rows.
  apply (fold_fill_other (fun i m => memset (base + stride * i) c width m)).
  intros i m' Hi. apply memset_out. intros Ha. apply Hout.
  exists i. apply elem_of_seqZ in Hi. split; [lia | exact Ha].
Qed.

Lemma fill_chroma_rows_value (cb cbs cr crs rows width c : Z) (m : memory) (a : Z) :
  fill_chroma_rows cb cbs cr crs rows width c m a = c \/
  fill_chroma_rows cb cbs cr crs rows width c m a = m a.
Proof.
  unfold fill_chroma_rows.
  apply (fold_fill_value
           (fun i m => memset (cr + crs * i) c width (memset (cb + cbs * i) c width m))).
  intros i m'.
  destruct (memset_value (cr + crs * i) c width (memset (cb + cbs * i) c width m') a)
    as [E | E]; [left; exact E|].
  rewrite E. apply memset_value.
Qed.

Lemma fill_chroma_rows_in (cb cbs cr crs rows width c : Z) (m : memory) (a : Z) :
  in_rows cb cbs rows width a \/ in_rows cr crs rows width a ->
  fill_chroma_rows cb cbs cr crs rows width c m a = c.
Proof.
  intros Hin. unfold fill_chroma_rows.
  assert (Hstep : forall i m',
    memset (cr + crs * i) c width (memset (cb + cbs * i) c width m') a = c \/
    memset (cr + crs * i) c width (memset (cb + cbs * i) c width m') a = m' a).
  { intros i m'.
    destruct (memset_value (cr + crs * i) c width (memset (cb + cbs * i) c width m') a)
      as [E | E]; [left; exact E|].
    rewrite E. apply memset_value. }
  destruct Hin as [(y & Hy & Ha) | (y & Hy & Ha)].
  - apply (fold_fill_covered
             (fun i m => memset (cr + crs * i) c width (memset (cb + cbs * i) c width m))
             c _ m a y Hstep).
    + apply elem_of_seqZ. lia.
    + intros m'.
      destruct (memset_value (cr + crs * y) c width (memset (cb + cbs * y) c width m') a)
        as [E | E]; [exact E|].
      rewrite E. apply memset_in. exact Ha.
  - apply (fold_fill_covered
             (fun i m => memset (cr + crs * i) c width (memset (cb + cbs * i) c width m))
             c _ m a y Hstep).
    + apply elem_of_seqZ. lia.
    + intros m'. apply memset_in. exact Ha.
Qed.

Lemma sample_in_rows (base stride rows width x y : Z) :
  0 <= x < width -> 0 <= y < rows ->
  in_rows base stride rows width (base + stride * y + x).
Proof. intros Hx Hy. exists y. split; [exact Hy | lia]. Qed.

(** ** Running the statements that touch one slot *)

Lemma update_pic_inv (p : Z) (g : Picture -> Picture) (w w' : World) :
  update_pic p g w = (Next tt, w') ->
  exists i pic, slot_index (ctx w) p = Some i /\ pool (ctx w) !! i = Some pic.
Proof.
  unfold update_pic, load_pic. rewrite bind_unfold.
  destruct (slot_index (ctx w) p) as [i|]; [|discriminate]. simpl.
  destruct (pool (ctx w) !! i) as [pic|] eqn:E; [|discriminate].
  intros _. exists i, pic. split; [reflexivity | exact E].
Qed.

Lemma load_pic_at (p : Z) (w : World) (i : nat) (pic : Picture) :
  slot_index (ctx w) p = Some i -> pool (ctx w) !! i = Some pic ->
  load_pic p w = (Next pic, w).
Proof. intros Hi Hl. unfold load_pic. rewrite Hi. simpl. rewrite Hl. reflexivity. Qed.

Lemma update_pic_at (p : Z) (g : Picture -> Picture) (w : World) (i : nat)
    (pic : Picture) :
  slot_index (ctx w) p = Some i -> pool (ctx w) !! i = Some pic ->
  update_pic p g w = (Next tt, with_pool w (<[i := g pic]> (pool (ctx w)))).
Proof.
  intros Hi Hl. unfold update_pic.
  rewrite (bind_next _ _ _ _ _ (load_pic_at p w i pic Hi Hl)).
  unfold store_pic. rewrite Hi.
  rewrite decide_True by (eapply lookup_lt_Some; eassumption). reflexivity.
Qed.

Lemma mark_dummy_at (p : Z) (w : World) (i : nat) (pic : Picture) :
  slot_index (ctx w) p = Some i -> pool (ctx w) !! i = Some pic ->
  mark_dummy p w = (Next tt, with_pool w (<[i := marked pic]> (pool (ctx w)))).
Proof.
  intros Hi Hl. pose proof (lookup_lt_Some _ _ _ Hl) as Hlen.
  unfold mark_dummy, update_frame.
  rewrite (bind_next _ _ _ _ _ (update_pic_at p _ w i pic Hi Hl)).
  erewrite bind_next.
  2:{ apply (update_pic_at p _ _ i (Pic.set_reference 3 pic)); [exact Hi|].
      cbn. apply list_lookup_insert_eq. exact Hlen. }
  erewrite update_pic_at.
  2:{ exact Hi. }
  2:{ cbn. apply list_lookup_insert_eq.
      rewrite length_insert. exact Hlen. }
  unfold with_pool. cbn. rewrite !list_insert_insert_eq. reflexivity.
Qed.

Lemma report_done_at (p : Z) (w : World) (i : nat) (pic : Picture) :
  slot_index (ctx w) p = Some i -> pool (ctx w) !! i = Some pic ->
  report_done p w = (Next tt, with_pool w (<[i := reported pic]> (pool (ctx w)))).
Proof.
  intros Hi Hl. pose proof (lookup_lt_Some _ _ _ Hl) as Hlen.
  unfold report_done.
  rewrite (bind_next _ _ _ _ _ (update_pic_at p _ w i pic Hi Hl)).
  erewrite update_pic_at.
  2:{ exact Hi. }
  2:{ cbn. apply list_lookup_insert_eq. exact Hlen. }
  unfold with_pool. cbn. rewrite !list_insert_insert_eq. reflexivity.
Qed.

Lemma reported_counters (pic : Picture) :
  Pic.progress0 pic <= INT_MAX -> Pic.progress1 pic <= INT_MAX ->
  Pic.progress0 (reported pic) = INT_MAX /\ Pic.progress1 (reported pic) = INT_MAX /\
  Pic.f (reported pic) = Pic.f pic.
Proof.
  intros H0 H1. unfold reported, ff_thread_report_progress. cbn.
  repeat split; lia.
Qed.


Lemma find_unused_picture_run (w : World) :
  find_unused_picture w =
  (Next (ff_find_unused_picture (avctx (ctx w)) (pool (ctx w)) 0).1,
   with_pool w (ff_find_unused_picture (avctx (ctx w)) (pool (ctx w)) 0).2).
Proof.
  unfold find_unused_picture. rewrite bind_unfold. unfold get_ctx at 1.
  destruct (ff_find_unused_picture _ _ _) as [idx pool1]. reflexivity.
Qed.

Lemma slot_index_picture (a b : MpegEncContext) (p : Z) :
  picture a = picture b -> slot_index a p = slot_index b p.
Proof. intros E. unfold slot_index. rewrite E. reflexivity. Qed.

Lemma with_pool_pool (w : World) (l : list Picture) : pool (ctx (with_pool w l)) = l.
Proof. reflexivity. Qed.

Lemma with_pool_picture (w : World) (l : list Picture) :
  picture (ctx (with_pool w l)) = picture (ctx w).
Proof. reflexivity. Qed.

Lemma with_pool_mem (w : World) (l : list Picture) : mem (with_pool w l) = mem w.
Proof. reflexivity. Qed.

Lemma with_pool_last (w : World) (l : list Picture) :
  last_picture_ptr (ctx (with_pool w l)) = last_picture_ptr (ctx w).
Proof. reflexivity. Qed.

Lemma with_pool_next (w : World) (l : list Picture) :
  next_picture_ptr (ctx (with_pool w l)) = next_picture_ptr (ctx w).
Proof. reflexivity. Qed.

Lemma alloc_world_pool (w : World) (i : nat) (r : AllocPictureResult) :
  pool (ctx (alloc_world w i r)) = <[i := ap_pic r]> (pool (ctx w)).
Proof. reflexivity. Qed.

Lemma alloc_world_picture (w : World) (i : nat) (r : AllocPictureResult) :
  picture (ctx (alloc_world w i r)) = picture (ctx w).
Proof. reflexivity. Qed.

Lemma alloc_world_mem (w : World) (i : nat) (r : AllocPictureResult) :
  mem (alloc_world w i r) = mem w.
Proof. reflexivity. Qed.

Lemma alloc_world_last (w : World) (i : nat) (r : AllocPictureResult) :
  last_picture_ptr (ctx (alloc_world w i r)) = last_picture_ptr (ctx w).
Proof. reflexivity. Qed.

Lemma alloc_world_next (w : World) (i : nat) (r : AllocPictureResult) :
  next_picture_ptr (ctx (alloc_world w i r)) = next_picture_ptr (ctx w).
Proof. reflexivity. Qed.

Lemma alloc_picture_at (p : Z) (w : World) (i : nat) (pic : Picture) :
  slot_index (ctx w) p = Some i -> pool (ctx w) !! i = Some pic ->
  alloc_picture p w =
  (Next (ap_ret (alloc_result (ctx w) pic)), alloc_world w i (alloc_result (ctx w) pic)).
Proof.
  intros Hi Hl. unfold alloc_picture.
  rewrite bind_unfold. unfold get_ctx at 1.
  rewrite (bind_next _ _ _ _ _ (load_pic_at p w i pic Hi Hl)).
  cbv zeta. rewrite bind_unfold. unfold store_pic. rewrite Hi.
  rewrite decide_True by (eapply lookup_lt_Some; eassumption).
  reflexivity.
Qed.

(** The allocation of a dummy frame at [p]: marking, [alloc_picture] and
    the check of its result, followed by [rest]. *)
Lemma allocate_dummy_run (p : Z) (fail : M unit) (rest : M unit) (w w' : World) :
  (forall w0 w1, fail w0 <> (Next tt, w1)) ->
  (mark_dummy p ;;
   r ← alloc_picture p;
   (if r <? 0 then fail else mret tt) ;;
   rest) w = (Next tt, w') ->
  exists (i : nat) (p0 : Picture),
    slot_index (ctx w) p = Some i /\ pool (ctx w) !! i = Some p0 /\
    let wm := with_pool w (<[i := marked p0]> (pool (ctx w))) in
    rest (alloc_world wm i (alloc_result (ctx wm) (marked p0))) = (Next tt, w').
Proof.
  intros Hfail Hrun.
  apply bind_next_inv in Hrun. destruct Hrun as ([] & wc & Hmark & Hrun).
  assert (Hslot : exists i p0, slot_index (ctx w) p = Some i /\
                               pool (ctx w) !! i = Some p0).
  { unfold mark_dummy in Hmark. apply bind_next_inv in Hmark.
    destruct Hmark as ([] & wc' & Hup & _). eapply update_pic_inv. exact Hup. }
  destruct Hslot as (i & p0 & Hi & Hp0).
  pose proof (lookup_lt_Some _ _ _ Hp0) as Hlen.
  rewrite (mark_dummy_at p w i p0 Hi Hp0) in Hmark. injection Hmark as <-.
  exists i, p0. split; [exact Hi|]. split; [exact Hp0|]. cbv zeta.
  set (wm := with_pool w (<[i := marked p0]> (pool (ctx w)))) in *.
  assert (Hi' : slot_index (ctx wm) p = Some i).
  { rewrite <- Hi. apply slot_index_picture. apply with_pool_picture. }
  assert (Hp' : pool (ctx wm) !! i = Some (marked p0)).
  { unfold wm. rewrite with_pool_pool. apply list_lookup_insert_eq. exact Hlen. }
  clearbody wm.
  apply bind_next_inv in Hrun. destruct Hrun as (r & wd & Halloc & Hrun).
  rewrite (alloc_picture_at p wm i (marked p0) Hi' Hp') in Halloc.
  injection Halloc as <- <-.
  apply bind_next_inv in Hrun. destruct Hrun as ([] & we & Hchk & Hrun).
  destruct (ap_ret (alloc_result (ctx wm) (marked p0)) <? 0).
  - exfalso. eapply Hfail. exact Hchk.
  - injection Hchk as <-. exact Hrun.
Qed.

Lemma fail_never_next (g : MpegEncContext -> MpegEncContext) (w0 w1 : World) :
  (modify_ctx g ;; return_ (-1) : M unit) w0 <> (Next tt, w1).
Proof. rewrite bind_unfold. unfold modify_ctx. discriminate. Qed.

(** The world after [report_done] on the slot a dummy was allocated in. *)
Lemma report_after_alloc (p : Z) (wm w' : World) (i : nat) (r : AllocPictureResult) :
  slot_index (ctx wm) p = Some i -> (i < length (pool (ctx wm)))%nat ->
  report_done p (alloc_world wm i r) = (Next tt, w') ->
  w' = with_pool (alloc_world wm i r)
         (<[i := reported (ap_pic r)]> (pool (ctx (alloc_world wm i r)))).
Proof.
  intros Hi Hlen Hrun.
  rewrite (report_done_at p (alloc_world wm i r) i (ap_pic r)) in Hrun.
  - injection Hrun as <-. reflexivity.
  - rewrite <- Hi. apply slot_index_picture. apply alloc_world_picture.
  - rewrite alloc_world_pool. apply list_lookup_insert_eq. exact Hlen.
Qed.

Lemma frame_start_dummy_next_run (w w' : World) :
  role_missing (next_picture_ptr (ctx w)) w = (Next true, w) ->
  pict_type (ctx w) = AV_PICTURE_TYPE_B ->
  frame_start_dummy_next w = (Next tt, w') ->
  exists (i : nat) (s0 : MpegEncContext) (p0 : Picture),
    slot_index (ctx w') (next_picture_ptr (ctx w')) = Some i /\
    pool (ctx w') !! i = Some (reported (ap_pic (alloc_result s0 p0))) /\
    mem w' = mem w.
Proof.
  intros Hmiss HB Hrun. unfold frame_start_dummy_next in Hrun.
  rewrite bind_unfold in Hrun. unfold get_ctx at 1 in Hrun.
  rewrite (bind_next _ _ _ _ _ Hmiss) in Hrun.
  rewrite HB in Hrun. cbn [andb] in Hrun.
  rewrite bool_decide_true in Hrun by reflexivity.
  rewrite (bind_next _ _ _ _ _ (find_unused_picture_run w)) in Hrun.
  destruct (ff_find_unused_picture (avctx (ctx w)) (pool (ctx w)) 0) as [idx pool1].
  cbn [fst snd] in Hrun.
  destruct (idx <? 0); [discriminate|].
  rewrite bind_unfold in Hrun. unfold get_ctx at 1 in Hrun.
  rewrite with_pool_picture in Hrun.
  set (np := slot_addr (picture (ctx w)) idx) in Hrun.
  rewrite bind_unfold in Hrun. unfold modify_ctx at 1 in Hrun.
  set (wb := {| ctx := set_next_picture_ptr np (ctx (with_pool w pool1));
                mem := mem (with_pool w pool1) |}) in Hrun.
  assert (Fnext : next_picture_ptr (ctx wb) = np) by reflexivity.
  assert (Fmem : mem wb = mem w) by reflexivity.
  clearbody wb.
  apply allocate_dummy_run in Hrun; [|intros; apply fail_never_next].
  destruct Hrun as (i & p0 & Hi & Hp0 & Hrun). cbv zeta in Hrun.
  pose proof (lookup_lt_Some _ _ _ Hp0) as Hlen.
  set (wm := with_pool wb (<[i := marked p0]> (pool (ctx wb)))) in Hrun.
  assert (Hi' : slot_index (ctx wm) np = Some i).
  { rewrite <- Hi. apply slot_index_picture. apply with_pool_picture. }
  assert (Hlen' : (i < length (pool (ctx wm)))%nat).
  { unfold wm. rewrite with_pool_pool, length_insert. exact Hlen. }
  assert (Fnext' : next_picture_ptr (ctx wm) = np)
    by (unfold wm; rewrite with_pool_next; exact Fnext).
  assert (Fmem' : mem wm = mem w)
    by (unfold wm; rewrite with_pool_mem; exact Fmem).
  clearbody wm.
  apply (report_after_alloc np wm w' i _ Hi' Hlen') in Hrun. subst w'.
  exists i, (ctx wm), (marked p0). split; [|split].
  - rewrite with_pool_next, alloc_world_next, Fnext'. rewrite <- Hi'.
    apply slot_index_picture. rewrite with_pool_picture. apply alloc_world_picture.
  - rewrite with_pool_pool. apply list_lookup_insert_eq.
    rewrite alloc_world_pool, length_insert. exact Hlen'.
  - rewrite with_pool_mem, alloc_world_mem. exact Fmem'.
Qed.

Lemma fill_dummy_run (actx : AVCodecContext) (codec : AVCodecID) (hs vs : Z)
    (fr : Frame.t) (w : World) :
  fill_dummy actx codec hs vs fr w =
  (Next tt, {| ctx := ctx w; mem := dummy_fill actx codec hs vs fr (mem w) |}).
Proof.
  unfold fill_dummy, dummy_fill. rewrite bind_unfold. unfold modify_mem at 1.
  rewrite bind_unfold.
  destruct (truthy (Frame.data fr !!! 2%nat));
    destruct (bool_decide (codec = AV_CODEC_ID_FLV1) ||
              bool_decide (codec = AV_CODEC_ID_H263)); reflexivity.
Qed.

Lemma fill_step_run (actx : AVCodecContext) (codec : AVCodecID) (hs vs lp : Z)
    (w wf : World) (i : nat) (pic : Picture) :
  slot_index (ctx w) lp = Some i -> pool (ctx w) !! i = Some pic ->
  (if negb (truthy (Avctx.hwaccel actx))
   then p ← load_pic lp; fill_dummy actx codec hs vs (Pic.f p)
   else mret tt) w = (Next tt, wf) ->
  ctx wf = ctx w /\
  mem wf = if truthy (Avctx.hwaccel actx) then mem w
           else dummy_fill actx codec hs vs (Pic.f pic) (mem w).
Proof.
  intros Hi Hp Hrun. destruct (truthy (Avctx.hwaccel actx)); cbn [negb] in Hrun.
  - injection Hrun as <-. split; reflexivity.
  - rewrite (bind_next _ _ _ _ _ (load_pic_at lp w i pic Hi Hp)) in Hrun.
    rewrite fill_dummy_run in Hrun. injection Hrun as <-. split; reflexivity.
Qed.

Lemma frame_start_dummy_last_run (actx : AVCodecContext) (w w' : World) :
  role_missing (last_picture_ptr (ctx w)) w = (Next true, w) ->
  pict_type (ctx w) <> AV_PICTURE_TYPE_I ->
  frame_start_dummy_last actx w = (Next tt, w') ->
  exists (i : nat) (s0 : MpegEncContext) (p0 : Picture),
    slot_index (ctx w') (last_picture_ptr (ctx w')) = Some i /\
    pool (ctx w') !! i = Some (reported (ap_pic (alloc_result s0 p0))) /\
    mem w' =
    if truthy (Avctx.hwaccel actx) then mem w
    else dummy_fill actx (codec_id (ctx w))
           (av_pix_fmt_get_chroma_sub_sample (Avctx.pix_fmt (avctx (ctx w)))).2.1
           (av_pix_fmt_get_chroma_sub_sample (Avctx.pix_fmt (avctx (ctx w)))).2.2
           (Pic.f (ap_pic (alloc_result s0 p0))) (mem w).
Proof.
  intros Hmiss HI Hrun. unfold frame_start_dummy_last in Hrun.
  rewrite bind_unfold in Hrun. unfold get_ctx at 1 in Hrun.
  rewrite (bind_next _ _ _ _ _ Hmiss) in Hrun.
  rewrite bool_decide_true in Hrun by exact HI. cbn [andb] in Hrun.
  destruct (av_pix_fmt_get_chroma_sub_sample (Avctx.pix_fmt (avctx (ctx w))))
    as [r0 [hs vs]].
  rewrite (bind_next _ _ _ _ _ (find_unused_picture_run w)) in Hrun.
  destruct (ff_find_unused_picture (avctx (ctx w)) (pool (ctx w)) 0) as [idx pool1].
  cbn [fst snd] in Hrun |- *.
  destruct (idx <? 0); [discriminate|].
  rewrite bind_unfold in Hrun. unfold get_ctx at 1 in Hrun.
  rewrite with_pool_picture in Hrun.
  change (codec_id (ctx (with_pool w pool1))) with (codec_id (ctx w)) in Hrun.
  set (lp := slot_addr (picture (ctx w)) idx) in Hrun.
  rewrite bind_unfold in Hrun. unfold modify_ctx at 1 in Hrun.
  set (wb := {| ctx := set_last_picture_ptr lp (ctx (with_pool w pool1));
                mem := mem (with_pool w pool1) |}) in Hrun.
  assert (Flast : last_picture_ptr (ctx wb) = lp) by reflexivity.
  assert (Fmem : mem wb = mem w) by reflexivity.
  clearbody wb.
  apply allocate_dummy_run in Hrun; [|intros; apply fail_never_next].
  destruct Hrun as (i & p0 & Hi & Hp0 & Hrun). cbv zeta in Hrun.
  pose proof (lookup_lt_Some _ _ _ Hp0) as Hlen.
  set (wm := with_pool wb (<[i := marked p0]> (pool (ctx wb)))) in Hrun.
  assert (Hi' : slot_index (ctx wm) lp = Some i).
  { rewrite <- Hi. apply slot_index_picture. apply with_pool_picture. }
  assert (Hlen' : (i < length (pool (ctx wm)))%nat).
  { unfold wm. rewrite with_pool_pool, length_insert. exact Hlen. }
  assert (Flast' : last_picture_ptr (ctx wm) = lp)
    by (unfold wm; rewrite with_pool_last; exact Flast).
  assert (Fmem' : mem wm = mem w)
    by (unfold wm; rewrite with_pool_mem; exact Fmem).
  clearbody wm.
  set (r := alloc_result (ctx wm) (marked p0)) in Hrun.
  set (wa := alloc_world wm i r) in Hrun.
  assert (Hia : slot_index (ctx wa) lp = Some i).
  { rewrite <- Hi'. apply slot_index_picture. apply alloc_world_picture. }
  assert (Hpa : pool (ctx wa) !! i = Some (ap_pic r)).
  { unfold wa. rewrite alloc_world_pool. apply list_lookup_insert_eq. exact Hlen'. }
  assert (Fla : last_picture_ptr (ctx wa) = lp)
    by (unfold wa; rewrite alloc_world_last; exact Flast').
  assert (Fma : mem wa = mem w)
    by (unfold wa; rewrite alloc_world_mem; exact Fmem').
  clearbody wa.
  apply bind_next_inv in Hrun. destruct Hrun as ([] & wf & Hfill & Hrun).
  apply (fill_step_run actx (codec_id (ctx w)) hs vs lp wa wf i (ap_pic r) Hia Hpa)
    in Hfill.
  destruct Hfill as [Hctx Hmem].
  rewrite (report_done_at lp wf i (ap_pic r)) in Hrun;
    [|rewrite Hctx; exact Hia | rewrite Hctx; exact Hpa].
  injection Hrun as <-.
  exists i, (ctx wm), (marked p0). fold r. split; [|split].
  - rewrite with_pool_last, Hctx, Fla. rewrite <- Hia.
    apply slot_index_picture. rewrite with_pool_picture, Hctx. reflexivity.
  - rewrite with_pool_pool. apply list_lookup_insert_eq.
    rewrite Hctx. eapply lookup_lt_Some. exact Hpa.
  - rewrite with_pool_mem, Hmem, Fma. reflexivity.
Qed.

Lemma dummy_fill_luma (actx : AVCodecContext) (codec : AVCodecID) (hs vs : Z)
    (fr : Frame.t) (m : memory) (a : Z) :
  in_rows (Frame.data fr !!! 0%nat) (Frame.linesize fr !!! 0%nat)
    (Avctx.height actx) (Avctx.width actx) a ->
  dummy_fill actx codec hs vs fr m a = dummy_luma codec.
Proof.
  intros Hin. unfold dummy_fill, dummy_luma. cbv zeta.
  destruct (bool_decide (codec = AV_CODEC_ID_FLV1) ||
            bool_decide (codec = AV_CODEC_ID_H263)).
  - apply fill_rows_in. exact Hin.
  - destruct (truthy (Frame.data fr !!! 2%nat)).
    + match goal with
      | |- fill_chroma_rows ?cb ?cbs ?cr ?crs ?rows ?wd ?c ?m1 a = _ =>
          destruct (fill_chroma_rows_value cb cbs cr crs rows wd c m1 a) as [E | E]
      end; rewrite E; [reflexivity|].
      apply fill_rows_in. exact Hin.
    + apply fill_rows_in. exact Hin.
Qed.

Lemma dummy_fill_chroma (actx : AVCodecContext) (codec : AVCodecID) (hs vs : Z)
    (fr : Frame.t) (m : memory) (a : Z) :
  Frame.data fr !!! 2%nat <> 0 ->
  in_rows (Frame.data fr !!! 1%nat) (Frame.linesize fr !!! 1%nat)
    (AV_CEIL_RSHIFT (Avctx.height actx) vs) (AV_CEIL_RSHIFT (Avctx.width actx) hs) a \/
  in_rows (Frame.data fr !!! 2%nat) (Frame.linesize fr !!! 2%nat)
    (AV_CEIL_RSHIFT (Avctx.height actx) vs) (AV_CEIL_RSHIFT (Avctx.width actx) hs) a ->
  (dummy_luma codec = 16 ->
   ~ in_rows (Frame.data fr !!! 0%nat) (Frame.linesize fr !!! 0%nat)
       (Avctx.height actx) (Avctx.width actx) a) ->
  dummy_fill actx codec hs vs fr m a = 128.
Proof.
  intros Hd2 Hin Hsep. unfold dummy_fill, dummy_luma in *. cbv zeta.
  unfold truthy. rewrite (proj2 (Z.eqb_neq _ _) Hd2). cbn [negb].
  destruct (bool_decide (codec = AV_CODEC_ID_FLV1) ||
            bool_decide (codec = AV_CODEC_ID_H263)).
  - rewrite fill_rows_out by (apply Hsep; reflexivity).
    apply fill_chroma_rows_in. exact Hin.
  - apply fill_chroma_rows_in. exact Hin.
Qed.

(** C2 (as the code has it): when the step that follows the rotation
    finds the last-reference role empty or without an allocated buffer and
    the picture type is not I, and the search for a slot and the
    allocation succeed, the last-reference pointer designates a pool slot
    whose two decode-progress counters are [INT_MAX]; unless a hardware
    accelerator is attached, every luma sample of the [avctx] width and
    height is 0x80 (16 for FLV1 and H.263) and, when the frame has a third
    plane, every sample of the two chroma planes is 0x80 (for FLV1 and
    H.263 provided the chroma samples are no bytes of the luma rows).
    For a B picture whose next-reference role is empty or without a
    buffer, the next-reference pointer likewise ends up designating a slot
    whose two counters are [INT_MAX]; no sample of that dummy is written:
    sample memory is exactly what it was. *)
Theorem dummy_reference_synthesis (actx : AVCodecContext) (w w' : World) :
  alloc_counters_are_ints ->
  (role_missing (last_picture_ptr (ctx w)) w = (Next true, w) ->
   pict_type (ctx w) <> AV_PICTURE_TYPE_I ->
   frame_start_dummy_last actx w = (Next tt, w') ->
   exists (i : nat) (pic : Picture),
     slot_index (ctx w') (last_picture_ptr (ctx w')) = Some i /\
     pool (ctx w') !! i = Some pic /\
     Pic.progress0 pic = INT_MAX /\ Pic.progress1 pic = INT_MAX /\
     let fr := Pic.f pic in
     let hs := (av_pix_fmt_get_chroma_sub_sample (Avctx.pix_fmt (avctx (ctx w)))).2.1 in
     let vs := (av_pix_fmt_get_chroma_sub_sample (Avctx.pix_fmt (avctx (ctx w)))).2.2 in
     let cw := AV_CEIL_RSHIFT (Avctx.width actx) hs in
     let ch := AV_CEIL_RSHIFT (Avctx.height actx) vs in
     (Avctx.hwaccel actx <> 0 -> mem w' = mem w) /\
     (Avctx.hwaccel actx = 0 ->
      (forall x y, 0 <= x < Avctx.width actx -> 0 <= y < Avctx.height actx ->
         mem w' (Frame.data fr !!! 0%nat + Frame.linesize fr !!! 0%nat * y + x)
         = dummy_luma (codec_id (ctx w))) /\
      (Frame.data fr !!! 2%nat <> 0 ->
       (dummy_luma (codec_id (ctx w)) = 16 ->
        forall a,
          in_rows (Frame.data fr !!! 1%nat) (Frame.linesize fr !!! 1%nat) ch cw a \/
          in_rows (Frame.data fr !!! 2%nat) (Frame.linesize fr !!! 2%nat) ch cw a ->
          ~ in_rows (Frame.data fr !!! 0%nat) (Frame.linesize fr !!! 0%nat)
              (Avctx.height actx) (Avctx.width actx) a) ->
       forall x y, 0 <= x < cw -> 0 <= y < ch ->
         mem w' (Frame.data fr !!! 1%nat + Frame.linesize fr !!! 1%nat * y + x) = 128 /\
         mem w' (Frame.data fr !!! 2%nat + Frame.linesize fr !!! 2%nat * y + x) = 128))) /\
  (role_missing (next_picture_ptr (ctx w)) w = (Next true, w) ->
   pict_type (ctx w) = AV_PICTURE_TYPE_B ->
   frame_start_dummy_next w = (Next tt, w') ->
   exists (i : nat) (pic : Picture),
     slot_index (ctx w') (next_picture_ptr (ctx w')) = Some i /\
     pool (ctx w') !! i = Some pic /\
     Pic.progress0 pic = INT_MAX /\ Pic.progress1 pic = INT_MAX /\
     mem w' = mem w).
Proof.
  intros Hints. split.
  - intros Hmiss HI Hrun.
    destruct (frame_start_dummy_last_run actx w w' Hmiss HI Hrun)
      as (i & s0 & p0 & Hi & Hp & Hmem).
    set (r := alloc_result s0 p0) in *.
    destruct (Hints (avctx s0) p0 (me s0) (sc s0) 0 0 (chroma_x_shift s0)
                (chroma_y_shift s0) (out_format s0) (mb_stride s0) (mb_width s0)
                (mb_height s0) (b8_stride s0) (linesize s0) (uvlinesize s0))
      as [Hc0 Hc1].
    fold (alloc_result s0 p0) in Hc0, Hc1. fold r in Hc0, Hc1.
    destruct (reported_counters (ap_pic r) Hc0 Hc1) as (Hr0 & Hr1 & Hf).
    exists i, (reported (ap_pic r)).
    split; [exact Hi|]. split; [exact Hp|]. split; [exact Hr0|]. split; [exact Hr1|].
    cbv zeta. rewrite Hf. unfold truthy in Hmem. split.
    + intros Hhw. rewrite Hmem, (proj2 (Z.eqb_neq _ _) Hhw). reflexivity.
    + intros Hhw. rewrite Hhw in Hmem. cbn in Hmem. rewrite Hmem. split.
      * intros x y Hx Hy. apply dummy_fill_luma. apply sample_in_rows; assumption.
      * intros Hd2 Hsep x y Hx Hy. split.
        -- apply dummy_fill_chroma; [exact Hd2 | left; apply sample_in_rows; assumption|].
           intros Hl. apply (Hsep Hl). left. apply sample_in_rows; assumption.
        -- apply dummy_fill_chroma; [exact Hd2 | right; apply sample_in_rows; assumption|].
           intros Hl. apply (Hsep Hl). right. apply sample_in_rows; assumption.
  - intros Hmiss HB Hrun.
    destruct (frame_start_dummy_next_run w w' Hmiss HB Hrun)
      as (i & s0 & p0 & Hi & Hp & Hmem).
    set (r := alloc_result s0 p0) in *.
    destruct (Hints (avctx s0) p0 (me s0) (sc s0) 0 0 (chroma_x_shift s0)
                (chroma_y_shift s0) (out_format s0) (mb_stride s0) (mb_width s0)
                (mb_height s0) (b8_stride s0) (linesize s0) (uvlinesize s0))
      as [Hc0 Hc1].
    fold (alloc_result s0 p0) in Hc0, Hc1. fold r in Hc0, Hc1.
    destruct (reported_counters (ap_pic r) Hc0 Hc1) as (Hr0 & Hr1 & Hf).
    exists i, (reported (ap_pic r)). repeat split; assumption.
Qed.

End Claims.

(** ** The theorems at sample inputs *)

Lemma call_result (m : M Z) (w : World) (r : Z) :
  (call m w).1 = Next r -> call m w = (Next r, (call m w).2).
Proof. intros E. rewrite <- E. apply surjective_pairing. Qed.

Lemma run_result {A} (m : M A) (w : World) (a : A) :
  (m w).1 = Next a -> m w = (Next a, (m w).2).
Proof. intros E. rewrite <- E. apply surjective_pairing. Qed.

Lemma frame_size_change_uninitialized_witness :
  context_initialized (ctx successor_world) = 0 /\
  call ff_mpv_common_frame_size_change successor_world
  = (Next (AVERROR EINVAL), successor_world).
Proof.
  split; [reflexivity|].
  apply (frame_size_change_uninitialized successor_world). reflexivity.
Defined.

Lemma add_dct_zero_residual_witness :
  block_last_index (ctx p_frame_world) !! 0%nat = Some (-1) /\
  add_dct (replicate 64 0) 0 65536 32 p_frame_world = (Next tt, p_frame_world).
Proof.
  assert (Hlast : block_last_index (ctx p_frame_world) !! 0%nat = Some (-1))
    by (vm_compute; reflexivity).
  split; [exact Hlast|].
  apply (proj1 (add_dct_zero_residual (replicate 64 0) 0 65536 32 p_frame_world (-1)
                  Hlast)).
  lia.
Defined.

Lemma frame_start_role_rotation_witness :
  call (ff_mpv_frame_start (sample_avctx 1008192)) p_frame_world
  = (Next 0, (call (ff_mpv_frame_start (sample_avctx 1008192)) p_frame_world).2) /\
  exists (pic : Z) (w1 w2 w_rot : World),
    frame_start_release (sample_avctx 1008192) p_frame_world = (Next tt, w1) /\
    frame_start_select w1 = (Next pic, w2) /\
    frame_start_to_rotation (sample_avctx 1008192) p_frame_world = (Next tt, w_rot) /\
    current_picture_ptr (ctx w_rot) = pic /\
    (pict_type (ctx p_frame_world) <> AV_PICTURE_TYPE_B ->
     last_picture_ptr (ctx w_rot) = next_picture_ptr (ctx p_frame_world) /\
     (droppable (ctx p_frame_world) = 0 -> next_picture_ptr (ctx w_rot) = pic)) /\
    (pict_type (ctx p_frame_world) = AV_PICTURE_TYPE_B ->
     last_picture_ptr (ctx w_rot) = last_picture_ptr (ctx p_frame_world) /\
     next_picture_ptr (ctx w_rot) = next_picture_ptr (ctx p_frame_world)).
Proof.
  assert (Hrun : call (ff_mpv_frame_start (sample_avctx 1008192)) p_frame_world
                 = (Next 0,
                    (call (ff_mpv_frame_start (sample_avctx 1008192)) p_frame_world).2)).
  { apply call_result. vm_compute. reflexivity. }
  split; [exact Hrun|].
  exact (frame_start_role_rotation (sample_avctx 1008192) p_frame_world _ Hrun).
Defined.

Lemma reference_alloc_counters : alloc_counters_are_ints.
Proof. intros a p me_ sc_ sh en cxs cys fmt ms mw mh b8 ls uvls. cbn. unfold INT_MAX. lia. Qed.

Lemma dummy_reference_synthesis_witness :
  alloc_counters_are_ints /\
  role_missing (last_picture_ptr (ctx p_frame_world)) p_frame_world
  = (Next true, p_frame_world) /\
  pict_type (ctx p_frame_world) <> AV_PICTURE_TYPE_I /\
  frame_start_dummy_last (sample_avctx 1008192) p_frame_world
  = (Next tt, (frame_start_dummy_last (sample_avctx 1008192) p_frame_world).2) /\
  exists (i : nat) (pic : Picture),
    slot_index (ctx (frame_start_dummy_last (sample_avctx 1008192) p_frame_world).2)
      (last_picture_ptr
         (ctx (frame_start_dummy_last (sample_avctx 1008192) p_frame_world).2))
    = Some i /\
    pool (ctx (frame_start_dummy_last (sample_avctx 1008192) p_frame_world).2) !! i
    = Some pic /\
    Pic.progress0 pic = INT_MAX /\ Pic.progress1 pic = INT_MAX.
Proof.
  assert (Hmiss : role_missing (last_picture_ptr (ctx p_frame_world)) p_frame_world
                  = (Next true, p_frame_world)) by reflexivity.
  assert (Htype : pict_type (ctx p_frame_world) <> AV_PICTURE_TYPE_I)
    by (vm_compute; discriminate).
  assert (Hrun : frame_start_dummy_last (sample_avctx 1008192) p_frame_world
                 = (Next tt,
                    (frame_start_dummy_last (sample_avctx 1008192) p_frame_world).2)).
  { apply run_result. vm_compute. reflexivity. }
  split; [exact reference_alloc_counters|].
  split; [exact Hmiss|]. split; [exact Htype|]. split; [exact Hrun|].
  destruct (proj1 (dummy_reference_synthesis (sample_avctx 1008192) p_frame_world _
                     reference_alloc_counters) Hmiss Htype Hrun)
    as (i & pic & Hi & Hp & H0 & H1 & _).
  exists i, pic. repeat split; assumption.
Defined.

Lemma update_thread_context_rebases_roles_witness :
  Avctx.addr (sample_avctx 700000) <> Avctx.addr (avctx predecessor_context) /\
  call (ff_mpeg_update_thread_context (sample_avctx 700000)
          (avctx predecessor_context) predecessor_context) successor_world
  = (Next 0,
     (call (ff_mpeg_update_thread_context (sample_avctx 700000)
             (avctx predecessor_context) predecessor_context) successor_world).2) /\
  0 < sizeof_Picture /\ 0 < picture predecessor_context /\
  0 <= 2 < Z.of_nat MAX_PICTURE_COUNT /\
  let s' :=
    ctx (call (ff_mpeg_update_thread_context (sample_avctx 700000)
                 (avctx predecessor_context) predecessor_context) successor_world).2 in
  last_picture_ptr predecessor_context = slot_addr (picture predecessor_context) 2 /\
  last_picture_ptr s' = slot_addr (picture s') 2 /\
  last_picture_ptr s' <> last_picture_ptr predecessor_context.
Proof.
  assert (Hne : Avctx.addr (sample_avctx 700000)
                <> Avctx.addr (avctx predecessor_context)) by (vm_compute; discriminate).
  assert (Hrun :
    call (ff_mpeg_update_thread_context (sample_avctx 700000)
            (avctx predecessor_context) predecessor_context) successor_world
    = (Next 0,
       (call (ff_mpeg_update_thread_context (sample_avctx 700000)
               (avctx predecessor_context) predecessor_context) successor_world).2)).
  { apply call_result. vm_compute. reflexivity. }
  assert (Hs : 0 < sizeof_Picture) by (vm_compute; reflexivity).
  assert (Hp : 0 < picture predecessor_context) by (vm_compute; reflexivity).
  assert (Hi : 0 <= 2 < Z.of_nat MAX_PICTURE_COUNT) by (vm_compute; split; [discriminate | reflexivity]).
  assert (Hl : last_picture_ptr predecessor_context
               = slot_addr (picture predecessor_context) 2) by (vm_compute; reflexivity).
  split; [exact Hne|]. split; [exact Hrun|]. split; [exact Hs|]. split; [exact Hp|].
  split; [exact Hi|]. cbv zeta. split; [exact Hl|].
  exact (proj1 (update_thread_context_rebases_roles _ _ _ _ _ 2 Hne Hrun Hs Hp Hi) Hl).
Defined.

Lemma sample_pool_allocated : pool_allocated (ctx forgotten_world).
Proof.
  unfold pool_allocated. split; [vm_compute; discriminate|].
  split; vm_compute; reflexivity.
Qed.

Lemma release_pass_slots_witness :
  pool_allocated (ctx forgotten_world) /\
  exists l',
    release_forgotten forgotten_world = (Next tt, with_pool forgotten_world l') /\
    length l' = length (pool (ctx forgotten_world)).
Proof.
  split; [exact sample_pool_allocated|].
  destruct (release_pass_slots forgotten_world sample_pool_allocated)
    as (l' & Hrun & Hlen & _).
  exists l'. split; assumption.
Defined.

Lemma flush_resets_roles_witness :
  pool_allocated (ctx forgotten_world) /\
  exists w',
    ff_mpeg_flush forgotten_world = (Next tt, w') /\
    (current_picture_ptr (ctx w') = 0 /\ last_picture_ptr (ctx w') = 0 /\
     next_picture_ptr (ctx w') = 0) /\
    picture (ctx w') = picture (ctx forgotten_world).
Proof.
  split; [exact sample_pool_allocated|].
  destruct (flush_resets_roles forgotten_world sample_pool_allocated)
    as (w' & Hrun & Hptrs & _ & _ & _ & Hpic & _).
  exists w'. repeat split; try apply Hptrs; assumption.
Defined.

Lemma lowres_edge_emulation_witness :
  hpel_source lowres_context 8 8 2 0 = (2, 0, 8, 8) /\
  (in_int 8 /\ in_int 16) /\ 4 + lnotnot 2 <= 16 /\ (4 + lnotnot 0) * 2 ^ 0 <= 16 /\
  (hp_emu (hpel_motion_lowres lowres_context 0 65536 0 0 8 8 32 32 16 16 16 4 4 2 0)
   = 1 <->
   ~ rect_inside 8 (8 * 2 ^ 0) (4 + lnotnot 2) ((4 + lnotnot 0) * 2 ^ 0) 16 16).
Proof.
  assert (Hsrc : hpel_source lowres_context 8 8 2 0 = (2, 0, 8, 8))
    by (vm_compute; reflexivity).
  assert (H8 : in_int 8) by (unfold in_int, INT_MIN, INT_MAX; lia).
  assert (H16 : in_int 16) by (unfold in_int, INT_MIN, INT_MAX; lia).
  assert (Hx : 4 + lnotnot 2 <= 16) by (vm_compute; discriminate).
  assert (Hy : (4 + lnotnot 0) * 2 ^ 0 <= 16) by (vm_compute; discriminate).
  split; [exact Hsrc|]. split; [split; assumption|]. split; [exact Hx|].
  split; [exact Hy|].
  exact (proj1 (lowres_edge_emulation lowres_context) 0 65536 0 0 8 8 32 32 16 16 16
           4 4 2 0 2 0 8 8 Hsrc H8 H8 H16 H16 ltac:(lia) ltac:(lia) ltac:(lia) Hx Hy).
Defined.

Lemma lowest_referenced_row_cases_witness :
  in_int (mb_height (sample_context 8192) - 1) /\
  picture_structure (sample_context 8192) = PICT_FRAME /\
  mcsel (sample_context 8192) = 0 /\
  handled_mvs (mv_type (sample_context 8192)) = Some 1%nat /\
  rows_fit (sample_context 8192) 0 1 /\
  lowest_referenced_row (sample_context 8192) 0 =
  av_clip (mb_y (sample_context 8192)
           + displacement_rows (sample_context 8192)
               (max_abs_my (sample_context 8192) 0 1))
    0 (mb_height (sample_context 8192) - 1).
Proof.
  assert (Hh : in_int (mb_height (sample_context 8192) - 1))
    by (vm_compute; split; discriminate).
  assert (Hps : picture_structure (sample_context 8192) = PICT_FRAME)
    by (vm_compute; reflexivity).
  assert (Hmc : mcsel (sample_context 8192) = 0) by (vm_compute; reflexivity).
  assert (Hmv : handled_mvs (mv_type (sample_context 8192)) = Some 1%nat)
    by (vm_compute; reflexivity).
  assert (Hfit : rows_fit (sample_context 8192) 0 1)
    by (vm_compute; split; [discriminate | split; discriminate]).
  split; [exact Hh|]. split; [exact Hps|]. split; [exact Hmc|]. split; [exact Hmv|].
  split; [exact Hfit|].
  exact (proj1 (proj2 (lowest_referenced_row_cases (sample_context 8192) 0 Hh) 1%nat
                  Hps Hmc Hmv Hfit)).
Defined.

(** ** Where the code differs from the claims as they are stated *)

(** C2 as stated fails: for a B picture whose next-reference role is
    empty, a successful [ff_mpv_frame_start] leaves a dummy next picture
    whose counters are published, but whose luma samples were never
    written: the first one still holds the 0 it held before the call, not
    0x80. *)
Lemma dummy_next_not_filled_counterexample :
  let run := call (ff_mpv_frame_start (sample_avctx 1008192)) b_frame_world in
  run.1 = Next 0 /\
  next_picture_ptr (ctx b_frame_world) = 0 /\
  pict_type (ctx b_frame_world) = AV_PICTURE_TYPE_B /\
  exists (i : nat) (pic : Picture),
    slot_index (ctx run.2) (next_picture_ptr (ctx run.2)) = Some i /\
    pool (ctx run.2) !! i = Some pic /\
    Pic.progress0 pic = INT_MAX /\
    mem run.2 (Frame.data (Pic.f pic) !!! 0%nat) <> 128.
Proof.
  cbv zeta. split; [vm_compute; reflexivity|].
  split; [vm_compute; reflexivity|]. split; [vm_compute; reflexivity|].
  exists 2%nat.
  eexists. split; [vm_compute; reflexivity|]. split; [vm_compute; reflexivity|].
  split; [vm_compute; reflexivity|]. vm_compute. discriminate.
Qed.

(** C4 as stated fails: slot 0 holds a picture flagged as a reference,
    which the claim says is left untouched, and the release pass
    unreferences it (no reference role points to it). *)
Lemma release_pass_counterexample :
  exists pic : Picture,
    pool (ctx forgotten_world) !! 0%nat = Some pic /\
    ~ spec_released (ctx forgotten_world) 0 pic /\
    (release_forgotten forgotten_world).1 = Next tt /\
    pool (ctx (release_forgotten forgotten_world).2) !! 0%nat
    = Some (ff_mpeg_unref_picture (avctx (ctx forgotten_world)) pic) /\
    ff_mpeg_unref_picture (avctx (ctx forgotten_world)) pic <> pic.
Proof.
  exists reference_picture.
  split; [vm_compute; reflexivity|]. split.
  { unfold spec_released. intros (_ & Href & _). vm_compute in Href. discriminate. }
  split; [vm_compute; reflexivity|]. split; [vm_compute; reflexivity|].
  vm_compute. discriminate.
Qed.

(** C6 as stated fails: a 16x16 macroblock of a frame picture, with no
    field vector and no alternate scan, whose [mcsel] is set: the function
    returns the last row, not the clipped row of the vector. *)
Lemma lowest_referenced_row_counterexample :
  picture_structure gmc_context = PICT_FRAME /\
  mv_type gmc_context = MV_TYPE_16X16 /\
  alternate_scan gmc_context = 0 /\
  lowest_referenced_row gmc_context 0 = mb_height gmc_context - 1 /\
  lowest_referenced_row gmc_context 0 <>
  av_clip (mb_y gmc_context + displacement_rows gmc_context (max_abs_my gmc_context 0 1))
    0 (mb_height gmc_context - 1).
Proof.
  split; [vm_compute; reflexivity|]. split; [vm_compute; reflexivity|].
  split; [vm_compute; reflexivity|]. split; [vm_compute; reflexivity|].
  vm_compute. discriminate.
Qed.

(** ** Where the code falls short of a claim *)

(** C5: the edge test under-detects.  In a picture of one macroblock
    decoded at [lowres = 1], the 16x16 prediction with the vector (1, 0)
    is the one call of [mpeg_motion_lowres] that [MPV_motion_lowres]
    makes; its source is the luma rectangle of 9 columns (the block of 8
    and the column the interpolation needs) at column 0 of a plane of 8
    columns, one sample beyond the right edge.  The bound
    [FFMAX(8 - 1 - 8, 0)] is 0, which column 0 does not exceed, so the
    edge is not emulated and the interpolation reads the plane itself. *)
Theorem lowres_edge_under_detection :
  let s := single_mb_context in
  let lowres := Avctx.lowres (avctx s) in
  let block_s := Z.shiftr 8 lowres in
  let r := mpeg_motion_lowres s 65536 131072 196608 0 0 0 262144 327680 393216
             (mv s 0 0 0) (mv s 0 0 1) (2 * block_s) (mb_y s) in
  MPV_motion_lowres (fun v => v) (fun _ _ => 0) 7 s 65536 131072 196608 0
    [262144; 327680; 393216; 0] 5
  = Some [CallMpegMotion 5 r] /\
  (lowres_source s 0 0 0 (mv s 0 0 0) (mv s 0 0 1) (mb_y s)).1 = (1, 0, 0, 0) /\
  ~ rect_inside 0 0 (2 * block_s + lnotnot 1) (2 * block_s + lnotnot 0)
      (Z.shiftr (h_edge_pos s) lowres) (Z.shiftr (v_edge_pos s) lowres) /\
  ml_emu r = false /\ ml_edge_y r = None /\ po_src (ml_pix_y r) = 262144.
Proof.
  cbv zeta.
  split; [vm_compute; reflexivity|]. split; [vm_compute; reflexivity|].
  split.
  { unfold rect_inside. vm_compute. intros (_ & Hc & _). apply Hc. reflexivity. }
  split; [vm_compute; reflexivity|]. split; vm_compute; reflexivity.
Qed.

(** * Further properties of the decoder *)

Section MotionVectors.
Context `{Externals}.

(** ** lowest_referenced_row: the row it returns covers every vector *)

Lemma av_clip_lower (a hi : Z) : Z.min hi a <= av_clip a 0 hi.
Proof.
  unfold av_clip. destruct (a <? 0) eqn:E1; [lia|]. destruct (a >? hi) eqn:E2; lia.
Qed.

(** X1.  As long as the arithmetic stays within [int] (the last row,
    and for a handled geometry the vertical components of its vectors,
    are as [rows_fit] asks), the row [lowest_referenced_row] returns is a
    row of the picture at or below the current one, and for each vector of
    a handled geometry it is at or below the macroblock row that holds the
    bottom sample row of the displaced block (row [64 * mb_y + 63] in
    quarter samples, moved by the vector), unless that row is beyond the
    last row of the picture. *)
Theorem lowest_referenced_row_covers (s : MpegEncContext) (dir : Z) :
  in_int (mb_height s - 1) ->
  (forall n, handled_mvs (mv_type s) = Some n -> rows_fit s dir n) ->
  (0 <= mb_y s < mb_height s ->
   mb_y s <= lowest_referenced_row s dir <= mb_height s - 1) /\
  (forall (n i : nat),
     handled_mvs (mv_type s) = Some n -> (i < n)%nat ->
     let quarter :=
       mv s dir (Z.of_nat i) 1 * (if truthy (quarter_sample s) then 1 else 2) in
     Z.min (mb_height s - 1) ((64 * mb_y s + 63 + quarter) / 64)
     <= lowest_referenced_row s dir).
Proof.
  intros Hh Hfit.
  assert (Hcase :
    lowest_referenced_row s dir = mb_height s - 1 \/
    exists n,
      handled_mvs (mv_type s) = Some n /\
      lowest_referenced_row s dir =
      av_clip (mb_y s + displacement_rows s (max_abs_my s dir n)) 0
        (mb_height s - 1)).
  { destruct (decide (picture_structure s = PICT_FRAME)) as [Hps | Hps];
      [|left; apply lowest_referenced_row_unhandled; [exact Hh | left; exact Hps]].
    destruct (decide (mcsel s = 0)) as [Hmc | Hmc];
      [|left; apply lowest_referenced_row_unhandled;
         [exact Hh | right; left; exact Hmc]].
    destruct (handled_mvs (mv_type s)) as [n|] eqn:Hmv;
      [|left; apply lowest_referenced_row_unhandled;
         [exact Hh | right; right; exact Hmv]].
    right. exists n. split; [reflexivity|].
    apply lowest_referenced_row_handled; auto. }
  assert (Hf : 1 <= (if truthy (quarter_sample s) then 1 else 2) <= 2)
    by (destruct (truthy (quarter_sample s)); lia).
  split.
  - intros Hy. destruct Hcase as [-> | (n & _ & ->)]; [lia|].
    pose proof (max_abs_my_nonneg s dir n) as Hd0.
    assert (Hd : 0 <= displacement_rows s (max_abs_my s dir n)).
    { unfold displacement_rows. apply Z.div_pos; [nia | lia]. }
    pose proof (av_clip_range (mb_y s + displacement_rows s (max_abs_my s dir n))
                  0 (mb_height s - 1) ltac:(lia)) as Hc.
    pose proof (av_clip_lower (mb_y s + displacement_rows s (max_abs_my s dir n))
                  (mb_height s - 1)) as Hl.
    lia.
  - intros n i Hmv Hi quarter.
    destruct Hcase as [-> | (n' & Hmv' & ->)]; [lia|].
    rewrite Hmv in Hmv'. injection Hmv' as <-.
    pose proof (max_abs_my_bound s dir n i Hi) as Hb.
    pose proof (av_clip_lower (mb_y s + displacement_rows s (max_abs_my s dir n))
                  (mb_height s - 1)) as Hl.
    assert (Hq : (64 * mb_y s + 63 + quarter) / 64
                 <= mb_y s + displacement_rows s (max_abs_my s dir n)).
    { unfold displacement_rows.
      replace (64 * mb_y s + 63 + quarter) with (63 + quarter + mb_y s * 64) by lia.
      rewrite Z.div_add by lia.
      assert ((63 + quarter) / 64
              <= (max_abs_my s dir n
                  * (if truthy (quarter_sample s) then 1 else 2) + 63) / 64); [|lia].
      apply Z.div_le_mono; [lia|]. subst quarter. nia. }
    lia.
Qed.

(** ** The source position and the sub-sample phase of a block *)




End MotionVectors.

Section Phases.
Context `{Externals}.

(** ** The weights handed to the interpolation functions *)






(** ** REBASE_PICTURE there and back *)

(** X4.  Rebasing the address of slot [i] of one pool to a second pool
    and back gives the address it started from: between two contexts that
    own a pool the macro is a bijection on slot addresses. *)
Theorem REBASE_PICTURE_round_trip (a b : MpegEncContext) (i : Z) :
  0 < sizeof_Picture -> 0 < picture a -> 0 < picture b ->
  0 <= i < Z.of_nat MAX_PICTURE_COUNT ->
  REBASE_PICTURE (slot_addr (picture a) i) b a = slot_addr (picture b) i /\
  REBASE_PICTURE (REBASE_PICTURE (slot_addr (picture a) i) b a) a b
  = slot_addr (picture a) i.
Proof.
  intros Hs Ha Hb Hi.
  rewrite (REBASE_PICTURE_slot b a i Hs Ha Hi).
  split; [reflexivity|]. apply REBASE_PICTURE_slot; assumption.
Qed.

End Phases.

(** * The calculus of [outcome] *)

Lemma ends_bind {A B} (U : Prop) (m : M A) (k : A -> M B) (w : World) Q R :
  outcome U m w (fun a w1 => outcome U (k a) w1 Q R) R -> outcome U (m ≫= k) w Q R.
Proof.
  unfold outcome. rewrite bind_unfold.
  destruct (m w) as [[a | r | |] w1]; intros E; exact E.
Qed.

Lemma ends_ret {A} (U : Prop) (a : A) (w : World) Q R :
  Q a w -> outcome U (mret a) w Q R.
Proof. intros E. exact E. Qed.

Lemma ends_get_ctx (U : Prop) (w : World) Q R :
  Q (ctx w) w -> outcome U get_ctx w Q R.
Proof. intros E. exact E. Qed.

Lemma ends_modify_ctx (U : Prop) (g : MpegEncContext -> MpegEncContext) (w : World) Q R :
  Q tt {| ctx := g (ctx w); mem := mem w |} -> outcome U (modify_ctx g) w Q R.
Proof. intros E. exact E. Qed.

Lemma ends_modify_mem (U : Prop) (g : memory -> memory) (w : World) Q R :
  Q tt {| ctx := ctx w; mem := g (mem w) |} -> outcome U (modify_mem g) w Q R.
Proof. intros E. exact E. Qed.

Lemma ends_return {A} (U : Prop) (r : Z) (w : World) (Q : A -> World -> Prop) R :
  R r w -> outcome U (return_ r) w Q R.
Proof. intros E. exact E. Qed.

Lemma ends_extern `{Externals} (U : Prop) (g : MpegEncContext -> Z * MpegEncContext)
    (w : World) Q R :
  Q (g (ctx w)).1 {| ctx := (g (ctx w)).2; mem := mem w |} -> outcome U (extern g) w Q R.
Proof. intros E. exact E. Qed.

Lemma ends_assert (b : bool) (w : World) Q R :
  (b = true -> Q tt w) -> outcome True (av_assert0 b) w Q R.
Proof. unfold outcome, av_assert0. destruct b; intros E; [apply E; reflexivity | exact I]. Qed.

Lemma ends_call (U : Prop) (m : M Z) (w : World) Q R :
  outcome U m w Q Q -> outcome U (call m) w Q R.
Proof.
  unfold outcome, call. destruct (m w) as [[a | r | |] w1]; intros E; exact E.
Qed.

Lemma ends_weaken {A} (U : Prop) (m : M A) (w : World) (Q Q' : A -> World -> Prop)
    (R R' : Z -> World -> Prop) :
  outcome U m w Q R ->
  (forall a w', Q a w' -> Q' a w') -> (forall r w', R r w' -> R' r w') ->
  outcome U m w Q' R'.
Proof.
  unfold outcome. destruct (m w) as [[a | r | |] w1]; intros E HQ HR; auto.
Qed.

Lemma ends_next {A} (U : Prop) (m : M A) (w w' : World) (a : A) Q R :
  outcome U m w Q R -> m w = (Next a, w') -> Q a w'.
Proof. unfold outcome. intros E Hm. rewrite Hm in E. exact E. Qed.

(** A statement whose run is known. *)
Lemma ends_run {A} (U : Prop) (m : M A) (w w1 : World) (a : A) Q R :
  m w = (Next a, w1) -> Q a w1 -> outcome U m w Q R.
Proof. unfold outcome. intros Hm E. rewrite Hm. exact E. Qed.

(** A call that ends, ends by handing a value to its caller. *)
Lemma ends_total (m : M Z) (w : World) Q R :
  outcome False (call m) w Q R -> exists r w', call m w = (Next r, w') /\ Q r w'.
Proof.
  unfold outcome, call. destruct (m w) as [[a | r | |] w1]; intros E; try contradiction.
  - exists a, w1. split; [reflexivity | exact E].
  - exists r, w1. split; [reflexivity | exact E].
Qed.

Lemma ends_steady {X A} (v : World -> X) (m : M A) (w : World) Q R :
  steady v m -> (forall a w', v w' = v w -> Q a w') -> outcome True m w Q R.
Proof.
  intros Hm HQ. unfold outcome. destruct (Hm w) as [Hv Hr].
  destruct (m w) as [[a | r | |] w1]; simpl in *; auto.
  exfalso. apply (Hr r). reflexivity.
Qed.

Lemma ends_tame {X A} (v : World -> X) (m : M A) (w : World) Q R :
  tame v m ->
  (forall a w', v w' = v w -> Q a w') ->
  (forall r w', v w' = v w -> r < 0 -> R r w') ->
  outcome True m w Q R.
Proof.
  intros Hm HQ HR. unfold outcome. destruct (Hm w) as [Hv Hr].
  destruct (m w) as [[a | r | |] w1]; simpl in *; auto.
Qed.

Section Steady.
Context `{Externals} {X : Type} (v : World -> X).

Lemma steady_ret {A} (a : A) : steady v (mret a).
Proof. intros w. split; [reflexivity | discriminate]. Qed.

Lemma steady_bind {A B} (m : M A) (k : A -> M B) :
  steady v m -> (forall a, steady v (k a)) -> steady v (m ≫= k).
Proof.
  intros Hm Hk w. rewrite bind_unfold. destruct (Hm w) as [Hv Hr].
  destruct (m w) as [[a | r | |] w1]; simpl in *.
  - destruct (Hk a w1) as [Hv' Hr']. split; [congruence | exact Hr'].
  - exfalso. apply (Hr r). reflexivity.
  - split; [exact Hv | discriminate].
  - split; [exact Hv | discriminate].
Qed.

Lemma steady_get_ctx : steady v get_ctx.
Proof. intros w. split; [reflexivity | discriminate]. Qed.

Lemma steady_modify_ctx (g : MpegEncContext -> MpegEncContext) :
  (forall w, v {| ctx := g (ctx w); mem := mem w |} = v w) -> steady v (modify_ctx g).
Proof. intros Hg w. split; [apply Hg | discriminate]. Qed.

Lemma steady_modify_mem (g : memory -> memory) :
  (forall w, v {| ctx := ctx w; mem := g (mem w) |} = v w) -> steady v (modify_mem g).
Proof. intros Hg w. split; [apply Hg | discriminate]. Qed.

Lemma steady_when (b : bool) (m : M unit) : steady v m -> steady v (when_ b m).
Proof. intros Hm. destruct b; [exact Hm | apply steady_ret]. Qed.

Lemma steady_forM {A} (l : list A) (body : A -> M unit) :
  (forall x, steady v (body x)) -> steady v (forM_ l body).
Proof.
  intros Hb. induction l as [|x l IH]; simpl.
  - apply steady_ret.
  - apply steady_bind; [apply Hb | intros _; exact IH].
Qed.

Hypothesis v_pool : forall w l, v (with_pool w l) = v w.

Lemma steady_load_pic (p : Z) : steady v (load_pic p).
Proof.
  intros w. unfold load_pic.
  destruct (slot_index (ctx w) p ≫= _); split; try reflexivity; discriminate.
Qed.

Lemma steady_store_pic (p : Z) (pic : Picture) : steady v (store_pic p pic).
Proof.
  intros w. unfold store_pic.
  destruct (slot_index (ctx w) p); [|split; [reflexivity | discriminate]].
  case_decide; split; try reflexivity; try discriminate.
  apply (v_pool w).
Qed.

Lemma steady_update_pic (p : Z) (g : Picture -> Picture) : steady v (update_pic p g).
Proof.
  unfold update_pic. apply steady_bind; [apply steady_load_pic|].
  intros a. apply steady_store_pic.
Qed.

Lemma steady_unref_at (p : Z) : steady v (unref_at p).
Proof.
  unfold unref_at. apply steady_bind; [apply steady_get_ctx|].
  intros s. apply steady_update_pic.
Qed.

End Steady.

Ltac ends_step :=
  lazymatch goal with
  | |- outcome _ (mbind _ _) _ _ _ => apply ends_bind
  | |- outcome _ (mret _) _ _ _ => apply ends_ret
  | |- outcome _ get_ctx _ _ _ => apply ends_get_ctx
  | |- outcome _ (modify_ctx _) _ _ _ => apply ends_modify_ctx
  | |- outcome _ (modify_mem _) _ _ _ => apply ends_modify_mem
  | |- outcome _ (return_ _) _ _ _ => apply ends_return
  | |- outcome _ (extern _) _ _ _ => apply ends_extern
  | |- outcome _ (call _) _ _ _ => apply ends_call
  | |- outcome True (av_assert0 _) _ _ _ => apply ends_assert; intros ?
  | |- outcome _ (if ?b then _ else _) _ _ _ => destruct b eqn:?
  | |- outcome _ (let '(_, _) := ?x in _) _ _ _ => destruct x as [? ?] eqn:?
  end; cbn [ctx mem].

Ltac forget_world :=
  match goal with |- outcome _ _ ?W _ _ => generalize W; intro end.

Section FrameSizeChange.
Context `{Externals}.

(** ** ff_mpv_common_frame_size_change: the reinit flag *)

Lemma ends_frame_size_change_fail {A} (U : Prop) (err : Z) (w : World)
    (Q : A -> World -> Prop) (R : Z -> World -> Prop) :
  (forall w', context_reinit (ctx w') = 1 -> R err w') ->
  outcome U (frame_size_change_fail err) w Q R.
Proof.
  intros HR. unfold frame_size_change_fail. repeat ends_step.
  apply HR. reflexivity.
Qed.

(** X5.  On an initialised context [ff_mpv_common_frame_size_change]
    returns 0 exactly when it leaves [context_reinit] cleared: every
    failure, whichever step it comes from, returns a non-zero value and
    leaves [context_reinit] set, so that the next call that looks at the
    flag tries again. *)
Theorem frame_size_change_reinit_flag (w w' : World) (r : Z) :
  context_initialized (ctx w) <> 0 ->
  call ff_mpv_common_frame_size_change w = (Next r, w') ->
  (r = 0 /\ context_reinit (ctx w') = 0) \/ (r <> 0 /\ context_reinit (ctx w') = 1).
Proof.
  intros Hinit Hcall.
  pose (post := fun (r : Z) (w' : World) =>
    (r = 0 /\ context_reinit (ctx w') = 0) \/ (r <> 0 /\ context_reinit (ctx w') = 1)).
  refine (ends_next True _ _ _ _ post (fun _ _ => True) _ Hcall).
  clear Hcall. subst post.
  apply ends_call. unfold ff_mpv_common_frame_size_change.
  ends_step. ends_step. ends_step.
  { unfold truthy in *. apply negb_true_iff, negb_false_iff in Heqb. lia. }
  ends_step. ends_step. forget_world.
  ends_step. ends_step. ends_step.
  apply (ends_steady (fun _ => tt)).
  { apply steady_when, steady_forM. intros i. apply steady_update_pic. reflexivity. }
  intros _ wl _.
  ends_step. ends_step. forget_world.
  ends_step. ends_step.
  ends_step.
  { apply ends_frame_size_change_fail. intros wf E. right. split; [|exact E].
    apply andb_true_iff in Heqb0 as [_ E0]. lia. }
  ends_step. destruct p as [hs vs]. ends_step. ends_step. forget_world.
  ends_step.
  { apply ends_frame_size_change_fail. intros wf E. right. split; [|exact E]. lia. }
  ends_step. ends_step. forget_world.
  ends_step.
  { apply ends_frame_size_change_fail. intros wf E. right. split; [|exact E].
    unfold truthy in *. apply negb_true_iff in Heqb2. lia. }
  ends_step. ends_step. forget_world.
  ends_step. ends_step. ends_step.
  assert (Hk : forall a wk,
    outcome True (if a <? 0 then frame_size_change_fail a
             else modify_ctx (set_context_reinit 0) ;; mret 0) wk
      (fun r w' => (r = 0 /\ context_reinit (ctx w') = 0) \/
                   (r <> 0 /\ context_reinit (ctx w') = 1))
      (fun r w' => (r = 0 /\ context_reinit (ctx w') = 0) \/
                   (r <> 0 /\ context_reinit (ctx w') = 1))).
  { intros a wk. ends_step.
    - apply ends_frame_size_change_fail. intros wf E. right. split; [lia | exact E].
    - repeat ends_step. left. split; reflexivity. }
  ends_step; ends_step; apply Hk.
Qed.

End FrameSizeChange.

Section FrameSizeChangePool.
Context `{Externals}.

(** ** ff_mpv_common_frame_size_change: the pool and the roles *)

Lemma update_all_slots (g : Picture -> Picture) (w : World) :
  pool_allocated (ctx w) ->
  forM_ (seq 0 MAX_PICTURE_COUNT)
        (fun i => update_pic (slot_addr (picture (ctx w)) (Z.of_nat i)) g) w
  = (Next tt, with_pool w (map g (pool (ctx w)))).
Proof.
  intros (Hb & Hs & Hlen).
  rewrite <- (with_pool_same w) at 1.
  rewrite (forM_pool w _ (fun _ => g) MAX_PICTURE_COUNT).
  - rewrite <- Hlen at 1. rewrite map_range_all. reflexivity.
  - intros i l pic Hi Hl Hpic. apply (update_pic_slot w Hb Hs); assumption.
  - lia.
  - exact Hlen.
Qed.

Lemma ends_fail_keeps_pool {A} (U : Prop) (err : Z) (w : World)
    (V : Z * list Picture * (Z * Z * Z)) (Q : A -> World -> Prop) :
  frame_helpers_keep_pool -> pool_view (ctx w) = V ->
  outcome U (frame_size_change_fail err) w Q (fun _ w' => pool_view (ctx w') = V).
Proof.
  intros (Hfree & _ & _) Hv. unfold frame_size_change_fail. repeat ends_step.
  change (pool_view (ff_mpv_free_context_frame (ctx w)) = V).
  rewrite Hfree. exact Hv.
Qed.

(** X6.  When the size-dependent helpers leave the pool alone, a call of
    [ff_mpv_common_frame_size_change] on an initialised context with its
    pool in place always comes back, and whether it succeeds or fails it
    leaves every picture of the pool flagged [needs_realloc] and the three
    role pointers NULL. *)
Theorem frame_size_change_marks_pool (w : World) :
  frame_helpers_keep_pool ->
  context_initialized (ctx w) <> 0 -> pool_allocated (ctx w) ->
  exists r w',
    call ff_mpv_common_frame_size_change w = (Next r, w') /\
    pool (ctx w') = map (Pic.set_needs_realloc 1) (pool (ctx w)) /\
    picture (ctx w') = picture (ctx w) /\
    last_picture_ptr (ctx w') = 0 /\ current_picture_ptr (ctx w') = 0 /\
    next_picture_ptr (ctx w') = 0.
Proof.
  intros Hkeep Hinit Hpool.
  pose (V := (picture (ctx w), map (Pic.set_needs_realloc 1) (pool (ctx w)),
              (0, 0, 0)) : Z * list Picture * (Z * Z * Z)).
  assert (Hgoal :
    outcome False (call ff_mpv_common_frame_size_change) w
      (fun _ w' => pool_view (ctx w') = V) (fun _ _ => True)).
  2:{ apply ends_total in Hgoal as (r & w' & Hcall & Hv).
      exists r, w'. split; [exact Hcall|].
      unfold pool_view, V in Hv. injection Hv as -> -> -> -> ->. repeat split. }
  destruct Hkeep as (Hfree & Hinitf & Hdup).
  assert (Hkeep : frame_helpers_keep_pool) by (repeat split; assumption).
  apply ends_call. unfold ff_mpv_common_frame_size_change.
  ends_step. ends_step. ends_step.
  { unfold truthy in *. apply negb_true_iff, negb_false_iff in Heqb. lia. }
  ends_step. ends_step.
  set (w1 := {| ctx := ff_mpv_free_context_frame (ctx w); mem := mem w |}).
  assert (H1 : pool_view (ctx w1) = pool_view (ctx w)) by apply Hfree.
  clearbody w1.
  assert (Hpool1 : pool_allocated (ctx w1)).
  { unfold pool_view in H1. injection H1 as Hpic Hpl _ _ _.
    unfold pool_allocated. rewrite Hpic, Hpl. exact Hpool. }
  ends_step. ends_step. ends_step.
  assert (Ht : truthy (picture (ctx w1)) = true).
  { destruct Hpool1 as (Hb & _). unfold truthy. apply negb_true_iff. lia. }
  rewrite Ht. unfold when_.
  apply (ends_run _ _ _ _ _ _ _ (update_all_slots _ w1 Hpool1)).
  ends_step. ends_step.
  set (w3 := {| ctx := clear_role_ptrs _; mem := _ |}).
  assert (H3 : pool_view (ctx w3) = V).
  { unfold pool_view in H1. injection H1 as Hpic Hpl _ _ _.
    subst w3 V. unfold pool_view. cbn. rewrite Hpic, Hpl. reflexivity. }
  clearbody w3. clear dependent w1.
  ends_step. ends_step.
  ends_step.
  { apply ends_fail_keeps_pool; assumption. }
  ends_step. destruct p as [hs vs]. ends_step. ends_step.
  set (w4 := {| ctx := set_chroma_y_shift _ _; mem := _ |}).
  assert (H4 : pool_view (ctx w4) = V) by exact H3.
  clearbody w4.
  ends_step.
  { apply ends_fail_keeps_pool; assumption. }
  ends_step. ends_step.
  set (w5 := {| ctx := (ff_mpv_init_context_frame (ctx w4)).2; mem := _ |}).
  assert (H5 : pool_view (ctx w5) = V) by (subst w5; cbn [ctx]; rewrite Hinitf; exact H4).
  clearbody w5.
  ends_step.
  { apply ends_fail_keeps_pool; assumption. }
  ends_step. ends_step.
  set (w6 := {| ctx := set_thread_context _ _; mem := _ |}).
  assert (H6 : pool_view (ctx w6) = V) by exact H5.
  clearbody w6.
  ends_step. ends_step. ends_step.
  assert (Hk : forall a wk, pool_view (ctx wk) = V ->
    outcome False (if a <? 0 then frame_size_change_fail a
                   else modify_ctx (set_context_reinit 0) ;; mret 0) wk
      (fun _ w' => pool_view (ctx w') = V) (fun _ w' => pool_view (ctx w') = V)).
  { intros a wk Hwk. ends_step.
    - apply ends_fail_keeps_pool; assumption.
    - repeat ends_step. exact Hwk. }
  ends_step; ends_step; apply Hk; [|exact H6].
  cbn [ctx]. rewrite Hdup. exact H6.
Qed.

End FrameSizeChangePool.

Lemma ends_assert_ok (U : Prop) (b : bool) (w : World) Q R :
  b = true -> Q tt w -> outcome U (av_assert0 b) w Q R.
Proof. intros -> E. exact E. Qed.

Section UpdateThreadContext.
Context `{Externals}.

(** ** ff_mpeg_update_thread_context: what it returns and what it copies *)

Lemma tame_update_bitstream_buffer {X} (v : World -> X) (s1 : MpegEncContext) :
  (forall w a b, v {| ctx := set_allocated_bitstream_buffer_size a
                               (set_bitstream_buffer b (ctx w)); mem := mem w |} = v w) ->
  (forall w a, v {| ctx := set_bitstream_buffer_size a (ctx w); mem := mem w |} = v w) ->
  (forall w a b, v {| ctx := set_bitstream_data a (set_bitstream_buffer_size b (ctx w));
                      mem := mem w |} = v w) ->
  tame v (update_bitstream_buffer s1).
Proof.
  intros H1 H2 H3. unfold update_bitstream_buffer.
  destruct (truthy (bitstream_buffer s1)); [|apply tame_ret].
  apply tame_bind; [apply tame_get_ctx|]. intros s.
  apply tame_bind; [|intros _; apply tame_modify_ctx; intros w; apply H3].
  destruct (_ >? _); [|apply tame_ret].
  destruct (av_fast_malloc _ _ _) as [ptr size].
  apply tame_bind; [apply tame_modify_ctx; intros w; apply H1|]. intros _.
  destruct (negb (truthy ptr)); [|apply tame_ret].
  apply tame_bind; [apply tame_modify_ctx; intros w; apply H2|]. intros _.
  apply tame_return. unfold AVERROR, ENOMEM. lia.
Qed.

Lemma tame_update_scratch_buffers {X} (v : World -> X) (s1 : MpegEncContext) :
  (forall w a b, v {| ctx := set_sc a (set_me b (ctx w)); mem := mem w |} = v w) ->
  tame v (update_scratch_buffers s1).
Proof.
  intros H1. unfold update_scratch_buffers.
  apply tame_bind; [apply tame_get_ctx|]. intros s.
  destruct (negb _); [|apply tame_ret].
  destruct (truthy (linesize s1)); [|apply tame_ret].
  destruct (ff_mpeg_framesize_alloc _ _ _ _) as [ret [me' sc']].
  apply tame_bind; [apply tame_modify_ctx; intros w; apply H1|]. intros _.
  destruct (ret <? 0); [|apply tame_ret].
  apply tame_return. unfold AVERROR, ENOMEM. lia.
Qed.

(** X7.  [ff_mpeg_update_thread_context] hands its caller 0 or a
    negative value: whatever status a helper reports, no positive value
    gets through. *)
Theorem update_thread_context_status (dst src : AVCodecContext)
    (s1 : MpegEncContext) (w w' : World) (r : Z) :
  call (ff_mpeg_update_thread_context dst src s1) w = (Next r, w') ->
  r = 0 \/ r < 0.
Proof.
  intros Hcall.
  refine (ends_next True _ _ _ _ (fun r _ => r = 0 \/ r < 0) (fun _ _ => True) _ Hcall).
  clear Hcall. apply ends_call. unfold ff_mpeg_update_thread_context.
  ends_step; [ends_step; left; reflexivity|].
  ends_step.
  apply (ends_tame (fun _ => tt)); [apply tame_update_context_init | | intros; right; lia].
  intros _ w1 _. ends_step.
  apply (ends_tame (fun _ => tt)); [apply tame_update_frame_size | | intros; right; lia].
  intros _ w2 _. ends_step.
  apply (ends_tame (fun _ => tt)); [| | intros; right; lia].
  { unfold update_pictures. apply tame_bind; [apply tame_get_ctx|]. intros s.
    apply tame_bind; [apply tame_assert|]. intros _.
    apply (tame_weaken role_view), tame_update_pictures_rest. }
  intros _ w3 _. ends_step. ends_step. forget_world.
  unfold update_tail.
  ends_step. ends_step. forget_world.
  ends_step. ends_step. forget_world.
  ends_step. ends_step. forget_world.
  ends_step.
  apply (ends_tame (fun _ => tt));
    [apply tame_update_bitstream_buffer; reflexivity | | intros; right; lia].
  intros _ w7 _. ends_step.
  apply (ends_tame (fun _ => tt));
    [apply tame_update_scratch_buffers; reflexivity | | intros; right; lia].
  intros _ w8 _. ends_step. ends_step. ends_step. left. reflexivity.
Qed.

(** X8.  When the successor was never initialised, the predecessor was,
    and [ff_mpv_common_init] fails on the copy, the call returns the error
    of [ff_mpv_common_init] and leaves the successor wiped: it is
    uninitialised again, owns no pool and no role, and of all it held only
    [avctx] and [private_ctx] are in place. *)
Theorem update_thread_context_init_failure (dst src : AVCodecContext)
    (s1 : MpegEncContext) (w : World) (err : Z) :
  Avctx.addr dst <> Avctx.addr src -> self (ctx w) <> self s1 ->
  context_initialized (ctx w) = 0 -> context_initialized s1 <> 0 ->
  (ff_mpv_common_init (fresh_copy dst (ctx w) s1)).1 = err -> err < 0 ->
  exists w',
    call (ff_mpeg_update_thread_context dst src s1) w = (Next err, w') /\
    avctx (ctx w') = dst /\ private_ctx (ctx w') = private_ctx (ctx w) /\
    mem w' = mem w /\
    context_initialized (ctx w') = 0 /\ picture (ctx w') = 0 /\ pool (ctx w') = [] /\
    (last_picture_ptr (ctx w') = 0 /\ current_picture_ptr (ctx w') = 0 /\
     next_picture_ptr (ctx w') = 0) /\
    bitstream_buffer (ctx w') = 0 /\ bitstream_buffer_size (ctx w') = 0.
Proof.
  intros Hne Hself Hinit Hinit1 Herr Hneg.
  assert (Hgoal :
    outcome False (call (ff_mpeg_update_thread_context dst src s1)) w
      (fun r w' =>
         r = err /\ mem w' = mem w /\
         exists a, ctx w' = set_private_ctx (private_ctx (ctx w))
                              (set_avctx dst (MpegEncContext_zero a)))
      (fun _ _ => True)).
  { apply ends_call. unfold ff_mpeg_update_thread_context.
    ends_step; [lia|].
    ends_step. unfold update_context_init. ends_step. ends_step. ends_step.
    apply ends_assert_ok; [apply negb_true_iff, Z.eqb_neq; exact Hself|].
    unfold truthy. rewrite Hinit. cbn [Z.eqb negb].
    rewrite (proj2 (Z.eqb_neq _ _) Hinit1). cbn [negb].
    ends_step. ends_step. ends_step. ends_step. ends_step. ends_step.
    ends_step. ends_step.
    change (ff_mpv_idct_init _) with (fresh_copy dst (ctx w) s1).
    rewrite Herr. rewrite (proj2 (Z.ltb_lt _ _) Hneg).
    ends_step. ends_step. ends_step.
    split; [reflexivity|]. split; [reflexivity|]. eexists. reflexivity. }
  apply ends_total in Hgoal as (r & w' & Hcall & -> & Hmem & a & Hctx).
  exists w'. split; [exact Hcall|]. rewrite Hctx.
  repeat split; try reflexivity. exact Hmem.
Qed.

End UpdateThreadContext.

Ltac tame_walk :=
  repeat lazymatch goal with
  | |- tame _ (mbind _ _) => apply tame_bind; [|intros ?]
  | |- tame _ (mret _) => apply tame_ret
  | |- tame _ get_ctx => apply tame_get_ctx
  | |- tame _ (return_ _) =>
      apply tame_return;
      first [lia | (unfold AVERROR, ENOMEM, EINVAL; lia) | (apply Z.ltb_lt; assumption)]
  | |- tame _ undefined => apply tame_undefined
  | |- tame _ (av_assert0 _) => apply tame_assert
  | |- tame _ (modify_ctx _) => apply tame_modify_ctx; intros ?; reflexivity
  | |- tame _ (modify_mem _) => apply tame_modify_mem; intros ?; reflexivity
  | |- tame _ (extern _) => apply tame_extern; intros ?; reflexivity
  | |- tame _ (call _) => apply tame_call
  | |- tame _ (when_ _ _) => apply tame_when
  | |- tame _ (forM_ _ _) => apply tame_forM; intros ?
  | |- tame _ (load_pic _) => apply tame_load_pic; intros; reflexivity
  | |- tame _ (store_pic _ _) => apply tame_store_pic; intros; reflexivity
  | |- tame _ (update_pic _ _) => apply tame_update_pic; intros; reflexivity
  | |- tame _ (update_frame _ _) => apply tame_update_frame; intros; reflexivity
  | |- tame _ (unref_at _) => apply tame_unref_at; intros; reflexivity
  | |- tame _ (if ?b then _ else _) => destruct b eqn:?
  | |- tame _ (match ?x with _ => _ end) => destruct x eqn:?
  end.

Section UpdateThreadContextState.
Context `{Externals}.

Lemma tame_update_pictures {X} (v : World -> X) (s1 : MpegEncContext) :
  (forall w l, v (with_pool w l) = v w) ->
  (forall w p, v {| ctx := set_current_picture p (ctx w); mem := mem w |} = v w) ->
  (forall w p, v {| ctx := set_last_picture p (ctx w); mem := mem w |} = v w) ->
  (forall w p, v {| ctx := set_next_picture p (ctx w); mem := mem w |} = v w) ->
  tame v (update_pictures s1).
Proof.
  intros Hpool Hc Hl Hn.
  assert (Hup : forall getp setp,
    (forall w p, v {| ctx := setp p (ctx w); mem := mem w |} = v w) ->
    tame v (UPDATE_PICTURE s1 getp setp)).
  { intros getp setp Hset. unfold UPDATE_PICTURE.
    apply tame_bind; [apply tame_modify_ctx; intros w; apply Hset|]. intros _.
    apply tame_bind; [apply tame_get_ctx|]. intros s.
    match goal with |- tame _ (let '(_, _) := ?x in _) => destruct x as [ret p] end.
    apply tame_bind; [apply tame_modify_ctx; intros w; apply Hset|]. intros _.
    destruct (ret <? 0) eqn:E; [apply tame_return; lia | apply tame_ret]. }
  unfold update_pictures.
  apply tame_bind; [apply tame_get_ctx|]. intros s.
  apply tame_bind; [apply tame_assert|]. intros _.
  apply tame_bind.
  { unfold update_pool. apply tame_bind; [apply tame_get_ctx|]. intros s'.
    apply tame_when, tame_forM. intros i.
    apply tame_bind; [apply tame_unref_at; exact Hpool|]. intros _.
    destruct (truthy (picture s1)); [|apply tame_ret].
    destruct (pool s1 !! i) as [src_pic|]; [|apply tame_undefined].
    destruct (truthy _); [|apply tame_ret].
    apply tame_bind; [apply tame_load_pic; exact Hpool|]. intros dst_pic.
    destruct (ff_mpeg_ref_picture _ _ _) as [ret p].
    apply tame_bind; [apply tame_store_pic; exact Hpool|]. intros _.
    destruct (ret <? 0) eqn:E; [apply tame_return; lia | apply tame_ret]. }
  intros _.
  apply tame_bind; [apply Hup, Hc|]. intros _.
  apply tame_bind; [apply Hup, Hl|]. intros _.
  apply Hup, Hn.
Qed.

(** X9.  After a successful update between two distinct contexts the
    successor holds the predecessor's picture counters and sample
    precision, its bug workarounds, MPEG-4 timing, B-frame information and
    DivX flag, and its MPEG-2/interlacing members. *)
Theorem update_thread_context_copies_state (dst src : AVCodecContext)
    (s1 : MpegEncContext) (w w' : World) :
  Avctx.addr dst <> Avctx.addr src ->
  call (ff_mpeg_update_thread_context dst src s1) w = (Next 0, w') ->
  counters_view (ctx w') = counters_view s1 /\
  timing_view (ctx w') = timing_view s1 /\
  interlacing_view (ctx w') = interlacing_view s1.
Proof.
  intros Hne Hcall.
  pose (post := fun (r : Z) (w' : World) =>
    r < 0 \/ (counters_view (ctx w') = counters_view s1 /\
              timing_view (ctx w') = timing_view s1 /\
              interlacing_view (ctx w') = interlacing_view s1)).
  assert (Hpost : post 0 w'); [|destruct Hpost as [Hneg | Hpost]; [lia | exact Hpost]].
  refine (ends_next True _ _ _ _ post (fun _ _ => True) _ Hcall).
  clear Hcall. subst post. apply ends_call. unfold ff_mpeg_update_thread_context.
  ends_step; [lia|].
  ends_step.
  apply (ends_tame (fun _ => tt)); [apply tame_update_context_init | | intros; left; lia].
  intros _ w1 _. ends_step. unfold update_frame_size.
  ends_step. ends_step. ends_step.
  apply (ends_tame (fun _ => tt)); [tame_walk; intros; reflexivity | | intros; left; lia].
  intros _ w2 _. ends_step.
  set (w3 := {| ctx := set_picture_number _ _; mem := _ |}).
  assert (C3 : counters_view (ctx w3) = counters_view s1) by reflexivity.
  clearbody w3. ends_step.
  apply (ends_tame (fun w => counters_view (ctx w)));
    [apply tame_update_pictures; reflexivity | | intros; left; lia].
  intros _ w4 C4. rewrite C3 in C4. clear dependent w3.
  ends_step. ends_step. unfold update_tail.
  ends_step. ends_step. ends_step. ends_step. ends_step. ends_step. ends_step.
  set (w6 := {| ctx := set_divx_packed _ _; mem := _ |}).
  assert (C6 : counters_view (ctx w6) = counters_view s1) by exact C4.
  assert (T6 : timing_view (ctx w6) = timing_view s1) by reflexivity.
  clearbody w6. clear dependent w4.
  apply (ends_tame (fun w => (counters_view (ctx w), timing_view (ctx w))));
    [apply tame_update_bitstream_buffer; reflexivity | | intros; left; lia].
  intros _ w7 V7. rewrite C6, T6 in V7. clear dependent w6.
  ends_step.
  apply (ends_tame (fun w => (counters_view (ctx w), timing_view (ctx w))));
    [apply tame_update_scratch_buffers; reflexivity | | intros; left; lia].
  intros _ w8 V8. rewrite V7 in V8. clear dependent w7.
  pose proof (f_equal fst V8) as C8. pose proof (f_equal snd V8) as T8.
  cbn [fst snd] in C8, T8.
  ends_step. ends_step. ends_step. right.
  split; [exact C8|]. split; [exact T8|]. reflexivity.
Qed.

(** X10.  After a successful update from a predecessor that holds staged
    bitstream bytes, the successor holds the same number of bytes, the
    predecessor's bytes up to that number, and behind them
    [AV_INPUT_BUFFER_PADDING_SIZE] zero bytes: a deep copy, not a shared
    buffer, with the padding the bitstream readers rely on. *)
Theorem update_thread_context_copies_bitstream (dst src : AVCodecContext)
    (s1 : MpegEncContext) (w w' : World) :
  Avctx.addr dst <> Avctx.addr src ->
  call (ff_mpeg_update_thread_context dst src s1) w = (Next 0, w') ->
  bitstream_buffer s1 <> 0 ->
  bitstream_buffer_size (ctx w') = bitstream_buffer_size s1 /\
  exists rest,
    bitstream_data (ctx w')
    = take (Z.to_nat (bitstream_buffer_size s1)) (bitstream_data s1)
      ++ replicate (Z.to_nat AV_INPUT_BUFFER_PADDING_SIZE) 0 ++ rest.
Proof.
  intros Hne Hcall Hbuf.
  pose (post := fun (r : Z) (w' : World) =>
    r < 0 \/ (bitstream_buffer_size (ctx w') = bitstream_buffer_size s1 /\
              exists rest,
                bitstream_data (ctx w')
                = take (Z.to_nat (bitstream_buffer_size s1)) (bitstream_data s1)
                  ++ replicate (Z.to_nat AV_INPUT_BUFFER_PADDING_SIZE) 0 ++ rest)).
  assert (Hpost : post 0 w'); [|destruct Hpost as [Hneg | Hpost]; [lia | exact Hpost]].
  refine (ends_next True _ _ _ _ post (fun _ _ => True) _ Hcall).
  clear Hcall. subst post. apply ends_call. unfold ff_mpeg_update_thread_context.
  ends_step; [lia|].
  ends_step.
  apply (ends_tame (fun _ => tt)); [apply tame_update_context_init | | intros; left; lia].
  intros _ w1 _. ends_step.
  apply (ends_tame (fun _ => tt)); [apply tame_update_frame_size | | intros; left; lia].
  intros _ w2 _. ends_step.
  apply (ends_tame (fun _ => tt));
    [apply tame_update_pictures; reflexivity | | intros; left; lia].
  intros _ w3 _. ends_step. ends_step. forget_world. unfold update_tail.
  ends_step. ends_step. forget_world.
  ends_step. ends_step. forget_world.
  ends_step. ends_step. forget_world.
  ends_step. unfold update_bitstream_buffer.
  assert (Ht : truthy (bitstream_buffer s1) = true).
  { unfold truthy. apply negb_true_iff. lia. }
  rewrite Ht.
  ends_step. ends_step. ends_step.
  apply (ends_tame (fun _ => tt)); [tame_walk | | intros; left; lia].
  intros _ w7 _. ends_step.
  set (w8 := {| ctx := set_bitstream_data _ _; mem := _ |}).
  assert (B8 : bitstream_buffer_size (ctx w8) = bitstream_buffer_size s1) by reflexivity.
  assert (D8 : exists rest,
    bitstream_data (ctx w8)
    = take (Z.to_nat (bitstream_buffer_size s1)) (bitstream_data s1)
      ++ replicate (Z.to_nat AV_INPUT_BUFFER_PADDING_SIZE) 0 ++ rest)
    by (eexists; reflexivity).
  clearbody w8. ends_step.
  apply (ends_tame (fun w => (bitstream_buffer_size (ctx w), bitstream_data (ctx w))));
    [apply tame_update_scratch_buffers; reflexivity | | intros; left; lia].
  intros _ w9 V9.
  pose proof (f_equal fst V9) as B9. pose proof (f_equal snd V9) as D9.
  cbn [fst snd] in B9, D9. rewrite B8 in B9. rewrite <- D9 in D8.
  ends_step. ends_step. ends_step. right.
  split; [exact B9 | exact D8].
Qed.

End UpdateThreadContextState.

Ltac tame_one :=
  lazymatch goal with
  | |- tame _ (mbind _ _) => apply tame_bind; [|intros ?]
  | |- tame _ (mret _) => apply tame_ret
  | |- tame _ get_ctx => apply tame_get_ctx
  | |- tame _ (return_ _) =>
      apply tame_return;
      first [lia | (unfold AVERROR, ENOMEM, EINVAL; lia) | (apply Z.ltb_lt; assumption)]
  | |- tame _ undefined => apply tame_undefined
  | |- tame _ (av_assert0 _) => apply tame_assert
  | |- tame _ (modify_ctx _) => apply tame_modify_ctx; intros ?; reflexivity
  | |- tame _ (modify_mem _) => apply tame_modify_mem; intros ?; reflexivity
  | |- tame _ (extern _) => apply tame_extern; intros ?; reflexivity
  | |- tame _ (call _) => apply tame_call
  | |- tame _ (when_ _ _) => apply tame_when
  | |- tame _ (forM_ _ _) => apply tame_forM; intros ?
  | |- tame _ (load_pic _) => apply tame_load_pic; intros; reflexivity
  | |- tame _ (store_pic _ _) => apply tame_store_pic; intros; reflexivity
  | |- tame _ (update_pic _ _) => apply tame_update_pic; intros; reflexivity
  | |- tame _ (update_frame _ _) => apply tame_update_frame; intros; reflexivity
  | |- tame _ (unref_at _) => apply tame_unref_at; intros; reflexivity
  | |- tame _ (if ?b then _ else _) => destruct b eqn:?
  | |- tame _ (match ?x with _ => _ end) => destruct x eqn:?
  end.

(** The statements of [ff_mpv_frame_start]. *)
Ltac tame_frame :=
  unfold frame_start_after_rotation, frame_start_to_rotation, frame_start_setup,
    frame_start_release,
    frame_start_select, frame_start_alloc, frame_start_describe, unref_roles,
    frame_start_dummy_last, frame_start_dummy_next,
    frame_start_ref_roles, frame_start_field_setup, role_missing, report_done,
    mark_dummy, ref_role;
  cbv zeta;
  repeat first
    [ tame_one
    | apply tame_release_forgotten; intros; reflexivity
    | apply tame_find_unused_picture; intros; reflexivity
    | apply tame_alloc_picture; intros; reflexivity
    | apply tame_fill_dummy; intros; reflexivity
    | apply tame_gray_frame; intros; reflexivity
    | apply tame_modify_ctx; intros ?; cbn [ctx];
      unfold select_dequantizer, frame_start_rotate; cbv zeta;
      repeat (match goal with |- context [if ?b then _ else _] => destruct b end);
      reflexivity ].

Section FrameStart.
Context `{Externals}.

(** ** ff_mpv_frame_start: refusals, status, counters and dequantizers *)

(** X11.  When the frame thread is not in its setup state
    ([ff_thread_can_start_frame] gives 0) [ff_mpv_frame_start] returns -1
    and has done nothing but clear [mb_skipped]: no picture is released, no
    slot is claimed and no role moves. *)
Theorem frame_start_refused (actx : AVCodecContext) (w : World) :
  ff_thread_can_start_frame actx = 0 ->
  call (ff_mpv_frame_start actx) w
  = (Next (-1), {| ctx := set_mb_skipped 0 (ctx w); mem := mem w |}).
Proof.
  intros Hcan.
  assert (Hgoal :
    outcome False (call (ff_mpv_frame_start actx)) w
      (fun r w' => r = -1 /\ w' = {| ctx := set_mb_skipped 0 (ctx w); mem := mem w |})
      (fun _ _ => True)).
  { apply ends_call. unfold ff_mpv_frame_start, frame_start_to_rotation,
      frame_start_release.
    ends_step. ends_step. ends_step. ends_step. ends_step. ends_step.
    2:{ rewrite Hcan in Heqb. discriminate. }
    ends_step. split; reflexivity. }
  apply ends_total in Hgoal as (r & w' & Hcall & -> & ->). exact Hcall.
Qed.

(** X12.  [ff_mpv_frame_start] hands its caller 0 or a negative value. *)
Theorem frame_start_status (actx : AVCodecContext) (w w' : World) (r : Z) :
  call (ff_mpv_frame_start actx) w = (Next r, w') -> r = 0 \/ r < 0.
Proof.
  intros Hcall.
  refine (ends_next True _ _ _ _ (fun r _ => r = 0 \/ r < 0) (fun _ _ => True) _ Hcall).
  clear Hcall. apply ends_call. unfold ff_mpv_frame_start.
  ends_step.
  apply (ends_tame (fun _ => tt));
    [apply tame_frame_start_to_rotation | | intros; right; lia].
  intros ? w1 _. unfold frame_start_after_rotation.
  ends_step.
  apply (ends_tame (fun _ => tt)); [tame_frame | | intros; right; lia].
  intros ? w2 _. ends_step.
  apply (ends_tame (fun _ => tt)); [tame_frame | | intros; right; lia].
  intros ? w3 _. ends_step.
  apply (ends_tame (fun _ => tt)); [tame_frame | | intros; right; lia].
  intros ? w4 _. ends_step. ends_step. ends_step.
  apply (ends_tame (fun _ => tt)); [tame_frame | | intros; right; lia].
  intros ? w5 _. ends_step. ends_step. ends_step.
  apply (ends_tame (fun _ => tt)); [tame_frame | | intros; right; lia].
  intros ? w6 _. ends_step. ends_step. forget_world. ends_step. ends_step. ends_step.
  apply (ends_tame (fun _ => tt)); [tame_frame | | intros; right; lia].
  intros ? w8 _. ends_step. left. reflexivity.
Qed.

(** X13.  Every successful [ff_mpv_frame_start] advances
    [coded_picture_number] by exactly one, as an [int]: from a value below
    [INT_MAX] to the next one, and from [INT_MAX] around to [INT_MIN].
    The dummy references it may allocate on the way are not counted. *)
Theorem frame_start_counts_picture (actx : AVCodecContext) (w w' : World) :
  call (ff_mpv_frame_start actx) w = (Next 0, w') ->
  coded_picture_number (ctx w') = to_int (coded_picture_number (ctx w) + 1) /\
  (INT_MIN <= coded_picture_number (ctx w) < INT_MAX ->
   coded_picture_number (ctx w') = coded_picture_number (ctx w) + 1) /\
  (coded_picture_number (ctx w) = INT_MAX -> coded_picture_number (ctx w') = INT_MIN).
Proof.
  intros Hcall.
  assert (Hnew : coded_picture_number (ctx w')
                 = to_int (coded_picture_number (ctx w) + 1)).
  2:{ split; [exact Hnew|]. split.
      - intros Hrange. rewrite Hnew. apply to_int_in_int.
        unfold in_int, INT_MIN, INT_MAX in *. lia.
      - intros Hmax. rewrite Hnew, Hmax. reflexivity. }
  pose (post := fun (r : Z) (w' : World) =>
    r < 0 \/ coded_picture_number (ctx w') = to_int (coded_picture_number (ctx w) + 1)).
  assert (Hpost : post 0 w'); [|destruct Hpost as [Hneg | Hpost]; [lia | exact Hpost]].
  refine (ends_next True _ _ _ _ post (fun _ _ => True) _ Hcall).
  clear Hcall. subst post. apply ends_call.
  unfold ff_mpv_frame_start, frame_start_to_rotation.
  ends_step. ends_step.
  apply (ends_tame (fun w => coded_picture_number (ctx w)));
    [tame_frame | | intros; left; lia].
  intros ? w1 C1. ends_step.
  apply (ends_tame (fun w => coded_picture_number (ctx w)));
    [tame_frame | | intros; left; lia].
  intros pic w2 C2. rewrite C1 in C2. clear dependent w1.
  ends_step. unfold frame_start_setup. ends_step. unfold frame_start_alloc.
  ends_step.
  apply (ends_tame (fun w => coded_picture_number (ctx w)));
    [tame_frame | | intros; left; lia].
  intros ? w3 C3. rewrite C2 in C3. clear dependent w2.
  ends_step. ends_step. ends_step.
  apply (ends_tame (fun w => coded_picture_number (ctx w)));
    [tame_frame | | intros; left; lia].
  intros ? w4 C4. ends_step.
  apply (ends_tame (fun w => coded_picture_number (ctx w)));
    [tame_frame | | intros; left; lia].
  intros ? w5 C5. ends_step. ends_step.
  set (w6 := {| ctx := set_coded_picture_number _ _; mem := _ |}).
  assert (C6 : coded_picture_number (ctx w6) = to_int (coded_picture_number (ctx w) + 1)).
  { subst w6. cbn. rewrite C3. reflexivity. }
  clearbody w6. clear dependent w3. clear dependent w4. clear dependent w5.
  ends_step.
  apply (ends_tame (fun w => coded_picture_number (ctx w)));
    [tame_frame | | intros; left; lia].
  intros r0 w7 C7. rewrite C6 in C7. clear dependent w6.
  ends_step; [ends_step; left; lia|]. ends_step.
  ends_step. ends_step.
  set (w8 := {| ctx := set_current_picture_ptr _ _; mem := _ |}).
  assert (C8 : coded_picture_number (ctx w8) = to_int (coded_picture_number (ctx w) + 1))
    by exact C7.
  clearbody w8. clear dependent w7.
  apply (ends_tame (fun w => coded_picture_number (ctx w)));
    [tame_frame | | intros; left; lia].
  intros ? w9 C9. rewrite C8 in C9. clear dependent w8.
  ends_step.
  set (w10 := {| ctx := frame_start_rotate _; mem := _ |}).
  assert (C10 : coded_picture_number (ctx w10) = to_int (coded_picture_number (ctx w) + 1)).
  { subst w10. cbn [ctx]. rewrite <- C9. unfold frame_start_rotate. cbv zeta.
    repeat (match goal with |- context [if ?b then _ else _] => destruct b end);
      reflexivity. }
  clearbody w10. clear dependent w9.
  apply (ends_tame (fun w => coded_picture_number (ctx w)));
    [tame_frame | | intros; left; lia].
  intros r1 w11 C11. right. rewrite C11. exact C10.
Qed.

Lemma select_dequantizer_chosen (s : MpegEncContext) :
  (dct_unquantize_intra (select_dequantizer s),
   dct_unquantize_inter (select_dequantizer s))
  = dequantizer_of (select_dequantizer s).
Proof.
  unfold select_dequantizer, dequantizer_of.
  destruct (truthy (mpeg_quant s) || bool_decide (codec_id s = AV_CODEC_ID_MPEG2VIDEO))
    eqn:E1.
  { cbn. rewrite E1. reflexivity. }
  destruct (bool_decide (out_format s = FMT_H263) || bool_decide (out_format s = FMT_H261))
    eqn:E2.
  { cbn. rewrite E1, E2. reflexivity. }
  cbn. rewrite E1, E2. reflexivity.
Qed.

(** X14.  After every successful [ff_mpv_frame_start] the dequantizer
    pair in use is the one the stream calls for: the MPEG-2 pair when
    [mpeg_quant] is set or the codec is MPEG-2, otherwise the H.263 pair
    when the output format is H.263 or H.261, otherwise the MPEG-1 pair. *)
Theorem frame_start_dequantizer (actx : AVCodecContext) (w w' : World) :
  call (ff_mpv_frame_start actx) w = (Next 0, w') ->
  (dct_unquantize_intra (ctx w'), dct_unquantize_inter (ctx w'))
  = dequantizer_of (ctx w').
Proof.
  intros Hcall.
  pose (post := fun (r : Z) (w' : World) =>
    r < 0 \/ (dct_unquantize_intra (ctx w'), dct_unquantize_inter (ctx w'))
             = dequantizer_of (ctx w')).
  assert (Hpost : post 0 w'); [|destruct Hpost as [Hneg | Hpost]; [lia | exact Hpost]].
  refine (ends_next True _ _ _ _ post (fun _ _ => True) _ Hcall).
  clear Hcall. subst post. apply ends_call. unfold ff_mpv_frame_start.
  ends_step.
  apply (ends_tame (fun _ => tt));
    [apply tame_frame_start_to_rotation | | intros; left; lia].
  intros ? w1 _. unfold frame_start_after_rotation.
  ends_step.
  apply (ends_tame (fun _ => tt)); [tame_frame | | intros; left; lia].
  intros ? w2 _. ends_step.
  apply (ends_tame (fun _ => tt)); [tame_frame | | intros; left; lia].
  intros ? w3 _. ends_step.
  apply (ends_tame (fun _ => tt)); [tame_frame | | intros; left; lia].
  intros ? w4 _. ends_step. ends_step. ends_step.
  apply (ends_tame (fun _ => tt)); [tame_frame | | intros; left; lia].
  intros ? w5 _. ends_step. ends_step. ends_step.
  apply (ends_tame (fun _ => tt)); [tame_frame | | intros; left; lia].
  intros ? w6 _. ends_step. ends_step.
  set (w7 := {| ctx := select_dequantizer (ctx w6); mem := mem w6 |}).
  assert (D7 : (dct_unquantize_intra (ctx w7), dct_unquantize_inter (ctx w7))
               = dequantizer_of (ctx w7)) by apply select_dequantizer_chosen.
  clearbody w7. ends_step. ends_step. ends_step.
  apply (ends_tame (fun w => ctx w)); [tame_frame | | intros; left; lia].
  intros ? w8 C8. ends_step. right. rewrite C8. exact D7.
Qed.

End FrameStart.

Section FrameStartIntra.
Context `{Externals}.

(** ** ff_mpv_frame_start on an I picture *)

Lemma ends_update_pic (p : Z) (g : Picture -> Picture) (w : World) Q R :
  (forall i pic0, slot_index (ctx w) p = Some i -> pool (ctx w) !! i = Some pic0 ->
     Q tt (with_pool w (<[i := g pic0]> (pool (ctx w))))) ->
  outcome True (update_pic p g) w Q R.
Proof.
  intros HQ. unfold outcome.
  destruct (update_pic p g w) as [[[] | r | |] w1] eqn:E; auto.
  - destruct (update_pic_inv p g w w1 E) as (i & pic0 & Hi & Hp).
    rewrite (update_pic_at p g w i pic0 Hi Hp) in E. injection E as <-.
    apply HQ; assumption.
  - exfalso. destruct (steady_update_pic (fun _ => tt) ltac:(reflexivity) p g w) as [_ Hr].
    apply (Hr r). rewrite E. reflexivity.
Qed.

Lemma ends_load_pic (p : Z) (w : World) Q R :
  (forall pic, Q pic w) -> outcome True (load_pic p) w Q R.
Proof.
  intros HQ. unfold outcome, load_pic.
  destruct (slot_index (ctx w) p ≫= _); [apply HQ | exact I].
Qed.

Lemma ends_role_missing (p : Z) (w : World) Q R :
  (forall b, Q b w) -> outcome True (role_missing p) w Q R.
Proof.
  intros HQ. unfold role_missing. destruct (negb (truthy p)); [apply HQ|].
  apply ends_bind, ends_load_pic. intros pic. apply HQ.
Qed.

Lemma frame_start_rotate_pool (s : MpegEncContext) :
  picture (frame_start_rotate s) = picture s /\
  pool (frame_start_rotate s) = pool s /\
  current_picture_ptr (frame_start_rotate s) = current_picture_ptr s.
Proof.
  unfold frame_start_rotate. cbv zeta.
  repeat (match goal with |- context [if ?b then _ else _] => destruct b end);
    repeat split.
Qed.

Lemma described_as_view (a b : MpegEncContext) (key : Z) (t : AVPictureType) :
  picture a = picture b -> pool a = pool b ->
  current_picture_ptr a = current_picture_ptr b ->
  described_as b key t -> described_as a key t.
Proof.
  intros Hp Hl Hc (i & pic & Hi & Hpic & Hk & Ht).
  exists i, pic. rewrite Hc, Hl, (slot_index_picture a b _ Hp). auto.
Qed.

(** What [frame_start_describe] leaves in the slot of the current
    picture. *)
Lemma frame_start_describe_slot (w : World) Q R :
  (forall w',
     rotation_view w' = rotation_view w ->
     current_picture_ptr (ctx w') = current_picture_ptr (ctx w) ->
     described_as (ctx w')
       (bool_to_int (bool_decide (pict_type (ctx w) = AV_PICTURE_TYPE_I)))
       (pict_type (ctx w)) ->
     Q tt w') ->
  (forall r w', r < 0 -> R r w') ->
  outcome True frame_start_describe w Q R.
Proof.
  intros HQ HR. unfold frame_start_describe. cbv zeta.
  ends_step. ends_step.
  pose (Vd := fun w : World =>
    (rotation_view w, current_picture_ptr (ctx w), picture (ctx w))).
  set (ptr := current_picture_ptr (ctx w)) in *.
  set (ty := pict_type (ctx w)) in *.
  set (key := bool_to_int (bool_decide (ty = AV_PICTURE_TYPE_I))) in *.
  ends_step.
  apply (ends_tame Vd); [tame_frame | | intros; apply HR; assumption].
  intros ? w1 V1. ends_step.
  apply (ends_tame Vd); [tame_frame | | intros; apply HR; assumption].
  intros ? w2 V2. rewrite V1 in V2. clear dependent w1. ends_step.
  apply (ends_tame Vd); [tame_frame | | intros; apply HR; assumption].
  intros ? w3 V3. rewrite V2 in V3. clear dependent w2. ends_step.
  apply (ends_tame Vd); [tame_frame | | intros; apply HR; assumption].
  intros ? w4 V4. rewrite V3 in V4. clear dependent w3. ends_step.
  unfold update_frame.
  apply ends_update_pic. intros i pic0 Hi Hp.
  set (X := Pic.set_f (Frame.set_pict_type ty (Pic.f pic0)) pic0).
  set (wa := with_pool w4 _).
  assert (A1 : Vd wa = Vd w) by exact V4.
  assert (A2 : pool (ctx wa) !! i = Some X).
  { subst wa. rewrite with_pool_pool. apply list_lookup_insert_eq.
    apply lookup_lt_Some in Hp. exact Hp. }
  assert (A3 : slot_index (ctx wa) ptr = Some i).
  { subst wa. rewrite (slot_index_picture _ (ctx w4)); [exact Hi|].
    apply with_pool_picture. }
  clearbody wa. clear dependent w4. ends_step.
  apply ends_update_pic. intros i' pic1 Hi' Hp'.
  rewrite A3 in Hi'. injection Hi' as <-. rewrite A2 in Hp'. injection Hp' as <-.
  set (Y := Pic.set_f (Frame.set_key_frame key (Pic.f X)) X).
  set (wb := with_pool wa _).
  assert (B1 : Vd wb = Vd w) by exact A1.
  assert (B2 : pool (ctx wb) !! i = Some Y).
  { subst wb. rewrite with_pool_pool. apply list_lookup_insert_eq.
    apply lookup_lt_Some in A2. exact A2. }
  assert (B3 : slot_index (ctx wb) ptr = Some i).
  { subst wb. rewrite (slot_index_picture _ (ctx wa)); [exact A3|].
    apply with_pool_picture. }
  clearbody wb. clear dependent wa. ends_step.
  apply ends_load_pic. intros cp. ends_step. ends_step. ends_step.
  set (wd := {| ctx := set_current_picture _ (ctx wb); mem := mem wb |}).
  assert (D1 : Vd wd = Vd w) by exact B1.
  assert (D2 : pool (ctx wd) !! i = Some Y) by exact B2.
  assert (D3 : slot_index (ctx wd) ptr = Some i) by exact B3.
  clearbody wd. clear dependent wb.
  assert (Dr : rotation_view wd = rotation_view w /\
               current_picture_ptr (ctx wd) = ptr).
  { pose proof (f_equal (fun t => t.1.1) D1) as E1.
    pose proof (f_equal (fun t => t.1.2) D1) as E2.
    subst Vd. cbn [fst snd] in E1, E2. split; assumption. }
  destruct Dr as [Dr Dc].
  ends_step.
  - ends_step. apply HR. lia.
  - ends_step. apply HQ; [exact Dr | exact Dc |].
    exists i, Y. rewrite Dc. split; [exact D3|]. split; [exact D2|].
    split; reflexivity.
Qed.

Lemma frame_start_rotate_intra (s : MpegEncContext) :
  pict_type s = AV_PICTURE_TYPE_I ->
  pict_type (frame_start_rotate s) = AV_PICTURE_TYPE_I /\
  last_picture_ptr (frame_start_rotate s) = next_picture_ptr s /\
  next_picture_ptr (frame_start_rotate s)
  = (if droppable s =? 0 then current_picture_ptr s else next_picture_ptr s).
Proof.
  intros Ht. unfold frame_start_rotate. cbv zeta.
  rewrite bool_decide_true by (rewrite Ht; discriminate).
  change (droppable (set_last_picture_ptr (next_picture_ptr s) s)) with (droppable s).
  unfold truthy. rewrite negb_involutive.
  destruct (droppable s =? 0); repeat split; exact Ht.
Qed.

(** X15.  A successful [ff_mpv_frame_start] on an I picture never makes
    up a reference: the last-reference pointer ends as what the
    next-reference pointer was before the call, NULL included; the
    next-reference pointer ends as the current picture unless [droppable]
    is set; and the current picture is a slot of the pool whose frame is
    marked as a key frame of type I. *)
Theorem frame_start_intra_picture (actx : AVCodecContext) (w w' : World) :
  pict_type (ctx w) = AV_PICTURE_TYPE_I ->
  call (ff_mpv_frame_start actx) w = (Next 0, w') ->
  last_picture_ptr (ctx w') = next_picture_ptr (ctx w) /\
  next_picture_ptr (ctx w')
  = (if droppable (ctx w) =? 0 then current_picture_ptr (ctx w')
     else next_picture_ptr (ctx w)) /\
  described_as (ctx w') 1 AV_PICTURE_TYPE_I.
Proof.
  intros Hty Hcall.
  pose (post := fun (r : Z) (w' : World) =>
    r < 0 \/ (last_picture_ptr (ctx w') = next_picture_ptr (ctx w) /\
              next_picture_ptr (ctx w')
              = (if droppable (ctx w) =? 0 then current_picture_ptr (ctx w')
                 else next_picture_ptr (ctx w)) /\
              described_as (ctx w') 1 AV_PICTURE_TYPE_I)).
  assert (Hpost : post 0 w'); [|destruct Hpost as [Hneg | Hpost]; [lia | exact Hpost]].
  refine (ends_next True _ _ _ _ post (fun _ _ => True) _ Hcall).
  clear Hcall. subst post. apply ends_call.
  unfold ff_mpv_frame_start, frame_start_to_rotation.
  ends_step. ends_step.
  apply (ends_tame rotation_view);
    [apply tame_frame_start_release | | intros; left; lia].
  intros ? w1 V1. ends_step.
  apply (ends_tame rotation_view);
    [apply tame_frame_start_select | | intros; left; lia].
  intros pic w2 V2. rewrite V1 in V2. clear dependent w1.
  ends_step. unfold frame_start_setup. ends_step.
  apply (ends_tame rotation_view);
    [apply tame_frame_start_alloc | | intros; left; lia].
  intros ? w3 V3. rewrite V2 in V3. clear dependent w2.
  ends_step. ends_step.
  set (w4 := {| ctx := set_current_picture_ptr pic (ctx w3); mem := mem w3 |}).
  assert (V4 : rotation_view w4 = rotation_view w) by exact V3.
  clearbody w4. clear dependent w3.
  apply frame_start_describe_slot; [|intros; left; lia].
  intros w5 V5 P5 D5. rewrite V4 in V5.
  assert (T5 : pict_type (ctx w5) = AV_PICTURE_TYPE_I).
  { pose proof (f_equal (fun t => t.1.2) V5) as E. cbn in E. rewrite E. exact Hty. }
  assert (T4 : pict_type (ctx w4) = AV_PICTURE_TYPE_I).
  { pose proof (f_equal (fun t => t.1.2) V4) as E. cbn in E. rewrite E. exact Hty. }
  rewrite T4 in D5. rewrite bool_decide_true in D5 by reflexivity.
  change (bool_to_int true) with 1 in D5.
  assert (N5 : next_picture_ptr (ctx w5) = next_picture_ptr (ctx w)).
  { pose proof (f_equal (fun t => t.1.1.2) V5) as E. cbn in E. exact E. }
  assert (R5 : droppable (ctx w5) = droppable (ctx w)).
  { pose proof (f_equal (fun t => t.2) V5) as E. cbn in E. exact E. }
  clear dependent w4.
  ends_step.
  set (w6 := {| ctx := frame_start_rotate (ctx w5); mem := mem w5 |}).
  destruct (frame_start_rotate_intra (ctx w5) T5) as (T6 & L6 & N6).
  destruct (frame_start_rotate_pool (ctx w5)) as (Pp & Pl & Pc).
  assert (D6 : described_as (ctx w6) 1 AV_PICTURE_TYPE_I).
  { apply (described_as_view _ (ctx w5)); assumption. }
  change (pict_type (ctx w6) = AV_PICTURE_TYPE_I) in T6.
  change (last_picture_ptr (ctx w6) = next_picture_ptr (ctx w5)) in L6.
  change (next_picture_ptr (ctx w6)
          = (if droppable (ctx w5) =? 0 then current_picture_ptr (ctx w5)
             else next_picture_ptr (ctx w5))) in N6.
  change (current_picture_ptr (ctx w6) = current_picture_ptr (ctx w5)) in Pc.
  rewrite N5 in L6, N6. rewrite R5, <- Pc in N6.
  clearbody w6. clear dependent w5.
  unfold frame_start_after_rotation.
  ends_step. unfold frame_start_dummy_last. ends_step. ends_step. ends_step.
  apply ends_role_missing. intros missing.
  rewrite T6. rewrite bool_decide_false by (intros E; apply E; reflexivity).
  rewrite andb_false_r. ends_step.
  ends_step. unfold frame_start_dummy_next. ends_step. ends_step. ends_step.
  apply ends_role_missing. intros missing'.
  rewrite T6. rewrite bool_decide_false by discriminate.
  rewrite andb_false_r. ends_step.
  ends_step.
  apply (ends_tame roles_and_pool); [tame_frame | | intros; left; lia].
  intros ? w7 V7. ends_step. ends_step. ends_step.
  apply (ends_tame roles_and_pool); [tame_frame | | intros; left; lia].
  intros ? w8 V8. rewrite V7 in V8. clear dependent w7.
  ends_step. ends_step. ends_step.
  apply (ends_tame roles_and_pool); [tame_frame | | intros; left; lia].
  intros ? w9 V9. rewrite V8 in V9. clear dependent w8.
  ends_step. ends_step.
  set (w10 := {| ctx := select_dequantizer (ctx w9); mem := mem w9 |}).
  assert (V10 : roles_and_pool w10 = roles_and_pool w6).
  { rewrite <- V9. subst w10. unfold roles_and_pool, pool_view, select_dequantizer.
    cbn [ctx].
    repeat (match goal with |- context [if ?b then _ else _] => destruct b end);
      reflexivity. }
  clearbody w10. clear dependent w9.
  ends_step. ends_step. ends_step.
  apply (ends_tame roles_and_pool); [tame_frame | | intros; left; lia].
  intros ? w11 V11. rewrite V10 in V11. clear dependent w10.
  ends_step. right.
  unfold roles_and_pool, pool_view in V11.
  injection V11 as Ep El Ela Ec En.
  rewrite Ela, En, Ec. split; [exact L6|]. split; [exact N6|].
  apply (described_as_view _ (ctx w6)); assumption.
Qed.

End FrameStartIntra.

Ltac forget_world_as n :=
  match goal with |- outcome _ _ ?W _ _ => generalize W; intro n end.

Section GrayFrame.
Context `{Externals}.

(** ** gray_frame *)

Lemma fill_chroma_rows_out (cb cbs cr crs rows width c : Z) (m : memory) (a : Z) :
  ~ in_rows cb cbs rows width a -> ~ in_rows cr crs rows width a ->
  fill_chroma_rows cb cbs cr crs rows width c m a = m a.
Proof.
  intros Hcb Hcr. unfold fill_chroma_rows.
  apply (fold_fill_other
           (fun i m => memset (cr + crs * i) c width (memset (cb + cbs * i) c width m))).
  intros i m' Hi. apply elem_of_seqZ in Hi.
  rewrite memset_out.
  - apply memset_out. intros Ha. apply Hcb. exists i. split; [lia | exact Ha].
  - intros Ha. apply Hcr. exists i. split; [lia | exact Ha].
Qed.

Lemma gray_frame_run (fr : Frame.t) (w : World) :
  let hs := (av_pix_fmt_get_chroma_sub_sample (Frame.format fr)).2.1 in
  let vs := (av_pix_fmt_get_chroma_sub_sample (Frame.format fr)).2.2 in
  gray_frame fr w =
  (Next tt,
   {| ctx := ctx w;
      mem := fill_chroma_rows
               (Frame.data fr !!! 1%nat) (Frame.linesize fr !!! 1%nat)
               (Frame.data fr !!! 2%nat) (Frame.linesize fr !!! 2%nat)
               (AV_CEIL_RSHIFT (Frame.height fr) vs)
               (AV_CEIL_RSHIFT (Frame.width fr) hs) 128
               (fill_rows (Frame.data fr !!! 0%nat) (Frame.linesize fr !!! 0%nat)
                  (Frame.height fr) (Frame.width fr) 128 (mem w)) |}).
Proof.
  unfold gray_frame.
  destruct (av_pix_fmt_get_chroma_sub_sample (Frame.format fr)) as [r [hs vs]].
  reflexivity.
Qed.

Lemma gray_frame_memory (fr : Frame.t) (w : World) (a : Z) :
  (in_frame fr a -> mem (gray_frame fr w).2 a = 128) /\
  (~ in_frame fr a -> mem (gray_frame fr w).2 a = mem w a).
Proof.
  rewrite gray_frame_run. cbn [snd mem]. unfold in_frame. split.
  - intros [Hy | Hc].
    + match goal with |- fill_chroma_rows ?cb ?cbs ?cr ?crs ?rows ?wd ?c ?m a = _ =>
        destruct (fill_chroma_rows_value cb cbs cr crs rows wd c m a) as [E | E]
      end; [exact E|].
      rewrite E. apply fill_rows_in. exact Hy.
    + apply fill_chroma_rows_in. exact Hc.
  - intros Hout.
    rewrite fill_chroma_rows_out by (intros Hc; apply Hout; auto).
    apply fill_rows_out. intros Hy. apply Hout. auto.
Qed.

(** X16.  [gray_frame] always comes back, leaves the decoder context as
    it is, writes 0x80 to every sample of the luma plane and of the two
    chroma planes of the frame (the chroma planes in the size the pixel
    format's sub-sampling gives, rounded up), and writes nowhere else. *)
Theorem gray_frame_fills (fr : Frame.t) (w : World) :
  exists w',
    gray_frame fr w = (Next tt, w') /\ ctx w' = ctx w /\
    forall a, (in_frame fr a -> mem w' a = 128) /\
              (~ in_frame fr a -> mem w' a = mem w a).
Proof.
  exists (gray_frame fr w).2. split; [|split].
  - rewrite gray_frame_run. reflexivity.
  - rewrite gray_frame_run. reflexivity.
  - intros a. apply gray_frame_memory.
Qed.

Lemma ends_load_slot (p : Z) (w : World) Q R :
  (forall i pic, slot_index (ctx w) p = Some i -> pool (ctx w) !! i = Some pic ->
     Q pic w) ->
  outcome True (load_pic p) w Q R.
Proof.
  intros HQ. unfold outcome, load_pic.
  destruct (slot_index (ctx w) p) as [i|] eqn:Hi; [|exact I]. cbn.
  destruct (pool (ctx w) !! i) as [pic|] eqn:Hp; [|exact I].
  apply (HQ i pic); [reflexivity | exact Hp].
Qed.

(** X17.  When the [FF_DEBUG_NOMC] bit of [avctx->debug] is set, a
    successful [ff_mpv_frame_start] hands back a current picture whose
    three planes read 0x80 throughout: motion compensation is switched
    off by decoding onto grey. *)
Theorem frame_start_debug_gray (actx : AVCodecContext) (w w' : World) :
  call (ff_mpv_frame_start actx) w = (Next 0, w') ->
  Z.land (Avctx.debug (avctx (ctx w'))) FF_DEBUG_NOMC <> 0 ->
  exists (i : nat) (pic : Picture),
    slot_index (ctx w') (current_picture_ptr (ctx w')) = Some i /\
    pool (ctx w') !! i = Some pic /\
    forall a, in_frame (Pic.f pic) a -> mem w' a = 128.
Proof.
  intros Hcall.
  pose (post := fun (r : Z) (w' : World) =>
    r < 0 \/
    (Z.land (Avctx.debug (avctx (ctx w'))) FF_DEBUG_NOMC <> 0 ->
     exists (i : nat) (pic : Picture),
       slot_index (ctx w') (current_picture_ptr (ctx w')) = Some i /\
       pool (ctx w') !! i = Some pic /\
       forall a, in_frame (Pic.f pic) a -> mem w' a = 128)).
  assert (Hpost : post 0 w'); [|destruct Hpost as [Hneg | Hpost]; [lia | exact Hpost]].
  refine (ends_next True _ _ _ _ post (fun _ _ => True) _ Hcall).
  clear Hcall. subst post. apply ends_call. unfold ff_mpv_frame_start.
  ends_step.
  apply (ends_tame (fun _ => tt));
    [apply tame_frame_start_to_rotation | | intros; left; lia].
  intros ? w1 _. unfold frame_start_after_rotation.
  ends_step.
  apply (ends_tame (fun _ => tt)); [tame_frame | | intros; left; lia].
  intros ? w2 _. ends_step.
  apply (ends_tame (fun _ => tt)); [tame_frame | | intros; left; lia].
  intros ? w3 _. ends_step.
  apply (ends_tame (fun _ => tt)); [tame_frame | | intros; left; lia].
  intros ? w4 _. ends_step. ends_step. ends_step.
  apply (ends_tame (fun _ => tt)); [tame_frame | | intros; left; lia].
  intros ? w5 _. ends_step. ends_step. ends_step.
  apply (ends_tame (fun _ => tt)); [tame_frame | | intros; left; lia].
  intros ? w6 _. ends_step. ends_step. forget_world_as w7.
  ends_step. ends_step. ends_step. ends_step.
  - ends_step. apply ends_load_slot. intros i pic Hi Hp.
    apply (ends_run _ _ _ _ _ _ _ (gray_frame_run (Pic.f pic) w7)).
    ends_step. right. intros _. exists i, pic. cbn [ctx mem].
    split; [exact Hi|]. split; [exact Hp|].
    intros addr Ha.
    pose proof (proj1 (gray_frame_memory (Pic.f pic) w7 addr) Ha) as E.
    rewrite gray_frame_run in E. exact E.
  - ends_step. ends_step. right. intros Hflag. exfalso.
    unfold truthy in Heqb. apply negb_false_iff in Heqb. lia.
Qed.

End GrayFrame.

Section FieldSetup.
Context `{Externals}.

(** ** ff_mpv_frame_start: field pictures *)

Lemma field_loop_run (bottom : bool) (l : list nat) (w : World) :
  forM_ l (fun i =>
    when_ bottom
      (modify_ctx (fun s =>
         set_current_picture (bottom_field_data i (current_picture s)) s)) ;;
    modify_ctx (fun s =>
      set_next_picture (double_linesize i (next_picture s))
        (set_last_picture (double_linesize i (last_picture s))
           (set_current_picture (double_linesize i (current_picture s)) s)))) w
  = (Next tt, {| ctx := foldl (fun s i => field_planes bottom i s) (ctx w) l;
                 mem := mem w |}).
Proof.
  assert (Hbody : forall i w,
    (when_ bottom
       (modify_ctx (fun s =>
          set_current_picture (bottom_field_data i (current_picture s)) s)) ;;
     modify_ctx (fun s =>
       set_next_picture (double_linesize i (next_picture s))
         (set_last_picture (double_linesize i (last_picture s))
            (set_current_picture (double_linesize i (current_picture s)) s)))) w
    = (Next tt, {| ctx := field_planes bottom i (ctx w); mem := mem w |})).
  { intros i w0. destruct bottom; reflexivity. }
  revert w. induction l as [|i l IH]; intros w.
  - cbn. rewrite world_eta. reflexivity.
  - cbn [forM_ foldl]. rewrite bind_unfold, Hbody, IH. reflexivity.
Qed.

Lemma field_planes_fold (bottom : bool) (l : list nat) (s : MpegEncContext) :
  let s' := foldl (fun s i => field_planes bottom i s) s l in
  pool_view s' = pool_view s /\
  current_picture s' = foldl (fun p i => field_plane bottom true i p) (current_picture s) l /\
  last_picture s' = foldl (fun p i => field_plane bottom false i p) (last_picture s) l /\
  next_picture s' = foldl (fun p i => field_plane bottom false i p) (next_picture s) l.
Proof.
  revert s. induction l as [|i l IH]; intros s; [repeat split|].
  cbn [foldl]. cbv zeta in *. destruct (IH (field_planes bottom i s)) as (E1 & E2 & E3 & E4).
  rewrite E1, E2, E3, E4. repeat split.
Qed.

Lemma field_plane_linesize (bottom advance : bool) (i : nat) (p : Picture) :
  Frame.linesize (Pic.f (field_plane bottom advance i p))
  = alter (fun l => to_int (l * 2)) i (Frame.linesize (Pic.f p)).
Proof. unfold field_plane. destruct (bottom && advance); reflexivity. Qed.

Lemma field_plane_data (bottom advance : bool) (i : nat) (p : Picture) :
  Frame.data (Pic.f (field_plane bottom advance i p))
  = if bottom && advance
    then alter (fun d => FF_PTR_ADD d (Frame.linesize (Pic.f p) !!! i)) i
           (Frame.data (Pic.f p))
    else Frame.data (Pic.f p).
Proof. unfold field_plane. destruct (bottom && advance); reflexivity. Qed.

(** The planes after the loop has gone over [a .. a + n - 1]: the
    strides of these planes are doubled, and the plane pointers are moved
    by the stride the plane had before the loop. *)
Lemma field_plane_fold (bottom advance : bool) (n a : nat) (p : Picture) (i : nat) :
  let p' := foldl (fun p i => field_plane bottom advance i p) p (seq a n) in
  Frame.linesize (Pic.f p') !! i
  = (if decide (a <= i < a + n)%nat then (fun l => to_int (l * 2)) <$> Frame.linesize (Pic.f p) !! i
     else Frame.linesize (Pic.f p) !! i) /\
  Frame.data (Pic.f p') !! i
  = (if decide (a <= i < a + n)%nat
     then (fun d => if bottom && advance
                    then FF_PTR_ADD d (Frame.linesize (Pic.f p) !!! i) else d)
            <$> Frame.data (Pic.f p) !! i
     else Frame.data (Pic.f p) !! i).
Proof.
  revert a p. induction n as [|n IH]; intros a p; cbn [seq foldl].
  - cbv zeta. rewrite !decide_False by lia. split; reflexivity.
  - cbv zeta in *. destruct (IH (S a) (field_plane bottom advance a p)) as [E1 E2].
    rewrite E1, E2. rewrite field_plane_linesize, field_plane_data.
    destruct (decide (i = a)) as [-> | Hne].
    + repeat case_decide; try lia.
      rewrite list_lookup_alter_eq. split; [reflexivity|].
      destruct (bottom && advance); [|destruct (Frame.data (Pic.f p) !! a); reflexivity].
      rewrite list_lookup_alter_eq. reflexivity.
    + assert (Hl : alter (fun l => to_int (l * 2)) a (Frame.linesize (Pic.f p)) !! i
                   = Frame.linesize (Pic.f p) !! i)
        by (apply list_lookup_alter_ne; congruence).
      assert (Hlt : alter (fun l => to_int (l * 2)) a (Frame.linesize (Pic.f p)) !!! i
                    = Frame.linesize (Pic.f p) !!! i).
      { rewrite !list_lookup_total_alt, Hl. reflexivity. }
      assert (Hd : (if bottom && advance
                    then alter (fun d => FF_PTR_ADD d (Frame.linesize (Pic.f p) !!! a)) a
                           (Frame.data (Pic.f p))
                    else Frame.data (Pic.f p)) !! i = Frame.data (Pic.f p) !! i).
      { destruct (bottom && advance); [|reflexivity].
        apply list_lookup_alter_ne. congruence. }
      rewrite Hl, Hlt, Hd.
      repeat case_decide; try lia; split; reflexivity.
Qed.

(** X18.  For a field picture the statements of lines 451-461 double the
    stride of the first four planes of the current, last and next picture
    (as an [int]: [to_int] is the identity on every stride below 2^30),
    so that a field is addressed as a picture of every other line; in a
    bottom field the plane pointers of the current picture are moved one
    line down, by the stride the plane had before ([FF_PTR_ADD]: the
    stride is added whenever it is not zero, whether or not the pointer
    is NULL).  The pool, the role pointers and the sample memory are not
    touched, and for a frame picture nothing is changed at all. *)
Theorem field_setup_strides (w : World) :
  (picture_structure (ctx w) = PICT_FRAME ->
   frame_start_field_setup w = (Next tt, w)) /\
  (picture_structure (ctx w) <> PICT_FRAME ->
   exists w',
     frame_start_field_setup w = (Next tt, w') /\
     mem w' = mem w /\ pool_view (ctx w') = pool_view (ctx w) /\
     forall i : nat, (i < 4)%nat ->
       (Frame.linesize (Pic.f (current_picture (ctx w'))) !! i
        = (fun l => to_int (l * 2)) <$> Frame.linesize (Pic.f (current_picture (ctx w))) !! i /\
        Frame.linesize (Pic.f (last_picture (ctx w'))) !! i
        = (fun l => to_int (l * 2)) <$> Frame.linesize (Pic.f (last_picture (ctx w))) !! i /\
        Frame.linesize (Pic.f (next_picture (ctx w'))) !! i
        = (fun l => to_int (l * 2)) <$> Frame.linesize (Pic.f (next_picture (ctx w))) !! i) /\
       Frame.data (Pic.f (current_picture (ctx w'))) !! i
       = (fun d =>
            if picture_structure (ctx w) =? PICT_BOTTOM_FIELD
            then FF_PTR_ADD d (Frame.linesize (Pic.f (current_picture (ctx w))) !!! i)
            else d)
           <$> Frame.data (Pic.f (current_picture (ctx w))) !! i).
Proof.
  unfold frame_start_field_setup. rewrite bind_unfold.
  change (get_ctx w) with (Next (ctx w), w). cbv beta iota. split.
  - intros Hps. rewrite Hps. reflexivity.
  - intros Hps. rewrite (proj2 (Z.eqb_neq _ _) Hps). cbn [negb when_].
    rewrite (field_loop_run (picture_structure (ctx w) =? PICT_BOTTOM_FIELD)).
    eexists. split; [reflexivity|]. cbn [ctx mem].
    destruct (field_planes_fold (picture_structure (ctx w) =? PICT_BOTTOM_FIELD)
                (seq 0 4) (ctx w)) as (Ev & Ec & El & En).
    cbv zeta in Ev, Ec, El, En.
    split; [reflexivity|]. split; [exact Ev|].
    intros i Hi. rewrite Ec, El, En.
    destruct (field_plane_fold (picture_structure (ctx w) =? PICT_BOTTOM_FIELD) true
                4 0 (current_picture (ctx w)) i) as [Lc Dc].
    destruct (field_plane_fold (picture_structure (ctx w) =? PICT_BOTTOM_FIELD) false
                4 0 (last_picture (ctx w)) i) as [Ll _].
    destruct (field_plane_fold (picture_structure (ctx w) =? PICT_BOTTOM_FIELD) false
                4 0 (next_picture (ctx w)) i) as [Ln _].
    cbv zeta in Lc, Dc, Ll, Ln.
    rewrite decide_True in Lc, Dc, Ll, Ln by lia.
    rewrite andb_true_r in Dc.
    rewrite Lc, Ll, Ln, Dc. repeat split.
Qed.

End FieldSetup.

Section Flush.
Context `{Externals}.

(** ** ff_mpeg_flush twice *)

Lemma ends_falls_through {A} (m : M A) (w : World) Q :
  outcome False m w Q (fun _ _ => False) -> exists a w', m w = (Next a, w') /\ Q a w'.
Proof.
  unfold outcome. destruct (m w) as [[a | r | |] w1]; intros E; try contradiction.
  exists a, w1. split; [reflexivity | exact E].
Qed.

Lemma flush_run (w : World) :
  pool_allocated (ctx w) ->
  ff_mpeg_flush w = (Next tt, {| ctx := flushed (ctx w); mem := mem w |}).
Proof.
  intros Hpool. pose proof Hpool as (Hb & Hs & Hlen).
  assert (Hgoal :
    outcome False ff_mpeg_flush w
      (fun _ w' => w' = {| ctx := flushed (ctx w); mem := mem w |})
      (fun _ _ => False)).
  { unfold ff_mpeg_flush. ends_step. ends_step.
    unfold truthy. rewrite (proj2 (Z.eqb_neq _ _) Hb). cbn [negb].
    ends_step.
    apply (ends_run _ _ _ _ _ _ _ (unref_all_slots w Hpool)).
    unfold with_pool, unref_roles.
    ends_step. ends_step. ends_step. ends_step. ends_step. ends_step.
    ends_step. unfold flushed, when_.
    destruct FF_API_FLAG_TRUNCATED; repeat ends_step; reflexivity. }
  apply ends_falls_through in Hgoal as ([] & w' & Hrun & ->). exact Hrun.
Qed.

Lemma flushed_twice (s : MpegEncContext) :
  (forall a p, ff_mpeg_unref_picture a (ff_mpeg_unref_picture a p)
               = ff_mpeg_unref_picture a p) ->
  flushed (flushed s) = flushed s.
Proof.
  intros Hidem.
  assert (Hmap : forall a l,
    map (ff_mpeg_unref_picture a) (map (ff_mpeg_unref_picture a) l)
    = map (ff_mpeg_unref_picture a) l).
  { intros a l. rewrite map_map. apply map_ext. intros p. apply Hidem. }
  unfold flushed. destruct s.
  destruct FF_API_FLAG_TRUNCATED;
    cbv - [map ff_mpeg_unref_picture]; rewrite !Hidem, Hmap; reflexivity.
Qed.

(** X19.  On a context without a pool [ff_mpeg_flush] does nothing.  On
    one that owns a pool, and with a release of pictures that is
    idempotent, a second flush right after the first changes nothing:
    the state a flush leaves is its own fixed point. *)
Theorem flush_twice (w : World) :
  (picture (ctx w) = 0 -> ff_mpeg_flush w = (Next tt, w)) /\
  (pool_allocated (ctx w) ->
   (forall a p, ff_mpeg_unref_picture a (ff_mpeg_unref_picture a p)
                = ff_mpeg_unref_picture a p) ->
   exists w1, ff_mpeg_flush w = (Next tt, w1) /\ ff_mpeg_flush w1 = (Next tt, w1)).
Proof.
  split.
  - intros Hnull. unfold ff_mpeg_flush. rewrite bind_unfold. unfold get_ctx at 1.
    unfold truthy. rewrite Hnull. reflexivity.
  - intros Hpool Hidem.
    exists {| ctx := flushed (ctx w); mem := mem w |}.
    split; [apply flush_run; exact Hpool|].
    rewrite flush_run.
    + cbn [ctx mem]. rewrite (flushed_twice _ Hidem). reflexivity.
    + destruct Hpool as (Hb & Hs & Hlen). unfold pool_allocated. cbn [ctx].
      unfold flushed. destruct FF_API_FLAG_TRUNCATED; cbn; rewrite length_map; auto.
Qed.

End Flush.

Section MirrorPool.
Context `{Externals}.

(** ** ff_mpeg_update_thread_context: the pool *)

Lemma map_range_nil (F : nat -> Picture -> Picture) (a : nat) (l : list Picture) :
  map_range F a 0 l = l.
Proof.
  unfold map_range. apply list_eq. intros j. rewrite list_lookup_imap.
  destruct (l !! j); simpl; [|reflexivity].
  rewrite decide_False by lia. reflexivity.
Qed.

Lemma map_range_cons (F : nat -> Picture -> Picture) (a n : nat) (l : list Picture)
    (pic : Picture) :
  l !! a = Some pic ->
  map_range F (S a) n (<[a := F a pic]> l) = map_range F a (S n) l.
Proof.
  intros Hpic. unfold map_range. apply list_eq. intros j.
  rewrite !list_lookup_imap.
  destruct (decide (j = a)) as [-> | Hne].
  - rewrite list_lookup_insert_eq by (apply lookup_lt_Some in Hpic; exact Hpic).
    rewrite Hpic. simpl.
    rewrite decide_False by lia. rewrite decide_True by lia. reflexivity.
  - rewrite list_lookup_insert_ne by congruence.
    destruct (l !! j); simpl; [|reflexivity].
    repeat case_decide; try reflexivity; lia.
Qed.

Lemma map_range_imap (F : nat -> Picture -> Picture) (l : list Picture) :
  map_range F 0 (length l) l = imap F l.
Proof.
  unfold map_range. apply list_eq. intros j. rewrite !list_lookup_imap.
  destruct (l !! j) eqn:E; simpl; [|reflexivity].
  apply lookup_lt_Some in E. rewrite decide_True by lia. reflexivity.
Qed.

(** A loop over the pool whose body may return. *)
Lemma ends_forM_pool (w0 : World) (body : nat -> M unit)
    (F : nat -> Picture -> Picture) (N : nat) (R : Z -> World -> Prop) :
  (forall i l pic, (i < N)%nat -> length l = N -> l !! i = Some pic ->
     outcome True (body i) (with_pool w0 l)
       (fun _ w' => w' = with_pool w0 (<[i := F i pic]> l)) R) ->
  forall n a l, (a + n <= N)%nat -> length l = N ->
    outcome True (forM_ (seq a n) body) (with_pool w0 l)
      (fun _ w' => w' = with_pool w0 (map_range F a n l)) R.
Proof.
  intros Hbody. induction n as [|n IH]; intros a l Han Hl.
  - cbn [seq forM_]. apply ends_ret. rewrite map_range_nil. reflexivity.
  - cbn [seq forM_]. apply ends_bind.
    destruct (lookup_lt_is_Some_2 l a ltac:(lia)) as [pic Hpic].
    apply (ends_weaken True _ _ _ _ _ _ (Hbody a l pic ltac:(lia) Hl Hpic));
      [|auto].
    intros [] w' ->.
    apply (ends_weaken True _ _ _ _ _ _
             (IH (S a) (<[a := F a pic]> l) ltac:(lia)
                 ltac:(rewrite length_insert; exact Hl))); [|auto].
    intros [] w'' ->. rewrite (map_range_cons F a n l pic Hpic). reflexivity.
Qed.

Lemma tame_UPDATE_PICTURE_view {X} (v : World -> X) (s1 : MpegEncContext) getp setp :
  (forall w p, v {| ctx := setp p (ctx w); mem := mem w |} = v w) ->
  tame v (UPDATE_PICTURE s1 getp setp).
Proof.
  intros Hset. unfold UPDATE_PICTURE.
  apply tame_bind; [apply tame_modify_ctx; intros w; apply Hset|]. intros _.
  apply tame_bind; [apply tame_get_ctx|]. intros s.
  match goal with |- tame _ (let '(_, _) := ?x in _) => destruct x as [ret p] end.
  apply tame_bind; [apply tame_modify_ctx; intros w; apply Hset|]. intros _.
  destruct (ret <? 0) eqn:E; [apply tame_return; lia | apply tame_ret].
Qed.

(** One iteration of the loop of lines 105-110. *)
Lemma update_pool_body (w0 : World) (s s1 : MpegEncContext) (i : nat)
    (l : list Picture) (pic : Picture) (R : Z -> World -> Prop) :
  picture (ctx w0) <> 0 -> 0 < sizeof_Picture ->
  picture s = picture (ctx w0) -> avctx s = avctx (ctx w0) ->
  (i < MAX_PICTURE_COUNT)%nat -> l !! i = Some pic ->
  (forall r w', r < 0 -> R r w') ->
  outcome True
    (unref_at (slot_addr (picture s) (Z.of_nat i)) ;;
     if truthy (picture s1) then
       match pool s1 !! i with
       | None => undefined
       | Some src_pic =>
           if truthy (Frame.buf0 (Pic.f src_pic)) then
             dst_pic ← load_pic (slot_addr (picture s) (Z.of_nat i));
             let '(ret, p) := ff_mpeg_ref_picture (avctx s) dst_pic src_pic in
             store_pic (slot_addr (picture s) (Z.of_nat i)) p ;;
             if ret <? 0 then return_ ret else mret tt
           else mret tt
       end
     else mret tt)
    (with_pool w0 l)
    (fun _ w' => w' = with_pool w0 (<[i := mirror_slot (avctx (ctx w0)) s1 i pic]> l))
    R.
Proof.
  intros Hb Hs Hpic Hav Hi Hl HR. rewrite Hpic, Hav.
  apply ends_bind.
  apply (ends_run _ _ _ _ _ _ _ (unref_at_slot w0 l i pic Hb Hs Hi Hl)).
  unfold mirror_slot. cbv zeta.
  destruct (truthy (picture s1)); [|apply ends_ret; reflexivity].
  destruct (pool s1 !! i) as [src_pic|]; [|exact I].
  destruct (truthy (Frame.buf0 (Pic.f src_pic))); [|apply ends_ret; reflexivity].
  assert (Hlen : (i < length l)%nat) by (apply lookup_lt_Some in Hl; exact Hl).
  apply ends_bind.
  apply (ends_run _ _ _ _ _ _ _
           (load_pic_slot w0 Hb Hs (<[i := ff_mpeg_unref_picture (avctx (ctx w0)) pic]> l)
              i _ Hi (list_lookup_insert_eq _ _ _ Hlen))).
  destruct (ff_mpeg_ref_picture _ _ _) as [ret p]. cbn [snd].
  apply ends_bind.
  apply (ends_run _ _ _ _ _ _ _
           (store_pic_slot w0 Hb Hs (<[i := ff_mpeg_unref_picture (avctx (ctx w0)) pic]> l)
              i p Hi ltac:(rewrite length_insert; exact Hlen))).
  rewrite list_insert_insert_eq.
  destruct (ret <? 0) eqn:E; [apply ends_return, HR; lia | apply ends_ret; reflexivity].
Qed.

(** X20.  Between two distinct contexts of the same frame size, when the
    successor is initialised, needs no reinit and has its pool in place,
    a successful update leaves the successor's pool where it was and makes
    each of its slots the mirror of the predecessor's: the slot is
    released and, if the predecessor's slot of the same index holds a
    buffer, becomes a new reference to that buffer. *)
Theorem update_thread_context_mirrors_pool (dst src : AVCodecContext)
    (s1 : MpegEncContext) (w w' : World) :
  Avctx.addr dst <> Avctx.addr src ->
  context_initialized (ctx w) <> 0 -> context_reinit (ctx w) = 0 ->
  height (ctx w) = height s1 -> width (ctx w) = width s1 ->
  pool_allocated (ctx w) ->
  call (ff_mpeg_update_thread_context dst src s1) w = (Next 0, w') ->
  picture (ctx w') = picture (ctx w) /\
  pool (ctx w') = imap (mirror_slot (avctx (ctx w)) s1) (pool (ctx w)).
Proof.
  intros Hne Hinit Hreinit Hh Hw Hpool Hcall.
  pose (post := fun (r : Z) (w' : World) =>
    r < 0 \/ (picture (ctx w') = picture (ctx w) /\
              pool (ctx w') = imap (mirror_slot (avctx (ctx w)) s1) (pool (ctx w)))).
  assert (Hpost : post 0 w'); [|destruct Hpost as [Hneg | Hpost]; [lia | exact Hpost]].
  refine (ends_next True _ _ _ _ post (fun _ _ => True) _ Hcall).
  clear Hcall. subst post. apply ends_call. unfold ff_mpeg_update_thread_context.
  ends_step; [lia|].
  ends_step. unfold update_context_init. ends_step. ends_step. ends_step. ends_step.
  unfold truthy at 1. rewrite (proj2 (Z.eqb_neq _ _) Hinit). cbn [negb].
  ends_step. ends_step. unfold update_frame_size. ends_step. ends_step. ends_step.
  rewrite Hh, Hw, !Z.eqb_refl. unfold truthy at 1. rewrite Hreinit. cbn [Z.eqb negb orb].
  ends_step. ends_step.
  set (w2 := {| ctx := set_picture_number _ _; mem := mem w |}).
  assert (P2 : picture (ctx w2) = picture (ctx w)) by reflexivity.
  assert (L2 : pool (ctx w2) = pool (ctx w)) by reflexivity.
  assert (A2 : avctx (ctx w2) = avctx (ctx w)) by reflexivity.
  clearbody w2.
  destruct Hpool as (Hb & Hs & Hlen).
  ends_step. unfold update_pictures. ends_step. ends_step. ends_step. ends_step.
  ends_step. unfold update_pool. ends_step. ends_step.
  assert (Ht : truthy (picture (ctx w2)) = true).
  { unfold truthy. apply negb_true_iff. rewrite P2. lia. }
  rewrite Ht. unfold when_.
  rewrite <- (with_pool_same w2) at 1.
  apply (ends_weaken True _ _ _ _ _ _
           (ends_forM_pool w2 _ (mirror_slot (avctx (ctx w2)) s1) MAX_PICTURE_COUNT
              (fun r _ => r < 0) ltac:(
                intros i l pic Hi Hl Hpic;
                apply update_pool_body; auto; rewrite P2; exact Hb)
              MAX_PICTURE_COUNT 0%nat (pool (ctx w2)) ltac:(lia)
              ltac:(rewrite L2; exact Hlen)));
    [|intros; left; assumption].
  intros [] w3 ->.
  set (w3 := with_pool w2 _).
  assert (P3 : picture (ctx w3) = picture (ctx w)) by exact P2.
  assert (L3 : pool (ctx w3) = imap (mirror_slot (avctx (ctx w)) s1) (pool (ctx w))).
  { subst w3. rewrite with_pool_pool, A2, L2, <- Hlen. apply map_range_imap. }
  clearbody w3. clear dependent w2.
  pose (V := fun w : World => (picture (ctx w), pool (ctx w))).
  assert (V3 : V w3 = (picture (ctx w),
                        imap (mirror_slot (avctx (ctx w)) s1) (pool (ctx w))))
    by (unfold V; rewrite P3, L3; reflexivity).
  clear P3 L3.
  ends_step.
  apply (ends_tame V);
    [apply tame_UPDATE_PICTURE_view; reflexivity | | intros; left; lia].
  intros ? w4 V4. rewrite V3 in V4. clear dependent w3. ends_step.
  apply (ends_tame V);
    [apply tame_UPDATE_PICTURE_view; reflexivity | | intros; left; lia].
  intros ? w5 V5. rewrite V4 in V5. clear dependent w4.
  apply (ends_tame V);
    [apply tame_UPDATE_PICTURE_view; reflexivity | | intros; left; lia].
  intros ? w6 V6. rewrite V5 in V6. clear dependent w5.
  ends_step. ends_step.
  set (w7 := {| ctx := rebase_role_ptrs s1 (ctx w6); mem := mem w6 |}).
  assert (V7 : V w7 = (picture (ctx w),
                        imap (mirror_slot (avctx (ctx w)) s1) (pool (ctx w))))
    by exact V6.
  clearbody w7. clear dependent w6.
  apply (ends_tame V); [| | intros; left; lia].
  { unfold update_tail, update_bitstream_buffer, update_scratch_buffers. tame_walk. }
  intros r w8 V8. rewrite V7 in V8. right.
  unfold V in V8. injection V8 as -> ->. split; reflexivity.
Qed.

End MirrorPool.

Section Progress.
Context `{Externals}.

(** ** ff_mpv_frame_end and ff_mpv_report_decode_progress *)

Lemma set_pool_pool (l : list Picture) (s : MpegEncContext) : pool (set_pool l s) = l.
Proof. reflexivity. Qed.

Lemma set_pool_twice (a b : list Picture) (s : MpegEncContext) :
  set_pool a (set_pool b s) = set_pool a s.
Proof. reflexivity. Qed.

Lemma report_twice (pic : Picture) (n m : Z) :
  ff_thread_report_progress (ff_thread_report_progress pic n 0) m 0
  = ff_thread_report_progress pic (Z.max n m) 0.
Proof.
  unfold ff_thread_report_progress. cbn [Z.eqb].
  unfold Pic.set_progress0. cbn. f_equal. lia.
Qed.

Lemma frame_end_run (w : World) (i : nat) (pic : Picture) :
  slot_index (ctx w) (current_picture_ptr (ctx w)) = Some i ->
  pool (ctx w) !! i = Some pic ->
  ff_mpv_frame_end w =
  (Next tt,
   if truthy (Pic.reference (current_picture (ctx w)))
   then with_pool w (<[i := ff_thread_report_progress pic INT_MAX 0]> (pool (ctx w)))
   else w).
Proof.
  intros Hi Hp. unfold ff_mpv_frame_end. rewrite bind_unfold.
  change (get_ctx w) with (Next (ctx w), w). cbv beta iota.
  destruct (truthy _); [|reflexivity]. unfold when_.
  exact (update_pic_at _ (fun pic => ff_thread_report_progress pic INT_MAX 0)
           w i pic Hi Hp).
Qed.

Lemma report_decode_progress_run (pf eo : Z) (w : World) (i : nat) (pic : Picture) :
  slot_index (ctx w) (current_picture_ptr (ctx w)) = Some i ->
  pool (ctx w) !! i = Some pic ->
  ff_mpv_report_decode_progress pf eo w =
  (Next tt,
   if bool_decide (pict_type (ctx w) <> AV_PICTURE_TYPE_B) &&
      negb (truthy pf) && negb (truthy eo)
   then with_pool w (<[i := ff_thread_report_progress pic (mb_y (ctx w)) 0]>
                       (pool (ctx w)))
   else w).
Proof.
  intros Hi Hp. unfold ff_mpv_report_decode_progress. rewrite bind_unfold.
  change (get_ctx w) with (Next (ctx w), w). cbv beta iota.
  destruct (_ && _); [|reflexivity]. unfold when_.
  exact (update_pic_at _ (fun pic => ff_thread_report_progress pic (mb_y (ctx w)) 0)
           w i pic Hi Hp).
Qed.

(** X21.  For a picture that is held as a reference, the row reports of
    [ff_mpv_report_decode_progress] and the report of [ff_mpv_frame_end]
    combine into the latter: whether a row is reported before the frame
    ends or (late) after it, the world is the one [ff_mpv_frame_end] alone
    leaves, with the field-0 counter of the current picture raised to
    [INT_MAX].  Only the slot the current-picture pointer designates is
    written, and for a B picture, a partitioned frame or after an error
    the row is not reported at all. *)
Theorem progress_reports_combine (pf eo : Z) (w : World) (i : nat) (pic : Picture) :
  slot_index (ctx w) (current_picture_ptr (ctx w)) = Some i ->
  pool (ctx w) !! i = Some pic ->
  Pic.reference (current_picture (ctx w)) <> 0 ->
  Pic.progress0 pic <= INT_MAX -> mb_y (ctx w) <= INT_MAX ->
  let done :=
    with_pool w (<[i := Pic.set_progress0 INT_MAX pic]> (pool (ctx w))) in
  ff_mpv_frame_end w = (Next tt, done) /\
  (ff_mpv_report_decode_progress pf eo ;; ff_mpv_frame_end) w = (Next tt, done) /\
  (ff_mpv_frame_end ;; ff_mpv_report_decode_progress pf eo) w = (Next tt, done) /\
  (pict_type (ctx w) = AV_PICTURE_TYPE_B \/ pf <> 0 \/ eo <> 0 ->
   ff_mpv_report_decode_progress pf eo w = (Next tt, w)).
Proof.
  intros Hi Hp Href Hp0 Hy done.
  assert (Ht : truthy (Pic.reference (current_picture (ctx w))) = true).
  { unfold truthy. apply negb_true_iff. lia. }
  assert (Hmax : forall n, n <= INT_MAX ->
            ff_thread_report_progress pic (Z.max n INT_MAX) 0
            = Pic.set_progress0 INT_MAX pic).
  { intros n Hn. unfold ff_thread_report_progress. cbn [Z.eqb].
    f_equal. lia. }
  assert (Hdone : ff_thread_report_progress pic INT_MAX 0 = Pic.set_progress0 INT_MAX pic).
  { unfold ff_thread_report_progress. cbn [Z.eqb]. f_equal. lia. }
  assert (Hlen : (i < length (pool (ctx w)))%nat)
    by (apply lookup_lt_Some in Hp; exact Hp).
  assert (Hend : ff_mpv_frame_end w = (Next tt, done)).
  { rewrite (frame_end_run w i pic Hi Hp), Ht, Hdone. reflexivity. }
  split; [exact Hend|]. split; [|split].
  - rewrite bind_unfold, (report_decode_progress_run pf eo w i pic Hi Hp).
    destruct (_ && _); [|exact Hend].
    set (l1 := <[i := ff_thread_report_progress pic (mb_y (ctx w)) 0]> (pool (ctx w))).
    rewrite (frame_end_run (with_pool w l1) i
               (ff_thread_report_progress pic (mb_y (ctx w)) 0)).
    + change (current_picture (ctx (with_pool w l1))) with (current_picture (ctx w)).
      rewrite Ht, report_twice, (Hmax _ Hy). subst done l1.
      unfold with_pool. cbn [ctx mem].
      rewrite set_pool_pool, set_pool_twice, list_insert_insert_eq. reflexivity.
    + exact Hi.
    + subst l1. rewrite with_pool_pool. apply list_lookup_insert_eq. exact Hlen.
  - rewrite bind_unfold, Hend.
    rewrite (report_decode_progress_run pf eo done i (Pic.set_progress0 INT_MAX pic)).
    + destruct (_ && _); [|reflexivity].
      change (mb_y (ctx done)) with (mb_y (ctx w)).
      assert (E : ff_thread_report_progress (Pic.set_progress0 INT_MAX pic) (mb_y (ctx w)) 0
                  = Pic.set_progress0 INT_MAX pic).
      { unfold ff_thread_report_progress. cbn [Z.eqb].
        unfold Pic.set_progress0. cbn. f_equal. lia. }
      rewrite E. subst done. unfold with_pool. cbn [ctx mem].
      rewrite set_pool_pool, set_pool_twice, list_insert_insert_eq. reflexivity.
    + exact Hi.
    + subst done. rewrite with_pool_pool. apply list_lookup_insert_eq. exact Hlen.
  - intros Hskip. rewrite (report_decode_progress_run pf eo w i pic Hi Hp).
    assert (E : bool_decide (pict_type (ctx w) <> AV_PICTURE_TYPE_B) &&
                negb (truthy pf) && negb (truthy eo) = false).
    { unfold truthy. destruct Hskip as [HB | [Hpf | Heo]].
      - rewrite bool_decide_false by (intros E; apply E; exact HB). reflexivity.
      - rewrite (proj2 (Z.eqb_neq _ _) Hpf). cbn [negb].
        rewrite andb_false_r. reflexivity.
      - rewrite (proj2 (Z.eqb_neq _ _) Heo). cbn [negb]. apply andb_false_r. }
    rewrite E. reflexivity.
Qed.

End Progress.

Section Chroma4mv.
Context `{Externals}.
Variable ff_h263_round_chroma : Z -> Z.

(** ** chroma_4mv_motion_lowres *)



End Chroma4mv.

Section ExportQPTable.
Variable FF_MPV_QSCALE_TYPE_MPEG1 : Z.
Variable AV_CODEC_EXPORT_DATA_VIDEO_ENC_PARAMS : Z.
Variable av_video_enc_params_create_side_data :
  Frame.t -> Z -> option (list AVVideoBlockParams).

(** ** ff_mpv_export_qp_table *)

Lemma foldl_seqZ_invariant {A} (f : A -> Z -> A) (P : Z -> A -> Prop) (a : A) (m n : Z) :
  0 <= n -> P m a ->
  (forall i a, m <= i < m + n -> P i a -> P (i + 1) (f a i)) ->
  P (m + n) (foldl f a (seqZ m n)).
Proof.
  intros Hn. remember (Z.to_nat n) as k eqn:Hk.
  revert a m n Hn Hk. induction k as [|k IH]; intros a m n Hn Hk H0 Hstep.
  - assert (n = 0) by lia. subst n. rewrite seqZ_nil by lia.
    rewrite Z.add_0_r. exact H0.
  - rewrite seqZ_cons by lia. cbn [foldl].
    replace (m + n) with (Z.succ m + Z.pred n) by lia.
    apply IH; [lia | lia | |].
    + replace (Z.succ m) with (m + 1) by lia. apply Hstep; [lia | exact H0].
    + intros i a' Hi. apply Hstep. lia.
Qed.

Lemma to_unsigned_small (z : Z) : 0 <= z < 2 ^ 32 -> to_unsigned z = z.
Proof. intros Hz. unfold to_unsigned. apply Z.mod_small. exact Hz. Qed.

Lemma to_int_small (z : Z) : 0 <= z < 2 ^ 31 -> to_int z = z.
Proof.
  intros Hz. unfold to_int. rewrite to_unsigned_small by lia.
  rewrite (proj2 (Z.ltb_lt _ _)) by lia. reflexivity.
Qed.

(** X23.  [ff_mpv_export_qp_table] returns 0 and attaches nothing when
    the export of encoding parameters is not asked for, and
    [AVERROR(ENOMEM)] when the side data cannot be created.  Otherwise,
    for a picture of [alloc_mb_width] by [alloc_mb_height] macroblocks
    and side data of that many blocks, it returns 0 and the side data
    holds one block per macroblock in raster order: the block of
    macroblock [(x, y)] is block [y * alloc_mb_width + x], it is the
    16x16 square at [(16 x, 16 y)], and its [delta_qp] is the entry
    [y * alloc_mb_stride + x] of the quantiser table, doubled for the
    MPEG-1 kind of table. *)
Theorem export_qp_table_layout (export_side_data : Z) (f : Frame.t)
    (alloc_mb_width alloc_mb_height alloc_mb_stride : Z) (qscale_table : Z -> Z)
    (qp_type : Z) :
  let export :=
    ff_mpv_export_qp_table FF_MPV_QSCALE_TYPE_MPEG1
      AV_CODEC_EXPORT_DATA_VIDEO_ENC_PARAMS av_video_enc_params_create_side_data
      export_side_data f alloc_mb_width alloc_mb_height alloc_mb_stride
      qscale_table qp_type in
  let asked := Z.land export_side_data AV_CODEC_EXPORT_DATA_VIDEO_ENC_PARAMS in
  let created :=
    av_video_enc_params_create_side_data f (alloc_mb_height * alloc_mb_width) in
  (asked = 0 -> export = QPReturn 0 None) /\
  (asked <> 0 -> 0 <= alloc_mb_height * alloc_mb_width < 2 ^ 32 ->
   created = None -> export = QPReturn (AVERROR ENOMEM) None) /\
  (forall par0,
     asked <> 0 -> created = Some par0 ->
     0 <= alloc_mb_width -> 0 <= alloc_mb_height -> 0 <= alloc_mb_stride ->
     alloc_mb_width * 16 < 2 ^ 31 -> alloc_mb_height * 16 < 2 ^ 31 ->
     alloc_mb_height * alloc_mb_width < 2 ^ 32 ->
     alloc_mb_height * alloc_mb_stride + alloc_mb_width < 2 ^ 32 ->
     Z.of_nat (length par0) = alloc_mb_height * alloc_mb_width ->
     exists par,
       export = QPReturn 0 (Some par) /\ length par = length par0 /\
       forall x y, 0 <= x < alloc_mb_width -> 0 <= y < alloc_mb_height ->
         par !! Z.to_nat (y * alloc_mb_width + x)
         = Some {| bp_src_x := x * 16; bp_src_y := y * 16; bp_w := 16; bp_h := 16;
                   bp_delta_qp :=
                     qscale_table (y * alloc_mb_stride + x)
                     * (if qp_type =? FF_MPV_QSCALE_TYPE_MPEG1 then 2 else 1) |}).
Proof.
  intros export asked created. subst export asked created.
  unfold ff_mpv_export_qp_table. cbv zeta.
  set (W := alloc_mb_width). set (Ht := alloc_mb_height). set (S := alloc_mb_stride).
  set (mult := if qp_type =? FF_MPV_QSCALE_TYPE_MPEG1 then 2 else 1).
  split; [|split].
  - intros Hz. unfold truthy. rewrite Hz. reflexivity.
  - intros Hnz Hnb Hnone. unfold truthy. rewrite (proj2 (Z.eqb_neq _ _) Hnz). cbn [negb].
    rewrite to_unsigned_small by lia. rewrite Hnone. reflexivity.
  - intros par0 Hnz Hsome HW HH HS HW16 HH16 HN32 Hmax Hlen.
    assert (HN : 0 <= Ht * W) by nia.
    unfold truthy. rewrite (proj2 (Z.eqb_neq _ _) Hnz). cbn [negb].
    rewrite (to_unsigned_small (Ht * W)) by lia. rewrite Hsome.
    rewrite (to_unsigned_small W), (to_unsigned_small Ht) by lia.
    pose (blk := fun y x : Z =>
      {| bp_src_x := x * 16; bp_src_y := y * 16; bp_w := 16; bp_h := 16;
         bp_delta_qp := qscale_table (y * S + x) * mult |}).
    (* the inner loop writes the blocks of one row *)
    assert (Hrow : forall y par1,
      0 <= y < Ht -> length par1 = length par0 ->
      exists par2,
        foldl (fun st x => export_block W S mult qscale_table y x st)
              (Some par1) (seqZ 0 W) = Some par2 /\
        length par2 = length par0 /\
        forall idx : nat,
          par2 !! idx
          = if decide (y * W <= Z.of_nat idx < y * W + W)
            then Some (blk y (Z.of_nat idx - y * W)) else par1 !! idx).
    { intros y par1 Hy Hl1.
      pose (P := fun (x : Z) (st : option (list AVVideoBlockParams)) =>
        exists par2, st = Some par2 /\ length par2 = length par0 /\
          forall idx : nat,
            par2 !! idx
            = if decide (y * W <= Z.of_nat idx < y * W + x)
              then Some (blk y (Z.of_nat idx - y * W)) else par1 !! idx).
      assert (HP : P (0 + W)
                     (foldl (fun st x => export_block W S mult qscale_table y x st)
                        (Some par1) (seqZ 0 W))).
      { apply (foldl_seqZ_invariant _ P); [exact HW | |].
        - exists par1. split; [reflexivity|]. split; [exact Hl1|].
          intros idx. rewrite decide_False by lia. reflexivity.
        - intros x st Hx (par2 & -> & Hl2 & Hpar2).
          unfold export_block. cbn [mbind option_bind].
          assert (Hidx : 0 <= y * W + x < Ht * W) by nia.
          rewrite (to_unsigned_small (y * W + x)) by lia.
          rewrite (to_unsigned_small (y * S + x)) by nia.
          rewrite decide_True by lia.
          rewrite !to_int_small by nia.
          eexists. split; [reflexivity|]. split; [rewrite length_insert; exact Hl2|].
          intros idx.
          destruct (decide (idx = Z.to_nat (y * W + x))) as [-> | Hne].
          + rewrite list_lookup_insert_eq by lia.
            rewrite decide_True by lia.
            replace (Z.of_nat (Z.to_nat (y * W + x)) - y * W) with x by lia.
            reflexivity.
          + rewrite list_lookup_insert_ne by congruence. rewrite Hpar2.
            repeat case_decide; try reflexivity; lia. }
      rewrite Z.add_0_l in HP. exact HP. }
    (* the outer loop goes through the rows *)
    pose (P := fun (y : Z) (st : option (list AVVideoBlockParams)) =>
      exists par1, st = Some par1 /\ length par1 = length par0 /\
        forall idx : nat,
          par1 !! idx
          = if decide (Z.of_nat idx < y * W)
            then Some (blk (Z.of_nat idx / W) (Z.of_nat idx mod W)) else par0 !! idx).
    assert (HP : P (0 + Ht)
                   (foldl (fun st y =>
                             foldl (fun st x =>
                                      export_block W S mult qscale_table y x st)
                                   st (seqZ 0 W))
                          (Some par0) (seqZ 0 Ht))).
    { apply (foldl_seqZ_invariant _ P); [exact HH | |].
      - exists par0. split; [reflexivity|]. split; [reflexivity|].
        intros idx. rewrite decide_False by lia. reflexivity.
      - intros y st Hy (par1 & -> & Hl1 & Hpar1).
        destruct (Hrow y par1 ltac:(lia) Hl1) as (par2 & Hrun & Hl2 & Hpar2).
        exists par2. split; [exact Hrun|]. split; [exact Hl2|].
        intros idx. rewrite Hpar2, Hpar1.
        destruct (decide (y * W <= Z.of_nat idx < y * W + W)) as [Hin | Hout].
        + rewrite decide_True by lia.
          assert (Hq : Z.of_nat idx / W = y).
          { symmetry. apply (Z.div_unique _ _ _ (Z.of_nat idx - y * W)); lia. }
          assert (Hr : Z.of_nat idx mod W = Z.of_nat idx - y * W).
          { symmetry. apply (Z.mod_unique _ _ y); lia. }
          rewrite Hq, Hr. reflexivity.
        + repeat case_decide; try reflexivity; lia. }
    rewrite Z.add_0_l in HP. destruct HP as (par & -> & Hl & Hpar).
    exists par. split; [reflexivity|]. split; [exact Hl|].
    intros x y Hx Hy. rewrite Hpar.
    assert (Hidx : 0 <= y * W + x < Ht * W) by nia.
    rewrite decide_True by lia. rewrite Z2Nat.id by lia.
    assert (Hq : (y * W + x) / W = y).
    { symmetry. apply (Z.div_unique _ _ _ x); lia. }
    assert (Hr : (y * W + x) mod W = x).
    { symmetry. apply (Z.mod_unique _ _ y); lia. }
    rewrite Hq, Hr. reflexivity.
Qed.

End ExportQPTable.

Section MotionReference.
Context `{Externals}.
Variable ff_h263_round_chroma : Z -> Z.
Variable field_select : Z -> Z -> Z.
Variable avg_h264_chroma_pixels_tab : Z.

(** ** MPV_motion_lowres *)

Lemma current_picture_data_at (s : MpegEncContext) (i : nat) (pic : Picture) :
  slot_index s (current_picture_ptr s) = Some i -> pool s !! i = Some pic ->
  current_picture_data s = Some (Frame.data (Pic.f pic)).
Proof.
  intros Hi Hp. unfold current_picture_data. rewrite Hi. cbn [mbind option_bind].
  rewrite Hp. reflexivity.
Qed.

(** X24.  [MPV_motion_lowres] reads the planes of the current picture
    only in the second field of a field picture, or for a 16x8
    prediction.  In the first field of a picture, in a frame picture
    whose macroblock is not 16x8-predicted, and for the 16x16 and 8x8
    predictions it always completes, and the calls it makes are the same
    whatever the pool of pictures and the current-picture pointer are:
    every prediction is read from the planes the caller passed. *)
Theorem motion_lowres_keeps_to_reference (s : MpegEncContext)
    (dest_y dest_cb dest_cr dir : Z) (ref_picture : list Z) (pix_op : Z)
    (ptr : Z) (pool' : list Picture) :
  first_field s <> 0 \/
  (picture_structure s = PICT_FRAME /\ mv_type s <> MV_TYPE_16X8) \/
  mv_type s = MV_TYPE_16X16 \/ mv_type s = MV_TYPE_8X8 ->
  is_Some (MPV_motion_lowres ff_h263_round_chroma field_select
             avg_h264_chroma_pixels_tab s dest_y dest_cb dest_cr dir
             ref_picture pix_op) /\
  MPV_motion_lowres ff_h263_round_chroma field_select avg_h264_chroma_pixels_tab
    (set_pool pool' (set_current_picture_ptr ptr s))
    dest_y dest_cb dest_cr dir ref_picture pix_op
  = MPV_motion_lowres ff_h263_round_chroma field_select avg_h264_chroma_pixels_tab
      s dest_y dest_cb dest_cr dir ref_picture pix_op.
Proof.
  intros Hcase.
  assert (Hfirst : first_field s <> 0 -> truthy (first_field s) = true).
  { intros Hf. unfold truthy. rewrite (proj2 (Z.eqb_neq _ _) Hf). reflexivity. }
  destruct s. cbn in Hcase, Hfirst.
  unfold MPV_motion_lowres, motion_call.
  change (seqZ 0 2) with [0; 1]. change (seqZ 0 4) with [0; 1; 2; 3].
  cbn [set_pool set_current_picture_ptr mv_type picture_structure first_field
       pict_type foldl mbind option_bind].
  match type of Hcase with context [?m = MV_TYPE_16X16] => destruct m end.
  - split; [eauto | reflexivity].
  - split; [eauto | reflexivity].
  - destruct Hcase as [Hf | [[_ Hne] | [Hne | Hne]]]; try congruence.
    rewrite (Hfirst Hf), !orb_true_r. cbn [mbind option_bind].
    split; [eauto | reflexivity].
  - destruct Hcase as [Hf | [[Hpf _] | [Hne | Hne]]]; try congruence.
    + rewrite (Hfirst Hf). cbn [negb]. rewrite andb_false_r.
      destruct (_ =? PICT_FRAME); split; eauto; reflexivity.
    + rewrite Hpf. rewrite Z.eqb_refl. split; [eauto | reflexivity].
  - destruct Hcase as [Hf | [[Hpf _] | [Hne | Hne]]]; try congruence.
    + rewrite (Hfirst Hf). cbn [negb mbind option_bind].
      destruct (_ =? PICT_FRAME); split; eauto; reflexivity.
    + rewrite Hpf. rewrite Z.eqb_refl. split; [eauto | reflexivity].
Qed.

(** X25.  In the second field of a field picture the opposite parity
    is predicted from the picture being decoded.  With the current
    picture in slot [i] of the pool: a field prediction in a picture that
    is no B picture, whose selected field is not the one being decoded,
    makes its single call on the planes of the current picture instead
    of the ones the caller passed; a dual-prime prediction makes its
    first call on the caller's planes with the caller's operation and its
    second call on the planes of the current picture with the averaging
    operation. *)
Theorem motion_lowres_second_field (s : MpegEncContext)
    (dest_y dest_cb dest_cr dir : Z) (ref_picture : list Z) (pix_op : Z)
    (i : nat) (pic : Picture) :
  first_field s = 0 -> picture_structure s <> PICT_FRAME ->
  slot_index s (current_picture_ptr s) = Some i -> pool s !! i = Some pic ->
  let current := Frame.data (Pic.f pic) in
  let block_s := Z.shiftr 8 (Avctx.lowres (avctx s)) in
  let result :=
    MPV_motion_lowres ff_h263_round_chroma field_select avg_h264_chroma_pixels_tab
      s dest_y dest_cb dest_cr dir ref_picture pix_op in
  (mv_type s = MV_TYPE_FIELD -> pict_type s <> AV_PICTURE_TYPE_B ->
   picture_structure s <> field_select dir 0 + 1 ->
   result
   = Some [motion_call s pix_op dest_y dest_cb dest_cr 0 0 (field_select dir 0)
             current (mv s dir 0 0) (mv s dir 0 1) (2 * block_s)
             (Z.shiftr (mb_y s) 1)]) /\
  (mv_type s = MV_TYPE_DMV ->
   result
   = Some [motion_call s pix_op dest_y dest_cb dest_cr 0 0
             (bool_to_int (negb (picture_structure s =? 1)))
             ref_picture (mv s dir 0 0) (mv s dir 0 1) (2 * block_s)
             (Z.shiftr (mb_y s) 1);
           motion_call s avg_h264_chroma_pixels_tab dest_y dest_cb dest_cr 0 0
             (bool_to_int (negb (picture_structure s =? 2)))
             current (mv s dir 2 0) (mv s dir 2 1) (2 * block_s)
             (Z.shiftr (mb_y s) 1)]).
Proof.
  intros Hsecond Hfield Hi Hp current block_s result. subst result.
  pose proof (current_picture_data_at s i pic Hi Hp) as Hcur.
  fold current in Hcur.
  unfold MPV_motion_lowres. change (seqZ 0 2) with [0; 1].
  rewrite (proj2 (Z.eqb_neq _ _) Hfield).
  unfold truthy. rewrite Hsecond. cbn [Z.eqb negb foldl].
  split.
  - intros -> Hnb Hopp. rewrite (proj2 (Z.eqb_neq _ _) Hopp).
    rewrite bool_decide_eq_true_2 by exact Hnb. cbn [negb andb].
    rewrite Hcur. reflexivity.
  - intros ->. cbn [mbind option_bind]. rewrite Hcur. cbn [mbind option_bind].
    reflexivity.
Qed.

End MotionReference.

Section RolesInPool.
Context `{Externals}.

(** ** ff_mpeg_update_thread_context: the roles stay in the pool *)








End RolesInPool.

(** ** The further theorems at sample inputs *)

Lemma reference_helpers_keep_pool : frame_helpers_keep_pool.
Proof. repeat split. Qed.

Lemma reference_unref_idempotent (a : AVCodecContext) (p : Picture) :
  ff_mpeg_unref_picture a (ff_mpeg_unref_picture a p) = ff_mpeg_unref_picture a p.
Proof. reflexivity. Qed.

Lemma second_pool_allocated : pool_allocated (ctx (sample_world 500000)).
Proof.
  unfold pool_allocated. split; [vm_compute; discriminate|].
  split; vm_compute; reflexivity.
Qed.

Lemma lowest_referenced_row_covers_witness :
  in_int (mb_height (sample_context 8192) - 1) /\
  (forall n, handled_mvs (mv_type (sample_context 8192)) = Some n ->
             rows_fit (sample_context 8192) 0 n) /\
  0 <= mb_y (sample_context 8192) < mb_height (sample_context 8192) /\
  mb_y (sample_context 8192) <= lowest_referenced_row (sample_context 8192) 0
  <= mb_height (sample_context 8192) - 1.
Proof.
  assert (Hh : in_int (mb_height (sample_context 8192) - 1))
    by (vm_compute; split; discriminate).
  assert (Hfit : forall n, handled_mvs (mv_type (sample_context 8192)) = Some n ->
                           rows_fit (sample_context 8192) 0 n).
  { intros n Hn. assert (n = 1%nat) as -> by (vm_compute in Hn; congruence).
    vm_compute. split; [discriminate | split; discriminate]. }
  assert (Hrow : 0 <= mb_y (sample_context 8192) < mb_height (sample_context 8192))
    by (vm_compute; split; [discriminate | reflexivity]).
  split; [exact Hh|]. split; [exact Hfit|]. split; [exact Hrow|].
  exact (proj1 (lowest_referenced_row_covers (sample_context 8192) 0 Hh Hfit) Hrow).
Defined.

(** Beyond the range of [rows_fit] the arithmetic leaves [int]: for a
    vertical component of 2^30 half samples the shift wraps around and the
    function returns row 0, above the current row. *)
Lemma lowest_referenced_row_overflow :
  in_int (mv (tall_vector_context (2 ^ 30)) 0 0 1) /\
  ~ rows_fit (tall_vector_context (2 ^ 30)) 0 1 /\
  mb_y (tall_vector_context (2 ^ 30)) = 1 /\
  lowest_referenced_row (tall_vector_context (2 ^ 30)) 0 = 0.
Proof.
  split; [vm_compute; split; discriminate|].
  split.
  { intros [Hfit _]. vm_compute in Hfit. apply Hfit. reflexivity. }
  split; vm_compute; reflexivity.
Qed.



Lemma REBASE_PICTURE_round_trip_witness :
  0 < sizeof_Picture /\ 0 < picture predecessor_context /\
  0 < picture (sample_context 500000) /\ 0 <= 2 < Z.of_nat MAX_PICTURE_COUNT /\
  REBASE_PICTURE
    (REBASE_PICTURE (slot_addr (picture predecessor_context) 2)
       (sample_context 500000) predecessor_context)
    predecessor_context (sample_context 500000)
  = slot_addr (picture predecessor_context) 2.
Proof.
  assert (Hs : 0 < sizeof_Picture) by (vm_compute; reflexivity).
  assert (Ha : 0 < picture predecessor_context) by (vm_compute; reflexivity).
  assert (Hb : 0 < picture (sample_context 500000)) by (vm_compute; reflexivity).
  assert (Hi : 0 <= 2 < Z.of_nat MAX_PICTURE_COUNT)
    by (vm_compute; split; [discriminate | reflexivity]).
  split; [exact Hs|]. split; [exact Ha|]. split; [exact Hb|]. split; [exact Hi|].
  exact (proj2 (REBASE_PICTURE_round_trip predecessor_context (sample_context 500000) 2
                  Hs Ha Hb Hi)).
Defined.

Lemma frame_size_change_reinit_flag_witness :
  context_initialized (ctx (sample_world 8192)) <> 0 /\
  call ff_mpv_common_frame_size_change (sample_world 8192)
  = (Next 0, (call ff_mpv_common_frame_size_change (sample_world 8192)).2) /\
  context_reinit (ctx (call ff_mpv_common_frame_size_change (sample_world 8192)).2) = 0.
Proof.
  assert (Hinit : context_initialized (ctx (sample_world 8192)) <> 0)
    by (vm_compute; discriminate).
  assert (Hrun : call ff_mpv_common_frame_size_change (sample_world 8192)
                 = (Next 0, (call ff_mpv_common_frame_size_change (sample_world 8192)).2)).
  { apply call_result. vm_compute. reflexivity. }
  split; [exact Hinit|]. split; [exact Hrun|].
  destruct (frame_size_change_reinit_flag (sample_world 8192) _ 0 Hinit Hrun)
    as [[_ Hflag] | [Hr _]]; [exact Hflag | exfalso; apply Hr; reflexivity].
Defined.

Lemma frame_size_change_marks_pool_witness :
  frame_helpers_keep_pool /\
  context_initialized (ctx forgotten_world) <> 0 /\
  pool_allocated (ctx forgotten_world) /\
  exists (r : Z) (w' : World),
    call ff_mpv_common_frame_size_change forgotten_world = (Next r, w') /\
    pool (ctx w') = map (Pic.set_needs_realloc 1) (pool (ctx forgotten_world)) /\
    last_picture_ptr (ctx w') = 0.
Proof.
  assert (Hinit : context_initialized (ctx forgotten_world) <> 0)
    by (vm_compute; discriminate).
  split; [exact reference_helpers_keep_pool|]. split; [exact Hinit|].
  split; [exact sample_pool_allocated|].
  destruct (frame_size_change_marks_pool forgotten_world reference_helpers_keep_pool
              Hinit sample_pool_allocated) as (r & w' & Hrun & Hpool & _ & Hlast & _).
  exists r, w'. split; [exact Hrun|]. split; [exact Hpool | exact Hlast].
Defined.

Lemma update_thread_context_status_witness :
  call (ff_mpeg_update_thread_context (sample_avctx 700000)
          (avctx predecessor_context) predecessor_context) successor_world
  = (Next 0,
     (call (ff_mpeg_update_thread_context (sample_avctx 700000)
             (avctx predecessor_context) predecessor_context) successor_world).2) /\
  (0 = 0 \/ 0 < 0).
Proof.
  assert (Hrun :
    call (ff_mpeg_update_thread_context (sample_avctx 700000)
            (avctx predecessor_context) predecessor_context) successor_world
    = (Next 0,
       (call (ff_mpeg_update_thread_context (sample_avctx 700000)
               (avctx predecessor_context) predecessor_context) successor_world).2)).
  { apply call_result. vm_compute. reflexivity. }
  split; [exact Hrun|].
  exact (update_thread_context_status _ _ _ _ _ _ Hrun).
Defined.

Lemma update_thread_context_init_failure_witness :
  Avctx.addr (sample_avctx 700000) <> Avctx.addr (avctx predecessor_context) /\
  self (ctx successor_world) <> self predecessor_context /\
  context_initialized (ctx successor_world) = 0 /\
  context_initialized predecessor_context <> 0 /\
  (@ff_mpv_common_init failing_externals
     (@fresh_copy failing_externals (sample_avctx 700000) (ctx successor_world)
        predecessor_context)).1 = AVERROR ENOMEM /\
  AVERROR ENOMEM < 0 /\
  exists w' : World,
    call (@ff_mpeg_update_thread_context failing_externals (sample_avctx 700000)
            (avctx predecessor_context) predecessor_context) successor_world
    = (Next (AVERROR ENOMEM), w') /\
    context_initialized (ctx w') = 0 /\ pool (ctx w') = [].
Proof.
  assert (Hne : Avctx.addr (sample_avctx 700000)
                <> Avctx.addr (avctx predecessor_context)) by (vm_compute; discriminate).
  assert (Hself : self (ctx successor_world) <> self predecessor_context)
    by (vm_compute; discriminate).
  assert (Hnew : context_initialized (ctx successor_world) = 0)
    by (vm_compute; reflexivity).
  assert (Hold : context_initialized predecessor_context <> 0)
    by (vm_compute; discriminate).
  assert (Herr : (@ff_mpv_common_init failing_externals
                    (@fresh_copy failing_externals (sample_avctx 700000)
                       (ctx successor_world) predecessor_context)).1 = AVERROR ENOMEM)
    by reflexivity.
  assert (Hneg : AVERROR ENOMEM < 0) by (vm_compute; reflexivity).
  split; [exact Hne|]. split; [exact Hself|]. split; [exact Hnew|].
  split; [exact Hold|]. split; [exact Herr|]. split; [exact Hneg|].
  destruct (@update_thread_context_init_failure failing_externals _ _ _ _ _
              Hne Hself Hnew Hold Herr Hneg)
    as (w' & Hrun & _ & _ & _ & Hinit & _ & Hpool & _).
  exists w'. split; [exact Hrun|]. split; [exact Hinit | exact Hpool].
Defined.

Lemma update_thread_context_copies_state_witness :
  Avctx.addr (sample_avctx 700000) <> Avctx.addr (avctx predecessor_context) /\
  call (ff_mpeg_update_thread_context (sample_avctx 700000)
          (avctx predecessor_context) predecessor_context) successor_world
  = (Next 0,
     (call (ff_mpeg_update_thread_context (sample_avctx 700000)
             (avctx predecessor_context) predecessor_context) successor_world).2) /\
  timing_view
    (ctx (call (ff_mpeg_update_thread_context (sample_avctx 700000)
                  (avctx predecessor_context) predecessor_context) successor_world).2)
  = timing_view predecessor_context.
Proof.
  assert (Hne : Avctx.addr (sample_avctx 700000)
                <> Avctx.addr (avctx predecessor_context)) by (vm_compute; discriminate).
  assert (Hrun :
    call (ff_mpeg_update_thread_context (sample_avctx 700000)
            (avctx predecessor_context) predecessor_context) successor_world
    = (Next 0,
       (call (ff_mpeg_update_thread_context (sample_avctx 700000)
               (avctx predecessor_context) predecessor_context) successor_world).2)).
  { apply call_result. vm_compute. reflexivity. }
  split; [exact Hne|]. split; [exact Hrun|].
  exact (proj1 (proj2 (update_thread_context_copies_state _ _ _ _ _ Hne Hrun))).
Defined.

Lemma update_thread_context_copies_bitstream_witness :
  Avctx.addr (sample_avctx 700000) <> Avctx.addr (avctx staged_predecessor) /\
  call (ff_mpeg_update_thread_context (sample_avctx 700000)
          (avctx staged_predecessor) staged_predecessor) successor_world
  = (Next 0,
     (call (ff_mpeg_update_thread_context (sample_avctx 700000)
             (avctx staged_predecessor) staged_predecessor) successor_world).2) /\
  bitstream_buffer staged_predecessor <> 0 /\
  bitstream_buffer_size
    (ctx (call (ff_mpeg_update_thread_context (sample_avctx 700000)
                  (avctx staged_predecessor) staged_predecessor) successor_world).2)
  = bitstream_buffer_size staged_predecessor.
Proof.
  assert (Hne : Avctx.addr (sample_avctx 700000)
                <> Avctx.addr (avctx staged_predecessor)) by (vm_compute; discriminate).
  assert (Hrun :
    call (ff_mpeg_update_thread_context (sample_avctx 700000)
            (avctx staged_predecessor) staged_predecessor) successor_world
    = (Next 0,
       (call (ff_mpeg_update_thread_context (sample_avctx 700000)
               (avctx staged_predecessor) staged_predecessor) successor_world).2)).
  { apply call_result. vm_compute. reflexivity. }
  assert (Hbuf : bitstream_buffer staged_predecessor <> 0) by (vm_compute; discriminate).
  split; [exact Hne|]. split; [exact Hrun|]. split; [exact Hbuf|].
  exact (proj1 (update_thread_context_copies_bitstream _ _ _ _ _ Hne Hrun Hbuf)).
Defined.

Lemma frame_start_refused_witness :
  @ff_thread_can_start_frame failing_externals (sample_avctx 1008192) = 0 /\
  call (@ff_mpv_frame_start failing_externals (sample_avctx 1008192)) p_frame_world
  = (Next (-1),
     {| ctx := set_mb_skipped 0 (ctx p_frame_world); mem := mem p_frame_world |}).
Proof.
  assert (Hcan : @ff_thread_can_start_frame failing_externals (sample_avctx 1008192) = 0)
    by reflexivity.
  split; [exact Hcan|].
  exact (@frame_start_refused failing_externals (sample_avctx 1008192) p_frame_world Hcan).
Defined.

Lemma frame_start_status_witness :
  call (ff_mpv_frame_start (sample_avctx 1008192)) p_frame_world
  = (Next 0, (call (ff_mpv_frame_start (sample_avctx 1008192)) p_frame_world).2) /\
  (0 = 0 \/ 0 < 0).
Proof.
  assert (Hrun : call (ff_mpv_frame_start (sample_avctx 1008192)) p_frame_world
                 = (Next 0,
                    (call (ff_mpv_frame_start (sample_avctx 1008192)) p_frame_world).2)).
  { apply call_result. vm_compute. reflexivity. }
  split; [exact Hrun|].
  exact (frame_start_status _ _ _ _ Hrun).
Defined.

Lemma frame_start_counts_picture_witness :
  call (ff_mpv_frame_start (sample_avctx 1008192)) p_frame_world
  = (Next 0, (call (ff_mpv_frame_start (sample_avctx 1008192)) p_frame_world).2) /\
  INT_MIN <= coded_picture_number (ctx p_frame_world) < INT_MAX /\
  coded_picture_number
    (ctx (call (ff_mpv_frame_start (sample_avctx 1008192)) p_frame_world).2)
  = coded_picture_number (ctx p_frame_world) + 1.
Proof.
  assert (Hrun : call (ff_mpv_frame_start (sample_avctx 1008192)) p_frame_world
                 = (Next 0,
                    (call (ff_mpv_frame_start (sample_avctx 1008192)) p_frame_world).2)).
  { apply call_result. vm_compute. reflexivity. }
  assert (Hrange : INT_MIN <= coded_picture_number (ctx p_frame_world) < INT_MAX)
    by (vm_compute; split; [discriminate | reflexivity]).
  split; [exact Hrun|]. split; [exact Hrange|].
  exact (proj1 (proj2 (frame_start_counts_picture _ _ _ Hrun)) Hrange).
Defined.

Lemma frame_start_dequantizer_witness :
  call (ff_mpv_frame_start (sample_avctx 1008192)) p_frame_world
  = (Next 0, (call (ff_mpv_frame_start (sample_avctx 1008192)) p_frame_world).2) /\
  (dct_unquantize_intra
     (ctx (call (ff_mpv_frame_start (sample_avctx 1008192)) p_frame_world).2),
   dct_unquantize_inter
     (ctx (call (ff_mpv_frame_start (sample_avctx 1008192)) p_frame_world).2))
  = dequantizer_of
      (ctx (call (ff_mpv_frame_start (sample_avctx 1008192)) p_frame_world).2).
Proof.
  assert (Hrun : call (ff_mpv_frame_start (sample_avctx 1008192)) p_frame_world
                 = (Next 0,
                    (call (ff_mpv_frame_start (sample_avctx 1008192)) p_frame_world).2)).
  { apply call_result. vm_compute. reflexivity. }
  split; [exact Hrun|].
  exact (frame_start_dequantizer _ _ _ Hrun).
Defined.

Lemma frame_start_intra_picture_witness :
  pict_type (ctx i_frame_world) = AV_PICTURE_TYPE_I /\
  call (ff_mpv_frame_start (sample_avctx 1008192)) i_frame_world
  = (Next 0, (call (ff_mpv_frame_start (sample_avctx 1008192)) i_frame_world).2) /\
  last_picture_ptr
    (ctx (call (ff_mpv_frame_start (sample_avctx 1008192)) i_frame_world).2)
  = next_picture_ptr (ctx i_frame_world) /\
  described_as
    (ctx (call (ff_mpv_frame_start (sample_avctx 1008192)) i_frame_world).2)
    1 AV_PICTURE_TYPE_I.
Proof.
  assert (Htype : pict_type (ctx i_frame_world) = AV_PICTURE_TYPE_I) by reflexivity.
  assert (Hrun : call (ff_mpv_frame_start (sample_avctx 1008192)) i_frame_world
                 = (Next 0,
                    (call (ff_mpv_frame_start (sample_avctx 1008192)) i_frame_world).2)).
  { apply call_result. vm_compute. reflexivity. }
  split; [exact Htype|]. split; [exact Hrun|].
  destruct (frame_start_intra_picture _ _ _ Htype Hrun) as (Hlast & _ & Hdesc).
  split; [exact Hlast | exact Hdesc].
Defined.

Lemma frame_start_debug_gray_witness :
  call (ff_mpv_frame_start debug_avctx) debug_world
  = (Next 0, (call (ff_mpv_frame_start debug_avctx) debug_world).2) /\
  Z.land (Avctx.debug (avctx (ctx (call (ff_mpv_frame_start debug_avctx) debug_world).2)))
    FF_DEBUG_NOMC <> 0 /\
  exists (i : nat) (pic : Picture),
    pool (ctx (call (ff_mpv_frame_start debug_avctx) debug_world).2) !! i = Some pic /\
    forall a, in_frame (Pic.f pic) a ->
      mem (call (ff_mpv_frame_start debug_avctx) debug_world).2 a = 128.
Proof.
  assert (Hrun : call (ff_mpv_frame_start debug_avctx) debug_world
                 = (Next 0, (call (ff_mpv_frame_start debug_avctx) debug_world).2)).
  { apply call_result. vm_compute. reflexivity. }
  assert (Hdebug :
    Z.land (Avctx.debug
              (avctx (ctx (call (ff_mpv_frame_start debug_avctx) debug_world).2)))
      FF_DEBUG_NOMC <> 0) by (vm_compute; discriminate).
  split; [exact Hrun|]. split; [exact Hdebug|].
  destruct (frame_start_debug_gray _ _ _ Hrun Hdebug) as (i & pic & _ & Hp & Hgrey).
  exists i, pic. split; [exact Hp | exact Hgrey].
Defined.

Lemma field_setup_strides_witness :
  picture_structure (ctx second_field_world) <> PICT_FRAME /\
  exists w' : World,
    frame_start_field_setup second_field_world = (Next tt, w') /\
    mem w' = mem second_field_world /\
    Frame.linesize (Pic.f (current_picture (ctx w'))) !! 0%nat
    = (fun l => to_int (l * 2)) <$>
      Frame.linesize (Pic.f (current_picture (ctx second_field_world))) !! 0%nat.
Proof.
  assert (Hfield : picture_structure (ctx second_field_world) <> PICT_FRAME)
    by (vm_compute; discriminate).
  split; [exact Hfield|].
  destruct (proj2 (field_setup_strides second_field_world) Hfield)
    as (w' & Hrun & Hmem & _ & Hplanes).
  exists w'. split; [exact Hrun|]. split; [exact Hmem|].
  exact (proj1 (proj1 (Hplanes 0%nat ltac:(lia)))).
Defined.

Lemma flush_twice_witness :
  picture (ctx successor_world) = 0 /\
  ff_mpeg_flush successor_world = (Next tt, successor_world) /\
  pool_allocated (ctx forgotten_world) /\
  exists w1 : World,
    ff_mpeg_flush forgotten_world = (Next tt, w1) /\ ff_mpeg_flush w1 = (Next tt, w1).
Proof.
  assert (Hnone : picture (ctx successor_world) = 0) by reflexivity.
  split; [exact Hnone|].
  split; [exact (proj1 (flush_twice successor_world) Hnone)|].
  split; [exact sample_pool_allocated|].
  exact (proj2 (flush_twice forgotten_world) sample_pool_allocated
           reference_unref_idempotent).
Defined.

Lemma update_thread_context_mirrors_pool_witness :
  Avctx.addr (sample_avctx 1500000) <> Avctx.addr (avctx predecessor_context) /\
  context_initialized (ctx (sample_world 500000)) <> 0 /\
  context_reinit (ctx (sample_world 500000)) = 0 /\
  height (ctx (sample_world 500000)) = height predecessor_context /\
  width (ctx (sample_world 500000)) = width predecessor_context /\
  pool_allocated (ctx (sample_world 500000)) /\
  call (ff_mpeg_update_thread_context (sample_avctx 1500000)
          (avctx predecessor_context) predecessor_context) (sample_world 500000)
  = (Next 0,
     (call (ff_mpeg_update_thread_context (sample_avctx 1500000)
             (avctx predecessor_context) predecessor_context) (sample_world 500000)).2) /\
  pool (ctx (call (ff_mpeg_update_thread_context (sample_avctx 1500000)
                     (avctx predecessor_context) predecessor_context)
               (sample_world 500000)).2)
  = imap (mirror_slot (avctx (ctx (sample_world 500000))) predecessor_context)
      (pool (ctx (sample_world 500000))).
Proof.
  assert (Hne : Avctx.addr (sample_avctx 1500000)
                <> Avctx.addr (avctx predecessor_context)) by (vm_compute; discriminate).
  assert (Hinit : context_initialized (ctx (sample_world 500000)) <> 0)
    by (vm_compute; discriminate).
  assert (Hreinit : context_reinit (ctx (sample_world 500000)) = 0)
    by (vm_compute; reflexivity).
  assert (Hh : height (ctx (sample_world 500000)) = height predecessor_context)
    by (vm_compute; reflexivity).
  assert (Hw : width (ctx (sample_world 500000)) = width predecessor_context)
    by (vm_compute; reflexivity).
  assert (Hrun :
    call (ff_mpeg_update_thread_context (sample_avctx 1500000)
            (avctx predecessor_context) predecessor_context) (sample_world 500000)
    = (Next 0,
       (call (ff_mpeg_update_thread_context (sample_avctx 1500000)
               (avctx predecessor_context) predecessor_context)
          (sample_world 500000)).2)).
  { apply call_result. vm_compute. reflexivity. }
  split; [exact Hne|]. split; [exact Hinit|]. split; [exact Hreinit|].
  split; [exact Hh|]. split; [exact Hw|]. split; [exact second_pool_allocated|].
  split; [exact Hrun|].
  exact (proj2 (update_thread_context_mirrors_pool _ _ _ _ _ Hne Hinit Hreinit Hh Hw
                  second_pool_allocated Hrun)).
Defined.

Lemma progress_reports_combine_witness :
  slot_index (ctx decoding_world) (current_picture_ptr (ctx decoding_world))
  = Some 0%nat /\
  pool (ctx decoding_world) !! 0%nat = Some reference_picture /\
  Pic.reference (current_picture (ctx decoding_world)) <> 0 /\
  Pic.progress0 reference_picture <= INT_MAX /\
  mb_y (ctx decoding_world) <= INT_MAX /\
  (ff_mpv_report_decode_progress 0 0 ≫= fun _ => ff_mpv_frame_end) decoding_world
  = (Next tt,
     with_pool decoding_world
       (<[0%nat := Pic.set_progress0 INT_MAX reference_picture]>
          (pool (ctx decoding_world)))).
Proof.
  assert (Hi : slot_index (ctx decoding_world) (current_picture_ptr (ctx decoding_world))
               = Some 0%nat) by (vm_compute; reflexivity).
  assert (Hp : pool (ctx decoding_world) !! 0%nat = Some reference_picture)
    by reflexivity.
  assert (Href : Pic.reference (current_picture (ctx decoding_world)) <> 0)
    by (vm_compute; discriminate).
  assert (Hp0 : Pic.progress0 reference_picture <= INT_MAX)
    by (vm_compute; discriminate).
  assert (Hy : mb_y (ctx decoding_world) <= INT_MAX) by (vm_compute; discriminate).
  split; [exact Hi|]. split; [exact Hp|]. split; [exact Href|]. split; [exact Hp0|].
  split; [exact Hy|].
  exact (proj1 (proj2 (progress_reports_combine 0 0 decoding_world 0%nat
                         reference_picture Hi Hp Href Hp0 Hy))).
Defined.



Lemma export_qp_table_layout_witness :
  Z.land 4 4 <> 0 /\
  blank_side_data Frame.zero (2 * 2)
  = Some (replicate 4 {| bp_src_x := 0; bp_src_y := 0; bp_w := 0; bp_h := 0;
                         bp_delta_qp := 0 |}) /\
  exists par,
    ff_mpv_export_qp_table 0 4 blank_side_data 4 Frame.zero 2 2 3 (fun i => i) 0
    = QPReturn 0 (Some par) /\
    par !! Z.to_nat (1 * 2 + 1)
    = Some {| bp_src_x := 1 * 16; bp_src_y := 1 * 16; bp_w := 16; bp_h := 16;
              bp_delta_qp := (1 * 3 + 1) * (if 0 =? 0 then 2 else 1) |}.
Proof.
  assert (Hasked : Z.land 4 4 <> 0) by (vm_compute; discriminate).
  assert (Hmade : blank_side_data Frame.zero (2 * 2)
                  = Some (replicate 4 {| bp_src_x := 0; bp_src_y := 0; bp_w := 0;
                                         bp_h := 0; bp_delta_qp := 0 |}))
    by reflexivity.
  split; [exact Hasked|]. split; [exact Hmade|].
  destruct (proj2 (proj2 (export_qp_table_layout 0 4 blank_side_data 4 Frame.zero
                            2 2 3 (fun i => i) 0))
              _ Hasked Hmade ltac:(lia) ltac:(lia) ltac:(lia) ltac:(lia) ltac:(lia)
              ltac:(lia) ltac:(lia) ltac:(reflexivity))
    as (par & Hrun & _ & Hblocks).
  exists par. split; [exact Hrun|].
  exact (Hblocks 1 1 ltac:(lia) ltac:(lia)).
Defined.

Lemma motion_lowres_keeps_to_reference_witness :
  (first_field (sample_context 8192) <> 0 \/
   (picture_structure (sample_context 8192) = PICT_FRAME /\
    mv_type (sample_context 8192) <> MV_TYPE_16X8) \/
   mv_type (sample_context 8192) = MV_TYPE_16X16 \/
   mv_type (sample_context 8192) = MV_TYPE_8X8) /\
  MPV_motion_lowres (fun v => Z.shiftr v 3) (fun _ _ => 1) 7
    (set_pool [] (set_current_picture_ptr 0 (sample_context 8192)))
    65536 131072 196608 0 [262144; 327680; 393216; 0] 5
  = MPV_motion_lowres (fun v => Z.shiftr v 3) (fun _ _ => 1) 7 (sample_context 8192)
      65536 131072 196608 0 [262144; 327680; 393216; 0] 5.
Proof.
  assert (Hcase :
    first_field (sample_context 8192) <> 0 \/
    (picture_structure (sample_context 8192) = PICT_FRAME /\
     mv_type (sample_context 8192) <> MV_TYPE_16X8) \/
    mv_type (sample_context 8192) = MV_TYPE_16X16 \/
    mv_type (sample_context 8192) = MV_TYPE_8X8).
  { right. left. split; [reflexivity | vm_compute; discriminate]. }
  split; [exact Hcase|].
  exact (proj2 (motion_lowres_keeps_to_reference (fun v => Z.shiftr v 3) (fun _ _ => 1) 7
                  (sample_context 8192) 65536 131072 196608 0
                  [262144; 327680; 393216; 0] 5 0 [] Hcase)).
Defined.

Lemma motion_lowres_second_field_witness :
  first_field second_field_context = 0 /\
  picture_structure second_field_context <> PICT_FRAME /\
  slot_index second_field_context (current_picture_ptr second_field_context)
  = Some 0%nat /\
  pool second_field_context !! 0%nat = Some reference_picture /\
  mv_type second_field_context = MV_TYPE_FIELD /\
  pict_type second_field_context <> AV_PICTURE_TYPE_B /\
  picture_structure second_field_context <> 1 + 1 /\
  MPV_motion_lowres (fun v => Z.shiftr v 3) (fun _ _ => 1) 7 second_field_context
    65536 131072 196608 0 [262144; 327680; 393216; 0] 5
  = Some [motion_call second_field_context 5 65536 131072 196608 0 0 1
            (Frame.data (Pic.f reference_picture))
            (mv second_field_context 0 0 0) (mv second_field_context 0 0 1)
            (2 * Z.shiftr 8 (Avctx.lowres (avctx second_field_context)))
            (Z.shiftr (mb_y second_field_context) 1)].
Proof.
  assert (Hsecond : first_field second_field_context = 0) by reflexivity.
  assert (Hfield : picture_structure second_field_context <> PICT_FRAME)
    by (vm_compute; discriminate).
  assert (Hi : slot_index second_field_context
                 (current_picture_ptr second_field_context) = Some 0%nat)
    by (vm_compute; reflexivity).
  assert (Hp : pool second_field_context !! 0%nat = Some reference_picture)
    by reflexivity.
  assert (Hmv : mv_type second_field_context = MV_TYPE_FIELD) by reflexivity.
  assert (Hnb : pict_type second_field_context <> AV_PICTURE_TYPE_B)
    by (vm_compute; discriminate).
  assert (Hopp : picture_structure second_field_context <> 1 + 1)
    by (vm_compute; discriminate).
  split; [exact Hsecond|]. split; [exact Hfield|]. split; [exact Hi|].
  split; [exact Hp|]. split; [exact Hmv|]. split; [exact Hnb|]. split; [exact Hopp|].
  exact (proj1 (motion_lowres_second_field (fun v => Z.shiftr v 3) (fun _ _ => 1) 7
                  second_field_context 65536 131072 196608 0
                  [262144; 327680; 393216; 0] 5 0%nat reference_picture
                  Hsecond Hfield Hi Hp) Hmv Hnb Hopp).
Defined.
